(** * Cognify knowledge core: extractor, knowledge-map builder, journey generator

    A shallow embedding of [src/knowledge/extractor.py],
    [src/knowledge/mapper.py] and [src/knowledge/journey.py].

    Conventions of the embedding.
    - Python [str] is [string].  In [Py] the text functions ([lower],
      [strip], [split], whitespace collapsing) are written out as they act
      on ASCII text, a character above 127 being neither a letter nor
      whitespace.  In [Unicode] concept extraction and hierarchy generation
      are given over any implementation of these methods, a [str] being the
      [string] of its UTF-8 bytes, on which [==] and [in] are bytewise.
    - Python [float] and [int] quantities that are compared, scaled or
      averaged are exact rationals ([Q]), and a division by zero raises;
      counts are [Z] or [nat].  [Doubles] gives the cluster centre in
      binary64 arithmetic, where its value depends on rounding.
    - A Python [dict] is an association list in insertion order with unique
      keys ([dict_set] updates in place or appends at the end), because the
      code iterates over dictionaries.
    - A raised exception is a value [Raise e] of the [result] type; the
      interpreter's recursion limit is the fuel of the recursive functions,
      and exceeding it is [Raise RecursionError].
    - The NLP pipeline, the layout algorithm, community detection and the
      random source are collaborators of the code and enter as arguments. *)

From Stdlib Require Import List String Ascii Bool Arith PeanoNat ZArith QArith Lia Lqa.
From Stdlib Require Import Qabs Permutation Sorted DecimalString.
From Stdlib Require PrimFloat.
Import ListNotations.

Close Scope Q_scope.
Open Scope nat_scope.
Open Scope string_scope.
Open Scope list_scope.

(* ===================================================================== *)
(** * Python runtime fragments *)
(* ===================================================================== *)

Module Py.

(** Exceptions the modelled code can raise. *)
Inductive exn : Type :=
| KeyError (key : string)
| NameError (name : string)
| ValueError (msg : string)
| ZeroDivisionError
| RecursionError.

Inductive result (A : Type) : Type :=
| Ok (a : A)
| Raise (e : exn).
Arguments Ok {A} a.
Arguments Raise {A} e.

Definition bind {A B} (m : result A) (k : A -> result B) : result B :=
  match m with
  | Ok a => k a
  | Raise e => Raise e
  end.

Fixpoint mapM {A B} (f : A -> result B) (l : list A) : result (list B) :=
  match l with
  | [] => Ok []
  | x :: l' =>
      bind (f x) (fun y => bind (mapM f l') (fun ys => Ok (y :: ys)))
  end.

Fixpoint foldM {A S} (f : S -> A -> result S) (l : list A) (s : S) : result S :=
  match l with
  | [] => Ok s
  | x :: l' => bind (f s x) (foldM f l')
  end.

(** ** Strings *)

(** [str.isspace] on ASCII: TAB, LF, VT, FF, CR, the four separators
    0x1c-0x1f and the blank. *)
Definition is_space (a : ascii) : bool :=
  let n := nat_of_ascii a in
  ((9 <=? n)%nat && (n <=? 13)%nat) || ((28 <=? n)%nat && (n <=? 32)%nat).

Definition lower_ascii (a : ascii) : ascii :=
  let n := nat_of_ascii a in
  if ((65 <=? n) && (n <=? 90))%nat then ascii_of_nat (n + 32) else a.

(** [s.lower()] *)
Fixpoint lower (s : string) : string :=
  match s with
  | EmptyString => EmptyString
  | String a s' => String (lower_ascii a) (lower s')
  end.

Fixpoint lstrip (s : string) : string :=
  match s with
  | EmptyString => EmptyString
  | String a s' => if is_space a then lstrip s' else s
  end.

Fixpoint all_space (s : string) : bool :=
  match s with
  | EmptyString => true
  | String a s' => is_space a && all_space s'
  end.

(** No character of [s] is whitespace. *)
Fixpoint no_space (s : string) : bool :=
  match s with
  | EmptyString => true
  | String a s' => negb (is_space a) && no_space s'
  end.

Fixpoint rstrip (s : string) : string :=
  match s with
  | EmptyString => EmptyString
  | String a s' => if all_space s then EmptyString else String a (rstrip s')
  end.

(** [s.strip()] *)
Definition strip (s : string) : string := rstrip (lstrip s).

(** [re.sub(r'\s+', ' ', s)]: every maximal run of whitespace becomes one
    blank.  [in_run] records that the previous character was whitespace. *)
Fixpoint collapse_ws_from (in_run : bool) (s : string) : string :=
  match s with
  | EmptyString => EmptyString
  | String a s' =>
      if is_space a
      then (if in_run then collapse_ws_from true s'
            else String " "%char (collapse_ws_from true s'))
      else String a (collapse_ws_from false s')
  end.

Definition collapse_ws (s : string) : string := collapse_ws_from false s.

(** [s.split()]: the maximal whitespace-free pieces, none of them empty.
    [cur] is the piece being read. *)
Fixpoint split_from (cur : string) (s : string) : list string :=
  match s with
  | EmptyString => if (cur =? "")%string then [] else [cur]
  | String a s' =>
      if is_space a
      then (if (cur =? "")%string then split_from "" s'
            else cur :: split_from "" s')
      else split_from (cur ++ String a "")%string s'
  end.

Definition split (s : string) : list string := split_from "" s.

(** [needle in hay] on strings: [needle] occurs as a contiguous piece. *)
Fixpoint contains (needle hay : string) : bool :=
  String.prefix needle hay ||
  match hay with
  | EmptyString => false
  | String _ hay' => contains needle hay'
  end.

(** [x in l] on a list of strings. *)
Fixpoint mem (x : string) (l : list string) : bool :=
  match l with
  | [] => false
  | y :: l' => (x =? y)%string || mem x l'
  end.

(** ** Dictionaries in insertion order *)

Definition dict (V : Type) : Type := list (string * V).

Fixpoint dict_get {V} (d : dict V) (k : string) : option V :=
  match d with
  | [] => None
  | (k', v) :: d' => if (k =? k')%string then Some v else dict_get d' k
  end.

Definition dict_has {V} (d : dict V) (k : string) : bool :=
  match dict_get d k with Some _ => true | None => false end.

(** [d[k] = v]: an existing key keeps its place, a new key goes last. *)
Fixpoint dict_set {V} (d : dict V) (k : string) (v : V) : dict V :=
  match d with
  | [] => [(k, v)]
  | (k', v') :: d' =>
      if (k =? k')%string then (k', v) :: d' else (k', v') :: dict_set d' k v
  end.

Definition dict_keys {V} (d : dict V) : list string := map fst d.
Definition dict_values {V} (d : dict V) : list V := map snd d.

(** [d.get(k, default)] *)
Definition dict_get_or {V} (d : dict V) (k : string) (default : V) : V :=
  match dict_get d k with Some v => v | None => default end.

(** ** Stable sorting, largest key first

    [l.sort(key=..., reverse=True)] and [sorted(..., reverse=True)] keep
    the original order of elements with equal keys.  [ltb a b] says that
    the key of [a] is strictly below the key of [b]. *)
Section Sorting.
Context {A : Type} (ltb : A -> A -> bool).

Fixpoint insert_desc (x : A) (l : list A) : list A :=
  match l with
  | [] => [x]
  | y :: l' => if ltb x y then y :: insert_desc x l' else x :: l
  end.

Definition sort_desc (l : list A) : list A :=
  fold_right insert_desc [] l.

(** [max(l, key=...)]: the first element whose key is largest. *)
Fixpoint max_by_from (best : A) (l : list A) : A :=
  match l with
  | [] => best
  | x :: l' => max_by_from (if ltb best x then x else best) l'
  end.

Definition max_by (l : list A) : option A :=
  match l with
  | [] => None
  | x :: l' => Some (max_by_from x l')
  end.
End Sorting.

Definition Qltb (x y : Q) : bool := negb (Qle_bool y x).

(** [a / b] on numbers *)
Definition div (a b : Q) : result Q :=
  if Qeq_bool b 0 then Raise ZeroDivisionError else Ok (a / b)%Q.

(** [min(l)] and [max(l)] on a non-empty sequence of numbers; the first of
    several equal extremes is kept. *)
Fixpoint Qmin_from (best : Q) (l : list Q) : Q :=
  match l with
  | [] => best
  | x :: l' => Qmin_from (if Qltb x best then x else best) l'
  end.

Fixpoint Qmax_from (best : Q) (l : list Q) : Q :=
  match l with
  | [] => best
  | x :: l' => Qmax_from (if Qltb best x then x else best) l'
  end.

Definition min_of (l : list Q) : result Q :=
  match l with
  | [] => Raise (ValueError "min() arg is an empty sequence")
  | x :: l' => Ok (Qmin_from x l')
  end.

Definition max_of (l : list Q) : result Q :=
  match l with
  | [] => Raise (ValueError "max() arg is an empty sequence")
  | x :: l' => Ok (Qmax_from x l')
  end.

(** [sum(l)] *)
Definition sum_of (l : list Q) : Q := fold_left Qplus l 0%Q.

(** [str(n)] for a natural number *)
Definition str_of_nat (n : nat) : string :=
  NilZero.string_of_uint (Nat.to_uint n).

(** ** [collections.Counter] *)

Definition Counter : Type := dict Z.

Fixpoint counter_add (c : Counter) (k : string) : Counter :=
  match c with
  | [] => [(k, 1%Z)]
  | (k', n) :: c' =>
      if (k =? k')%string then (k', (n + 1)%Z) :: c' else (k', n) :: counter_add c' k
  end.

(** [Counter(l)] *)
Definition counter_of (l : list string) : Counter :=
  fold_left counter_add l [].

(** [c.most_common(n)] *)
Definition most_common (n : nat) (c : Counter) : list (string * Z) :=
  firstn n (sort_desc (fun a b => (snd a <? snd b)%Z) c).

(** ** The random source

    A generator state is the list of raw draws still to come; an exhausted
    generator draws 0. *)
Definition rng : Type := list nat.

Definition draw (g : rng) : nat * rng :=
  match g with
  | [] => (0, [])
  | r :: g' => (r, g')
  end.

(** [random.random()]: a multiple of 2^-53 in the half-open unit interval. *)
Definition random_unit (g : rng) : Q * rng :=
  let (r, g') := draw g in
  (Qmake (Z.of_nat r mod 2 ^ 53) (2 ^ 53), g').

Fixpoint remove_nth {A} (i : nat) (l : list A) : list A :=
  match l, i with
  | [], _ => []
  | _ :: l', 0 => l'
  | x :: l', S i' => x :: remove_nth i' l'
  end.

(** [random.choice(seq)] on a non-empty sequence. *)
Definition choice {A} (g : rng) (seq : list A) (default : A) : A * rng :=
  let (r, g') := draw g in
  (nth (r mod List.length seq) seq default, g').

(** [random.sample(population, k)] with [k <= len(population)]: [k]
    positions chosen without replacement. *)
Fixpoint sample {A} (g : rng) (population : list A) (k : nat) : list A * rng :=
  match k with
  | 0 => ([], g)
  | S k' =>
      match population with
      | [] => ([], g)
      | x :: _ =>
          let (r, g') := draw g in
          let i := r mod List.length population in
          let (rest, g'') := sample g' (remove_nth i population) k' in
          (nth i population x :: rest, g'')
      end
  end.

End Py.

(* ===================================================================== *)
(** * The fragment of networkx the code uses *)
(* ===================================================================== *)

Module Nx.
Import Py.

Section Graphs.
Context {N E : Type}.

(** [g_nodes] is the node table ([None]: a node without attributes);
    [g_adj] maps every node to its neighbours and the data of the edge,
    both in insertion order.  [nx.Graph] stores an edge under both of
    its end points, [nx.DiGraph] under its tail. *)
Record Graph : Type := mkGraph {
  g_nodes : dict (option N);
  g_adj : dict (dict E)
}.

Definition empty : Graph := mkGraph [] [].

Definition has_node (G : Graph) (n : string) : bool := dict_has (g_nodes G) n.

(** [G.add_node(n, **attr)]: a new node gets an empty neighbour table;
    on a known node the given attributes replace the old ones. *)
Definition add_node (G : Graph) (n : string) (attr : option N) : Graph :=
  if has_node G n
  then match attr with
       | None => G
       | Some _ => mkGraph (dict_set (g_nodes G) n attr) (g_adj G)
       end
  else mkGraph (dict_set (g_nodes G) n attr) (dict_set (g_adj G) n []).

Definition neighbors (G : Graph) (n : string) : dict E :=
  dict_get_or (g_adj G) n [].

(** [G.has_edge(u, v)] *)
Definition has_edge (G : Graph) (u v : string) : bool :=
  dict_has (neighbors G u) v.

(** [G[u][v]] *)
Definition edge_data (G : Graph) (u v : string) : option E :=
  dict_get (neighbors G u) v.

Definition set_arc (G : Graph) (u v : string) (d : E) : Graph :=
  mkGraph (g_nodes G) (dict_set (g_adj G) u (dict_set (neighbors G u) v d)).

(** [Graph.add_edge(u, v, **attr)] with a full set of attributes: both
    end points become nodes, and the one data record is reachable from
    either side. *)
Definition add_edge (G : Graph) (u v : string) (d : E) : Graph :=
  let G1 := add_node (add_node G u None) v None in
  set_arc (set_arc G1 u v d) v u d.

(** [DiGraph.add_edge(u, v, **attr)] *)
Definition add_arc (G : Graph) (u v : string) (d : E) : Graph :=
  let G1 := add_node (add_node G u None) v None in
  set_arc G1 u v d.

(** An in-place change of the data of the undirected edge [u - v], as in
    [G[u][v]['weight'] += 1]. *)
Definition update_edge (G : Graph) (u v : string) (f : E -> E) : Graph :=
  match edge_data G u v with
  | None => G
  | Some d => set_arc (set_arc G u v (f d)) v u (f d)
  end.

(** [G.nodes()] *)
Definition nodes (G : Graph) : list string := dict_keys (g_nodes G).

(** [Graph.edges(data=True)]: nodes in insertion order, the neighbours
    of each in insertion order, an edge skipped when its other end has
    been handled as a node before. *)
Fixpoint edges_from (adj : dict (dict E)) (seen : list string)
  : list (string * string * E) :=
  match adj with
  | [] => []
  | (n, nbrs) :: adj' =>
      map (fun kv => (n, fst kv, snd kv))
          (filter (fun kv => negb (mem (fst kv) seen)) nbrs)
      ++ edges_from adj' (n :: seen)
  end.

Definition edges (G : Graph) : list (string * string * E) :=
  edges_from (g_adj G) [].

(** [DiGraph.successors(n)] *)
Definition successors (G : Graph) (n : string) : list string :=
  dict_keys (neighbors G n).

(** [DiGraph.in_degree(n)] *)
Definition in_degree (G : Graph) (n : string) : nat :=
  List.length (filter (fun kv => dict_has (snd kv) n) (g_adj G)).
End Graphs.

Arguments Graph : clear implicits.

End Nx.

(* ===================================================================== *)
(** * src/knowledge/extractor.py *)
(* ===================================================================== *)

Module Extractor.
Import Py.

(** ** What the NLP collaborator hands over *)

Record Token : Type := mkToken {
  tok_text : string;      (* token.text *)
  pos_ : string;          (* token.pos_ *)
  is_stop : bool;         (* token.is_stop *)
  dep_ : string;          (* token.dep_ *)
  head_text : string      (* token.head.text *)
}.

Record Span : Type := mkSpan {
  sent_text : string;     (* sent.text *)
  sent_tokens : list Token
}.

Record Doc : Type := mkDoc {
  noun_chunks : list string;            (* chunk.text of doc.noun_chunks *)
  ents : list (string * string);        (* (ent.text, ent.label_) *)
  sents : list Span                     (* doc.sents *)
}.

(** Iterating over the document gives the tokens of its sentences. *)
Definition doc_tokens (doc : Doc) : list Token := flat_map sent_tokens (sents doc).

(** [len(doc)] *)
Definition doc_len (doc : Doc) : Q := inject_Z (Z.of_nat (List.length (doc_tokens doc))).

(** ** Records the extractor produces *)

Record Concept : Type := mkConcept {
  text : string;
  ctype : string;
  frequency : Z;
  importance : Q
}.

Record EdgeData : Type := mkEdgeData {
  e_weight : Z;
  e_type : string;
  e_types : option (list string)       (* the key 'types', when present *)
}.

Record Relationship : Type := mkRelationship {
  source : string;
  target : string;
  weight : Z;
  rtype : string;
  subtypes : list string
}.

#[warnings="-register-all"] Inductive SubTree : Type :=
| Sub (concept : string) (children : list SubTree).

(** The hierarchy dictionary; [None] is an absent key. *)
Record Hierarchy : Type := mkHierarchy {
  roots : option (list string);
  tree : option (dict (list SubTree))
}.

Record Cluster : Type := mkCluster {
  cl_id : nat;
  cl_concepts : list string;
  cl_name : string
}.

Record ExtractedKnowledge : Type := mkExtracted {
  ek_concepts : list Concept;
  ek_relationships : list Relationship;
  ek_hierarchy : Hierarchy;
  ek_clusters : list Cluster
}.

(** The [processed_content] dictionary; only ['content'] is read. *)
Record ProcessedContent : Type := mkProcessed {
  content : option string
}.

(** The collaborators: the spaCy pipeline [self.nlp], the optional
    [community.best_partition] ([None]: the import fails) and
    [nx.connected_components]. *)
Record Collaborators : Type := mkCollaborators {
  nlp : string -> Doc;
  best_partition : option (Nx.Graph Q Z -> list (string * nat));
  connected_components : Nx.Graph Q Z -> list (list string)
}.

(** ** [_extract_concepts] *)

Definition entity_labels : list string :=
  ["ORG"; "PERSON"; "GPE"; "LOC"; "PRODUCT"; "EVENT"; "WORK_OF_ART"; "LAW"].

Definition clean_phrase (chunk_text : string) : string :=
  collapse_ws (lower (strip chunk_text)).

Definition noun_phrases_of (doc : Doc) : list string :=
  flat_map (fun chunk =>
              let phrase := clean_phrase chunk in
              if negb (phrase =? "")%string && (List.length (split phrase) <=? 5)%nat
              then [phrase] else [])
           (noun_chunks doc).

Definition entities_of (doc : Doc) : list (string * string) :=
  flat_map (fun ent =>
              if mem (snd ent) entity_labels
              then [(collapse_ws (strip (fst ent)), snd ent)] else [])
           (ents doc).

Definition key_terms_of (doc : Doc) : list string :=
  flat_map (fun token =>
              if mem (pos_ token) ["NOUN"; "PROPN"] && negb (is_stop token)
                 && (2 <? String.length (tok_text token))%nat
              then [lower (tok_text token)] else [])
           (doc_tokens doc).

Definition add_noun_phrase (doc : Doc) (concepts : list Concept) (pc : string * Z)
  : result (list Concept) :=
  let (phrase, count) := pc in
  if (2 <=? count)%Z
  then bind (div (inject_Z count) (doc_len doc))
            (fun imp => Ok (concepts ++ [mkConcept phrase "noun_phrase" count imp]))
  else Ok concepts.

Definition add_entity (concepts : list Concept) (entity : string * string)
  : list Concept :=
  if existsb (fun c => (lower (text c) =? lower (fst entity))%string) concepts
  then concepts
  else concepts ++ [mkConcept (fst entity) (snd entity) 1 (8 # 10)].

Definition add_key_term (doc : Doc) (concepts : list Concept) (tc : string * Z)
  : result (list Concept) :=
  let (term, count) := tc in
  if (3 <=? count)%Z
     && negb (existsb (fun c => mem term (split (lower (text c)))) concepts)
  then bind (div (inject_Z count) (doc_len doc))
            (fun imp => Ok (concepts ++ [mkConcept term "key_term" count imp]))
  else Ok concepts.

Definition by_importance (a b : Concept) : bool := Qltb (importance a) (importance b).

Definition _extract_concepts (env : Collaborators) (txt : string)
  : result (list Concept) :=
  let doc := nlp env txt in
  let phrase_counter := counter_of (noun_phrases_of doc) in
  let entities := entities_of doc in
  let term_counter := counter_of (key_terms_of doc) in
  bind (foldM (add_noun_phrase doc) (most_common 50 phrase_counter) [])
       (fun concepts =>
          let concepts := fold_left add_entity entities concepts in
          bind (foldM (add_key_term doc) (most_common 30 term_counter) concepts)
               (fun concepts => Ok (firstn 100 (sort_desc by_importance concepts)))).
(** ** [_extract_relationships] *)

Definition RelGraph : Type := Nx.Graph unit EdgeData.

(** [{c['text'].lower(): c['text'] for c in concepts}] *)
Definition concept_map_of (concepts : list Concept) : dict string :=
  fold_left (fun m c => dict_set m (lower (text c)) (text c)) concepts [].

(** The index pairs [i < j] of the two nested [range] loops, in loop order. *)
Fixpoint pairs_of (l : list string) : list (string * string) :=
  match l with
  | [] => []
  | x :: l' => map (fun y => (x, y)) l' ++ pairs_of l'
  end.

Definition bump_weight (d : EdgeData) : EdgeData :=
  mkEdgeData (e_weight d + 1) (e_type d) (e_types d).

Definition cooccur_pair (G : RelGraph) (p : string * string) : RelGraph :=
  let (concept1, concept2) := p in
  if Nx.has_edge G concept1 concept2
  then Nx.update_edge G concept1 concept2 bump_weight
  else Nx.add_edge G concept1 concept2 (mkEdgeData 1 "co-occurrence" None).

Definition sentence_concepts_of (concept_map : dict string) (sent : Span) : list string :=
  let sent_text := lower (sent_text sent) in
  flat_map (fun kv => if contains (fst kv) sent_text then [snd kv] else []) concept_map.

Definition cooccur_sentence (concept_map : dict string) (G : RelGraph) (sent : Span)
  : RelGraph :=
  fold_left cooccur_pair (pairs_of (sentence_concepts_of concept_map sent)) G.

(** The scan over all concepts that leaves the last match in
    [token_concept] and [head_concept]. *)
Definition match_concepts (concepts : list Concept) (token_text head_text : string)
  : option string * option string :=
  fold_left
    (fun (acc : option string * option string) concept =>
       let concept_lower := lower (text concept) in
       let token_concept :=
         if contains token_text concept_lower || contains concept_lower token_text
         then Some (text concept) else fst acc in
       let head_concept :=
         if contains head_text concept_lower || contains concept_lower head_text
         then Some (text concept) else snd acc in
       (token_concept, head_concept))
    concepts (None, None).

(** Truth value of a variable that holds [None] or a string. *)
Definition truthy (o : option string) : bool :=
  match o with
  | Some s => negb (s =? "")%string
  | None => false
  end.

Definition add_type (rel_type : string) (d : EdgeData) : EdgeData :=
  match e_types d with
  | Some ts => if mem rel_type ts then d
               else mkEdgeData (e_weight d) (e_type d) (Some (ts ++ [rel_type]))
  | None => d
  end.

Definition syntactic_token (concepts : list Concept) (G : RelGraph) (token : Token)
  : result RelGraph :=
  if mem (dep_ token) ["nsubj"; "dobj"; "pobj"]
  then
    let token_text := lower (tok_text token) in
    let head_text := lower (head_text token) in
    match match_concepts concepts token_text head_text with
    | (Some token_concept, Some head_concept) =>
        if truthy (Some token_concept) && truthy (Some head_concept)
           && negb (token_concept =? head_concept)%string
        then
          let rel_type := if (dep_ token =? "nsubj")%string
                          then "subject_of" else "object_of" in
          if Nx.has_edge G token_concept head_concept
          then
            let G1 := Nx.update_edge G token_concept head_concept bump_weight in
            match Nx.edge_data G1 token_concept head_concept with
            | Some d =>
                match e_types d with
                | Some _ =>
                    Ok (Nx.update_edge G1 token_concept head_concept (add_type rel_type))
                | None => Raise (KeyError "types")
                end
            | None => Raise (KeyError head_concept)
            end
          else Ok (Nx.add_edge G token_concept head_concept
                               (mkEdgeData 1 "syntactic" (Some [rel_type])))
        else Ok G
    | _ => Ok G
    end
  else Ok G.

Definition syntactic_sentence (concepts : list Concept) (G : RelGraph) (sent : Span)
  : result RelGraph :=
  foldM (syntactic_token concepts) (sent_tokens sent) G.

Definition relationship_of (e : string * string * EdgeData) : Relationship :=
  match e with
  | (u, v, data) =>
      mkRelationship u v (e_weight data) (e_type data)
                     (match e_types data with Some ts => ts | None => [] end)
  end.

Definition by_weight (a b : Relationship) : bool := (weight a <? weight b)%Z.

Definition _extract_relationships (env : Collaborators) (txt : string)
  (concepts : list Concept) : result (list Relationship) :=
  let G := fold_left (fun G c => Nx.add_node G (text c) None) concepts Nx.empty in
  let doc := nlp env txt in
  let concept_map := concept_map_of concepts in
  let G := fold_left (cooccur_sentence concept_map) (sents doc) G in
  bind (foldM (syntactic_sentence concepts) (sents doc) G)
       (fun G => Ok (sort_desc by_weight (map relationship_of (Nx.edges G)))).

(** ** [_generate_hierarchy] and [_build_subtree] *)

Definition HierGraph : Type := Nx.Graph Q string.

(** [limit] is the recursion depth still available. *)
Fixpoint _build_subtree (limit : nat) (G : HierGraph) (node : string)
  : result (list SubTree) :=
  match limit with
  | 0 => Raise RecursionError
  | S limit' =>
      let children := Nx.successors G node in
      match children with
      | [] => Ok []
      | _ =>
          mapM (fun child =>
                  bind (_build_subtree limit' G child)
                       (fun sub => Ok (Sub child sub)))
               children
      end
  end.

Definition containment_step (concept1 : Concept) (G : HierGraph) (concept2 : Concept)
  : HierGraph :=
  if negb (text concept1 =? text concept2)%string
  then
    if contains (lower (text concept1)) (lower (text concept2))
    then Nx.add_arc G (text concept1) (text concept2) "contains"
    else if contains (lower (text concept2)) (lower (text concept1))
         then Nx.add_arc G (text concept2) (text concept1) "contains"
         else G
  else G.

Definition containment_graph (concepts : list Concept) : HierGraph :=
  let G := fold_left (fun G c => Nx.add_node G (text c) (Some (importance c)))
                     concepts Nx.empty in
  fold_left (fun G concept1 => fold_left (containment_step concept1) concepts G)
            concepts G.

(** [G.nodes[n]['importance']] *)
Definition node_importance (G : HierGraph) (n : string) : result Q :=
  match dict_get (Nx.g_nodes G) n with
  | Some (Some imp) => Ok imp
  | Some None => Raise (KeyError "importance")
  | None => Raise (KeyError n)
  end.

Definition root_candidates_of (G : HierGraph) : result (list string) :=
  let candidates := filter (fun n => (Nx.in_degree G n =? 0)%nat) (Nx.nodes G) in
  match candidates with
  | [] =>
      bind (mapM (fun n => bind (node_importance G n) (fun imp => Ok (n, imp)))
                 (Nx.nodes G))
           (fun keyed =>
              Ok (firstn 5 (map fst (sort_desc (fun a b => Qltb (snd a) (snd b)) keyed))))
  | _ => Ok candidates
  end.

Definition _generate_hierarchy (limit : nat) (concepts : list Concept)
  (relationships : list Relationship) : result Hierarchy :=
  let G := containment_graph concepts in
  bind (root_candidates_of G)
       (fun root_candidates =>
          let roots := firstn 5 root_candidates in
          bind (foldM (fun tree root =>
                         bind (_build_subtree limit G root)
                              (fun sub => Ok (dict_set tree root sub)))
                      roots [])
               (fun tree => Ok (mkHierarchy (Some roots) (Some tree)))).

(** ** [_generate_clusters] *)

Definition ClusterGraph : Type := Nx.Graph Q Z.

Fixpoint group_add (clusters : list (nat * list string)) (cluster_id : nat)
  (node : string) : list (nat * list string) :=
  match clusters with
  | [] => [(cluster_id, [node])]
  | (i, members) :: clusters' =>
      if (i =? cluster_id)%nat then (i, members ++ [node]) :: clusters'
      else (i, members) :: group_add clusters' cluster_id node
  end.

Fixpoint enumerate_from {A} (i : nat) (l : list A) : list (nat * A) :=
  match l with
  | [] => []
  | x :: l' => (i, x) :: enumerate_from (S i) l'
  end.

Definition name_cluster (concepts : list Concept) (c : nat * list string) : Cluster :=
  let cluster_concepts := filter (fun k => mem (text k) (snd c)) concepts in
  match max_by by_importance cluster_concepts with
  | Some most_important => mkCluster (fst c) (snd c) (text most_important)
  | None => mkCluster (fst c) (snd c) ("Cluster " ++ str_of_nat (fst c))%string
  end.

Definition _generate_clusters (env : Collaborators) (concepts : list Concept)
  (relationships : list Relationship) : list Cluster :=
  let G := fold_left (fun G c => Nx.add_node G (text c) (Some (importance c)))
                     concepts Nx.empty in
  let G := fold_left (fun G rel => Nx.add_edge G (source rel) (target rel) (weight rel))
                     relationships G in
  let cluster_list :=
    match best_partition env with
    | Some partition =>
        fold_left (fun clusters kv => group_add clusters (snd kv) (fst kv))
                  (partition G) []
    | None => enumerate_from 0 (connected_components env G)
    end in
  let cluster_list :=
    sort_desc (fun a b => (List.length (snd a) <? List.length (snd b))%nat) cluster_list in
  map (name_cluster concepts) cluster_list.

(** ** Notions used to state the properties of the extractor *)

(** The text of a concept with case folded away. *)
Definition folded_text (c : Concept) : string := lower (text c).

(** The tokenizer's contract on word tokens: a noun or proper noun is a
    single word, its text holds no whitespace. *)
Definition single_word_nouns (doc : Doc) : bool :=
  forallb (fun token =>
             if mem (pos_ token) ["NOUN"; "PROPN"]
             then no_space (tok_text token) else true)
          (doc_tokens doc).

(** The length of the longest concept text. *)
Definition max_text_length (concepts : list Concept) : nat :=
  fold_right Nat.max 0 (map (fun c => String.length (text c)) concepts).

(** Two relationship records join the same unordered pair of concepts. *)
Definition same_pair (a b : Relationship) : Prop :=
  (source a = source b /\ target a = target b)
  \/ (source a = target b /\ target a = source b).

(** ** [extract_knowledge] *)

Definition extract_knowledge (env : Collaborators) (limit : nat)
  (processed_content : ProcessedContent) : result ExtractedKnowledge :=
  let txt := match content processed_content with Some t => t | None => "" end in
  if (txt =? "")%string
  then Ok (mkExtracted [] [] (mkHierarchy None None) [])
  else
    bind (_extract_concepts env txt) (fun concepts =>
    bind (_extract_relationships env txt concepts) (fun relationships =>
    bind (_generate_hierarchy limit concepts relationships) (fun hierarchy =>
    let clusters := _generate_clusters env concepts relationships in
    Ok (mkExtracted concepts relationships hierarchy clusters)))).
End Extractor.

(* ===================================================================== *)
(** * Concept extraction and the hierarchy on Unicode text *)
(* ===================================================================== *)

Module Unicode.
Import Py Extractor.

(** [str.lower], [str.strip], [str.split], [len] and the class [\s] of [re]
    follow the character tables of the interpreter, which are no part of the
    repository.  The functions of the extractor whose result on non-ASCII
    text depends on them are given here over any implementation [ops] of
    these methods.  A [str] is the [string] of its UTF-8 bytes: on these
    [==] is equality and [in] is [contains].  The functions of the same
    names in [Extractor] are the instances at [ascii_ops], in which the
    methods are written out as they act on ASCII text. *)
Record StrOps : Type := mkStrOps {
  s_lower : string -> string;         (* s.lower() *)
  s_strip : string -> string;         (* s.strip() *)
  s_split : string -> list string;    (* s.split() *)
  s_len : string -> nat;              (* len(s) *)
  s_collapse : string -> string;      (* re.sub(r'\s+', ' ', s) *)
  s_no_space : string -> bool         (* not any(ch.isspace() for ch in s) *)
}.

Definition ascii_ops : StrOps :=
  mkStrOps lower strip split String.length collapse_ws no_space.

(** What the proofs use of the methods: lower-casing a lower-cased text, or
    a lower-cased text whose runs of whitespace were collapsed, changes
    nothing, and the lower-cased form of a text without whitespace that is
    longer than two characters splits into itself. *)
Record StrLaws (ops : StrOps) : Prop := mkStrLaws {
  lower_lower : forall s, s_lower ops (s_lower ops s) = s_lower ops s;
  lower_collapsed : forall s,
    s_lower ops (s_collapse ops (s_lower ops s)) = s_collapse ops (s_lower ops s);
  split_word : forall s,
    s_no_space ops s = true -> 2 < s_len ops s ->
    s_split ops (s_lower ops s) = [s_lower ops s]
}.

Section Methods.
Variable ops : StrOps.

(** ** [_extract_concepts] *)

Definition clean_phrase (chunk_text : string) : string :=
  s_collapse ops (s_lower ops (s_strip ops chunk_text)).

Definition noun_phrases_of (doc : Doc) : list string :=
  flat_map (fun chunk =>
              let phrase := clean_phrase chunk in
              if negb (phrase =? "")%string
                 && (List.length (s_split ops phrase) <=? 5)%nat
              then [phrase] else [])
           (noun_chunks doc).

Definition entities_of (doc : Doc) : list (string * string) :=
  flat_map (fun ent =>
              if mem (snd ent) entity_labels
              then [(s_collapse ops (s_strip ops (fst ent)), snd ent)] else [])
           (ents doc).

Definition key_terms_of (doc : Doc) : list string :=
  flat_map (fun token =>
              if mem (pos_ token) ["NOUN"; "PROPN"] && negb (is_stop token)
                 && (2 <? s_len ops (tok_text token))%nat
              then [s_lower ops (tok_text token)] else [])
           (doc_tokens doc).

Definition add_entity (concepts : list Concept) (entity : string * string)
  : list Concept :=
  if existsb (fun c => (s_lower ops (text c) =? s_lower ops (fst entity))%string)
             concepts
  then concepts
  else concepts ++ [mkConcept (fst entity) (snd entity) 1 (8 # 10)].

Definition add_key_term (doc : Doc) (concepts : list Concept) (tc : string * Z)
  : result (list Concept) :=
  let (term, count) := tc in
  if (3 <=? count)%Z
     && negb (existsb (fun c => mem term (s_split ops (s_lower ops (text c))))
                      concepts)
  then bind (div (inject_Z count) (doc_len doc))
            (fun imp => Ok (concepts ++ [mkConcept term "key_term" count imp]))
  else Ok concepts.

Definition _extract_concepts (env : Collaborators) (txt : string)
  : result (list Concept) :=
  let doc := nlp env txt in
  let phrase_counter := counter_of (noun_phrases_of doc) in
  let entities := entities_of doc in
  let term_counter := counter_of (key_terms_of doc) in
  bind (foldM (add_noun_phrase doc) (most_common 50 phrase_counter) [])
       (fun concepts =>
          let concepts := fold_left add_entity entities concepts in
          bind (foldM (add_key_term doc) (most_common 30 term_counter) concepts)
               (fun concepts => Ok (firstn 100 (sort_desc by_importance concepts)))).

(** ** [_generate_hierarchy] *)

Definition containment_step (concept1 : Concept) (G : HierGraph) (concept2 : Concept)
  : HierGraph :=
  if negb (text concept1 =? text concept2)%string
  then
    if contains (s_lower ops (text concept1)) (s_lower ops (text concept2))
    then Nx.add_arc G (text concept1) (text concept2) "contains"
    else if contains (s_lower ops (text concept2)) (s_lower ops (text concept1))
         then Nx.add_arc G (text concept2) (text concept1) "contains"
         else G
  else G.

Definition containment_graph (concepts : list Concept) : HierGraph :=
  let G := fold_left (fun G c => Nx.add_node G (text c) (Some (importance c)))
                     concepts Nx.empty in
  fold_left (fun G concept1 => fold_left (containment_step concept1) concepts G)
            concepts G.

Definition _generate_hierarchy (limit : nat) (concepts : list Concept)
  (relationships : list Relationship) : result Hierarchy :=
  let G := containment_graph concepts in
  bind (root_candidates_of G)
       (fun root_candidates =>
          let roots := firstn 5 root_candidates in
          bind (foldM (fun tree root =>
                         bind (_build_subtree limit G root)
                              (fun sub => Ok (dict_set tree root sub)))
                      roots [])
               (fun tree => Ok (mkHierarchy (Some roots) (Some tree)))).

(** ** Notions used to state the properties *)

(** The text of a concept with case folded away. *)
Definition folded_text (c : Concept) : string := s_lower ops (text c).

(** The tokenizer's contract on word tokens: a noun or proper noun is a
    single word, its text holds no whitespace. *)
Definition single_word_nouns (doc : Doc) : bool :=
  forallb (fun token =>
             if mem (pos_ token) ["NOUN"; "PROPN"]
             then s_no_space ops (tok_text token) else true)
          (doc_tokens doc).

(** The number of concepts whose folded text is longer than that of
    [node]. *)
Definition longer_texts (concepts : list Concept) (node : string) : nat :=
  List.length
    (filter (fun c => (String.length (s_lower ops node)
                       <? String.length (folded_text c))%nat)
            concepts).

End Methods.

End Unicode.

(* ===================================================================== *)
(** * src/knowledge/mapper.py *)
(* ===================================================================== *)

Module Mapper.
Import Py.

(** ** The [extracted_knowledge] dictionary as the mapper reads it

    A field read with [.get(key, default)] is optional; a field read with
    [d[key]] is always there. *)

Record ConceptIn : Type := mkConceptIn {
  c_text : string;
  c_type : option string;
  c_importance : option Q;
  c_frequency : option Z
}.

Record RelationshipIn : Type := mkRelationshipIn {
  r_source : string;
  r_target : string;
  r_weight : option Z;
  r_type : option string;
  r_subtypes : option (list string)
}.

Record ClusterIn : Type := mkClusterIn {
  k_id : nat;
  k_name : option string;
  k_concepts : list string
}.

Record ExtractedIn : Type := mkExtractedIn {
  in_concepts : list ConceptIn;
  in_relationships : list RelationshipIn;
  in_hierarchy : Extractor.Hierarchy;
  in_clusters : list ClusterIn
}.

(** ** The knowledge map *)

Record NodeData : Type := mkNodeData {
  nd_type : string;
  nd_importance : Q;
  nd_frequency : Z
}.

Record LinkData : Type := mkLinkData {
  ld_weight : Z;
  ld_type : string;
  ld_subtypes : list string
}.

Record MapNode : Type := mkMapNode {
  id : string;
  label : string;
  ntype : string;
  importance : Q;
  frequency : Z;
  x : Q;
  y : Q;
  size : Q
}.

Record MapLink : Type := mkMapLink {
  source : string;
  target : string;
  weight : Z;
  ltype : string;
  subtypes : list string
}.

Record MapCluster : Type := mkMapCluster {
  cluster_id : nat;
  cluster_name : string;
  cluster_concepts : list string;
  center : Q * Q;
  cluster_size : nat
}.

Record Metadata : Type := mkMetadata {
  total_nodes : nat;
  total_links : nat;
  total_clusters : nat
}.

Record KnowledgeMap : Type := mkKnowledgeMap {
  nodes : list MapNode;
  links : list MapLink;
  clusters : list MapCluster;
  hierarchy : Extractor.Hierarchy;
  metadata : Metadata
}.

Definition MapGraph : Type := Nx.Graph NodeData LinkData.

(** [nx.spring_layout(G, k=0.3, iterations=50)]; [None] when the call
    raises. *)
Definition Layout : Type := MapGraph -> option (dict (Q * Q)).

(** ** Module namespace

    The names bound at the top of [mapper.py] by its imports and
    definitions.  A name that is neither here nor a builtin raises
    [NameError] when it is loaded. *)
Definition module_globals : list string :=
  ["os"; "json"; "logging"; "nx"; "defaultdict"; "logger"; "KnowledgeMapper"].

Definition load_global (name : string) : result unit :=
  if mem name module_globals then Ok tt else Raise (NameError name).

(** ** [generate_knowledge_map] *)

Definition build_graph (ek : ExtractedIn) : MapGraph :=
  let G :=
    fold_left
      (fun G concept =>
         Nx.add_node G (c_text concept)
           (Some (mkNodeData
                    (match c_type concept with Some t => t | None => "concept" end)
                    (match c_importance concept with Some i => i | None => (1 # 2)%Q end)
                    (match c_frequency concept with Some f => f | None => 1%Z end))))
      (in_concepts ek) Nx.empty in
  fold_left
    (fun G rel =>
       Nx.add_edge G (r_source rel) (r_target rel)
         (mkLinkData
            (match r_weight rel with Some w => w | None => 1%Z end)
            (match r_type rel with Some t => t | None => "related" end)
            (match r_subtypes rel with Some l => l | None => [] end)))
    (in_relationships ek) G.

(** The handler of the layout failure:
    [{node: [random.random(), random.random()] for node in G.nodes()}] *)
Definition random_positions (g : rng) (G : MapGraph) : result (dict (Q * Q)) :=
  bind
    (foldM
       (fun (st : dict (Q * Q) * rng) node =>
          bind (load_global "random") (fun _ =>
          let (px, g1) := random_unit (snd st) in
          bind (load_global "random") (fun _ =>
          let (py, g2) := random_unit g1 in
          Ok (dict_set (fst st) node (px, py), g2))))
       (Nx.nodes G) ([], g))
    (fun st => Ok (fst st)).

Definition span_of (lo hi : Q) : Q :=
  if Qltb lo hi then (hi - lo)%Q else 1%Q.

(** [G.nodes[node]['importance']] *)
Definition node_importance (G : MapGraph) (node : string) : result Q :=
  match dict_get (Nx.g_nodes G) node with
  | Some (Some data) => Ok (nd_importance data)
  | Some None => Raise (KeyError "importance")
  | None => Raise (KeyError node)
  end.

Definition lookup {V} (d : dict V) (k : string) : result V :=
  match dict_get d k with
  | Some v => Ok v
  | None => Raise (KeyError k)
  end.

Definition map_node (G : MapGraph) (normalized_positions : dict (Q * Q))
  (node_sizes : dict Q) (node : string) : result MapNode :=
  let node_data :=
    match dict_get (Nx.g_nodes G) node with
    | Some (Some data) => Some data
    | _ => None
    end in
  bind (lookup normalized_positions node) (fun pos =>
  bind (lookup node_sizes node) (fun sz =>
  Ok (mkMapNode node node
        (match node_data with Some d => nd_type d | None => "concept" end)
        (match node_data with Some d => nd_importance d | None => (1 # 2)%Q end)
        (match node_data with Some d => nd_frequency d | None => 1%Z end)
        (fst pos) (snd pos) sz))).

Definition map_link (e : string * string * LinkData) : MapLink :=
  match e with
  | (u, v, data) => mkMapLink u v (ld_weight data) (ld_type data) (ld_subtypes data)
  end.

(** [len(l)] as a number *)
Definition len_of {A} (l : list A) : Q := inject_Z (Z.of_nat (List.length l)).

(** One round of the cluster loop: the entries that it appends to
    [cluster_data]. *)
Definition map_cluster (nodes : list MapNode) (cluster : ClusterIn)
  : result (list MapCluster) :=
  let cluster_nodes := filter (fun n => mem (id n) (k_concepts cluster)) nodes in
  match cluster_nodes with
  | [] => Ok []
  | _ =>
      let x_coords := map x cluster_nodes in
      let y_coords := map y cluster_nodes in
      bind (div (sum_of x_coords) (len_of x_coords)) (fun center_x =>
      bind (div (sum_of y_coords) (len_of y_coords)) (fun center_y =>
      Ok [mkMapCluster (k_id cluster)
            (match k_name cluster with
             | Some nm => nm
             | None => ("Cluster " ++ str_of_nat (k_id cluster))%string
             end)
            (k_concepts cluster) (center_x, center_y)
            (List.length (k_concepts cluster))]))
  end.

Definition generate_knowledge_map (spring_layout : Layout) (g : rng)
  (extracted_knowledge : ExtractedIn) : result KnowledgeMap :=
  match in_concepts extracted_knowledge with
  | [] => Ok (mkKnowledgeMap [] [] [] (Extractor.mkHierarchy None None) (mkMetadata 0 0 0))
  | _ =>
      let G := build_graph extracted_knowledge in
      bind (match spring_layout G with
            | Some positions => Ok positions
            | None => random_positions g G
            end) (fun positions =>
      bind (min_of (map fst (dict_values positions))) (fun min_x =>
      bind (max_of (map fst (dict_values positions))) (fun max_x =>
      bind (min_of (map snd (dict_values positions))) (fun min_y =>
      bind (max_of (map snd (dict_values positions))) (fun max_y =>
      let x_range := span_of min_x max_x in
      let y_range := span_of min_y max_y in
      bind (foldM
              (fun np kv =>
                 bind (div (fst (snd kv) - min_x) x_range) (fun px =>
                 bind (div (snd (snd kv) - min_y) y_range) (fun py =>
                 Ok (dict_set np (fst kv) (px, py)))))
              positions []) (fun normalized_positions =>
      bind (mapM (node_importance G) (Nx.nodes G)) (fun importance_values =>
      let min_importance :=
        match importance_values with [] => 0%Q | v :: l => Qmin_from v l end in
      let max_importance :=
        match importance_values with [] => 1%Q | v :: l => Qmax_from v l end in
      let importance_range := span_of min_importance max_importance in
      bind (foldM
              (fun sizes node =>
                 bind (node_importance G node) (fun imp =>
                 bind (div (imp - min_importance) importance_range) (fun scaled =>
                 Ok (dict_set sizes node (5 + scaled * 15)%Q))))
              (Nx.nodes G) []) (fun node_sizes =>
      bind (mapM (map_node G normalized_positions node_sizes) (Nx.nodes G)) (fun nodes =>
      let links := map map_link (Nx.edges G) in
      bind (mapM (map_cluster nodes) (in_clusters extracted_knowledge)) (fun appended =>
      let cluster_data := List.concat appended in
      Ok (mkKnowledgeMap nodes links cluster_data (in_hierarchy extracted_knowledge)
            (mkMetadata (List.length nodes) (List.length links)
                        (List.length cluster_data)))))))))))))
  end.

(** ** Notions used to state the layout properties *)

(** The nodes of the map that a cluster lists as its concepts. *)
Definition member_nodes (km : KnowledgeMap) (c : MapCluster) : list MapNode :=
  filter (fun n => mem (id n) (cluster_concepts c)) (nodes km).
End Mapper.

(* ===================================================================== *)
(** * The cluster centre in double arithmetic *)
(* ===================================================================== *)

Module Doubles.
Import PrimFloat.
Local Open Scope float_scope.

(** The numbers of [mapper.py] are doubles.  The lines whose result depends
    on rounding are given here on [float], the binary64 numbers, every
    operation rounding to the nearest double as the interpreter does. *)

(** The double that the literal [0.1] denotes. *)
Definition tenth : float := 0x1.999999999999ap-4.

(** [sum(l)] as CPython computes it up to version 3.11: from the integer 0,
    adding from the left. *)
Definition sum_left (l : list float) : float := fold_left add l 0.

(** [sum(l)] as CPython computes it from version 3.12 on: after the first
    addition the running sum [fst sc] is accompanied by the compensation
    [snd sc] of Neumaier's algorithm, which is added at the end when it is
    finite and not zero. *)
Definition sum_compensated (l : list float) : float :=
  match l with
  | [] => 0
  | x0 :: rest =>
      let sc :=
        fold_left
          (fun (sc : float * float) x =>
             let t := fst sc + x in
             if abs x <=? abs (fst sc)
             then (t, snd sc + ((fst sc - t) + x))
             else (t, snd sc + ((x - t) + fst sc)))
          rest (0 + x0, 0) in
      if orb (snd sc =? 0) (negb (abs (snd sc) <? infinity))
      then fst sc else fst sc + snd sc
  end.

(** [len(l)] as a double. *)
Definition len_of (l : list float) : float := fold_left (fun n _ => n + 1) l 0.

(** [min] and [max] of a sequence that starts with [first]. *)
Definition least (first : float) (l : list float) : float :=
  fold_left (fun best v => if v <? best then v else best) l first.

Definition greatest (first : float) (l : list float) : float :=
  fold_left (fun best v => if best <? v then v else best) l first.

(** [mapper.py:75-88] on one coordinate of the positions. *)
Definition normalized (coords : list float) : list float :=
  match coords with
  | [] => []
  | c :: rest =>
      let lo := least c rest in
      let hi := greatest c rest in
      let range := if lo <? hi then hi - lo else 1 in
      map (fun p => (p - lo) / range) coords
  end.

(** [mapper.py:136-137]: [sum(coords) / len(coords)], for either [sum]. *)
Definition center_of (sum : list float -> float) (coords : list float) : float :=
  sum coords / len_of coords.

End Doubles.

(* ===================================================================== *)
(** * src/knowledge/journey.py *)
(* ===================================================================== *)

Module Journey.
Import Py.

(** ** The knowledge map as the journey generator reads it

    The map is loaded from JSON.  A field read with [.get(key, default)] on
    a node, link or cluster is optional; the list-valued sections of the map
    and of a cluster stand for themselves, an absent one being its default
    [[]]. *)

Record Node : Type := mkNode {
  id : string;
  label : option string;
  ntype : option string;
  importance : option Q
}.

Record Link : Type := mkLink {
  source : string;
  target : string;
  weight : option Z;
  ltype : option string
}.

Record Cluster : Type := mkCluster {
  cluster_id : option nat;
  cluster_name : option string;
  concepts : list string;
  size : option Z
}.

Record KnowledgeMap : Type := mkKnowledgeMap {
  nodes : list Node;
  links : list Link;
  clusters : list Cluster;
  hierarchy : Extractor.Hierarchy
}.

(** A value of the [user_preferences] dictionary. *)
Inductive value : Type :=
| VNone
| VBool (b : bool)
| VNum (q : Q)
| VStr (s : string).

(** ** The journey *)

Record Related : Type := mkRelated {
  related_id : string;
  relationship_type : string;
  strength : Z
}.

Record Content : Type := mkContent {
  title : string;
  content_type : string;
  content_importance : Q;
  description : string;
  pattern_insights : list string;
  examples : list string;
  related_concepts : list Related;
  visual_elements : list (string * string);
  learning_activities : list (string * string)
}.

Record Metadata : Type := mkMetadata {
  pattern_focus : string;
  complexity : string;
  journey_type : string
}.

Record JourneyRecord : Type := mkJourney {
  start_concept : option string;
  path : list string;
  content : dict Content;
  metadata : Metadata
}.

(** ** Local tables of [generate_journey] *)

(** [{node['id']: node for node in knowledge_map.get('nodes', [])}] *)
Definition nodes_of (km : KnowledgeMap) : dict Node :=
  fold_left (fun d node => dict_set d (id node) node) (nodes km) [].

Definition Adjacency : Type := dict (list (string * Z)).

(** [graph[k].append(v)] on a [defaultdict(list)] *)
Definition graph_append (graph : Adjacency) (k : string) (v : string * Z) : Adjacency :=
  dict_set graph k (dict_get_or graph k [] ++ [v]).

Definition graph_of (km : KnowledgeMap) : Adjacency :=
  fold_left
    (fun graph link =>
       let w := match weight link with Some w => w | None => 1%Z end in
       graph_append (graph_append graph (source link) (target link, w))
                    (target link) (source link, w))
    (links km) [].

(** ** [_determine_journey_type] *)

Definition journey_types : list string := ["pattern_based"; "hierarchical"; "associative"].

Definition is_high (v : option value) : bool :=
  match v with
  | Some (VStr s) => (s =? "high")%string
  | _ => false
  end.

(** [nodes.get(start_concept, {}).get('type', '')] *)
Definition concept_type_of (start : string) (nodes : dict Node) : string :=
  match dict_get nodes start with
  | Some concept => match ntype concept with Some t => t | None => "" end
  | None => ""
  end.

(** The part after the preferences: the start concept's type decides. *)
Definition type_heuristic (start : string) (nodes : dict Node) : string :=
  let concept_type := concept_type_of start nodes in
  if mem concept_type ["noun_phrase"; "key_term"] then "pattern_based"
  else if mem concept_type ["ORG"; "PERSON"; "GPE"] then "hierarchical"
  else "associative".

(** [user_preferences.get('preferred_journey_type') in journey_types] and
    the value then returned. *)
Definition named_type (v : option value) : option string :=
  match v with
  | Some (VStr t) => if mem t journey_types then Some t else None
  | _ => None
  end.

Definition _determine_journey_type (start : string) (nodes : dict Node)
  (user_preferences : option (dict value)) : string :=
  match user_preferences with
  | Some ((_ :: _) as prefs) =>
      match named_type (dict_get prefs "preferred_journey_type") with
      | Some t => t
      | None =>
          if is_high (dict_get prefs "pattern_seeking_level") then "pattern_based"
          else if is_high (dict_get prefs "hierarchical_preference") then "hierarchical"
          else if is_high (dict_get prefs "associative_preference") then "associative"
          else type_heuristic start nodes
      end
  | _ => type_heuristic start nodes
  end.

(** Whether the preferences settle the journey type: a named type or one of
    the three flags set to ['high'] in a non-empty dictionary. *)
Definition preference_decides (user_preferences : option (dict value)) : bool :=
  match user_preferences with
  | Some ((_ :: _) as prefs) =>
      match named_type (dict_get prefs "preferred_journey_type") with
      | Some _ => true
      | None =>
          is_high (dict_get prefs "pattern_seeking_level")
          || is_high (dict_get prefs "hierarchical_preference")
          || is_high (dict_get prefs "associative_preference")
      end
  | _ => false
  end.

(** ** Path construction *)

(** The pair of [path] and [visited]. *)
Definition PathState : Type := (list string * list string)%type.

(** [path.append(c); visited.add(c)] *)
Definition push (st : PathState) (c : string) : PathState :=
  (fst st ++ [c], c :: snd st).

(** [if c not in visited: path.append(c); visited.add(c)] *)
Definition push_new (st : PathState) (c : string) : PathState :=
  if mem c (snd st) then st else push st c.

Definition by_snd (a b : string * Z) : bool := (snd a <? snd b)%Z.

Definition node_importance_or (nodes : dict Node) (k : string) (default : Q) : Q :=
  match dict_get nodes k with
  | Some node => match importance node with Some i => i | None => default end
  | None => default
  end.

(** The padding shared by the default and the hierarchical strategy: up to
    three sampled concepts of similar importance while the path is shorter
    than five. *)
Definition pad_similar (g : rng) (start : string) (nodes : dict Node) (st : PathState)
  : PathState :=
  if (List.length (fst st) <? 5)%nat
  then
    let start_importance := node_importance_or nodes start (1 # 2) in
    let similar_concepts :=
      flat_map
        (fun kv =>
           if negb (mem (fst kv) (snd st))
              && Qltb (Qabs ((match importance (snd kv) with
                              | Some i => i | None => 0%Q end) - start_importance))
                      (2 # 10)
           then [fst kv] else [])
        nodes in
    let chosen :=
      fst (sample g similar_concepts (Nat.min 3 (List.length similar_concepts))) in
    fold_left (fun st concept =>
                 if (List.length (fst st) <? 5)%nat then push st concept else st)
              chosen st
  else st.

Definition _generate_default_path (g : rng) (start : string) (nodes : dict Node)
  (graph : Adjacency) : list string :=
  let st : PathState := ([start], [start]) in
  let neighbors := sort_desc by_snd (dict_get_or graph start []) in
  let st := fold_left (fun st nb => push_new st (fst nb)) (firstn 3 neighbors) st in
  fst (pad_similar g start nodes st).

Definition cluster_size_ltb (a b : Cluster) : bool :=
  ((match size a with Some n => n | None => 0 end)
   <? (match size b with Some n => n | None => 0 end))%Z.

Definition connection_strength (graph : Adjacency) (start concept : string) : Z :=
  match find (fun nb => (fst nb =? concept)%string) (dict_get_or graph start []) with
  | Some nb => snd nb
  | None => 0%Z
  end.

Definition connections_to_path (graph : Adjacency) (path : list string)
  (node_id : string) : Z :=
  Z.of_nat
    (List.length
       (filter (fun path_concept =>
                  existsb (fun nb => (fst nb =? node_id)%string)
                          (dict_get_or graph path_concept []))
               path)).

Definition _generate_pattern_based_path (g : rng) (start : string) (nodes : dict Node)
  (graph : Adjacency) (km : KnowledgeMap) : list string :=
  let st : PathState := ([start], [start]) in
  let start_clusters := filter (fun cluster => mem start (concepts cluster)) (clusters km) in
  match max_by cluster_size_ltb start_clusters with
  | None => _generate_default_path g start nodes graph
  | Some primary_cluster =>
      let cluster_concepts := concepts primary_cluster in
      let connected_concepts :=
        flat_map
          (fun concept =>
             if negb (concept =? start)%string && dict_has nodes concept
             then [(concept, connection_strength graph start concept)] else [])
          cluster_concepts in
      let connected_concepts := sort_desc by_snd connected_concepts in
      let st := fold_left (fun st c => push_new st (fst c)) (firstn 3 connected_concepts) st in
      let pattern_candidates :=
        flat_map
          (fun node_id =>
             if negb (mem node_id (snd st))
             then
               let n := connections_to_path graph (fst st) node_id in
               if (2 <=? n)%Z then [(node_id, n)] else []
             else [])
          (dict_keys nodes) in
      let pattern_candidates := sort_desc by_snd pattern_candidates in
      let st := fold_left (fun st c => push_new st (fst c)) (firstn 2 pattern_candidates) st in
      let st :=
        if (List.length (fst st) <? 5)%nat
        then
          fold_left
            (fun st concept =>
               if negb (mem concept (snd st)) && (List.length (fst st) <? 5)%nat
               then push st concept else st)
            cluster_concepts st
        else st in
      fst st
  end.

Definition concept_of (child_data : Extractor.SubTree) : string :=
  match child_data with Extractor.Sub c _ => c end.

(** [_get_children_from_tree] *)
Definition _get_children_from_tree (concept : string)
  (tree : dict (list Extractor.SubTree)) : list string :=
  map concept_of (dict_get_or tree concept []).

(** [_is_descendant]; [limit] is the recursion depth still available. *)
Fixpoint _is_descendant (limit : nat) (concept root : string)
  (tree : dict (list Extractor.SubTree)) : result bool :=
  match limit with
  | 0 => Raise RecursionError
  | S limit' =>
      if (concept =? root)%string then Ok true
      else
        (fix scan (entries : list Extractor.SubTree) : result bool :=
           match entries with
           | [] => Ok false
           | child_data :: rest =>
               let child := concept_of child_data in
               if (concept =? child)%string then Ok true
               else
                 match _is_descendant limit' concept child tree with
                 | Raise e => Raise e
                 | Ok true => Ok true
                 | Ok false => scan rest
                 end
           end) (dict_get_or tree root [])
  end.

(** The search for the first root above the start concept. *)
Fixpoint find_parent (limit : nat) (start : string) (tree : dict (list Extractor.SubTree))
  (roots : list string) : result (option string) :=
  match roots with
  | [] => Ok None
  | root :: rest =>
      match _is_descendant limit start root tree with
      | Raise e => Raise e
      | Ok true => Ok (Some root)
      | Ok false => find_parent limit start tree rest
      end
  end.

Definition _generate_hierarchical_path (limit : nat) (g : rng) (start : string)
  (nodes : dict Node) (km : KnowledgeMap) : result (list string) :=
  let st : PathState := ([start], [start]) in
  let tree := match Extractor.tree (hierarchy km) with Some t => t | None => [] end in
  let roots := match Extractor.roots (hierarchy km) with Some r => r | None => [] end in
  bind
    (if mem start roots
     then
       let children := _get_children_from_tree start tree in
       Ok (fold_left push_new (firstn 4 children) st)
     else
       bind (find_parent limit start tree roots) (fun parent =>
       let st :=
         match parent with
         | Some p =>
             if negb (p =? "")%string && negb (mem p (snd st))
             then (p :: fst st, p :: snd st) else st
         | None => st
         end in
       let siblings :=
         match parent with
         | Some p => if negb (p =? "")%string then _get_children_from_tree p tree else []
         | None => []
         end in
       let st :=
         fold_left
           (fun st sibling =>
              if negb (sibling =? start)%string && negb (mem sibling (snd st))
                 && (List.length (fst st) <? 4)%nat
              then push st sibling else st)
           siblings st in
       let children := _get_children_from_tree start tree in
       Ok (fold_left
             (fun st child =>
                if negb (mem child (snd st)) && (List.length (fst st) <? 6)%nat
                then push st child else st)
             children st)))
    (fun st => Ok (fst (pad_similar g start nodes st))).

(** The loop of [_generate_associative_path]; [steps] counts the remaining
    iterations of [range(5)].  Sorting the neighbour list sorts the list
    held by [graph]. *)
Fixpoint associative_steps (steps : nat) (g : rng) (nodes : dict Node)
  (graph : Adjacency) (st : PathState) (current : string) : list string :=
  match steps with
  | 0 => fst st
  | S steps' =>
      match dict_get_or graph current [] with
      | [] => fst st
      | neighbors =>
          let neighbors := sort_desc by_snd neighbors in
          let graph := dict_set graph current neighbors in
          let next_concept :=
            match find (fun nb => negb (mem (fst nb) (snd st))) neighbors with
            | Some nb => Some (fst nb)
            | None => None
            end in
          let (next_concept, g) :=
            if Extractor.truthy next_concept then (next_concept, g)
            else
              match filter (fun n => negb (mem n (snd st))) (dict_keys nodes) with
              | [] => (next_concept, g)
              | (n0 :: _) as unvisited =>
                  let (c, g') := choice g unvisited n0 in (Some c, g')
              end in
          match next_concept with
          | Some c =>
              if negb (c =? "")%string
              then associative_steps steps' g nodes graph (push st c) c
              else fst st
          | None => fst st
          end
      end
  end.

Definition _generate_associative_path (g : rng) (start : string) (nodes : dict Node)
  (graph : Adjacency) : list string :=
  associative_steps 5 g nodes graph ([start], [start]) start.
(** ** Notions used to state the properties of a path *)

(** No concept in a child list of the hierarchy tree is itself a key of the
    tree; this holds when the keys are roots without a parent. *)
Definition tree_flat (tree : dict (list Extractor.SubTree)) : bool :=
  forallb (fun kv => forallb (fun sub => negb (dict_has tree (concept_of sub))) (snd kv))
          tree.

(** ** [_generate_concept_content] *)

Definition related_of (concept_id : string) (link : Link) : list Related :=
  let kind := match ltype link with Some t => t | None => "related" end in
  let w := match weight link with Some w => w | None => 1%Z end in
  if (source link =? concept_id)%string && negb (target link =? concept_id)%string
  then [mkRelated (target link) kind w]
  else if (target link =? concept_id)%string && negb (source link =? concept_id)%string
       then [mkRelated (source link) kind w]
       else [].

Definition _generate_concept_content (concept_id : string) (nodes : dict Node)
  (km : KnowledgeMap) : Content :=
  let node := dict_get nodes concept_id in
  let node_label :=
    match node with
    | Some n => match label n with Some l => l | None => concept_id end
    | None => concept_id
    end in
  let related :=
    sort_desc (fun a b => (strength a <? strength b)%Z)
              (flat_map (related_of concept_id) (links km)) in
  let concept_cluster :=
    match find (fun cluster => mem concept_id (concepts cluster)) (clusters km) with
    | Some cluster => match cluster_name cluster with Some nm => nm | None => "" end
    | None => "None"
    end in
  mkContent
    node_label
    (match node with
     | Some n => match ntype n with Some t => t | None => "concept" end
     | None => "concept"
     end)
    (node_importance_or nodes concept_id (1 # 2))
    ("This is a detailed explanation of the concept '" ++ node_label
       ++ "'. In a full implementation, this would contain comprehensive information about the concept.")%string
    ["This concept forms part of a larger pattern in the knowledge domain.";
     ("It belongs to the cluster '" ++ concept_cluster
        ++ "' which represents a key area of knowledge.")%string;
     "Understanding this concept helps reveal connections between seemingly disparate ideas."]
    ["Example 1: Application in a real-world context";
     "Example 2: Illustration of the concept in practice";
     "Example 3: Case study demonstrating the concept's importance"]
    (firstn 5 related)
    [("diagram", "Conceptual diagram showing relationships to other concepts");
     ("image", "Visual representation of the concept")]
    [("pattern_recognition",
      "Identify patterns related to this concept in different contexts");
     ("connection_mapping",
      "Map connections between this concept and previously learned concepts");
     ("application", "Apply this concept to solve a novel problem")].

(** ** [_determine_pattern_focus] and [_determine_complexity] *)

Definition same_id (a b : option nat) : bool :=
  match a, b with
  | Some m, Some n => (m =? n)%nat
  | None, None => true
  | _, _ => false
  end.

(** [cluster_counts[cluster_id] += 1] on a [defaultdict(int)] *)
Fixpoint count_up (counts : list (option nat * nat)) (k : option nat)
  : list (option nat * nat) :=
  match counts with
  | [] => [(k, 1)]
  | (k', n) :: counts' =>
      if same_id k k' then (k', S n) :: counts' else (k', n) :: count_up counts' k
  end.

Definition cluster_counts_of (path : list string) (km : KnowledgeMap)
  : list (option nat * nat) :=
  fold_left
    (fun counts cluster =>
       fold_left
         (fun counts concept =>
            if mem concept (concepts cluster)
            then count_up counts (cluster_id cluster) else counts)
         path counts)
    (clusters km) [].

Definition _determine_pattern_focus (path : list string) (km : KnowledgeMap) : string :=
  let cluster_counts := cluster_counts_of path km in
  let top := fold_right Nat.max 0 (map snd cluster_counts) in
  if negb (Nat.eqb (List.length cluster_counts) 0)
     && Qle_bool (inject_Z (Z.of_nat (List.length path)) * (7 # 10))
                 (inject_Z (Z.of_nat top))
  then "high"
  else if (List.length cluster_counts <=? 3)%nat
          && (0 <? List.length cluster_counts)%nat
       then "medium"
       else "low".

Definition _determine_complexity (path : list string) (nodes : dict Node) : string :=
  let importances := map (fun concept => node_importance_or nodes concept (1 # 2)) path in
  let avg_importance :=
    match importances with
    | [] => (1 # 2)%Q
    | _ => (sum_of importances / inject_Z (Z.of_nat (List.length importances)))%Q
    end in
  if Qltb (7 # 10) avg_importance then "high"
  else if Qltb (4 # 10) avg_importance then "medium"
  else "low".

(** ** [generate_journey] *)

Definition default_journey (start_concept : option string) : JourneyRecord :=
  mkJourney start_concept [] [] (mkMetadata "medium" "medium" "default").

(** [knowledge_map] is [None] for a value that tests false ([None] or the
    empty dictionary), [start_concept] is [None] or a string. *)
Definition generate_journey (limit : nat) (g : rng)
  (knowledge_map : option KnowledgeMap) (start_concept : option string)
  (user_preferences : option (dict value)) : result JourneyRecord :=
  match knowledge_map, start_concept with
  | Some km, Some start =>
      if (start =? "")%string then Ok (default_journey start_concept)
      else
        let nodes := nodes_of km in
        let graph := graph_of km in
        if negb (dict_has nodes start) then Ok (default_journey start_concept)
        else
          let journey_type := _determine_journey_type start nodes user_preferences in
          bind
            (if (journey_type =? "pattern_based")%string
             then Ok (_generate_pattern_based_path g start nodes graph km)
             else if (journey_type =? "hierarchical")%string
             then _generate_hierarchical_path limit g start nodes km
             else if (journey_type =? "associative")%string
             then Ok (_generate_associative_path g start nodes graph)
             else Ok (_generate_default_path g start nodes graph))
            (fun path =>
               let content :=
                 fold_left
                   (fun content concept_id =>
                      dict_set content concept_id
                               (_generate_concept_content concept_id nodes km))
                   path [] in
               let pattern_focus := _determine_pattern_focus path km in
               let complexity := _determine_complexity path nodes in
               Ok (mkJourney start_concept path content
                     (mkMetadata pattern_focus complexity journey_type)))
  | _, _ => Ok (default_journey start_concept)
  end.
End Journey.

(* ===================================================================== *)
(** * src/app.py *)
(* ===================================================================== *)

Module App.
Import Py.

(** The processor classes that [ALLOWED_EXTENSIONS] maps to. *)
Inductive Processor : Type :=
| PDFProcessor
| TextProcessor
| PresentationProcessor
| ImageProcessor
| HTMLProcessor.

Definition ALLOWED_EXTENSIONS : dict Processor :=
  [("pdf", PDFProcessor);
   ("txt", TextProcessor);
   ("md", TextProcessor);
   ("rtf", TextProcessor);
   ("ppt", PresentationProcessor);
   ("pptx", PresentationProcessor);
   ("jpg", ImageProcessor);
   ("jpeg", ImageProcessor);
   ("png", ImageProcessor);
   ("html", HTMLProcessor);
   ("htm", HTMLProcessor)].

(** [s.rsplit(sep, 1)] for a separator of one character: the string itself
    when [sep] does not occur, else the parts before and after its last
    occurrence. *)
Fixpoint rsplit_once (sep : ascii) (s : string) : list string :=
  match s with
  | EmptyString => [EmptyString]
  | String c s' =>
      match rsplit_once sep s' with
      | [before; after] => [String c before; after]
      | _ => if Ascii.eqb c sep then [EmptyString; s'] else [String c s']
      end
  end.

(** [allowed_file]; [None] stands for the IndexError of [...[1]]. *)
Definition allowed_file (filename : string) : option bool :=
  if contains "." filename
  then
    match nth_error (rsplit_once "."%char filename) 1 with
    | Some extension => Some (dict_has ALLOWED_EXTENSIONS (lower extension))
    | None => None
    end
  else Some false.

(** ** From processed content to a journey

    [extract_knowledge] hands the dictionary that the extractor returns to
    the map builder; [generate_learning_journey] hands the map, read back
    from its JSON file, to the journey generator.  The dictionaries carry
    every key that the reading side looks up.  Writing the files and the
    status record is left out. *)

Definition read_concept (c : Extractor.Concept) : Mapper.ConceptIn :=
  Mapper.mkConceptIn (Extractor.text c) (Some (Extractor.ctype c))
                     (Some (Extractor.importance c)) (Some (Extractor.frequency c)).

Definition read_relationship (r : Extractor.Relationship) : Mapper.RelationshipIn :=
  Mapper.mkRelationshipIn (Extractor.source r) (Extractor.target r)
                          (Some (Extractor.weight r)) (Some (Extractor.rtype r))
                          (Some (Extractor.subtypes r)).

Definition read_cluster (c : Extractor.Cluster) : Mapper.ClusterIn :=
  Mapper.mkClusterIn (Extractor.cl_id c) (Some (Extractor.cl_name c))
                     (Extractor.cl_concepts c).

Definition read_extracted (ek : Extractor.ExtractedKnowledge) : Mapper.ExtractedIn :=
  Mapper.mkExtractedIn (map read_concept (Extractor.ek_concepts ek))
                       (map read_relationship (Extractor.ek_relationships ek))
                       (Extractor.ek_hierarchy ek)
                       (map read_cluster (Extractor.ek_clusters ek)).

(** The extraction and mapping steps of [extract_knowledge(file_id)]. *)
Definition knowledge_map_of (env : Extractor.Collaborators) (limit : nat)
  (spring_layout : Mapper.Layout) (g : rng)
  (processed_content : Extractor.ProcessedContent) : result Mapper.KnowledgeMap :=
  bind (Extractor.extract_knowledge env limit processed_content)
       (fun extracted_knowledge =>
          Mapper.generate_knowledge_map spring_layout g
            (read_extracted extracted_knowledge)).

Definition read_node (n : Mapper.MapNode) : Journey.Node :=
  Journey.mkNode (Mapper.id n) (Some (Mapper.label n)) (Some (Mapper.ntype n))
                 (Some (Mapper.importance n)).

Definition read_link (l : Mapper.MapLink) : Journey.Link :=
  Journey.mkLink (Mapper.source l) (Mapper.target l) (Some (Mapper.weight l))
                 (Some (Mapper.ltype l)).

Definition read_map_cluster (c : Mapper.MapCluster) : Journey.Cluster :=
  Journey.mkCluster (Some (Mapper.cluster_id c)) (Some (Mapper.cluster_name c))
                    (Mapper.cluster_concepts c)
                    (Some (Z.of_nat (Mapper.cluster_size c))).

Definition read_map (km : Mapper.KnowledgeMap) : Journey.KnowledgeMap :=
  Journey.mkKnowledgeMap (map read_node (Mapper.nodes km))
                         (map read_link (Mapper.links km))
                         (map read_map_cluster (Mapper.clusters km))
                         (Mapper.hierarchy km).

(** The journey step of [generate_learning_journey]; a missing or empty
    start concept is refused before. *)
Definition journey_of (limit : nat) (g : rng) (km : Mapper.KnowledgeMap)
  (start_concept : string) (user_preferences : option (dict Journey.value))
  : result Journey.JourneyRecord :=
  Journey.generate_journey limit g (Some (read_map km)) (Some start_concept)
                           user_preferences.
End App.

(* ===================================================================== *)
(** * Invariants used in the proofs *)
(* ===================================================================== *)

Module Invariants.
Import Py.

(** ** Sorting *)

(** [a] may stand before [b]: the key of [a] is not below the key of [b]. *)
Definition not_below {A} (ltb : A -> A -> bool) (a b : A) : Prop := ltb a b = false.

(** ** Undirected graphs *)

(** The neighbour tables have unique keys and no node is its own
    neighbour. *)
Definition adj_ok {N E} (G : Nx.Graph N E) : Prop :=
  NoDup (dict_keys (Nx.g_adj G))
  /\ (forall u nbrs, In (u, nbrs) (Nx.g_adj G) -> NoDup (dict_keys nbrs))
  /\ (forall u v, In v (dict_keys (Nx.neighbors G u)) -> u <> v).

(** The unordered pair of end points, smaller text first. *)
Definition pair_key {E} (e : string * string * E) : string * string :=
  let u := fst (fst e) in
  let v := snd (fst e) in
  if (u <=? v)%string then (u, v) else (v, u).

Definition relationship_key (r : Extractor.Relationship) : string * string :=
  pair_key (Extractor.source r, Extractor.target r, tt).

(** The keys of the concept map are the case-folded forms of its values. *)
Definition concept_map_ok (m : dict string) : Prop :=
  NoDup (dict_keys m) /\ forall k v, In (k, v) m -> lower v = k.

(** ** The containment graph *)

Definition texts (concepts : list Extractor.Concept) : list string :=
  map Extractor.text concepts.

(** What holds of the graph while it is built: its nodes are the concept
    texts, each with an importance, and an arc leads from a text to a
    different text that contains it when case is ignored. *)
Record graph_ok (concepts : list Extractor.Concept) (G : Extractor.HierGraph)
  : Prop := mk_graph_ok {
  ok_keys : forall n, In n (Nx.nodes G) -> In n (texts concepts);
  ok_attrs : forall n a, dict_get (Nx.g_nodes G) n = Some a -> a <> None;
  ok_arcs : forall u w, In w (Nx.successors G u) ->
            In u (texts concepts) /\ In w (texts concepts)
            /\ contains (lower u) (lower w) = true /\ u <> w
}.

Definition add_concept_node (G : Extractor.HierGraph) (c : Extractor.Concept)
  : Extractor.HierGraph :=
  Nx.add_node G (Extractor.text c) (Some (Extractor.importance c)).

(** Every concept text is a node. *)
Definition known (concepts : list Extractor.Concept) (G : Extractor.HierGraph) : Prop :=
  forall c, In c concepts -> Nx.has_node G (Extractor.text c) = true.

(** ** Paths *)

(** [path] has no duplicates, [visited] holds exactly its members, and all
    of them are [allowed]. *)
Definition path_ok (allowed : string -> Prop) (st : Journey.PathState) : Prop :=
  NoDup (fst st)
  /\ (forall c, In c (snd st) <-> In c (fst st))
  /\ (forall c, In c (fst st) -> allowed c).

Definition path_fine (allowed : string -> Prop) (path : list string) : Prop :=
  NoDup path /\ forall c, In c path -> allowed c.

Definition graph_closed (allowed : string -> Prop) (graph : Journey.Adjacency) : Prop :=
  forall k nbrs nb, dict_get graph k = Some nbrs -> In nb nbrs -> allowed (fst nb).

Definition clusters_closed (allowed : string -> Prop) (km : Journey.KnowledgeMap) : Prop :=
  forall cluster c,
    In cluster (Journey.clusters km) -> In c (Journey.concepts cluster) -> allowed c.

Definition hierarchy_closed (allowed : string -> Prop) (km : Journey.KnowledgeMap) : Prop :=
  (forall r, In r (match Extractor.roots (Journey.hierarchy km) with
                   | Some r => r | None => [] end) -> allowed r)
  /\ (forall k c,
        In c (Journey._get_children_from_tree k
                (match Extractor.tree (Journey.hierarchy km) with
                 | Some t => t | None => [] end)) -> allowed c).

(** ** Edge data *)

(** Every stored edge satisfies [P]. *)
Definition edges_all {N E} (P : string -> string -> E -> Prop) (G : Nx.Graph N E) : Prop :=
  forall u nbrs v d, In (u, nbrs) (Nx.g_adj G) -> In (v, d) nbrs -> P u v d.

(** The neighbour tables have unique keys (a node may be its own
    neighbour). *)
Definition adj_unique {N E} (G : Nx.Graph N E) : Prop :=
  NoDup (dict_keys (Nx.g_adj G))
  /\ (forall u nbrs, In (u, nbrs) (Nx.g_adj G) -> NoDup (dict_keys nbrs)).

(** Every end point of a stored edge is a node, and the node table has
    unique keys. *)
Definition adj_closed {N E} (G : Nx.Graph N E) : Prop :=
  NoDup (Nx.nodes G)
  /\ forall u nbrs, In (u, nbrs) (Nx.g_adj G) ->
       In u (Nx.nodes G) /\ forall v d, In (v, d) nbrs -> In v (Nx.nodes G).

(** The data of a relationship edge: a positive weight, and either a
    co-occurrence edge without subtypes or a syntactic edge with a non-empty
    duplicate-free list of subtypes. *)
Definition edge_data_ok (d : Extractor.EdgeData) : Prop :=
  (1 <= Extractor.e_weight d)%Z
  /\ ((Extractor.e_type d = "co-occurrence" /\ Extractor.e_types d = None)
      \/ (Extractor.e_type d = "syntactic"
          /\ exists ts, Extractor.e_types d = Some ts /\ ts <> [] /\ NoDup ts
                        /\ forall t, In t ts -> t = "subject_of" \/ t = "object_of")).

Definition relationship_edge_ok (concepts : list Extractor.Concept)
  (u v : string) (d : Extractor.EdgeData) : Prop :=
  edge_data_ok d /\ In u (texts concepts) /\ In v (texts concepts).

(** ** The hierarchy *)

(** [w] lies directly below [u]: both are concept texts, they differ, and
    [w] contains [u] when case is ignored. *)
Definition below (concepts : list Extractor.Concept) (u w : string) : Prop :=
  In u (texts concepts) /\ In w (texts concepts)
  /\ contains (lower u) (lower w) = true /\ u <> w.

(** The entries listed under [parent] name exactly the texts directly below
    it, each once, and the same holds under each of them. *)
Inductive subtree_ok (concepts : list Extractor.Concept)
  : string -> list Extractor.SubTree -> Prop :=
| subtree_ok_intro (parent : string) (subs : list Extractor.SubTree) :
    NoDup (map Journey.concept_of subs) ->
    (forall w, In w (map Journey.concept_of subs) <-> below concepts parent w) ->
    (forall child grand, In (Extractor.Sub child grand) subs ->
                         subtree_ok concepts child grand) ->
    subtree_ok concepts parent subs.

(** ** Clusters *)

(** The graph handed to community detection. *)
Definition cluster_graph (concepts : list Extractor.Concept)
  (relationships : list Extractor.Relationship) : Extractor.ClusterGraph :=
  fold_left (fun G rel => Nx.add_edge G (Extractor.source rel) (Extractor.target rel)
                                      (Extractor.weight rel))
            relationships
            (fold_left (fun G c => Nx.add_node G (Extractor.text c)
                                               (Some (Extractor.importance c)))
                       concepts Nx.empty).

(** The nodes that a partition puts into cluster [i], in the order of the
    partition. *)
Definition members_of (partition : list (string * nat)) (i : nat) : list string :=
  map fst (filter (fun kv => (snd kv =? i)%nat) partition).

(** What holds of the groups once the entries [seen] of a partition have
    been handled. *)
Definition grouped (seen : list (string * nat)) (clusters : list (nat * list string))
  : Prop :=
  NoDup (map fst clusters)
  /\ (forall kv, In kv seen -> In (snd kv) (map fst clusters))
  /\ (forall i ms, In (i, ms) clusters -> ms = members_of seen i /\ ms <> []).

(** The order in which the clusters are sorted. *)
Definition by_size (a b : nat * list string) : bool :=
  (List.length (snd a) <? List.length (snd b))%nat.

(** ** The knowledge map *)

(** The texts of the concepts handed to the map builder. *)
Definition map_texts (ek : Mapper.ExtractedIn) : list string :=
  map Mapper.c_text (Mapper.in_concepts ek).

(** Only concept texts carry node attributes. *)
Definition attrs_from (allowed : list string) (G : Mapper.MapGraph) : Prop :=
  forall n d, dict_get (Nx.g_nodes G) n = Some (Some d) -> In n allowed.

(** Every relationship joins two concept texts. *)
Definition endpoints_known (ek : Mapper.ExtractedIn) : Prop :=
  forall rel, In rel (Mapper.in_relationships ek) ->
    In (Mapper.r_source rel) (map_texts ek) /\ In (Mapper.r_target rel) (map_texts ek).

(** The layout has a position for every node of the graph. *)
Definition layout_covers (G : Mapper.MapGraph) (positions : dict (Q * Q)) : Prop :=
  forall n, In n (Nx.nodes G) -> dict_has positions n = true.

(** The unordered pair of end points of a link. *)
Definition link_key (l : Mapper.MapLink) : string * string :=
  pair_key (Mapper.source l, Mapper.target l, tt).

(** A cluster lists at least one of the given texts. *)
Definition lists_some (allowed : list string) (k : Mapper.ClusterIn) : Prop :=
  exists t, In t allowed /\ In t (Mapper.k_concepts k).

(** ** The length of a path *)

(** The path under construction holds [start] and at most [n] concepts. *)
Definition within (n : nat) (start : string) (st : Journey.PathState) : Prop :=
  In start (fst st) /\ List.length (fst st) <= n.

(** ** Hierarchy trees with a cycle *)

(** From every key in [keys] the search for [concept] moves on to another
    key in [keys]: the key is not [concept], and its first child is not
    [concept] and is again in [keys]. *)
Definition trapped (tree : dict (list Extractor.SubTree)) (concept : string)
  (keys : list string) : Prop :=
  forall r, In r keys ->
    r <> concept
    /\ exists sub rest,
         dict_get_or tree r [] = sub :: rest
         /\ Journey.concept_of sub <> concept
         /\ In (Journey.concept_of sub) keys.

(** The importance that the complexity estimate reads for a concept. *)
Definition read_importance (nodes : dict Journey.Node) (c : string) : Q :=
  Journey.node_importance_or nodes c (1 # 2).

(** ** Relationship graphs *)

(** The pair [(u', v')] is [(u, v)] or [(v, u)]. *)
Definition at_pair (u v u' v' : string) : bool :=
  ((u' =? u)%string && (v' =? v)%string) || ((u' =? v)%string && (v' =? u)%string).

(** Both directions of an edge carry the same data. *)
Definition symmetric {N E} (G : Nx.Graph N E) : Prop :=
  forall u v, Nx.edge_data G u v = Nx.edge_data G v u.

(** Every concept text is a node. *)
Definition keeps_nodes {N E} (concepts : list Extractor.Concept) (G : Nx.Graph N E)
  : Prop :=
  forall t, In t (texts concepts) -> Nx.has_node G t = true.

(** The graph after the concepts have been added as nodes. *)
Definition node_graph (concepts : list Extractor.Concept) : Extractor.RelGraph :=
  fold_left (fun G c => Nx.add_node G (Extractor.text c) None) concepts Nx.empty.

(** The graph after the co-occurrence pass. *)
Definition cooccurrence_graph (env : Extractor.Collaborators) (txt : string)
  (concepts : list Extractor.Concept) : Extractor.RelGraph :=
  fold_left (Extractor.cooccur_sentence (Extractor.concept_map_of concepts))
            (Extractor.sents (Extractor.nlp env txt)) (node_graph concepts).

(** The token carries a subject or object relation between two different
    concepts that the co-occurrence pass has joined already. *)
Definition clashes (G0 : Extractor.RelGraph) (concepts : list Extractor.Concept)
  (token : Extractor.Token) : bool :=
  mem (Extractor.dep_ token) ["nsubj"; "dobj"; "pobj"]
  && match Extractor.match_concepts concepts
             (lower (Extractor.tok_text token)) (lower (Extractor.head_text token)) with
     | (Some token_concept, Some head_concept) =>
         Extractor.truthy (Some token_concept) && Extractor.truthy (Some head_concept)
         && negb (token_concept =? head_concept)%string
         && Nx.has_edge G0 token_concept head_concept
     | _ => false
     end.

(** The edges without a 'types' entry are those of the co-occurrence
    pass. *)
Definition untyped_as (G0 G : Extractor.RelGraph) : Prop :=
  forall u v,
    if Nx.has_edge G0 u v
    then exists d, Nx.edge_data G u v = Some d /\ Extractor.e_types d = None
    else forall d, Nx.edge_data G u v = Some d -> Extractor.e_types d <> None.

(** What holds of the graph during the co-occurrence pass: no edge has a
    'types' entry. *)
Definition cooccurring (concepts : list Extractor.Concept) (G : Extractor.RelGraph)
  : Prop :=
  keeps_nodes concepts G /\ symmetric G
  /\ forall u v d, Nx.edge_data G u v = Some d -> Extractor.e_types d = None.

(** What holds of the graph during the syntactic pass that follows the
    co-occurrence graph [G0]. *)
Definition syntactic (concepts : list Extractor.Concept) (G0 G : Extractor.RelGraph)
  : Prop :=
  keeps_nodes concepts G /\ symmetric G /\ untyped_as G0 G.

(** ** The adjacency table of the journey generator *)

(** [link] joins [s] and [t], in either direction, with weight [w] (1 for
    a link without a weight). *)
Definition joins (link : Journey.Link) (s t : string) (w : Z) : Prop :=
  match Journey.weight link with Some w' => w' | None => 1%Z end = w
  /\ ((Journey.source link = s /\ Journey.target link = t)
      \/ (Journey.target link = s /\ Journey.source link = t)).

(** ** Cluster counts *)

(** [cluster_counts[k]], 0 for a key that is absent. *)
Definition count_at (counts : list (option nat * nat)) (k : option nat) : nat :=
  match find (fun kn => Journey.same_id k (fst kn)) counts with
  | Some kn => snd kn
  | None => 0
  end.

(** ** The collaborators of clustering *)

(** Community detection and the component search name only nodes of the
    graph they are given. *)
Definition clusters_within (env : Extractor.Collaborators) : Prop :=
  forall G : Extractor.ClusterGraph,
    (forall partition, Extractor.best_partition env = Some partition ->
       forall kv, In kv (partition G) -> In (fst kv) (Nx.nodes G))
    /\ (forall component n,
          In component (Extractor.connected_components env G) ->
          In n component -> In n (Nx.nodes G)).

(** Both texts are among the concepts found in one sentence. *)
Definition cooccur (concepts : list Extractor.Concept) (sentences : list Extractor.Span)
  (u v : string) : Prop :=
  u <> v
  /\ exists sent,
       In sent sentences
       /\ In u (Extractor.sentence_concepts_of (Extractor.concept_map_of concepts) sent)
       /\ In v (Extractor.sentence_concepts_of (Extractor.concept_map_of concepts) sent).

(** ** Node attributes *)

(** The attributes that the map builder stores for a concept. *)
Definition concept_data (c : Mapper.ConceptIn) : Mapper.NodeData :=
  Mapper.mkNodeData
    (match Mapper.c_type c with Some t => t | None => "concept" end)
    (match Mapper.c_importance c with Some i => i | None => (1 # 2)%Q end)
    (match Mapper.c_frequency c with Some f => f | None => 1%Z end).

(** Every attribute record in the node table is that of a concept with
    the node's text. *)
Definition attrs_of_concepts (ek : Mapper.ExtractedIn) (G : Mapper.MapGraph) : Prop :=
  forall n d, dict_get (Nx.g_nodes G) n = Some (Some d) ->
    exists c, In c (Mapper.in_concepts ek) /\ Mapper.c_text c = n /\ d = concept_data c.

(** The least and the greatest of the importance values, with the defaults
    of the builder for an empty list. *)
Definition lowest (importance_values : list Q) : Q :=
  match importance_values with [] => 0%Q | v :: l => Qmin_from v l end.

Definition highest (importance_values : list Q) : Q :=
  match importance_values with [] => 1%Q | v :: l => Qmax_from v l end.

(** ** The extractor on Unicode text *)

(** [graph_ok] with the case folding of [ops]. *)
Record containment_ok (ops : Unicode.StrOps) (concepts : list Extractor.Concept)
  (G : Extractor.HierGraph) : Prop := mk_containment_ok {
  cok_keys : forall n, In n (Nx.nodes G) -> In n (texts concepts);
  cok_attrs : forall n a, dict_get (Nx.g_nodes G) n = Some a -> a <> None;
  cok_arcs : forall u w, In w (Nx.successors G u) ->
             In u (texts concepts) /\ In w (texts concepts)
             /\ contains (Unicode.s_lower ops u) (Unicode.s_lower ops w) = true
             /\ u <> w
}.

(** The entries [subs] unfold [G] below [node]: they name the successors
    of [node], in their order, and each of them unfolds [G] below its
    concept. *)
Inductive unfolding (G : Extractor.HierGraph)
  : string -> list Extractor.SubTree -> Prop :=
| unfolding_intro (node : string) (subs : list Extractor.SubTree) :
    map Journey.concept_of subs = Nx.successors G node ->
    (forall child grand, In (Extractor.Sub child grand) subs ->
                         unfolding G child grand) ->
    unfolding G node subs.

(** No concept of the entries [subs] lies on the [path] that leads to them,
    and the same holds below each of them. *)
Inductive paths_simple : list string -> list Extractor.SubTree -> Prop :=
| paths_simple_intro (path : list string) (subs : list Extractor.SubTree) :
    (forall child grand, In (Extractor.Sub child grand) subs -> ~ In child path) ->
    (forall child grand, In (Extractor.Sub child grand) subs ->
                         paths_simple (child :: path) grand) ->
    paths_simple path subs.

(** What each of the three loops of concept extraction puts into the list,
    in terms of the noun chunks, entities and tokens of the document. *)
Definition concept_from (ops : Unicode.StrOps) (doc : Extractor.Doc)
  (c : Extractor.Concept) : Prop :=
  (Extractor.ctype c = "noun_phrase" /\ (2 <= Extractor.frequency c)%Z
   /\ Extractor.text c <> ""
   /\ List.length (Unicode.s_split ops (Extractor.text c)) <= 5
   /\ Unicode.s_lower ops (Extractor.text c) = Extractor.text c
   /\ (exists chunk, In chunk (Extractor.noun_chunks doc)
                     /\ Extractor.text c
                        = Unicode.s_collapse ops
                            (Unicode.s_lower ops (Unicode.s_strip ops chunk)))
   /\ Extractor.importance c
      = (inject_Z (Extractor.frequency c) / Extractor.doc_len doc)%Q
   /\ (0 < Extractor.importance c)%Q)
  \/ (In (Extractor.ctype c) Extractor.entity_labels
      /\ Extractor.frequency c = 1%Z /\ Extractor.importance c = (8 # 10)%Q
      /\ exists ent, In ent (Extractor.ents doc)
                     /\ Extractor.ctype c = snd ent
                     /\ Extractor.text c
                        = Unicode.s_collapse ops (Unicode.s_strip ops (fst ent)))
  \/ (Extractor.ctype c = "key_term" /\ (3 <= Extractor.frequency c)%Z
      /\ Unicode.s_lower ops (Extractor.text c) = Extractor.text c
      /\ (exists token, In token (Extractor.doc_tokens doc)
                        /\ 2 < Unicode.s_len ops (Extractor.tok_text token)
                        /\ Extractor.text c
                           = Unicode.s_lower ops (Extractor.tok_text token))
      /\ Extractor.importance c
         = (inject_Z (Extractor.frequency c) / Extractor.doc_len doc)%Q
      /\ (0 < Extractor.importance c)%Q).


(** ** Cluster entries *)

(** What one round of the cluster loop appends, no divisor being zero. *)
Definition cluster_entries (nodes : list Mapper.MapNode) (cluster : Mapper.ClusterIn)
  : list Mapper.MapCluster :=
  let cluster_nodes :=
    filter (fun n => mem (Mapper.id n) (Mapper.k_concepts cluster)) nodes in
  match cluster_nodes with
  | [] => []
  | _ =>
      let x_coords := map Mapper.x cluster_nodes in
      let y_coords := map Mapper.y cluster_nodes in
      [Mapper.mkMapCluster (Mapper.k_id cluster)
         (match Mapper.k_name cluster with
          | Some nm => nm
          | None => ("Cluster " ++ str_of_nat (Mapper.k_id cluster))%string
          end)
         (Mapper.k_concepts cluster)
         ((sum_of x_coords / Mapper.len_of x_coords)%Q,
          (sum_of y_coords / Mapper.len_of y_coords)%Q)
         (List.length (Mapper.k_concepts cluster))]
  end.

End Invariants.

(* ===================================================================== *)
(** * Sample inputs *)
(* ===================================================================== *)

Module Samples.
Import Py.

(** A two-node knowledge map with one link. *)
Definition sample_map : Journey.KnowledgeMap :=
  Journey.mkKnowledgeMap
    [Journey.mkNode "cat" None (Some "noun_phrase") (Some (1 # 2)%Q);
     Journey.mkNode "Acme" None (Some "PRODUCT") (Some (8 # 10)%Q)]
    [Journey.mkLink "cat" "Acme" (Some 2%Z) None]
    [] (Extractor.mkHierarchy None None).

(** "Learning is analysis." three times over, as spaCy annotates it: the
    subject "Learning" hangs off the verb "is". *)
Definition learning_sentence : Extractor.Span :=
  Extractor.mkSpan "Learning is analysis."
    [Extractor.mkToken "Learning" "NOUN" false "nsubj" "is";
     Extractor.mkToken "is" "AUX" true "ROOT" "is";
     Extractor.mkToken "analysis" "NOUN" false "attr" "is";
     Extractor.mkToken "." "PUNCT" false "punct" "is"].

Definition learning_text : string :=
  "Learning is analysis. Learning is analysis. Learning is analysis.".

Definition learning_doc : Extractor.Doc :=
  Extractor.mkDoc
    ["Learning"; "analysis"; "Learning"; "analysis"; "Learning"; "analysis"]
    []
    [learning_sentence; learning_sentence; learning_sentence].

Definition learning_env : Extractor.Collaborators :=
  Extractor.mkCollaborators (fun _ => learning_doc) None (fun _ => []).

(** One concept and a layout call that raises. *)
Definition lone_concept : Mapper.ExtractedIn :=
  Mapper.mkExtractedIn
    [Mapper.mkConceptIn "cat" (Some "noun_phrase") (Some (1 # 2)%Q) (Some 2%Z)]
    [] (Extractor.mkHierarchy (Some ["cat"]) (Some [("cat", [])])) [].

Definition failing_layout : Mapper.Layout := fun _ => None.

(** Three concepts, one relationship, two clusters and a layout that puts
    all nodes at the same height. *)
Definition small_extract : Mapper.ExtractedIn :=
  Mapper.mkExtractedIn
    [Mapper.mkConceptIn "cat" (Some "noun_phrase") (Some (1 # 4)%Q) (Some 2%Z);
     Mapper.mkConceptIn "mouse" None (Some (3 # 4)%Q) None;
     Mapper.mkConceptIn "garden" (Some "key_term") None (Some 3%Z)]
    [Mapper.mkRelationshipIn "cat" "mouse" (Some 2%Z) (Some "co-occurrence") None]
    (Extractor.mkHierarchy (Some ["cat"; "mouse"; "garden"]) (Some []))
    [Mapper.mkClusterIn 0 (Some "mouse") ["cat"; "mouse"];
     Mapper.mkClusterIn 1 None ["garden"]].

Definition level_layout : Mapper.Layout :=
  fun _ => Some [("cat", ((-1) # 2, 1 # 3)%Q);
                 ("mouse", (1 # 2, 1 # 3)%Q);
                 ("garden", (0, 1 # 3)%Q)].

(** A text about a cat and a mouse in which "cat" is frequent both as a
    noun phrase and as a noun, and "Acme" is recognised as an organisation. *)
Definition cat_token : Extractor.Token :=
  Extractor.mkToken "Cat" "NOUN" false "nsubj" "chased".

Definition mouse_token : Extractor.Token :=
  Extractor.mkToken "mouse" "NOUN" false "dobj" "chased".

Definition cat_doc : Extractor.Doc :=
  Extractor.mkDoc
    ["The  Cat"; "the cat"; "a mouse"; "Acme"]
    [("Acme", "ORG"); ("acme", "ORG"); ("Monday", "DATE")]
    [Extractor.mkSpan "The  Cat chased a mouse."
       [cat_token; mouse_token; cat_token];
     Extractor.mkSpan "the cat likes Acme mouse traps."
       [cat_token; mouse_token; mouse_token;
        Extractor.mkToken "Acme" "PROPN" false "pobj" "likes"]].

Definition cat_env : Extractor.Collaborators :=
  Extractor.mkCollaborators (fun _ => cat_doc) None (fun _ => []).

(** Two concepts whose texts differ in case only. *)
Definition twin_concepts : list Extractor.Concept :=
  [Extractor.mkConcept "Cat" "ORG" 1 (8 # 10)%Q;
   Extractor.mkConcept "cat" "noun_phrase" 2 (2 # 5)%Q].

(** Concepts whose containment graph is a DAG: "machine learning" has the
    two parents "machine" and "learning". *)
Definition dag_concepts : list Extractor.Concept :=
  [Extractor.mkConcept "machine learning" "noun_phrase" 4 (4 # 9)%Q;
   Extractor.mkConcept "machine" "key_term" 3 (3 # 9)%Q;
   Extractor.mkConcept "learning" "key_term" 3 (3 # 9)%Q;
   Extractor.mkConcept "deep machine learning" "noun_phrase" 2 (2 # 9)%Q].

(** A map with five nodes, two clusters and a hierarchy in which
    "Acme garden" lies below both "garden" and "Acme". *)
Definition garden_map : Journey.KnowledgeMap :=
  Journey.mkKnowledgeMap
    [Journey.mkNode "cat" (Some "cat") (Some "noun_phrase") (Some (1 # 2)%Q);
     Journey.mkNode "mouse" (Some "mouse") (Some "noun_phrase") (Some (2 # 5)%Q);
     Journey.mkNode "garden" (Some "garden") (Some "key_term") (Some (3 # 10)%Q);
     Journey.mkNode "Acme" (Some "Acme") (Some "ORG") (Some (4 # 5)%Q);
     Journey.mkNode "Acme garden" None (Some "ORG") (Some (4 # 5)%Q)]
    [Journey.mkLink "cat" "mouse" (Some 3%Z) (Some "syntactic");
     Journey.mkLink "cat" "garden" (Some 1%Z) None;
     Journey.mkLink "mouse" "garden" (Some 2%Z) None;
     Journey.mkLink "Acme" "garden" None None]
    [Journey.mkCluster (Some 0) (Some "cat") ["cat"; "mouse"; "garden"] (Some 3%Z);
     Journey.mkCluster (Some 1) (Some "Acme") ["Acme"; "Acme garden"] (Some 2%Z)]
    (Extractor.mkHierarchy
       (Some ["cat"; "mouse"; "garden"; "Acme"])
       (Some [("cat", []); ("mouse", []);
              ("garden", [Extractor.Sub "Acme garden" []]);
              ("Acme", [Extractor.Sub "Acme garden" []])])).


(** "The cat eats.": subject and object relations that tie two concepts
    which do not occur in the sentence themselves. *)
Definition feeding_doc : Extractor.Doc :=
  Extractor.mkDoc ["The cat"] []
    [Extractor.mkSpan "The cat eats."
       [Extractor.mkToken "cat" "NOUN" false "nsubj" "eats";
        Extractor.mkToken "cat" "NOUN" false "dobj" "eats";
        Extractor.mkToken "cat" "NOUN" false "nsubj" "eats"]].

Definition feeding_env : Extractor.Collaborators :=
  Extractor.mkCollaborators (fun _ => feeding_doc) None (fun _ => []).

Definition feeding_concepts : list Extractor.Concept :=
  [Extractor.mkConcept "cat food" "noun_phrase" 2 (2 # 3)%Q;
   Extractor.mkConcept "eats well" "noun_phrase" 2 (2 # 3)%Q].

(** The concepts extracted from the cat text. *)
Definition cat_text : string :=
  "The  Cat chased a mouse. the cat likes Acme mouse traps.".

Definition cat_concepts : list Extractor.Concept :=
  [Extractor.mkConcept "Acme" "ORG" 1 (8 # 10)%Q;
   Extractor.mkConcept "mouse" "key_term" 3 (3 # 7)%Q;
   Extractor.mkConcept "the cat" "noun_phrase" 2 (2 # 7)%Q].

(** One concept and a relationship that leads to a text which is not a
    concept; the layout places both end points. *)
Definition stray_extract : Mapper.ExtractedIn :=
  Mapper.mkExtractedIn
    [Mapper.mkConceptIn "cat" (Some "noun_phrase") (Some (1 # 2)%Q) (Some 2%Z)]
    [Mapper.mkRelationshipIn "cat" "dog" (Some 1%Z) (Some "co-occurrence") None]
    (Extractor.mkHierarchy (Some ["cat"]) (Some [("cat", [])])) [].

Definition stray_layout : Mapper.Layout :=
  fun _ => Some [("cat", (0, 0)%Q); ("dog", (1, 1)%Q)].

(** A map whose hierarchy tree lists "a" under "b" and "b" under "a". *)
Definition looping_map : Journey.KnowledgeMap :=
  Journey.mkKnowledgeMap
    [Journey.mkNode "a" None (Some "ORG") None;
     Journey.mkNode "b" None (Some "ORG") None;
     Journey.mkNode "c" None (Some "ORG") None]
    [] []
    (Extractor.mkHierarchy
       (Some ["a"; "b"])
       (Some [("a", [Extractor.Sub "b" []]); ("b", [Extractor.Sub "a" []])])).

(** A layout for the three concepts of the cat text. *)
Definition cat_layout : Mapper.Layout :=
  fun _ => Some [("Acme", (0, 0)%Q); ("mouse", (1, 0)%Q); ("the cat", (1 # 2, 1)%Q)].

(** A text whose three product names make "Machine Learning" a node with
    the two parents "machine" and "learning". *)
Definition dag_doc : Extractor.Doc :=
  Extractor.mkDoc []
    [("machine", "PRODUCT"); ("learning", "PRODUCT");
     ("Machine  Learning", "PRODUCT")]
    [Extractor.mkSpan "machine learning"
       [Extractor.mkToken "machine" "NOUN" false "compound" "learning";
        Extractor.mkToken "learning" "NOUN" false "ROOT" "learning"]].

Definition dag_env : Extractor.Collaborators :=
  Extractor.mkCollaborators (fun _ => dag_doc) None (fun _ => []).

Definition dag_text : string := "machine learning".

Definition dag_tree : dict (list Extractor.SubTree) :=
  [("machine", [Extractor.Sub "Machine Learning" []]);
   ("learning", [Extractor.Sub "Machine Learning" []])].

Definition dag_extracted : list Extractor.Concept :=
  [Extractor.mkConcept "machine" "PRODUCT" 1 (8 # 10)%Q;
   Extractor.mkConcept "learning" "PRODUCT" 1 (8 # 10)%Q;
   Extractor.mkConcept "Machine Learning" "PRODUCT" 1 (8 # 10)%Q].

(** The x coordinates of a layout that puts three nodes at 0.1 between a
    node at 0 and a node at 1, and the normalized x coordinates of the
    three, which are the members of a cluster. *)
Definition spread_xs : list PrimFloat.float :=
  [PrimFloat.zero; Doubles.tenth; Doubles.tenth; Doubles.tenth; PrimFloat.one].

Definition member_xs : list PrimFloat.float :=
  firstn 3 (tl (Doubles.normalized spread_xs)).
End Samples.

(* ===================================================================== *)
(** * The definitions at work *)
(* ===================================================================== *)

Module Checks.
Import Py Samples.

Example split_words : split "  the  quick brown " = ["the"; "quick"; "brown"].
Proof. reflexivity. Qed.

Example clean_noun_phrase : Extractor.clean_phrase "  The   Cat " = "the cat".
Proof. reflexivity. Qed.

Example substring_test : contains "is" "analysis" = true /\ contains "cat" "dog" = false.
Proof. split; reflexivity. Qed.

Example sort_is_stable :
  sort_desc Journey.by_snd [("a", 1%Z); ("b", 3%Z); ("c", 1%Z); ("d", 3%Z)]
  = [("b", 3%Z); ("d", 3%Z); ("a", 1%Z); ("c", 1%Z)].
Proof. reflexivity. Qed.

Example counting :
  most_common 2 (counter_of ["x"; "y"; "x"; "z"; "y"; "x"]) = [("x", 3%Z); ("y", 2%Z)].
Proof. reflexivity. Qed.

Example sampling : fst (sample [5; 0; 7] ["a"; "b"; "c"; "d"] 3) = ["b"; "a"; "d"].
Proof. reflexivity. Qed.

(** The DAG sample: "machine learning" is expanded under both of its
    parents, each time with its own child. *)
Example dag_hierarchy :
  Extractor._generate_hierarchy 8 dag_concepts []
  = Ok (Extractor.mkHierarchy
          (Some ["machine"; "learning"])
          (Some [("machine",
                  [Extractor.Sub "machine learning"
                     [Extractor.Sub "deep machine learning" []];
                   Extractor.Sub "deep machine learning" []]);
                 ("learning",
                  [Extractor.Sub "machine learning"
                     [Extractor.Sub "deep machine learning" []];
                   Extractor.Sub "deep machine learning" []])])).
Proof. vm_compute. reflexivity. Qed.

(** The three strategies and the fallback on the garden map. *)
Example pattern_based_walk :
  Journey._generate_pattern_based_path [] "cat" (Journey.nodes_of garden_map)
    (Journey.graph_of garden_map) garden_map
  = ["cat"; "mouse"; "garden"].
Proof. vm_compute. reflexivity. Qed.

Example associative_walk :
  Journey._generate_associative_path [2] "cat" (Journey.nodes_of garden_map)
    (Journey.graph_of garden_map)
  = ["cat"; "mouse"; "garden"; "Acme"; "Acme garden"].
Proof. vm_compute. reflexivity. Qed.

Example hierarchical_walk_from_root :
  Journey._generate_hierarchical_path 8 [] "garden" (Journey.nodes_of garden_map) garden_map
  = Ok ["garden"; "Acme garden"; "mouse"].
Proof. vm_compute. reflexivity. Qed.

End Checks.

(* ===================================================================== *)
(** * Facts about the runtime fragments *)
(* ===================================================================== *)

Module PyFacts.
Import Py Invariants.

Lemma mem_In (x : string) (l : list string) : mem x l = true <-> In x l.
Proof.
  induction l as [|y l IH]; simpl.
  - split; [discriminate | tauto].
  - rewrite orb_true_iff, IH, String.eqb_eq. split; intros [H|H]; auto.
Qed.

Lemma mem_not_In (x : string) (l : list string) : mem x l = false <-> ~ In x l.
Proof.
  rewrite <- mem_In. destruct (mem x l); split; intro H; try reflexivity;
    try discriminate; try (intro; discriminate). exfalso; apply H; reflexivity.
Qed.

(** ** Lists and loops *)

Lemma NoDup_snoc {A} (l : list A) (x : A) : NoDup l -> ~ In x l -> NoDup (l ++ [x]).
Proof.
  intros Hl Hx. apply NoDup_app; auto.
  - repeat constructor. simpl. tauto.
  - intros y Hy [<-|[]]. contradiction.
Qed.

Lemma fold_left_invariant {S A} (P : S -> Prop) (f : S -> A -> S) (l : list A) (s : S) :
  P s -> (forall s x, In x l -> P s -> P (f s x)) -> P (fold_left f l s).
Proof.
  revert s. induction l as [|a l IH]; intros s Hs Hstep; simpl; auto.
  apply IH.
  - apply Hstep; simpl; auto.
  - intros s' x Hx. apply Hstep. now right.
Qed.

Section Dict.
Context {V : Type}.
Implicit Types (d : dict V) (k : string) (v : V).

Lemma dict_get_set_eq d k v : dict_get (dict_set d k v) k = Some v.
Proof.
  induction d as [|[k' v'] d IH]; simpl.
  - now rewrite String.eqb_refl.
  - destruct (k =? k')%string eqn:E; simpl; rewrite E; auto.
Qed.

Lemma dict_get_set_neq d k k' v :
  k <> k' -> dict_get (dict_set d k v) k' = dict_get d k'.
Proof.
  intros Hne. induction d as [|[k0 v0] d IH]; simpl.
  - destruct (k' =? k)%string eqn:E; auto.
    apply String.eqb_eq in E. congruence.
  - destruct (k =? k0)%string eqn:E; simpl.
    + apply String.eqb_eq in E. subst k0.
      destruct (k' =? k)%string eqn:E'; auto.
      apply String.eqb_eq in E'. congruence.
    + now rewrite IH.
Qed.

Lemma dict_has_set d k k' v :
  dict_has (dict_set d k v) k' = (k' =? k)%string || dict_has d k'.
Proof.
  unfold dict_has. destruct (k' =? k)%string eqn:E.
  - apply String.eqb_eq in E. subst. now rewrite dict_get_set_eq.
  - rewrite dict_get_set_neq; auto. intros ->. now rewrite String.eqb_refl in E.
Qed.

Lemma dict_has_keys d k : dict_has d k = mem k (dict_keys d).
Proof.
  unfold dict_has. induction d as [|[k' v'] d IH]; simpl; auto.
  destruct (k =? k')%string; auto.
Qed.

Lemma dict_get_In d k v : dict_get d k = Some v -> In (k, v) d.
Proof.
  induction d as [|[k' v'] d IH]; simpl; [discriminate|].
  destruct (k =? k')%string eqn:E.
  - apply String.eqb_eq in E. intros [= ->]. subst. now left.
  - intros H. right. auto.
Qed.

Lemma dict_keys_set d k v :
  dict_keys (dict_set d k v) =
  if dict_has d k then dict_keys d else dict_keys d ++ [k].
Proof.
  unfold dict_has. induction d as [|[k' v'] d IH]; simpl; auto.
  destruct (k =? k')%string eqn:E; simpl; auto.
  rewrite IH. destruct (dict_get d k); auto.
Qed.

Lemma dict_keys_NoDup_set d k v :
  NoDup (dict_keys d) -> NoDup (dict_keys (dict_set d k v)).
Proof.
  intros H. rewrite dict_keys_set. destruct (dict_has d k) eqn:E; auto.
  rewrite dict_has_keys in E. apply mem_not_In in E. now apply NoDup_snoc.
Qed.

Lemma dict_set_In d k v k' v' :
  In (k', v') (dict_set d k v) -> (k' = k /\ v' = v) \/ In (k', v') d.
Proof.
  induction d as [|[k0 v0] d IH]; simpl.
  - intros [[= <- <-]|[]]. auto.
  - destruct (String.eqb_spec k k0) as [<-|Hne]; simpl.
    + intros [[= <- <-]|H]; auto.
    + intros [H|H]; auto. destruct (IH H); auto.
Qed.
End Dict.

(** ** The result monad *)

Lemma bind_Ok {A B} (m : result A) (k : A -> result B) (b : B) :
  bind m k = Ok b -> exists a, m = Ok a /\ k a = Ok b.
Proof. destruct m as [a|e]; simpl; [eauto | discriminate]. Qed.

Lemma Ok_inj {A} (a b : A) : Ok a = Ok b -> a = b.
Proof. now intros [= ->]. Qed.

Lemma mapM_In {A B} (f : A -> result B) (l : list A) (ys : list B) :
  mapM f l = Ok ys -> forall y, In y ys -> exists x, In x l /\ f x = Ok y.
Proof.
  revert ys. induction l as [|a l IH]; intros ys; simpl.
  - intros [= <-] y [].
  - intros H. apply bind_Ok in H. destruct H as (b & Hb & H).
    apply bind_Ok in H. destruct H as (bs & Hbs & [= <-]).
    intros y [<-|Hy]; [eauto|].
    destruct (IH bs Hbs y Hy) as (x & Hx & Hf). eauto.
Qed.

Lemma mapM_all {A B} (f : A -> result B) (l : list A) (ys : list B) :
  mapM f l = Ok ys -> forall x, In x l -> exists y, In y ys /\ f x = Ok y.
Proof.
  revert ys. induction l as [|a l IH]; intros ys; simpl.
  - intros _ x [].
  - intros H. apply bind_Ok in H. destruct H as (b & Hb & H).
    apply bind_Ok in H. destruct H as (bs & Hbs & [= <-]).
    intros x [<-|Hx]; [exists b; simpl; auto|].
    destruct (IH bs Hbs x Hx) as (y & Hy & Hf). exists y. simpl. auto.
Qed.

(** Where the entries of a dictionary filled in a loop come from. *)
Lemma fold_set_get {A V} (key : A -> string) (val : A -> V) (l : list A)
  (d0 : dict V) (k : string) (v : V) :
  dict_get (fold_left (fun d a => dict_set d (key a) (val a)) l d0) k = Some v ->
  dict_get d0 k = Some v \/ exists a, In a l /\ v = val a.
Proof.
  revert d0. induction l as [|a l IH]; intros d0; simpl; [auto|].
  intros H. destruct (IH _ H) as [H0|(a' & Ha & Hv)].
  - destruct (String.eqb_spec (key a) k) as [<-|Hne].
    + rewrite dict_get_set_eq in H0. injection H0 as <-. right. eauto.
    + rewrite dict_get_set_neq in H0 by assumption. auto.
  - right. eauto.
Qed.

Lemma foldM_set_get {V W} (f : string -> result W) (h : W -> V) (l : list string)
  (d0 d : dict V) (k : string) (v : V) :
  foldM (fun d n => bind (f n) (fun w => Ok (dict_set d n (h w)))) l d0 = Ok d ->
  dict_get d k = Some v ->
  dict_get d0 k = Some v \/ exists n w, In n l /\ f n = Ok w /\ v = h w.
Proof.
  revert d0. induction l as [|a l IH]; intros d0; simpl.
  - intros [= <-]. auto.
  - intros H Hk. apply bind_Ok in H. destruct H as (d1 & Hd1 & H).
    apply bind_Ok in Hd1. destruct Hd1 as (w & Hw & [= <-]).
    destruct (IH _ H Hk) as [H0|(n & w' & Hn & Hf & Hv)].
    + destruct (String.eqb_spec a k) as [<-|Hne].
      * rewrite dict_get_set_eq in H0. injection H0 as <-. right. eauto 6.
      * rewrite dict_get_set_neq in H0 by assumption. auto.
    + right. eauto 6.
Qed.

(** ** Sorting *)

Section SortFacts.
Context {A : Type} (ltb : A -> A -> bool).

Lemma insert_desc_perm (x : A) (l : list A) :
  Permutation (insert_desc ltb x l) (x :: l).
Proof.
  induction l as [|y l IH]; simpl; auto.
  destruct (ltb x y); auto.
  eapply perm_trans; [apply perm_skip, IH | apply perm_swap].
Qed.

Lemma sort_desc_perm (l : list A) : Permutation (sort_desc ltb l) l.
Proof.
  induction l as [|x l IH]; simpl; auto.
  eapply perm_trans; [apply insert_desc_perm | now apply perm_skip].
Qed.

Lemma sort_desc_In (l : list A) (x : A) : In x (sort_desc ltb l) <-> In x l.
Proof.
  split; apply Permutation_in; [|symmetry]; apply sort_desc_perm.
Qed.

Local Abbreviation not_below := (Invariants.not_below ltb).

Hypothesis ltb_asym : forall x y, ltb x y = true -> ltb y x = false.

Lemma insert_desc_sorted (x : A) (l : list A) :
  Sorted not_below l -> Sorted not_below (insert_desc ltb x l).
Proof.
  induction l as [|y l IH]; simpl; intros Hs.
  - repeat constructor.
  - destruct (ltb x y) eqn:E.
    + inversion Hs as [|? ? Hs' Hhd]; subst. constructor; auto.
      destruct l as [|z l]; simpl in *.
      * constructor. now apply ltb_asym.
      * destruct (ltb x z); constructor.
        -- now inversion Hhd.
        -- now apply ltb_asym.
    + constructor; auto.
Qed.

Lemma sort_desc_sorted (l : list A) : Sorted not_below (sort_desc ltb l).
Proof.
  induction l as [|x l IH]; simpl; [constructor | now apply insert_desc_sorted].
Qed.
End SortFacts.

Lemma firstn_In {A} (n : nat) (l : list A) (x : A) : In x (firstn n l) -> In x l.
Proof.
  revert n. induction l as [|y l IH]; intros [|n]; simpl; try tauto.
  intros [H|H]; eauto.
Qed.

Lemma firstn_NoDup {A} (n : nat) (l : list A) : NoDup l -> NoDup (firstn n l).
Proof.
  revert n. induction l as [|x l IH]; intros [|n] H; simpl; try constructor.
  - inversion H; subst. intros Hin. apply firstn_In in Hin. contradiction.
  - inversion H; subst. auto.
Qed.

Lemma firstn_StronglySorted {A} (R : A -> A -> Prop) (n : nat) (l : list A) :
  StronglySorted R l -> StronglySorted R (firstn n l).
Proof.
  revert n. induction l as [|x l IH]; intros [|n] H; simpl; try constructor.
  - inversion H; subst. auto.
  - inversion H as [|? ? ? Hall]; subst.
    apply Forall_forall. intros y Hy. apply firstn_In in Hy.
    revert y Hy. now apply Forall_forall.
Qed.

(** ** Numbers *)

Lemma Qltb_true (a b : Q) : Qltb a b = true <-> (a < b)%Q.
Proof.
  unfold Qltb. rewrite negb_true_iff. split.
  - intros H. apply Qnot_le_lt. intros Hle. apply Qle_bool_iff in Hle. congruence.
  - intros H. destruct (Qle_bool b a) eqn:E; auto.
    apply Qle_bool_iff in E. exfalso. eapply Qlt_not_le; eauto.
Qed.

Lemma Qltb_false (a b : Q) : Qltb a b = false <-> (b <= a)%Q.
Proof.
  unfold Qltb. rewrite negb_false_iff. apply Qle_bool_iff.
Qed.

Lemma Qltb_asym (a b : Q) : Qltb a b = true -> Qltb b a = false.
Proof.
  rewrite Qltb_true, Qltb_false. apply Qlt_le_weak.
Qed.

Lemma StronglySorted_impl {A} (R S : A -> A -> Prop) (l : list A) :
  (forall a b, R a b -> S a b) -> StronglySorted R l -> StronglySorted S l.
Proof.
  intros HRS. induction 1 as [|x l Hs IH Hall]; constructor; auto.
  eapply Forall_impl; [|exact Hall]. auto.
Qed.

(** ** Text functions *)

Lemma lower_ascii_idem (a : ascii) : lower_ascii (lower_ascii a) = lower_ascii a.
Proof. destruct a as [[] [] [] [] [] [] [] []]; reflexivity. Qed.

Lemma is_space_lower_ascii (a : ascii) : is_space (lower_ascii a) = is_space a.
Proof. destruct a as [[] [] [] [] [] [] [] []]; reflexivity. Qed.

Lemma lower_idem (s : string) : lower (lower s) = lower s.
Proof.
  induction s as [|a s IH]; simpl; [reflexivity|].
  now rewrite lower_ascii_idem, IH.
Qed.

Lemma lower_collapse (b : bool) (s : string) :
  lower (collapse_ws_from b s) = collapse_ws_from b (lower s).
Proof.
  revert b. induction s as [|a s IH]; intros b; simpl; [reflexivity|].
  rewrite is_space_lower_ascii.
  destruct (is_space a); [destruct b|]; simpl; now rewrite ?IH.
Qed.

Lemma length_lower (s : string) : String.length (lower s) = String.length s.
Proof. induction s as [|a s IH]; simpl; auto. Qed.

Lemma append_empty_r (s : string) : (s ++ "")%string = s.
Proof. induction s as [|a s IH]; simpl; [reflexivity | now rewrite IH]. Qed.

Lemma append_snoc (s t : string) (a : ascii) :
  ((s ++ String a "") ++ t)%string = (s ++ String a t)%string.
Proof. induction s as [|b s IH]; simpl; [reflexivity | now rewrite IH]. Qed.

Lemma append_nonempty (s t : string) (a : ascii) : (s ++ String a t)%string <> "".
Proof. destruct s; discriminate. Qed.

Lemma no_space_lower (s : string) : no_space (lower s) = no_space s.
Proof.
  induction s as [|a s IH]; simpl; [reflexivity|].
  now rewrite is_space_lower_ascii, IH.
Qed.

Lemma split_from_no_space (s cur : string) :
  no_space s = true ->
  split_from cur s = if (cur ++ s =? "")%string then [] else [(cur ++ s)%string].
Proof.
  revert cur. induction s as [|a s IH]; intros cur; simpl.
  - now rewrite append_empty_r.
  - intros H. apply andb_true_iff in H. destruct H as [Ha Hs].
    apply negb_true_iff in Ha. rewrite Ha, (IH _ Hs), append_snoc. reflexivity.
Qed.

(** A single word splits into itself. *)
Lemma split_single_word (s : string) :
  no_space s = true -> s <> "" -> split s = [s].
Proof.
  intros Hs Hne. unfold split. rewrite split_from_no_space by assumption. simpl.
  destruct (String.eqb_spec s ""); [contradiction | reflexivity].
Qed.

(** ** Counters *)

Lemma counter_add_keys (c : Counter) (k : string) :
  dict_keys (counter_add c k)
  = if mem k (dict_keys c) then dict_keys c else dict_keys c ++ [k].
Proof.
  induction c as [|[k' n] c IH]; simpl; [reflexivity|].
  destruct (k =? k')%string; simpl; [reflexivity|].
  rewrite IH. now destruct (mem k (dict_keys c)).
Qed.

Lemma counter_add_NoDup (c : Counter) (k : string) :
  NoDup (dict_keys c) -> NoDup (dict_keys (counter_add c k)).
Proof.
  intros H. rewrite counter_add_keys. destruct (mem k (dict_keys c)) eqn:E; auto.
  apply mem_not_In in E. now apply NoDup_snoc.
Qed.

Lemma counter_fold_keys (l : list string) (c : Counter) :
  NoDup (dict_keys c) ->
  NoDup (dict_keys (fold_left counter_add l c))
  /\ forall k, In k (dict_keys (fold_left counter_add l c)) ->
               In k (dict_keys c) \/ In k l.
Proof.
  revert c. induction l as [|x l IH]; intros c Hc; simpl; [auto|].
  destruct (IH (counter_add c x) (counter_add_NoDup c x Hc)) as [H1 H2].
  split; auto. intros k Hk. destruct (H2 k Hk) as [H|H]; auto.
  rewrite counter_add_keys in H. destruct (mem x (dict_keys c)); auto.
  apply in_app_or in H. destruct H as [H|[<-|[]]]; auto.
Qed.

Lemma counter_of_NoDup (l : list string) : NoDup (dict_keys (counter_of l)).
Proof. apply counter_fold_keys. constructor. Qed.

Lemma counter_of_In (l : list string) (k : string) :
  In k (dict_keys (counter_of l)) -> In k l.
Proof.
  intros H. destruct (proj2 (counter_fold_keys l [] (NoDup_nil _)) k H) as [[]|]; auto.
Qed.

Lemma most_common_In (n : nat) (c : Counter) (kv : string * Z) :
  In kv (most_common n c) -> In kv c.
Proof.
  unfold most_common. intros H. apply firstn_In in H. now apply sort_desc_In in H.
Qed.

Lemma most_common_NoDup (n : nat) (c : Counter) :
  NoDup (dict_keys c) -> NoDup (map fst (most_common n c)).
Proof.
  intros H. unfold most_common. rewrite <- firstn_map. apply firstn_NoDup.
  eapply Permutation_NoDup; [|exact H].
  apply Permutation_map. symmetry. apply sort_desc_perm.
Qed.

Lemma prefix_length (s t : string) :
  String.prefix s t = true ->
  String.length s <= String.length t /\ (String.length s = String.length t -> s = t).
Proof.
  revert t. induction s as [|a s IH]; intros t; simpl.
  - intros _. split; [lia|]. destruct t; [reflexivity | intros H; discriminate H].
  - destruct t as [|b t]; [intros H; discriminate H|]. simpl.
    destruct (ascii_dec a b) as [->|]; [|intros H; discriminate H].
    intros H. destruct (IH t H) as [H1 H2]. split; [lia|].
    intros Hlen. f_equal. apply H2. lia.
Qed.

(** A piece of a text is no longer than the text, and as long only when it
    is the text. *)
Lemma contains_length (s t : string) :
  contains s t = true ->
  String.length s <= String.length t /\ (String.length s = String.length t -> s = t).
Proof.
  induction t as [|b t IH].
  - cbn [contains]. rewrite orb_false_r. apply prefix_length.
  - cbn [contains]. intros H. apply orb_true_iff in H. destruct H as [H|H].
    + now apply prefix_length.
    + destruct (IH H) as [H1 _]. simpl. split; lia.
Qed.

Lemma NoDup_map_injective {A B} (f : A -> B) (l : list A) (a b : A) :
  NoDup (map f l) -> In a l -> In b l -> f a = f b -> a = b.
Proof.
  induction l as [|x l IH]; simpl; [tauto|].
  intros Hnd Ha Hb Hf. inversion Hnd as [|? ? Hx Hl]; subst.
  destruct Ha as [->|Ha], Hb as [->|Hb]; auto.
  - exfalso. apply Hx. rewrite Hf. now apply in_map.
  - exfalso. apply Hx. rewrite <- Hf. now apply in_map.
Qed.

Lemma mapM_total {A B} (f : A -> result B) (l : list A) :
  (forall x, In x l -> exists y, f x = Ok y) -> exists ys, mapM f l = Ok ys.
Proof.
  induction l as [|a l IH]; intros H; simpl; [eauto|].
  destruct (H a (or_introl eq_refl)) as (y & Hy).
  destruct IH as (ys & Hys); [intros x Hx; apply H; now right|].
  rewrite Hy, Hys. simpl. eauto.
Qed.

End PyFacts.

(* ===================================================================== *)
(** * Journey generator: strategy selection and degenerate inputs *)
(* ===================================================================== *)

Module JourneySelection.
Import Py PyFacts Journey Samples Invariants.

Lemma nodes_fold_has (l : list Node) (d : dict Node) (k : string) :
  dict_has (fold_left (fun d node => dict_set d (id node) node) l d) k
  = dict_has d k || mem k (map id l).
Proof.
  revert d. induction l as [|n l IH]; intros d; simpl.
  - now rewrite orb_false_r.
  - rewrite IH, dict_has_set.
    destruct (dict_has d k), (k =? id n)%string; simpl; auto.
Qed.

(** The keys of the local node table are the ids of the map's nodes. *)
Lemma nodes_of_has (km : KnowledgeMap) (k : string) :
  dict_has (nodes_of km) k = mem k (map id (nodes km)).
Proof. unfold nodes_of. now rewrite nodes_fold_has. Qed.

(** C8.  A missing knowledge map, a missing or empty start concept, or a
    start concept that is not the id of a node of the map gives, without
    an exception, the journey with an empty path, an empty content table
    and the metadata medium / medium / default. *)
Theorem C8_degenerate_inputs (limit : nat) (g : rng) (km : option KnowledgeMap)
  (start : option string) (prefs : option (dict value)) :
  (km = None \/ start = None \/ start = Some ""
   \/ exists m s, km = Some m /\ start = Some s /\ ~ In s (map id (nodes m))) ->
  generate_journey limit g km start prefs
  = Ok (mkJourney start [] [] (mkMetadata "medium" "medium" "default")).
Proof.
  intros [-> | [-> | [-> | (m & s & -> & -> & Hs)]]].
  - reflexivity.
  - now destruct km.
  - now destruct km.
  - unfold generate_journey.
    destruct (s =? "")%string; [reflexivity|].
    rewrite nodes_of_has.
    apply mem_not_In in Hs. now rewrite Hs.
Qed.

Lemma C8_degenerate_inputs_witness :
  generate_journey 8 [] (Some sample_map) (Some "dog") None
  = Ok (mkJourney (Some "dog") [] [] (mkMetadata "medium" "medium" "default")).
Proof.
  apply C8_degenerate_inputs. right; right; right.
  exists sample_map, "dog". split; [reflexivity|]. split; [reflexivity|].
  simpl. intros [H|[H|[]]]; discriminate H.
Defined.

(** C4, as the code has it.  When no preference decides, a start concept of
    type noun_phrase or key_term gives pattern_based, one of type ORG,
    PERSON or GPE gives hierarchical, and every other type, the entity
    labels LOC, PRODUCT, EVENT, WORK_OF_ART and LAW among them, gives
    associative. *)
Theorem C4_type_heuristic (start : string) (km : KnowledgeMap)
  (prefs : option (dict value)) :
  preference_decides prefs = false ->
  let t := concept_type_of start (nodes_of km) in
  let r := _determine_journey_type start (nodes_of km) prefs in
  (In t ["noun_phrase"; "key_term"] -> r = "pattern_based")
  /\ (In t ["ORG"; "PERSON"; "GPE"] -> r = "hierarchical")
  /\ (~ In t ["noun_phrase"; "key_term"; "ORG"; "PERSON"; "GPE"] -> r = "associative")
  /\ (In t ["LOC"; "PRODUCT"; "EVENT"; "WORK_OF_ART"; "LAW"] -> r = "associative").
Proof.
  intros Hund t r.
  assert (Hr : r = type_heuristic start (nodes_of km)).
  { subst r. unfold _determine_journey_type, preference_decides in *.
    destruct prefs as [[|kv prefs]|]; try reflexivity.
    destruct (named_type _); [discriminate|].
    repeat (apply orb_false_iff in Hund; destruct Hund as [Hund ?]).
    now rewrite Hund, H0, H. }
  rewrite Hr. unfold type_heuristic. fold t.
  repeat split.
  - intros [<-|[<-|[]]]; reflexivity.
  - intros [<-|[<-|[<-|[]]]]; reflexivity.
  - intros Hn.
    destruct (mem t ["noun_phrase"; "key_term"]) eqn:E1.
    { apply mem_In in E1. exfalso. apply Hn. simpl in *. intuition. }
    destruct (mem t ["ORG"; "PERSON"; "GPE"]) eqn:E2; [|reflexivity].
    apply mem_In in E2. exfalso. apply Hn. simpl in *. intuition.
  - intros [<-|[<-|[<-|[<-|[<-|[]]]]]]; reflexivity.
Qed.

Lemma C4_type_heuristic_witness :
  _determine_journey_type "cat" (nodes_of sample_map) None = "pattern_based"
  /\ _determine_journey_type "Acme" (nodes_of sample_map) (Some []) = "associative".
Proof.
  split.
  - apply (C4_type_heuristic "cat" sample_map None); [reflexivity|].
    simpl. auto.
  - apply (C4_type_heuristic "Acme" sample_map (Some [])); [reflexivity|].
    simpl. auto 10.
Defined.

(** C4 as stated fails: PRODUCT is on the extraction allow-list, yet a start
    concept of that type is sent to the associative strategy. *)
Lemma C4_counterexample :
  In "PRODUCT" Extractor.entity_labels
  /\ preference_decides None = false
  /\ concept_type_of "Acme" (nodes_of sample_map) = "PRODUCT"
  /\ _determine_journey_type "Acme" (nodes_of sample_map) None = "associative"
  /\ _determine_journey_type "Acme" (nodes_of sample_map) None <> "hierarchical".
Proof.
  repeat split; try reflexivity.
  - simpl. auto 10.
  - discriminate.
Qed.

(** C5.  A preferred_journey_type naming pattern_based, hierarchical or
    associative is selected whatever the start concept and its type; when
    none is named, pattern_seeking_level = high gives pattern_based, else
    hierarchical_preference = high gives hierarchical, else
    associative_preference = high gives associative. *)
Theorem C5_preference_priority (start : string) (km : KnowledgeMap)
  (prefs : dict value) :
  let r := _determine_journey_type start (nodes_of km) (Some prefs) in
  let flag k := dict_get prefs k = Some (VStr "high") in
  (forall t, dict_get prefs "preferred_journey_type" = Some (VStr t) ->
             In t ["pattern_based"; "hierarchical"; "associative"] -> r = t)
  /\ ((forall t, dict_get prefs "preferred_journey_type" = Some (VStr t) ->
                 ~ In t ["pattern_based"; "hierarchical"; "associative"]) ->
      (flag "pattern_seeking_level" -> r = "pattern_based")
      /\ (~ flag "pattern_seeking_level" -> flag "hierarchical_preference" ->
          r = "hierarchical")
      /\ (~ flag "pattern_seeking_level" -> ~ flag "hierarchical_preference" ->
          flag "associative_preference" -> r = "associative")).
Proof.
  intros r flag.
  assert (Hhigh : forall k, is_high (dict_get prefs k) = true <-> flag k).
  { intros k. unfold flag, is_high.
    destruct (dict_get prefs k) as [[| | |s]|]; try (split; [discriminate|intros [=]]).
    rewrite String.eqb_eq. split; [now intros ->|now intros [= ->]]. }
  assert (Hlow : forall k, ~ flag k -> is_high (dict_get prefs k) = false).
  { intros k Hk. destruct (is_high (dict_get prefs k)) eqn:E; auto.
    apply Hhigh in E. contradiction. }
  split.
  - intros t Ht Hin. subst r. unfold _determine_journey_type.
    destruct prefs as [|kv prefs]; [discriminate|].
    rewrite Ht. unfold named_type.
    apply mem_In in Hin. unfold journey_types. now rewrite Hin.
  - intros Hnone.
    assert (Hn : named_type (dict_get prefs "preferred_journey_type") = None).
    { unfold named_type.
      destruct (dict_get prefs "preferred_journey_type") as [[| | |t]|]; auto.
      destruct (mem t journey_types) eqn:E; auto.
      apply mem_In in E. exfalso. exact (Hnone t eq_refl E). }
    assert (Hne : forall k, flag k -> prefs <> []).
    { intros k Hk ->. discriminate Hk. }
    subst r. unfold _determine_journey_type. repeat split.
    + intros H1. destruct prefs as [|kv prefs]; [now apply Hne in H1|].
      rewrite Hn. apply Hhigh in H1. now rewrite H1.
    + intros H1 H2. destruct prefs as [|kv prefs]; [now apply Hne in H2|].
      rewrite Hn, (Hlow _ H1). apply Hhigh in H2. now rewrite H2.
    + intros H1 H2 H3. destruct prefs as [|kv prefs]; [now apply Hne in H3|].
      rewrite Hn, (Hlow _ H1), (Hlow _ H2). apply Hhigh in H3. now rewrite H3.
Qed.

Lemma C5_preference_priority_witness :
  _determine_journey_type "cat" (nodes_of sample_map)
    (Some [("preferred_journey_type", VStr "hierarchical");
           ("pattern_seeking_level", VStr "high")]) = "hierarchical"
  /\ _determine_journey_type "cat" (nodes_of sample_map)
       (Some [("preferred_journey_type", VStr "scenic");
              ("hierarchical_preference", VStr "high");
              ("associative_preference", VStr "high")]) = "hierarchical".
Proof.
  split.
  - apply (proj1 (C5_preference_priority "cat" sample_map _) "hierarchical").
    + reflexivity.
    + simpl. auto.
  - apply (proj2 (C5_preference_priority "cat" sample_map _)).
    + intros t [= <-]. simpl. intros [H|[H|[H|[]]]]; discriminate H.
    + discriminate.
    + reflexivity.
Defined.

End JourneySelection.

(* ===================================================================== *)
(** * Facts about the graph fragment *)
(* ===================================================================== *)

Module NxFacts.
Import Py PyFacts Invariants.

Section Graphs.
Context {N E : Type}.
Implicit Types (G : Nx.Graph N E) (n u v : string).

Lemma dict_set_not_nil {V} (d : dict V) k (x : V) : dict_set d k x <> [].
Proof. destruct d as [|[k' v'] d]; simpl; [|destruct (k =? k')%string]; discriminate. Qed.

Lemma nodes_add_node_not_nil G n (a : option N) : Nx.nodes (Nx.add_node G n a) <> [].
Proof.
  unfold Nx.add_node, Nx.nodes, Nx.has_node.
  destruct (dict_has (Nx.g_nodes G) n) eqn:Hn.
  - destruct a; simpl.
    + unfold dict_keys. intros H. apply map_eq_nil in H.
      now apply dict_set_not_nil in H.
    + destruct (Nx.g_nodes G); [discriminate Hn | discriminate].
  - simpl. unfold dict_keys. intros H. apply map_eq_nil in H.
    now apply dict_set_not_nil in H.
Qed.

Lemma nodes_set_arc G u v (d : E) : Nx.nodes (Nx.set_arc G u v d) = Nx.nodes G.
Proof. reflexivity. Qed.

Lemma nodes_add_edge_not_nil G u v (d : E) : Nx.nodes (Nx.add_edge G u v d) <> [].
Proof.
  unfold Nx.add_edge. rewrite !nodes_set_arc. apply nodes_add_node_not_nil.
Qed.
Lemma dict_get_set {V} (d : dict V) k k' (x : V) :
  dict_get (dict_set d k x) k' = if (k' =? k)%string then Some x else dict_get d k'.
Proof.
  destruct (String.eqb_spec k' k) as [->|Hne].
  - apply dict_get_set_eq.
  - apply dict_get_set_neq. congruence.
Qed.

Lemma dict_keys_set_In {V} (d : dict V) k (x : V) m :
  In m (dict_keys (dict_set d k x)) -> m = k \/ In m (dict_keys d).
Proof.
  rewrite dict_keys_set. destruct (dict_has d k); auto.
  intros H. apply in_app_or in H. destruct H as [H|[<-|[]]]; auto.
Qed.

Lemma neighbors_set_arc G u v (d : E) u' :
  Nx.neighbors (Nx.set_arc G u v d) u'
  = if (u' =? u)%string then dict_set (Nx.neighbors G u) v d else Nx.neighbors G u'.
Proof.
  unfold Nx.neighbors, Nx.set_arc, dict_get_or. simpl. rewrite dict_get_set.
  now destruct (u' =? u)%string.
Qed.

Lemma successors_set_arc_In G u v (d : E) u' w :
  In w (Nx.successors (Nx.set_arc G u v d) u') ->
  (u' = u /\ w = v) \/ In w (Nx.successors G u').
Proof.
  unfold Nx.successors. rewrite neighbors_set_arc.
  destruct (String.eqb_spec u' u) as [->|Hne]; auto.
  intros H. apply dict_keys_set_In in H. destruct H as [->|H]; auto.
Qed.

Lemma successors_add_node_In G n (a : option N) u w :
  In w (Nx.successors (Nx.add_node G n a) u) -> In w (Nx.successors G u).
Proof.
  unfold Nx.add_node. destruct (Nx.has_node G n); [now destruct a|].
  unfold Nx.successors, Nx.neighbors, dict_get_or. simpl. rewrite dict_get_set.
  destruct (u =? n)%string; [intros []|auto].
Qed.

Lemma nodes_add_node_In G n (a : option N) m :
  In m (Nx.nodes (Nx.add_node G n a)) -> m = n \/ In m (Nx.nodes G).
Proof.
  unfold Nx.add_node, Nx.nodes. destruct (Nx.has_node G n).
  - destruct a; simpl; auto. apply dict_keys_set_In.
  - simpl. apply dict_keys_set_In.
Qed.

Lemma has_node_add_node G n (a : option N) m :
  Nx.has_node (Nx.add_node G n a) m = (m =? n)%string || Nx.has_node G m.
Proof.
  unfold Nx.add_node. destruct (Nx.has_node G n) eqn:Hn.
  - destruct a; unfold Nx.has_node in *; simpl.
    + apply dict_has_set.
    + destruct (String.eqb_spec m n) as [->|]; auto.
  - unfold Nx.has_node. simpl. apply dict_has_set.
Qed.

Lemma add_node_known G n : Nx.has_node G n = true -> Nx.add_node G n None = G.
Proof. unfold Nx.add_node. now intros ->. Qed.

(** An arc between two known nodes leaves the node table alone. *)
Lemma g_nodes_add_arc G u v (d : E) :
  Nx.has_node G u = true -> Nx.has_node G v = true ->
  Nx.g_nodes (Nx.add_arc G u v d) = Nx.g_nodes G.
Proof.
  intros Hu Hv. unfold Nx.add_arc. now rewrite (add_node_known G u Hu), (add_node_known G v Hv).
Qed.

Lemma successors_add_arc_In G u v (d : E) u' w :
  In w (Nx.successors (Nx.add_arc G u v d) u') ->
  (u' = u /\ w = v) \/ In w (Nx.successors G u').
Proof.
  unfold Nx.add_arc. intros H. apply successors_set_arc_In in H.
  destruct H as [H|H]; auto. right.
  now apply successors_add_node_In, successors_add_node_In in H.
Qed.
(** ** Undirected edges *)

Lemma adj_ok_empty : adj_ok (@Nx.empty N E).
Proof. split; [constructor | split; [intros u nbrs [] | intros u v []]]. Qed.

Lemma neighbors_NoDup G u : adj_ok G -> NoDup (dict_keys (Nx.neighbors G u)).
Proof.
  intros (_ & H2 & _). unfold Nx.neighbors, dict_get_or.
  destruct (dict_get (Nx.g_adj G) u) as [nbrs|] eqn:Eg; [|constructor].
  apply dict_get_In in Eg. eauto.
Qed.

Lemma adj_ok_add_node G n (a : option N) : adj_ok G -> adj_ok (Nx.add_node G n a).
Proof.
  intros HG. unfold Nx.add_node. destruct (Nx.has_node G n); [now destruct a|].
  destruct HG as (H1 & H2 & H3). split; [|split]; simpl.
  - now apply dict_keys_NoDup_set.
  - intros u nbrs Hin. apply dict_set_In in Hin.
    destruct Hin as [[_ ->]|Hin]; [constructor | eauto].
  - intros u v. unfold Nx.neighbors, dict_get_or. simpl. rewrite dict_get_set.
    destruct (u =? n)%string; [intros [] | apply H3].
Qed.

Lemma adj_ok_set_arc G u v (d : E) : u <> v -> adj_ok G -> adj_ok (Nx.set_arc G u v d).
Proof.
  intros Hne HG. pose proof (neighbors_NoDup G u HG) as Hu.
  destruct HG as (H1 & H2 & H3). split; [|split].
  - simpl. now apply dict_keys_NoDup_set.
  - simpl. intros u' nbrs Hin. apply dict_set_In in Hin.
    destruct Hin as [[_ ->]|Hin]; [now apply dict_keys_NoDup_set | eauto].
  - intros u' w. rewrite neighbors_set_arc.
    destruct (String.eqb_spec u' u) as [->|Hu']; [|apply H3].
    intros Hin. apply dict_keys_set_In in Hin. destruct Hin as [->|Hin]; auto.
Qed.

Lemma adj_ok_add_edge G u v (d : E) : u <> v -> adj_ok G -> adj_ok (Nx.add_edge G u v d).
Proof.
  intros Hne HG. unfold Nx.add_edge.
  apply adj_ok_set_arc; [congruence|]. apply adj_ok_set_arc; auto.
  now apply adj_ok_add_node, adj_ok_add_node.
Qed.

Lemma adj_ok_update_edge G u v (f : E -> E) : adj_ok G -> adj_ok (Nx.update_edge G u v f).
Proof.
  intros HG. unfold Nx.update_edge, Nx.edge_data.
  destruct (dict_get (Nx.neighbors G u) v) as [d|] eqn:Ed; auto.
  assert (Hne : u <> v).
  { destruct HG as (_ & _ & H3). apply H3. apply dict_get_In in Ed.
    unfold dict_keys. change v with (fst (v, d)). now apply in_map. }
  apply adj_ok_set_arc; [congruence|]. now apply adj_ok_set_arc.
Qed.

Lemma pair_key_inv u v (d : E) u' v' (d' : E) :
  pair_key (u, v, d) = pair_key (u', v', d') ->
  (u = u' /\ v = v') \/ (u = v' /\ v = u').
Proof.
  unfold pair_key. cbn [fst snd].
  destruct (u <=? v)%string, (u' <=? v')%string; intros [= -> ->]; auto.
Qed.

Lemma pair_key_swap u v (d : E) (d' : E) : pair_key (u, v, d) = pair_key (v, u, d').
Proof.
  unfold pair_key. cbn [fst snd].
  destruct (u <=? v)%string eqn:E1, (v <=? u)%string eqn:E2; auto.
  - f_equal; now apply String.leb_antisym.
  - destruct (String.leb_total u v); congruence.
Qed.

Lemma edges_from_In (adj : dict (dict E)) (seen : list string) u v (d : E) :
  In (u, v, d) (Nx.edges_from adj seen) ->
  ~ In v seen /\ exists nbrs, In (u, nbrs) adj /\ In (v, d) nbrs.
Proof.
  revert seen. induction adj as [|[n nbrs] adj IH]; intros seen; simpl; [tauto|].
  intros H. apply in_app_or in H. destruct H as [H|H].
  - apply in_map_iff in H. destruct H as ([w dw] & [= <- <- <-] & H).
    apply filter_In in H. destruct H as [Hin Hseen]. cbn [fst] in Hseen.
    apply negb_true_iff, mem_not_In in Hseen. eauto.
  - destruct (IH _ H) as (Hs & nb & H1 & H2). split.
    + intros Hin. apply Hs. now right.
    + eauto.
Qed.

Lemma edges_from_head_distinct (n : string) (nbrs : dict E) (p : string * E -> bool) :
  NoDup (dict_keys nbrs) ->
  NoDup (map pair_key (map (fun kv => (n, fst kv, snd kv)) (filter p nbrs))).
Proof.
  unfold dict_keys. induction nbrs as [|[w dw] nbrs IH]; simpl; [constructor|].
  intros Hnd. inversion Hnd as [|? ? Hw Hnd']; subst.
  destruct (p (w, dw)); simpl; auto. constructor; auto.
  intros Hin. apply in_map_iff in Hin. destruct Hin as ([[u' v'] d'] & Hk & Hin).
  apply in_map_iff in Hin. destruct Hin as ([w' dw'] & [= <- <- <-] & Hin).
  apply filter_In in Hin. destruct Hin as [Hin _]. cbn [fst snd] in Hk.
  apply Hw. apply pair_key_inv in Hk.
  assert (w' = w) as -> by (destruct Hk as [[_ ?]|[? ?]]; congruence).
  change w with (fst (w, dw')). now apply in_map.
Qed.

(** [edges] reports every unordered pair at most once. *)
Lemma edges_from_distinct (adj : dict (dict E)) (seen : list string) :
  NoDup (dict_keys adj) ->
  (forall u nbrs, In (u, nbrs) adj -> NoDup (dict_keys nbrs)) ->
  NoDup (map pair_key (Nx.edges_from adj seen)).
Proof.
  revert seen. induction adj as [|[n nbrs] adj IH]; intros seen Hk Hn; simpl;
    [constructor|].
  simpl in Hk. inversion Hk as [|? ? Hfresh Hk']; subst.
  rewrite map_app. apply NoDup_app.
  - apply edges_from_head_distinct. apply (Hn n). now left.
  - apply IH; auto. intros u nb Hin. apply (Hn u). now right.
  - intros k H1 H2.
    apply in_map_iff in H1. destruct H1 as ([[u1 v1] d1] & <- & H1).
    apply in_map_iff in H1. destruct H1 as ([w dw] & [= <- <- <-] & _).
    apply in_map_iff in H2. destruct H2 as ([[u2 v2] d2] & Hkey & H2).
    apply edges_from_In in H2. destruct H2 as (Hseen & nb & Hu2 & _).
    apply pair_key_inv in Hkey. destruct Hkey as [[-> _]|[_ ->]].
    + apply Hfresh. unfold dict_keys. change n with (fst (n, nb)). now apply in_map.
    + apply Hseen. now left.
Qed.

Lemma dict_In_get {V} (d : dict V) k (x : V) :
  NoDup (dict_keys d) -> In (k, x) d -> dict_get d k = Some x.
Proof.
  unfold dict_keys. induction d as [|[k0 x0] d IH]; simpl; [tauto|].
  intros Hnd. inversion Hnd as [|? ? Hk Hnd']; subst.
  intros [[= -> ->]|Hin].
  - now rewrite String.eqb_refl.
  - destruct (String.eqb_spec k k0) as [->|]; auto.
    exfalso. apply Hk. change k0 with (fst (k0, x)). now apply in_map.
Qed.

Lemma edges_irreflexive G u v (d : E) :
  adj_ok G -> In (u, v, d) (Nx.edges G) -> u <> v.
Proof.
  intros (H1 & H2 & H3) Hin. apply edges_from_In in Hin.
  destruct Hin as (_ & nbrs & Hu & Hv). apply H3.
  unfold Nx.neighbors, dict_get_or. rewrite (dict_In_get _ _ _ H1 Hu).
  unfold dict_keys. change v with (fst (v, d)). now apply in_map.
Qed.
End Graphs.

End NxFacts.

(* ===================================================================== *)
(** * Extractor: empty input and the co-occurrence / syntactic clash *)
(* ===================================================================== *)

Module ExtractorRuns.
Import Py PyFacts Extractor Samples Invariants.

(** C10.  With the 'content' key absent or empty the extractor returns,
    without consulting any collaborator, the record with no concepts, no
    relationships, no clusters and a hierarchy dictionary that has neither
    'roots' nor 'tree'; every successful run on a non-empty text returns a
    hierarchy with both keys. *)
Theorem C10_empty_content (env : Collaborators) (limit : nat) (pc : ProcessedContent) :
  content pc = None \/ content pc = Some "" ->
  extract_knowledge env limit pc = Ok (mkExtracted [] [] (mkHierarchy None None) [])
  /\ forall txt ek,
       txt <> "" ->
       extract_knowledge env limit (mkProcessed (Some txt)) = Ok ek ->
       roots (ek_hierarchy ek) <> None /\ tree (ek_hierarchy ek) <> None.
Proof.
  intros Hc. split.
  - unfold extract_knowledge. destruct Hc as [-> | ->]; reflexivity.
  - intros txt ek Hne. unfold extract_knowledge. simpl.
    destruct (txt =? "")%string eqn:E; [apply String.eqb_eq in E; contradiction|].
    destruct (_extract_concepts env txt) as [cs|]; simpl; [|discriminate].
    destruct (_extract_relationships env txt cs) as [rs|]; simpl; [|discriminate].
    unfold _generate_hierarchy.
    destruct (root_candidates_of _) as [rc|]; simpl; [|discriminate].
    destruct (foldM _ _ _) as [tr|]; simpl; [|discriminate].
    intros [= <-]. simpl. split; discriminate.
Qed.

Lemma C10_empty_content_witness :
  extract_knowledge learning_env 8 (mkProcessed None)
  = Ok (mkExtracted [] [] (mkHierarchy None None) []).
Proof.
  apply (C10_empty_content learning_env 8 (mkProcessed None)).
  left. reflexivity.
Defined.

(** C1, where the code departs from it.  In "Learning is analysis." the
    concepts "learning" and "analysis" first get a co-occurrence edge, which
    has no 'types' entry; the subject relation then finds the same pair again
    ("is" occurs inside "analysis") and the lookup of 'types' raises
    KeyError, so no relationship list is returned. *)
Theorem C1_shared_pair_raises :
  exists concepts,
    _extract_concepts learning_env learning_text = Ok concepts
    /\ map text concepts = ["learning"; "analysis"]
    /\ _extract_relationships learning_env learning_text concepts
       = Raise (KeyError "types")
    /\ extract_knowledge learning_env 8 (mkProcessed (Some learning_text))
       = Raise (KeyError "types").
Proof.
  eexists. split; [vm_compute; reflexivity|].
  split; [reflexivity|]. split; vm_compute; reflexivity.
Qed.

End ExtractorRuns.

(* ===================================================================== *)
(** * Knowledge-map builder: the layout fallback *)
(* ===================================================================== *)

Module MapperLayout.
Import Py PyFacts Mapper Samples Invariants.

Lemma build_graph_nodes_not_nil (ek : ExtractedIn) :
  in_concepts ek <> [] -> Nx.nodes (build_graph ek) <> [].
Proof.
  intros Hc. unfold build_graph.
  set (addn := fun G concept => Nx.add_node G (c_text concept) _).
  set (adde := fun G rel => Nx.add_edge G (r_source rel) (r_target rel) _).
  assert (Hn : forall cs G, Nx.nodes G <> [] -> Nx.nodes (fold_left addn cs G) <> []).
  { induction cs as [|c cs IH]; intros G HG; simpl; auto.
    apply IH. unfold addn. apply NxFacts.nodes_add_node_not_nil. }
  assert (He : forall rs G, Nx.nodes G <> [] -> Nx.nodes (fold_left adde rs G) <> []).
  { induction rs as [|r rs IH]; intros G HG; simpl; auto.
    apply IH. unfold adde. apply NxFacts.nodes_add_edge_not_nil. }
  apply He. destruct (in_concepts ek) as [|c cs]; [contradiction|]. simpl.
  apply Hn. unfold addn. apply NxFacts.nodes_add_node_not_nil.
Qed.

Lemma random_positions_raises (g : rng) (G : MapGraph) :
  Nx.nodes G <> [] -> random_positions g G = Raise (NameError "random").
Proof.
  unfold random_positions. destruct (Nx.nodes G) as [|n ns]; [contradiction|].
  reflexivity.
Qed.

(** C2, where the code departs from it.  With at least one concept and a
    layout call that raises, the handler evaluates [random.random()], but
    [mapper.py] never imports [random]: the handler itself raises NameError
    and no knowledge map is returned. *)
Theorem C2_layout_failure_raises (spring_layout : Layout) (g : rng) (ek : ExtractedIn) :
  in_concepts ek <> [] ->
  spring_layout (build_graph ek) = None ->
  generate_knowledge_map spring_layout g ek = Raise (NameError "random").
Proof.
  intros Hc Hl. unfold generate_knowledge_map.
  destruct (in_concepts ek) as [|c cs] eqn:E; [contradiction|].
  rewrite Hl, random_positions_raises; [reflexivity|].
  apply build_graph_nodes_not_nil. rewrite E. discriminate.
Qed.

Lemma C2_layout_failure_raises_witness :
  generate_knowledge_map failing_layout [1; 2] lone_concept = Raise (NameError "random").
Proof.
  apply C2_layout_failure_raises.
  - discriminate.
  - reflexivity.
Defined.

End MapperLayout.

(* ===================================================================== *)
(** * Knowledge-map builder: coordinates, sizes and cluster centres *)
(* ===================================================================== *)

Module MapperBounds.
Import Py PyFacts Mapper Samples Invariants.
Local Open Scope Q_scope.

Lemma Qmin_from_spec (l : list Q) (b : Q) :
  Qmin_from b l <= b /\ forall v, In v l -> Qmin_from b l <= v.
Proof.
  revert b. induction l as [|a l IH]; intros b; simpl.
  - split; [apply Qle_refl | tauto].
  - destruct (IH (if Qltb a b then a else b)) as [H1 H2].
    destruct (Qltb a b) eqn:E.
    + apply Qltb_true in E. split.
      * eapply Qle_trans; [exact H1 | now apply Qlt_le_weak].
      * intros v [<-|Hv]; auto.
    + apply Qltb_false in E. split; auto.
      intros v [<-|Hv]; auto. eapply Qle_trans; eauto.
Qed.

Lemma Qmax_from_spec (l : list Q) (b : Q) :
  b <= Qmax_from b l /\ forall v, In v l -> v <= Qmax_from b l.
Proof.
  revert b. induction l as [|a l IH]; intros b; simpl.
  - split; [apply Qle_refl | tauto].
  - destruct (IH (if Qltb b a then a else b)) as [H1 H2].
    destruct (Qltb b a) eqn:E.
    + apply Qltb_true in E. split.
      * eapply Qle_trans; [|exact H1]. now apply Qlt_le_weak.
      * intros v [<-|Hv]; auto.
    + apply Qltb_false in E. split; auto.
      intros v [<-|Hv]; auto. eapply Qle_trans; eauto.
Qed.

Lemma min_of_le (l : list Q) (m v : Q) : min_of l = Ok m -> In v l -> m <= v.
Proof.
  destruct l as [|a l]; [discriminate|]. intros [= <-] [<-|Hv].
  - exact (proj1 (Qmin_from_spec l a)).
  - exact (proj2 (Qmin_from_spec l a) v Hv).
Qed.

Lemma max_of_ge (l : list Q) (m v : Q) : max_of l = Ok m -> In v l -> v <= m.
Proof.
  destruct l as [|a l]; [discriminate|]. intros [= <-] [<-|Hv].
  - exact (proj1 (Qmax_from_spec l a)).
  - exact (proj2 (Qmax_from_spec l a) v Hv).
Qed.

Lemma span_of_pos (lo hi : Q) : 0 < span_of lo hi.
Proof.
  unfold span_of. destruct (Qltb lo hi) eqn:E; [|reflexivity].
  apply Qltb_true in E. lra.
Qed.

(** The scaling step: a value between the observed extremes lands in the
    unit interval, also when the extremes coincide and the span is 1. *)
Lemma scaled_in_unit (lo hi p : Q) :
  lo <= p -> p <= hi -> 0 <= (p - lo) / span_of lo hi <= 1.
Proof.
  intros H1 H2. pose proof (span_of_pos lo hi) as Hpos. split.
  - apply Qle_shift_div_l; auto. lra.
  - apply Qle_shift_div_r; auto.
    unfold span_of in *. destruct (Qltb lo hi) eqn:E.
    + lra.
    + apply Qltb_false in E. lra.
Qed.

Lemma span_of_flat (lo hi : Q) : hi <= lo -> span_of lo hi = 1.
Proof. intros H. unfold span_of. apply Qltb_false in H. now rewrite H. Qed.

Lemma size_in_range (t : Q) : 0 <= t <= 1 -> 5 <= 5 + t * 15 <= 20.
Proof. intros [H1 H2]. split; lra. Qed.

Lemma fold_plus_shift (l : list Q) (a : Q) :
  fold_left Qplus l a == a + fold_left Qplus l 0.
Proof.
  revert a. induction l as [|v l IH]; intros a; simpl.
  - ring.
  - rewrite (IH (a + v)), (IH (0 + v)). ring.
Qed.

Lemma sum_of_cons (v : Q) (l : list Q) : sum_of (v :: l) == v + sum_of l.
Proof. unfold sum_of. simpl. rewrite fold_plus_shift. ring. Qed.

Ltac bind_inv H :=
  let a := fresh "a" in
  let Ha := fresh "Ha" in
  apply bind_Ok in H; destruct H as (a & Ha & H); cbv beta in H.

Lemma lookup_Ok {V} (d : dict V) (k : string) (v : V) :
  lookup d k = Ok v -> dict_get d k = Some v.
Proof. unfold lookup. destruct (dict_get d k); [now intros [= ->] | discriminate]. Qed.

(** The importance of a node lies between the extremes taken over all
    nodes. *)
Lemma importance_between (vs : list Q) (w : Q) :
  In w vs ->
  match vs with [] => 0 | v :: l => Qmin_from v l end <= w
  /\ w <= match vs with [] => 1 | v :: l => Qmax_from v l end.
Proof.
  destruct vs as [|v l]; [intros []|]. intros [<-|Hw]; split.
  - exact (proj1 (Qmin_from_spec l v)).
  - exact (proj1 (Qmax_from_spec l v)).
  - exact (proj2 (Qmin_from_spec l v) w Hw).
  - exact (proj2 (Qmax_from_spec l v) w Hw).
Qed.

(** ** The divisions *)

Lemma div_Ok (a b : Q) : ~ b == 0 -> div a b = Ok (a / b).
Proof.
  intros H. unfold div. destruct (Qeq_bool b 0) eqn:E; [|reflexivity].
  apply Qeq_bool_iff in E. contradiction.
Qed.

(** The guard on the range keeps the divisor away from zero. *)
Lemma div_span (lo hi a : Q) : div a (span_of lo hi) = Ok (a / span_of lo hi).
Proof. apply div_Ok. pose proof (span_of_pos lo hi). lra. Qed.

Lemma normalized_Ok (lo_x hi_x lo_y hi_y : Q) (positions np0 : dict (Q * Q)) :
  foldM (fun np kv =>
           bind (div (fst (snd kv) - lo_x) (span_of lo_x hi_x)) (fun px =>
           bind (div (snd (snd kv) - lo_y) (span_of lo_y hi_y)) (fun py =>
           Ok (dict_set np (fst kv) (px, py)))))
        positions np0
  = Ok (fold_left
          (fun np kv =>
             dict_set np (fst kv)
               ((fst (snd kv) - lo_x) / span_of lo_x hi_x,
                (snd (snd kv) - lo_y) / span_of lo_y hi_y))
          positions np0).
Proof.
  revert np0. induction positions as [|kv ps IH]; intros np0; simpl; [reflexivity|].
  rewrite !div_span. cbn [bind]. apply IH.
Qed.

Lemma sizes_step (G : MapGraph) (lo hi : Q) (l : list string) (s0 : dict Q) :
  foldM (fun sizes node =>
           bind (node_importance G node) (fun imp =>
           bind (div (imp - lo) (span_of lo hi)) (fun scaled =>
           Ok (dict_set sizes node (5 + scaled * 15)))))
        l s0
  = foldM (fun sizes node =>
             bind (node_importance G node) (fun imp =>
             Ok (dict_set sizes node (5 + (imp - lo) / span_of lo hi * 15))))
          l s0.
Proof.
  revert s0. induction l as [|a l IH]; intros s0; simpl; [reflexivity|].
  destruct (node_importance G a) as [imp|e]; cbn [bind]; [|reflexivity].
  rewrite div_span. cbn [bind]. apply IH.
Qed.

Lemma len_of_pos {A} (l : list A) : l <> [] -> 0 < len_of l.
Proof.
  destruct l; [congruence|]. intros _.
  unfold len_of, Qlt. cbn [List.length inject_Z Qnum Qden]. lia.
Qed.

(** A cluster with a member node is averaged over at least one node. *)
Lemma map_cluster_Ok (nds : list MapNode) (k : ClusterIn) :
  map_cluster nds k = Ok (cluster_entries nds k).
Proof.
  unfold map_cluster, cluster_entries.
  destruct (filter (fun n => mem (id n) (k_concepts k)) nds) as [|m ms];
    [reflexivity|]. cbv zeta.
  rewrite !div_Ok; [reflexivity | |].
  - pose proof (len_of_pos (map y (m :: ms))) as H. cbn [map] in *.
    assert (0 < len_of (y m :: map y ms)) by (apply H; discriminate). lra.
  - pose proof (len_of_pos (map x (m :: ms))) as H. cbn [map] in *.
    assert (0 < len_of (x m :: map x ms)) by (apply H; discriminate). lra.
Qed.

Lemma clusters_Ok (nds : list MapNode) (ks : list ClusterIn) :
  mapM (map_cluster nds) ks = Ok (map (cluster_entries nds) ks).
Proof.
  induction ks as [|k ks IH]; simpl; [reflexivity|].
  now rewrite map_cluster_Ok, IH.
Qed.

(** ** Coordinates and sizes *)

(** In every knowledge map the builder returns, each node has x and y in
    [0,1] and size in [5,20], whether or not the observed coordinates or
    importances all coincide. *)
Lemma node_bounds (spring_layout : Layout) (g : rng) (ek : ExtractedIn)
  (km : KnowledgeMap) :
  generate_knowledge_map spring_layout g ek = Ok km ->
  forall n, In n (nodes km) ->
    0 <= x n <= 1 /\ 0 <= y n <= 1 /\ 5 <= size n <= 20.
Proof.
  unfold generate_knowledge_map.
  destruct (in_concepts ek) as [|c0 cs] eqn:Ec.
  { intros [= <-]. simpl. intros ? []. }
  set (G := build_graph ek).
  intros H.
  bind_inv H. rename a into positions. clear Ha.
  bind_inv H. rename a into min_x, Ha into Hminx.
  bind_inv H. rename a into max_x, Ha into Hmaxx.
  bind_inv H. rename a into min_y, Ha into Hminy.
  bind_inv H. rename a into max_y, Ha into Hmaxy.
  bind_inv H. rename a into np, Ha into Hnp.
  rewrite normalized_Ok in Hnp. apply Ok_inj in Hnp. subst np.
  bind_inv H. rename a into importance_values, Ha into Himp.
  bind_inv H. rename a into node_sizes, Ha into Hsizes.
  rewrite sizes_step in Hsizes.
  bind_inv H. rename a into nds, Ha into Hnodes.
  bind_inv H. rename a into appended. clear Ha.
  injection H as <-. cbn [nodes].
  intros n Hn.
  destruct (mapM_In _ _ _ Hnodes n Hn) as (node & Hnode & Hmk).
  unfold map_node in Hmk.
  bind_inv Hmk. rename a into pos, Ha into Hpos.
  bind_inv Hmk. rename a into sz, Ha into Hsz.
  injection Hmk as <-. cbn [x y size].
  apply lookup_Ok in Hpos. apply lookup_Ok in Hsz.
  apply fold_set_get in Hpos. destruct Hpos as [Hpos|(kv & Hkv & ->)];
    [discriminate Hpos|].
  assert (Hfst : In (fst (snd kv)) (map fst (dict_values positions))).
  { apply in_map, in_map, Hkv. }
  assert (Hsnd : In (snd (snd kv)) (map snd (dict_values positions))).
  { apply in_map, in_map, Hkv. }
  cbn [fst snd]. split; [|split].
  - apply scaled_in_unit; [eapply min_of_le | eapply max_of_ge]; eauto.
  - apply scaled_in_unit; [eapply min_of_le | eapply max_of_ge]; eauto.
  - eapply foldM_set_get in Hsz; [|exact Hsizes].
    destruct Hsz as [Hsz|(n' & w & Hn' & Hw & ->)]; [discriminate Hsz|].
    apply size_in_range.
    destruct (mapM_all _ _ _ Himp n' Hn') as (w' & Hw' & Hw'').
    rewrite Hw in Hw''. injection Hw'' as <-.
    destruct (importance_between _ _ Hw') as [Hlo Hhi].
    now apply scaled_in_unit.
Qed.

End MapperBounds.

(* ===================================================================== *)
(** * Extractor: the ranked concept list *)
(* ===================================================================== *)

Module ExtractorConcepts.
Import Py PyFacts Extractor Samples Invariants.

Lemma clean_phrase_folded (chunk : string) :
  lower (clean_phrase chunk) = clean_phrase chunk.
Proof.
  unfold clean_phrase, collapse_ws. now rewrite lower_collapse, lower_idem.
Qed.

Lemma noun_phrases_folded (doc : Doc) (phrase : string) :
  In phrase (noun_phrases_of doc) -> lower phrase = phrase.
Proof.
  unfold noun_phrases_of. intros H. apply in_flat_map in H.
  destruct H as (chunk & _ & H).
  destruct (negb (clean_phrase chunk =? "")%string && _); [|destruct H].
  destruct H as [<-|[]]. apply clean_phrase_folded.
Qed.

Lemma key_terms_single_words (doc : Doc) (term : string) :
  single_word_nouns doc = true ->
  In term (key_terms_of doc) ->
  lower term = term /\ no_space term = true /\ term <> "".
Proof.
  unfold single_word_nouns, key_terms_of. intros Hdoc H.
  apply in_flat_map in H. destruct H as (token & Htok & H).
  rewrite forallb_forall in Hdoc. specialize (Hdoc token Htok).
  destruct (mem (pos_ token) ["NOUN"; "PROPN"]); [|destruct H].
  destruct (is_stop token); [destruct H|]. simpl in H.
  destruct (2 <? String.length (tok_text token))%nat eqn:Hlen; [|destruct H].
  destruct H as [<-|[]]. split; [apply lower_idem|]. split.
  - now rewrite no_space_lower.
  - intros Hempty. apply Nat.ltb_lt in Hlen.
    rewrite <- length_lower, Hempty in Hlen. simpl in Hlen. lia.
Qed.

Lemma folded_text_app (cs : list Concept) (c : Concept) :
  map folded_text (cs ++ [c]) = map folded_text cs ++ [folded_text c].
Proof. now rewrite map_app. Qed.

(** The noun-phrase loop: the phrases come from a counter, so they are
    distinct, and each is its own case-folded form. *)
Lemma noun_phrase_loop (doc : Doc) (l : list (string * Z)) (cs0 cs : list Concept) :
  foldM (add_noun_phrase doc) l cs0 = Ok cs ->
  (forall kv, In kv l -> lower (fst kv) = fst kv) ->
  NoDup (map fst l) ->
  NoDup (map folded_text cs0) ->
  (forall c, In c cs0 -> ~ In (folded_text c) (map fst l)) ->
  NoDup (map folded_text cs).
Proof.
  revert cs0. induction l as [|[phrase count] l IH]; intros cs0; simpl.
  - now intros [= <-].
  - intros H Hlow Hnd Hcs Hfresh.
    apply bind_Ok in H. destruct H as (cs1 & Hstep & H).
    inversion Hnd as [|? ? Hnotin Hnd']; subst.
    pose proof (Hlow (phrase, count) (or_introl eq_refl)) as Hp. simpl in Hp.
    apply (IH cs1); auto.
    + unfold add_noun_phrase in Hstep. destruct (2 <=? count)%Z.
      * apply bind_Ok in Hstep. destruct Hstep as (imp & _ & [= <-]).
        rewrite folded_text_app. apply NoDup_snoc; auto.
        unfold folded_text at 1. simpl. rewrite Hp.
        intros Hin. apply in_map_iff in Hin. destruct Hin as (c & Hc & Hin).
        apply (Hfresh c Hin). left. now rewrite Hc.
      * now injection Hstep as <-.
    + intros c Hc. unfold add_noun_phrase in Hstep. destruct (2 <=? count)%Z.
      * apply bind_Ok in Hstep. destruct Hstep as (imp & _ & [= <-]).
        apply in_app_or in Hc. destruct Hc as [Hc|[<-|[]]].
        -- intros Hin. apply (Hfresh c Hc). now right.
        -- unfold folded_text. simpl. now rewrite Hp.
      * injection Hstep as <-. intros Hin. apply (Hfresh c Hc). now right.
Qed.

(** The entity loop checks the case-folded text against every concept. *)
Lemma entity_loop (es : list (string * string)) (cs : list Concept) :
  NoDup (map folded_text cs) ->
  NoDup (map folded_text (fold_left add_entity es cs)).
Proof.
  revert cs. induction es as [|e es IH]; intros cs Hcs; simpl; auto.
  apply IH. unfold add_entity.
  destruct (existsb _ cs) eqn:E; auto.
  rewrite folded_text_app. apply NoDup_snoc; auto.
  intros Hin. apply in_map_iff in Hin. destruct Hin as (c & Hc & Hin).
  assert (Hex : existsb (fun c => (lower (text c) =? lower (fst e))%string) cs = true).
  { apply existsb_exists. exists c. split; auto. apply String.eqb_eq. exact Hc. }
  congruence.
Qed.

(** The key-term loop: a term that is a single word equals the case-folded
    text of a concept only if it is that concept's one and only word. *)
Lemma key_term_loop (doc : Doc) (l : list (string * Z)) (cs0 cs : list Concept) :
  foldM (add_key_term doc) l cs0 = Ok cs ->
  (forall kv, In kv l ->
     lower (fst kv) = fst kv /\ no_space (fst kv) = true /\ fst kv <> "") ->
  NoDup (map folded_text cs0) ->
  NoDup (map folded_text cs).
Proof.
  revert cs0. induction l as [|[term count] l IH]; intros cs0; simpl.
  - now intros [= <-].
  - intros H Hterm Hcs.
    apply bind_Ok in H. destruct H as (cs1 & Hstep & H).
    apply (IH cs1); auto.
    unfold add_key_term in Hstep.
    destruct ((3 <=? count)%Z && negb (existsb _ cs0)) eqn:E.
    + apply bind_Ok in Hstep. destruct Hstep as (imp & _ & [= <-]).
      apply andb_true_iff in E. destruct E as [_ E]. apply negb_true_iff in E.
      destruct (Hterm (term, count) (or_introl eq_refl)) as (Hlow & Hns & Hne).
      simpl in *.
      rewrite folded_text_app. apply NoDup_snoc; auto.
      unfold folded_text at 1. simpl. rewrite Hlow.
      intros Hin. apply in_map_iff in Hin. destruct Hin as (c & Hc & Hin).
      assert (Hex : existsb (fun c => mem term (split (lower (text c)))) cs0 = true).
      { apply existsb_exists. exists c. split; auto.
        unfold folded_text in Hc. rewrite Hc, split_single_word by assumption.
        simpl. now rewrite String.eqb_refl. }
      congruence.
    + now injection Hstep as <-.
Qed.

Lemma by_importance_trans (a b c : Concept) :
  not_below by_importance a b -> not_below by_importance b c ->
  not_below by_importance a c.
Proof.
  unfold not_below, by_importance. rewrite !Qltb_false. intros H1 H2.
  eapply Qle_trans; eauto.
Qed.

(** X4.  Concept extraction returns on every document that has a token:
    the only division is by the number of tokens. *)
Lemma extract_concepts_returns (env : Collaborators) (txt : string) :
  doc_tokens (nlp env txt) <> [] ->
  exists concepts, _extract_concepts env txt = Ok concepts.
Proof.
  intros Htok. unfold _extract_concepts. cbv zeta.
  set (doc := nlp env txt) in *.
  assert (Hdiv : forall n, exists q, div (inject_Z n) (doc_len doc) = Ok q).
  { intros n. unfold div, doc_len.
    destruct (doc_tokens doc) as [|t ts]; [contradiction|].
    destruct (Qeq_bool _ 0) eqn:E; [|eauto].
    apply Qeq_bool_iff in E. unfold Qeq in E. cbn [inject_Z Qnum Qden] in E.
    cbn [List.length] in E. lia. }
  assert (H1 : forall l cs, exists cs', foldM (add_noun_phrase doc) l cs = Ok cs').
  { induction l as [|[phrase count] l IH]; intros cs; simpl; [eauto|].
    destruct (2 <=? count)%Z; [|apply IH].
    destruct (Hdiv count) as (q & ->). apply IH. }
  assert (H3 : forall l cs, exists cs', foldM (add_key_term doc) l cs = Ok cs').
  { induction l as [|[term count] l IH]; intros cs; simpl; [eauto|].
    destruct (_ && _); [|apply IH].
    destruct (Hdiv count) as (q & ->). apply IH. }
  destruct (H1 (most_common 50 (counter_of (noun_phrases_of doc))) []) as (cs1 & ->).
  cbn [bind].
  destruct (H3 (most_common 30 (counter_of (key_terms_of doc)))
               (fold_left add_entity (entities_of doc) cs1)) as (cs3 & ->).
  cbn [bind]. eauto.
Qed.

End ExtractorConcepts.

(* ===================================================================== *)
(** * Extractor: the containment hierarchy *)
(* ===================================================================== *)

Module ExtractorHierarchy.
Import Py PyFacts NxFacts Extractor Samples Invariants.

Lemma dict_keys_get {V} (d : dict V) (k : string) :
  In k (dict_keys d) -> exists v, dict_get d k = Some v.
Proof.
  intros H. apply mem_In in H. rewrite <- dict_has_keys in H. unfold dict_has in H.
  destruct (dict_get d k); [eauto | discriminate].
Qed.

Lemma foldM_total {A B S} (f : A -> result B) (g : S -> A -> B -> S) (l : list A) :
  (forall x, In x l -> exists y, f x = Ok y) ->
  forall s, exists s',
    foldM (fun s x => bind (f x) (fun y => Ok (g s x y))) l s = Ok s'.
Proof.
  induction l as [|a l IH]; intros H s; simpl; [eauto|].
  destruct (H a (or_introl eq_refl)) as (y & ->). simpl.
  apply IH. intros x Hx. apply H. now right.
Qed.

Section Containment.
Variable concepts : list Concept.

Local Abbreviation texts := (Invariants.texts concepts).
Local Abbreviation graph_ok := (Invariants.graph_ok concepts).
Local Abbreviation known := (Invariants.known concepts).

Lemma add_concept_node_ok (G : HierGraph) (c : Concept) :
  In c concepts -> graph_ok G -> graph_ok (add_concept_node G c).
Proof.
  intros Hc [Hk Ha Hs]. unfold add_concept_node. split.
  - intros n Hn. apply nodes_add_node_In in Hn. destruct Hn as [->|Hn]; auto.
    unfold texts. now apply in_map.
  - intros n a. unfold Nx.add_node.
    destruct (Nx.has_node G (text c)); simpl; rewrite dict_get_set;
      (destruct (n =? text c)%string; [intros [= <-]; discriminate | apply Ha]).
  - intros u w Hw. apply successors_add_node_In in Hw. auto.
Qed.

Lemma has_node_fold_mono (cs : list Concept) (G : HierGraph) (n : string) :
  Nx.has_node G n = true ->
  Nx.has_node (fold_left add_concept_node cs G) n = true.
Proof.
  revert G. induction cs as [|c cs IH]; intros G H; simpl; auto.
  apply IH. unfold add_concept_node. rewrite has_node_add_node, H. apply orb_true_r.
Qed.

Lemma has_node_fold (cs : list Concept) (G : HierGraph) (c : Concept) :
  In c cs -> Nx.has_node (fold_left add_concept_node cs G) (text c) = true.
Proof.
  revert G. induction cs as [|c' cs IH]; intros G; simpl; [tauto|].
  intros [->|Hc]; auto.
  apply has_node_fold_mono. unfold add_concept_node.
  now rewrite has_node_add_node, String.eqb_refl.
Qed.

Lemma containment_step_ok (c1 c2 : Concept) (G : HierGraph) :
  In c1 concepts -> In c2 concepts ->
  known G /\ graph_ok G -> known (containment_step c1 G c2) /\ graph_ok (containment_step c1 G c2).
Proof.
  intros H1 H2 [Hkn Hok].
  assert (Harc : forall u w,
             In u texts -> In w texts -> contains (lower u) (lower w) = true -> u <> w ->
             Nx.has_node G u = true -> Nx.has_node G w = true ->
             known (Nx.add_arc G u w "contains") /\ graph_ok (Nx.add_arc G u w "contains")).
  { intros u w Hu Hw Hc Hne Hnu Hnw. destruct Hok as [Hk Ha Hs]. split; [|split].
    - intros c Hcin. unfold Nx.has_node. rewrite g_nodes_add_arc by assumption.
      now apply Hkn.
    - intros n. unfold Nx.nodes. rewrite g_nodes_add_arc by assumption. apply Hk.
    - intros n a. rewrite g_nodes_add_arc by assumption. apply Ha.
    - intros u' w' Hin. apply successors_add_arc_In in Hin.
      destruct Hin as [[-> ->]|Hin]; auto. }
  assert (T1 : In (text c1) texts) by (unfold texts; now apply in_map).
  assert (T2 : In (text c2) texts) by (unfold texts; now apply in_map).
  unfold containment_step.
  destruct (String.eqb_spec (text c1) (text c2)) as [Heq|Hne]; simpl; [now split|].
  destruct (contains (lower (text c1)) (lower (text c2))) eqn:E1.
  - apply Harc; auto.
  - destruct (contains (lower (text c2)) (lower (text c1))) eqn:E2; [|now split].
    apply Harc; auto.
Qed.

Lemma containment_graph_ok : graph_ok (containment_graph concepts).
Proof.
  unfold containment_graph.
  change (fun G c => Nx.add_node G (text c) (Some (importance c))) with add_concept_node.
  assert (H0 : known (fold_left add_concept_node concepts Nx.empty)
               /\ graph_ok (fold_left add_concept_node concepts Nx.empty)).
  { split.
    - intros c Hc. now apply has_node_fold.
    - apply fold_left_invariant.
      + split; simpl; [intros n [] | intros n a H; discriminate H | intros u w []].
      + intros G c Hc. now apply add_concept_node_ok. }
  apply (fold_left_invariant (fun G => known G /\ graph_ok G)); auto.
  intros G c1 Hc1 HG.
  apply (fold_left_invariant (fun G => known G /\ graph_ok G)); auto.
  intros G' c2 Hc2. now apply containment_step_ok.
Qed.

Lemma text_length_bound (c : Concept) :
  In c concepts -> String.length (text c) <= max_text_length concepts.
Proof.
  unfold max_text_length. induction concepts as [|c' cs IH]; simpl; [tauto|].
  intros [->|Hc]; [lia|]. specialize (IH Hc). lia.
Qed.

Hypothesis distinct : NoDup (map folded_text concepts).

(** With case-insensitively distinct texts an arc leads to a strictly
    longer text. *)
Lemma arc_grows (G : HierGraph) (u w : string) :
  graph_ok G -> In w (Nx.successors G u) ->
  String.length u < String.length w <= max_text_length concepts.
Proof.
  intros Hok Hw. destruct (ok_arcs concepts G Hok u w Hw) as (Hu & Hwt & Hc & Hne).
  unfold Invariants.texts in Hu, Hwt. apply in_map_iff in Hu, Hwt.
  destruct Hu as (c1 & <- & Hc1), Hwt as (c2 & <- & Hc2).
  split; [|now apply text_length_bound].
  destruct (contains_length _ _ Hc) as [Hle Heq].
  rewrite !length_lower in Hle, Heq.
  destruct (Nat.eq_dec (String.length (text c1)) (String.length (text c2))) as [E|E]; [|lia].
  exfalso. apply Hne. f_equal.
  apply (NoDup_map_injective folded_text concepts); auto.
Qed.

End Containment.

Lemma root_candidates_total (concepts : list Concept) (G : HierGraph) :
  graph_ok concepts G ->
  exists candidates,
    root_candidates_of G = Ok candidates
    /\ forall r, In r candidates -> In r (texts concepts).
Proof.
  intros Hok. unfold root_candidates_of.
  destruct (filter _ (Nx.nodes G)) as [|r0 rs] eqn:Hf.
  - destruct (mapM_total
                (fun n => bind (node_importance G n) (fun imp => Ok (n, imp)))
                (Nx.nodes G)) as (keyed & Hkeyed).
    { intros n Hn. unfold node_importance.
      destruct (dict_keys_get _ _ Hn) as (a & Ha). rewrite Ha.
      destruct a as [imp|]; [simpl; eauto|].
      exfalso. exact (ok_attrs concepts G Hok n None Ha eq_refl). }
    rewrite Hkeyed. cbn [bind]. eexists. split; [reflexivity|].
    intros r Hr. apply firstn_In in Hr. apply in_map_iff in Hr.
    destruct Hr as ([n imp] & <- & Hr). apply sort_desc_In in Hr.
    destruct (mapM_In _ _ _ Hkeyed _ Hr) as (n' & Hn' & Hb).
    apply bind_Ok in Hb. destruct Hb as (imp' & _ & [= -> _]).
    simpl. now apply (ok_keys concepts G Hok).
  - eexists. split; [reflexivity|]. intros r Hr. rewrite <- Hf in Hr.
    apply filter_In in Hr. now apply (ok_keys concepts G Hok).
Qed.

(** On the two texts "Cat" and "cat" each is a successor of the other, and
    the recursion exhausts every limit. *)
Lemma twin_subtree_never_returns (limit : nat) (node : string) :
  In node ["Cat"; "cat"] ->
  _build_subtree limit (containment_graph twin_concepts) node = Raise RecursionError.
Proof.
  revert node. induction limit as [|limit IH]; intros node Hn; [reflexivity|].
  cbn [_build_subtree]. destruct Hn as [<-|[<-|[]]].
  - change (Nx.successors (containment_graph twin_concepts) "Cat") with ["cat"].
    cbn [mapM]. rewrite IH; [reflexivity | simpl; auto].
  - change (Nx.successors (containment_graph twin_concepts) "cat") with ["Cat"].
    cbn [mapM]. rewrite IH; [reflexivity | simpl; auto].
Qed.

(** Handed the two concepts "Cat" and "cat", which concept extraction never
    returns together, hierarchy generation returns at no recursion limit. *)
Lemma twin_concepts_never_return :
  ~ exists limit hierarchy, _generate_hierarchy limit twin_concepts [] = Ok hierarchy.
Proof.
  intros (limit & hierarchy & H). unfold _generate_hierarchy in H.
  change (root_candidates_of (containment_graph twin_concepts))
    with (@Ok (list string) ["Cat"; "cat"]) in H.
  cbn [bind firstn foldM] in H.
  rewrite twin_subtree_never_returns in H; [discriminate H | simpl; auto].
Qed.

End ExtractorHierarchy.

(* ===================================================================== *)
(** * Journey generator: the path *)
(* ===================================================================== *)

Module JourneyPaths.
Import Py PyFacts Journey Samples Invariants.

(** ** The random source *)

Lemma remove_nth_In {A} (i : nat) (l : list A) (y : A) :
  In y (remove_nth i l) -> In y l.
Proof.
  revert i. induction l as [|x l IH]; intros [|i]; simpl; try tauto.
  intros [H|H]; eauto.
Qed.

Lemma remove_nth_NoDup {A} (i : nat) (l : list A) :
  NoDup l -> NoDup (remove_nth i l).
Proof.
  revert i. induction l as [|x l IH]; intros [|i] H; simpl; auto.
  - now inversion H.
  - inversion H; subst. constructor; auto.
    intros Hin. apply remove_nth_In in Hin. contradiction.
Qed.

Lemma remove_nth_fresh {A} (i : nat) (l : list A) (d : A) :
  NoDup l -> i < List.length l -> ~ In (nth i l d) (remove_nth i l).
Proof.
  revert i. induction l as [|x l IH]; intros [|i] H Hi; simpl in *; try lia.
  - now inversion H.
  - inversion H; subst. intros [Hx|Hin].
    + apply H2. rewrite Hx. apply nth_In. lia.
    + revert Hin. apply IH; auto. lia.
Qed.

Lemma mod_length_lt {A} (r : nat) (x : A) (l : list A) :
  r mod List.length (x :: l) < List.length (x :: l).
Proof. apply Nat.mod_upper_bound. simpl. lia. Qed.

(** A sample consists of distinct members of the population. *)
Lemma sample_spec {A} (k : nat) (g : rng) (population : list A) :
  (forall y, In y (fst (sample g population k)) -> In y population)
  /\ (NoDup population -> NoDup (fst (sample g population k))).
Proof.
  revert g population. induction k as [|k IH]; intros g population; simpl.
  - split; [intros y [] | constructor].
  - destruct population as [|x l]; [split; [intros y [] | constructor]|].
    destruct (draw g) as [r g'].
    set (i := r mod List.length (x :: l)).
    assert (Hi : i < List.length (x :: l)) by apply mod_length_lt.
    specialize (IH g' (remove_nth i (x :: l))).
    destruct (sample g' (remove_nth i (x :: l)) k) as [rest g''].
    destruct IH as [IH1 IH2]. cbn [fst] in *. split.
    + intros y [<-|Hy]; [now apply nth_In|].
      apply (remove_nth_In i). auto.
    + intros Hnd. constructor.
      * intros Hin. apply IH1 in Hin. revert Hin. now apply remove_nth_fresh.
      * apply IH2. now apply remove_nth_NoDup.
Qed.

Lemma choice_In (g : rng) (x : string) (l : list string) :
  In (fst (choice g (x :: l) x)) (x :: l).
Proof.
  unfold choice. destruct (draw g) as [r g']. cbn [fst].
  apply nth_In. apply mod_length_lt.
Qed.

(** ** The invariant of [path] and [visited] *)

Section PathInvariant.
(** [allowed] is the set the ids of the path have to come from. *)
Variable allowed : string -> Prop.

Local Abbreviation path_ok := (Invariants.path_ok allowed).
Local Abbreviation path_fine := (Invariants.path_fine allowed).
Local Abbreviation graph_closed := (Invariants.graph_closed allowed).
Local Abbreviation clusters_closed := (Invariants.clusters_closed allowed).
Local Abbreviation hierarchy_closed := (Invariants.hierarchy_closed allowed).

Lemma path_ok_fine (st : PathState) : path_ok st -> path_fine (fst st).
Proof. intros (H1 & _ & H3). now split. Qed.

Lemma start_ok (start : string) : allowed start -> path_ok ([start], [start]).
Proof.
  intros H. split; [|split]; simpl.
  - repeat constructor. simpl. tauto.
  - tauto.
  - intros c [<-|[]]. exact H.
Qed.

Lemma push_ok (st : PathState) (c : string) :
  path_ok st -> allowed c -> ~ In c (snd st) -> path_ok (push st c).
Proof.
  intros (H1 & H2 & H3) Hc Hfresh. unfold push. split; [|split]; cbn [fst snd].
  - apply NoDup_snoc; auto. now rewrite <- H2.
  - intros x. rewrite in_app_iff. simpl. rewrite H2. intuition.
  - intros x Hx. apply in_app_or in Hx. destruct Hx as [Hx|[<-|[]]]; auto.
Qed.

Lemma push_new_ok (st : PathState) (c : string) :
  path_ok st -> allowed c -> path_ok (push_new st c).
Proof.
  intros Hst Hc. unfold push_new. destruct (mem c (snd st)) eqn:E; auto.
  apply push_ok; auto. now apply mem_not_In.
Qed.

Lemma push_front_ok (st : PathState) (c : string) :
  path_ok st -> allowed c -> ~ In c (snd st) -> path_ok (c :: fst st, c :: snd st).
Proof.
  intros (H1 & H2 & H3) Hc Hfresh. split; [|split]; cbn [fst snd].
  - constructor; auto. now rewrite <- H2.
  - intros x. simpl. rewrite H2. tauto.
  - intros x [<-|Hx]; auto.
Qed.

(** A loop whose body keeps the invariant for every allowed candidate. *)
Lemma loop_ok {A} (step : PathState -> A -> PathState) (cand : A -> string)
  (l : list A) (st : PathState) :
  (forall st a, path_ok st -> allowed (cand a) -> path_ok (step st a)) ->
  (forall a, In a l -> allowed (cand a)) ->
  path_ok st -> path_ok (fold_left step l st).
Proof.
  intros Hstep. revert st. induction l as [|a l IH]; intros st Hl Hst; simpl; auto.
  apply IH.
  - intros b Hb. apply Hl. now right.
  - apply Hstep; auto. apply Hl. now left.
Qed.

(** The padding loop appends without looking at [visited]: it relies on the
    candidates being distinct and unvisited. *)
Lemma append_loop_ok (bound : nat) (l : list string) (st : PathState) :
  NoDup l ->
  (forall c, In c l -> allowed c /\ ~ In c (snd st)) ->
  path_ok st ->
  path_ok (fold_left (fun st c =>
                        if (List.length (fst st) <? bound)%nat then push st c else st)
                     l st).
Proof.
  revert st. induction l as [|c l IH]; intros st Hnd Hl Hst; simpl; auto.
  inversion Hnd as [|? ? Hc Hnd']; subst.
  destruct (Hl c (or_introl eq_refl)) as [Hall Hfresh].
  apply IH; auto.
  - intros c' Hc'. destruct (Hl c' (or_intror Hc')) as [Ha Hf]. split; auto.
    destruct (List.length (fst st) <? bound)%nat; auto.
    unfold push. cbn [snd]. intros [<-|Hin]; auto.
  - destruct (List.length (fst st) <? bound)%nat; auto. now apply push_ok.
Qed.

(** ** The tables the strategies read *)

Variable nodes : dict Node.
Hypothesis nodes_distinct : NoDup (dict_keys nodes).
Hypothesis nodes_allowed : forall k, In k (dict_keys nodes) -> allowed k.

Lemma neighbors_allowed (graph : Adjacency) (k : string) (nb : string * Z) :
  graph_closed graph -> In nb (dict_get_or graph k []) -> allowed (fst nb).
Proof.
  intros Hg. unfold dict_get_or. destruct (dict_get graph k) as [nbrs|] eqn:E.
  - now apply (Hg k nbrs).
  - intros [].
Qed.

Lemma similar_concepts_spec (p : string * Node -> bool) :
  let similar := flat_map (fun kv => if p kv then [fst kv] else []) nodes in
  NoDup similar
  /\ forall c, In c similar -> In c (dict_keys nodes) /\ exists node, p (c, node) = true.
Proof.
  unfold dict_keys in *. induction nodes as [|[k n] d IH]; simpl.
  - split; [constructor | intros c []].
  - simpl in nodes_distinct. inversion nodes_distinct as [|? ? Hk Hd]; subst.
    destruct (IH Hd) as [IH1 IH2].
    { intros k' Hk'. apply nodes_allowed. now right. }
    destruct (p (k, n)) eqn:E; simpl.
    + split.
      * constructor; auto. intros Hin. apply IH2 in Hin. tauto.
      * intros c [<-|Hc]; [eauto|]. destruct (IH2 c Hc). auto.
    + split; auto. intros c Hc. destruct (IH2 c Hc). auto.
Qed.

Lemma pad_similar_ok (g : rng) (start : string) (st : PathState) :
  path_ok st -> path_ok (pad_similar g start nodes st).
Proof.
  intros Hst. unfold pad_similar.
  destruct (List.length (fst st) <? 5)%nat; auto.
  match goal with
  | |- context [flat_map ?f nodes] =>
      match f with
      | (fun kv => if ?test then _ else _) =>
          destruct (similar_concepts_spec (fun kv => test)) as [Hnd Hin]
      end
  end.
  match goal with
  | |- context [sample g ?pop ?k] =>
      destruct (sample_spec k g pop) as [Hs1 Hs2]
  end.
  apply append_loop_ok; auto.
  intros c Hc. apply Hs1, Hin in Hc. destruct Hc as [Hk (node & Hp)].
  split; auto.
  apply andb_true_iff in Hp. destruct Hp as [Hp _]. cbn [fst] in Hp.
  apply negb_true_iff in Hp. now apply mem_not_In.
Qed.

(** ** The default strategy *)

Lemma default_path_fine (g : rng) (start : string) (graph : Adjacency) :
  allowed start -> graph_closed graph ->
  path_fine (_generate_default_path g start nodes graph).
Proof.
  intros Hs Hg. unfold _generate_default_path. cbv zeta.
  apply path_ok_fine, pad_similar_ok.
  apply (loop_ok (fun st nb => push_new st (fst nb)) fst).
  - intros st nb Hst Hnb. now apply push_new_ok.
  - intros nb Hnb. apply firstn_In, sort_desc_In in Hnb.
    now apply (neighbors_allowed graph start).
  - now apply start_ok.
Qed.

(** ** The pattern-based strategy *)

Lemma max_by_from_In {A} (ltb : A -> A -> bool) (l : list A) (best : A) :
  max_by_from ltb best l = best \/ In (max_by_from ltb best l) l.
Proof.
  revert best. induction l as [|x l IH]; intros best; simpl; auto.
  destruct (IH (if ltb best x then x else best)) as [H|H]; auto.
  rewrite H. destruct (ltb best x); auto.
Qed.

Lemma max_by_In {A} (ltb : A -> A -> bool) (l : list A) (x : A) :
  max_by ltb l = Some x -> In x l.
Proof.
  destruct l as [|y l]; simpl; [discriminate|]. intros [= <-].
  destruct (max_by_from_In ltb l y) as [->|H]; auto.
Qed.

Lemma guarded_push_ok (st : PathState) (c : string) (b : bool) :
  path_ok st -> allowed c ->
  path_ok (if negb (mem c (snd st)) && b then push st c else st).
Proof.
  intros Hst Hc. destruct (mem c (snd st)) eqn:E; simpl; auto.
  destruct b; auto. apply push_ok; auto. now apply mem_not_In.
Qed.

Lemma pattern_path_fine (g : rng) (start : string) (graph : Adjacency)
  (km : KnowledgeMap) :
  allowed start -> graph_closed graph -> clusters_closed km ->
  path_fine (_generate_pattern_based_path g start nodes graph km).
Proof.
  intros Hs Hg Hc. unfold _generate_pattern_based_path. cbv zeta.
  destruct (max_by cluster_size_ltb _) as [primary|] eqn:Emax;
    [|now apply default_path_fine].
  apply max_by_In, filter_In in Emax. destruct Emax as [Hprimary _].
  apply path_ok_fine.
  assert (H1 : forall l : list (string * Z),
             (forall c, In c l -> allowed (fst c)) ->
             forall st, path_ok st ->
             path_ok (fold_left (fun st c => push_new st (fst c)) l st)).
  { intros l Hl st Hst.
    apply (loop_ok (fun st c => push_new st (fst c)) fst); auto.
    intros st' c Hst' Hall. now apply push_new_ok. }
  match goal with
  | |- path_ok (if _ then _ else ?st) => assert (H2 : path_ok st)
  end.
  { apply H1; [|apply H1; [|now apply start_ok]].
    - (* the concepts that touch two or more path members are nodes *)
      intros c Hin. apply firstn_In, sort_desc_In, in_flat_map in Hin.
      destruct Hin as (node_id & Hk & Hin).
      destruct (negb (mem node_id _)); [|destruct Hin].
      destruct (2 <=? _)%Z; [|destruct Hin].
      destruct Hin as [<-|[]]. cbn [fst]. auto.
    - (* the cluster concepts ranked by connection strength are nodes *)
      intros c Hin. apply firstn_In, sort_desc_In, in_flat_map in Hin.
      destruct Hin as (concept & _ & Hin).
      destruct (negb (concept =? start)%string && dict_has nodes concept) eqn:E;
        [|destruct Hin].
      destruct Hin as [<-|[]]. cbn [fst].
      apply andb_true_iff in E. destruct E as [_ E].
      rewrite dict_has_keys in E. apply mem_In in E. auto. }
  match goal with
  | |- path_ok (if ?b then _ else _) => destruct b; [|exact H2]
  end.
  apply (loop_ok _ (fun c => c)); auto.
  - intros st c Hst Hall. now apply guarded_push_ok.
  - intros c Hin. now apply (Hc primary).
Qed.

(** ** The hierarchical strategy *)

Lemma find_parent_In (limit : nat) (start : string)
  (tree : dict (list Extractor.SubTree)) (roots : list string) (p : string) :
  find_parent limit start tree roots = Ok (Some p) -> In p roots.
Proof.
  induction roots as [|root rest IH]; simpl; [discriminate|].
  destruct (_is_descendant limit start root tree) as [[|]|]; try discriminate.
  - intros [= <-]. now left.
  - intros H. right. auto.
Qed.

Lemma hierarchical_path_fine (limit : nat) (g : rng) (start : string)
  (km : KnowledgeMap) (path : list string) :
  allowed start -> hierarchy_closed km ->
  _generate_hierarchical_path limit g start nodes km = Ok path ->
  path_fine path.
Proof.
  intros Hs [Hroots Htree] H. unfold _generate_hierarchical_path in H. cbv zeta in H.
  apply bind_Ok in H. destruct H as (st & Hst & H).
  apply Ok_inj in H. subst path.
  apply path_ok_fine, pad_similar_ok.
  destruct (mem start _).
  - apply Ok_inj in Hst. subst st.
    apply (loop_ok push_new (fun c => c)).
    + intros st c Hst Hall. now apply push_new_ok.
    + intros c Hin. apply firstn_In in Hin. eauto.
    + now apply start_ok.
  - apply bind_Ok in Hst. destruct Hst as (parent & Hparent & Hst).
    apply Ok_inj in Hst. subst st.
    apply (loop_ok _ (fun c => c)).
    { intros st c Hst Hall. now apply guarded_push_ok. }
    { intros c Hin. eauto. }
    apply (loop_ok _ (fun c => c)).
    { intros st c Hst Hall.
      destruct (c =? start)%string; simpl; auto.
      now apply guarded_push_ok. }
    { intros c Hin. destruct parent as [p|]; [|destruct Hin].
      destruct (negb (p =? "")%string); [|destruct Hin]. eauto. }
    destruct parent as [p|]; [|now apply start_ok].
    destruct (negb (p =? "")%string && negb (mem p (snd ([start], [start])))) eqn:E;
      [|now apply start_ok].
    apply andb_true_iff in E. destruct E as [_ E]. apply negb_true_iff in E.
    apply push_front_ok.
    + now apply start_ok.
    + apply Hroots. eapply find_parent_In; eauto.
    + now apply mem_not_In.
Qed.

(** ** The associative strategy *)

Lemma graph_closed_sorted (graph : Adjacency) (current : string) :
  graph_closed graph ->
  graph_closed (dict_set graph current
                  (sort_desc by_snd (dict_get_or graph current []))).
Proof.
  intros Hg k nbrs nb. rewrite NxFacts.dict_get_set.
  destruct (k =? current)%string.
  - intros [= <-] Hnb. apply sort_desc_In in Hnb.
    now apply (neighbors_allowed graph current).
  - apply Hg.
Qed.

Lemma associative_steps_fine (steps : nat) (g : rng) (graph : Adjacency)
  (st : PathState) (current : string) :
  graph_closed graph -> path_ok st ->
  path_fine (associative_steps steps g nodes graph st current).
Proof.
  revert g graph st current.
  induction steps as [|steps IH]; intros g graph st current Hg Hst;
    [now apply path_ok_fine|].
  cbn [associative_steps].
  pose proof (graph_closed_sorted graph current Hg) as Hg'.
  destruct (dict_get_or graph current []) as [|nb0 nbrs] eqn:En;
    [now apply path_ok_fine|].
  set (neighbors := sort_desc by_snd (nb0 :: nbrs)) in *.
  assert (Hnb : forall nb, In nb neighbors -> allowed (fst nb)).
  { intros nb Hin. apply sort_desc_In in Hin.
    apply (neighbors_allowed graph current); auto. now rewrite En. }
  destruct (find (fun nb => negb (mem (fst nb) (snd st))) neighbors) as [nb|] eqn:Ef.
  - apply find_some in Ef. destruct Ef as [Hin Hfresh].
    apply negb_true_iff in Hfresh. apply mem_not_In in Hfresh.
    cbn [Extractor.truthy].
    destruct (negb (fst nb =? "")%string) eqn:Ene.
    + rewrite Ene. apply IH; auto. apply push_ok; auto.
    + destruct (filter (fun n => negb (mem n (snd st))) (dict_keys nodes))
        as [|n0 unvisited] eqn:Eu.
      * rewrite Ene. now apply path_ok_fine.
      * pose proof (choice_In g n0 unvisited) as Hch.
        destruct (choice g (n0 :: unvisited) n0) as [c g'].
        cbn [fst] in Hch. rewrite <- Eu in Hch. apply filter_In in Hch.
        destruct Hch as [Hk Hv]. apply negb_true_iff, mem_not_In in Hv.
        destruct (negb (c =? "")%string); [|now apply path_ok_fine].
        apply IH; auto. apply push_ok; auto.
  - cbn [Extractor.truthy].
    destruct (filter (fun n => negb (mem n (snd st))) (dict_keys nodes))
      as [|n0 unvisited] eqn:Eu; [now apply path_ok_fine|].
    pose proof (choice_In g n0 unvisited) as Hch.
    destruct (choice g (n0 :: unvisited) n0) as [c g'].
    cbn [fst] in Hch. rewrite <- Eu in Hch. apply filter_In in Hch.
    destruct Hch as [Hk Hv]. apply negb_true_iff, mem_not_In in Hv.
    destruct (negb (c =? "")%string); [|now apply path_ok_fine].
    apply IH; auto. apply push_ok; auto.
Qed.

Lemma associative_path_fine (g : rng) (start : string) (graph : Adjacency) :
  allowed start -> graph_closed graph ->
  path_fine (_generate_associative_path g start nodes graph).
Proof.
  intros Hs Hg. unfold _generate_associative_path.
  apply associative_steps_fine; auto. now apply start_ok.
Qed.

End PathInvariant.

(** ** The tables built from a knowledge map *)

Lemma nodes_of_distinct (km : KnowledgeMap) : NoDup (dict_keys (nodes_of km)).
Proof.
  unfold nodes_of.
  apply (fold_left_invariant (fun d => NoDup (dict_keys d))).
  - constructor.
  - intros d node _ Hd. now apply dict_keys_NoDup_set.
Qed.

Lemma nodes_of_keys (km : KnowledgeMap) (k : string) :
  In k (dict_keys (nodes_of km)) <-> In k (map id (nodes km)).
Proof.
  rewrite <- !mem_In, <- dict_has_keys. now rewrite JourneySelection.nodes_of_has.
Qed.

Lemma graph_append_closed (allowed : string -> Prop) (graph : Adjacency)
  (k : string) (v : string * Z) :
  graph_closed allowed graph -> allowed (fst v) ->
  graph_closed allowed (graph_append graph k v).
Proof.
  intros Hg Hv k' nbrs nb. unfold graph_append. rewrite NxFacts.dict_get_set.
  destruct (k' =? k)%string.
  - intros [= <-] Hin. apply in_app_or in Hin. destruct Hin as [Hin|[<-|[]]]; auto.
    now apply (neighbors_allowed allowed graph k).
  - apply Hg.
Qed.

Lemma graph_of_closed (allowed : string -> Prop) (km : KnowledgeMap) :
  (forall link, In link (links km) ->
     allowed (source link) /\ allowed (target link)) ->
  graph_closed allowed (graph_of km).
Proof.
  intros Hl. unfold graph_of.
  apply (fold_left_invariant (graph_closed allowed)).
  - intros k nbrs nb H. discriminate H.
  - intros graph link Hlink Hg. destruct (Hl link Hlink) as [H1 H2].
    apply graph_append_closed; [apply graph_append_closed|]; auto.
Qed.

(** Whatever strategy is selected, the path it builds is free of
    duplicates and stays inside [allowed], provided the start concept and
    everything the map refers to is [allowed]. *)
Lemma generated_path_fine (allowed : string -> Prop) (limit : nat) (g : rng)
  (km : KnowledgeMap) (start : option string) (prefs : option (dict value))
  (j : JourneyRecord) :
  (forall k, In k (map id (nodes km)) -> allowed k) ->
  (forall link, In link (links km) ->
     allowed (source link) /\ allowed (target link)) ->
  clusters_closed allowed km ->
  hierarchy_closed allowed km ->
  generate_journey limit g (Some km) start prefs = Ok j ->
  path_fine allowed (path j).
Proof.
  intros Hn Hl Hc Hh H. unfold generate_journey in H.
  assert (Hempty : path_fine allowed []) by (split; [constructor | intros c []]).
  destruct start as [start|]; [|apply Ok_inj in H; now subst j].
  destruct (start =? "")%string; [apply Ok_inj in H; now subst j|].
  destruct (dict_has (nodes_of km) start) eqn:Hstart; simpl in H;
    [|apply Ok_inj in H; now subst j].
  assert (Hs : allowed start).
  { apply Hn. rewrite dict_has_keys in Hstart. apply mem_In in Hstart.
    now apply nodes_of_keys. }
  assert (Hk : forall k, In k (dict_keys (nodes_of km)) -> allowed k).
  { intros k Hin. apply Hn. now apply nodes_of_keys. }
  pose proof (nodes_of_distinct km) as Hd.
  pose proof (graph_of_closed allowed km Hl) as Hg.
  apply bind_Ok in H. destruct H as (p & Hp & H).
  apply Ok_inj in H. subst j. cbn [path].
  destruct (_ =? "pattern_based")%string.
  { apply Ok_inj in Hp. subst p. now apply pattern_path_fine. }
  destruct (_ =? "hierarchical")%string.
  { eapply hierarchical_path_fine; eauto. }
  destruct (_ =? "associative")%string.
  { apply Ok_inj in Hp. subst p. now apply associative_path_fine. }
  apply Ok_inj in Hp. subst p. now apply default_path_fine.
Qed.

(** ** When a journey is returned *)

Lemma is_descendant_flat (tree : dict (list Extractor.SubTree)) (limit : nat)
  (concept root : string) :
  tree_flat tree = true ->
  exists b, _is_descendant (S (S limit)) concept root tree = Ok b.
Proof.
  intros Hflat. cbn [_is_descendant].
  destruct (concept =? root)%string; [eauto|].
  assert (Hsubs : forall sub, In sub (dict_get_or tree root []) ->
                    dict_get_or tree (concept_of sub) [] = []).
  { unfold dict_get_or at 1. destruct (dict_get tree root) as [subs|] eqn:Er;
      [|intros sub []].
    intros sub Hsub. apply dict_get_In in Er.
    unfold tree_flat in Hflat. rewrite forallb_forall in Hflat.
    specialize (Hflat _ Er). cbn [snd] in Hflat. rewrite forallb_forall in Hflat.
    specialize (Hflat sub Hsub). apply negb_true_iff in Hflat.
    unfold dict_has in Hflat. unfold dict_get_or.
    now destruct (dict_get tree (concept_of sub)). }
  induction (dict_get_or tree root []) as [|child_data rest IH]; [eauto|].
  destruct (concept =? concept_of child_data)%string; [eauto|].
  rewrite (Hsubs child_data (or_introl eq_refl)).
  apply IH. intros sub Hsub. apply Hsubs. now right.
Qed.

Lemma find_parent_flat (tree : dict (list Extractor.SubTree)) (limit : nat)
  (start : string) (roots : list string) :
  tree_flat tree = true ->
  exists parent, find_parent (S (S limit)) start tree roots = Ok parent.
Proof.
  intros Hflat. induction roots as [|root rest IH]; [simpl; eauto|].
  cbn [find_parent].
  destruct (is_descendant_flat tree limit start root Hflat) as ([|] & ->); eauto.
Qed.

(** With a recursion limit of two or more, a journey is returned for every
    map whose hierarchy tree is flat; the pattern-based, associative and
    default strategies return in any case. *)
Lemma journey_returned (limit : nat) (g : rng) (km : KnowledgeMap)
  (start : option string) (prefs : option (dict value)) :
  tree_flat (match Extractor.tree (hierarchy km) with Some t => t | None => [] end)
  = true ->
  exists j, generate_journey (S (S limit)) g (Some km) start prefs = Ok j.
Proof.
  intros Hflat. unfold generate_journey.
  destruct start as [start|]; [|eauto].
  destruct (start =? "")%string; [eauto|].
  destruct (negb (dict_has (nodes_of km) start)); [eauto|].
  destruct (_ =? "pattern_based")%string; [cbn [bind]; eauto|].
  destruct (_ =? "hierarchical")%string.
  - unfold _generate_hierarchical_path. cbv zeta.
    destruct (mem start _); [cbn [bind]; eauto|].
    destruct (find_parent_flat _ limit start
                (match Extractor.roots (hierarchy km) with Some r => r | None => [] end)
                Hflat) as (parent & ->).
    cbn [bind]. eauto.
  - destruct (_ =? "associative")%string; cbn [bind]; eauto.
Qed.

(** For every knowledge map, start concept and preference, and so for every
    strategy, the path of a returned journey has no duplicate id. *)
Lemma journey_path_distinct (limit : nat) (g : rng) (km : KnowledgeMap)
  (start : option string) (prefs : option (dict value)) (j : JourneyRecord) :
  generate_journey limit g (Some km) start prefs = Ok j -> NoDup (path j).
Proof.
  intros H.
  apply (generated_path_fine (fun _ => True) limit g km start prefs j); auto.
  - intros cluster c _ _. exact I.
  - split; intros; exact I.
Qed.

End JourneyPaths.

(* ===================================================================== *)
(** * Extractor: the relationship list of a run that returns *)
(* ===================================================================== *)

Module ExtractorRelationships.
Import Py PyFacts NxFacts Extractor Invariants.

Lemma concept_map_of_ok (concepts : list Concept) : concept_map_ok (concept_map_of concepts).
Proof.
  unfold concept_map_of. apply (fold_left_invariant concept_map_ok).
  - split; [constructor | intros k v []].
  - intros m c _ [H1 H2]. split; [now apply dict_keys_NoDup_set|].
    intros k v Hin. apply dict_set_In in Hin. destruct Hin as [[-> ->]|Hin]; auto.
Qed.

Lemma sentence_concepts_distinct (m : dict string) (sent : Span) :
  concept_map_ok m -> NoDup (sentence_concepts_of m sent).
Proof.
  unfold sentence_concepts_of. cbv zeta. generalize (lower (sent_text sent)) as st.
  intros st [Hnd Hlow]. unfold dict_keys in Hnd.
  induction m as [|[k v] m IH]; simpl; [constructor|].
  simpl in Hnd. inversion Hnd as [|? ? Hk Hnd']; subst.
  assert (IH' : NoDup (flat_map (fun kv => if contains (fst kv) st then [snd kv] else []) m)).
  { apply IH; auto. intros k' v' Hin. apply Hlow. now right. }
  destruct (contains k st); simpl; auto. constructor; auto.
  intros Hin. apply in_flat_map in Hin. destruct Hin as ([k' v'] & Hin & Hv).
  cbn [fst snd] in Hv. destruct (contains k' st); [|destruct Hv].
  destruct Hv as [->|[]]. apply Hk.
  rewrite <- (Hlow k v (or_introl eq_refl)), (Hlow k' v (or_intror Hin)).
  change k' with (fst (k', v)). now apply in_map.
Qed.

Lemma pairs_of_distinct (l : list string) (x y : string) :
  NoDup l -> In (x, y) (pairs_of l) -> x <> y.
Proof.
  induction l as [|a l IH]; simpl; [tauto|].
  intros Hnd Hin. inversion Hnd as [|? ? Ha Hnd']; subst.
  apply in_app_or in Hin. destruct Hin as [Hin|Hin]; auto.
  apply in_map_iff in Hin. destruct Hin as (b & [= <- <-] & Hb).
  intros ->. contradiction.
Qed.

Lemma cooccur_sentence_ok (m : dict string) (G : RelGraph) (sent : Span) :
  concept_map_ok m -> adj_ok G -> adj_ok (cooccur_sentence m G sent).
Proof.
  intros Hm HG. unfold cooccur_sentence.
  apply (fold_left_invariant adj_ok); auto.
  intros G' [x y] Hin HG'. unfold cooccur_pair.
  destruct (Nx.has_edge G' x y).
  - now apply adj_ok_update_edge.
  - apply adj_ok_add_edge; auto.
    eapply pairs_of_distinct; [|exact Hin]. now apply sentence_concepts_distinct.
Qed.

Lemma syntactic_token_ok (concepts : list Concept) (G G' : RelGraph) (token : Token) :
  adj_ok G -> syntactic_token concepts G token = Ok G' -> adj_ok G'.
Proof.
  intros HG. unfold syntactic_token.
  destruct (mem (dep_ token) _); [|now intros [= <-]].
  destruct (match_concepts concepts _ _) as [[tc|] [hc|]]; try now intros [= <-].
  destruct (truthy (Some tc) && truthy (Some hc) && negb (tc =? hc)%string) eqn:Eg;
    [|now intros [= <-]].
  apply andb_true_iff in Eg. destruct Eg as [_ Hne].
  apply negb_true_iff, String.eqb_neq in Hne.
  destruct (Nx.has_edge G tc hc).
  - destruct (Nx.edge_data _ tc hc) as [d|]; [|discriminate].
    destruct (e_types d); [|discriminate].
    intros [= <-]. now apply adj_ok_update_edge, adj_ok_update_edge.
  - intros [= <-]. now apply adj_ok_add_edge.
Qed.

Lemma foldM_invariant {A S} (P : S -> Prop) (f : S -> A -> result S) (l : list A)
  (s s' : S) :
  (forall s a s', P s -> f s a = Ok s' -> P s') ->
  P s -> foldM f l s = Ok s' -> P s'.
Proof.
  intros Hstep. revert s. induction l as [|a l IH]; intros s Hs; simpl.
  - now intros [= <-].
  - intros H. apply bind_Ok in H. destruct H as (s1 & H1 & H). eauto.
Qed.

Lemma relationship_key_of (e : string * string * EdgeData) :
  relationship_key (relationship_of e) = pair_key e.
Proof. destruct e as [[u v] d]. reflexivity. Qed.

Lemma same_pair_key (a b : Relationship) :
  same_pair a b -> relationship_key a = relationship_key b.
Proof.
  unfold relationship_key. intros [[-> ->]|[-> ->]]; [reflexivity | apply pair_key_swap].
Qed.

(** X1.  What C1 says of the list holds on every run that returns: no
    record joins a concept to itself, and two records at different positions
    never join the same unordered pair. *)
Lemma returned_relationships_distinct (env : Collaborators) (txt : string)
  (concepts : list Concept) (rs : list Relationship) :
  _extract_relationships env txt concepts = Ok rs ->
  (forall r, In r rs -> source r <> target r)
  /\ (forall i j a b,
        nth_error rs i = Some a -> nth_error rs j = Some b -> same_pair a b -> i = j).
Proof.
  unfold _extract_relationships. cbv zeta. intros H.
  apply bind_Ok in H. destruct H as (G & HG & H). apply Ok_inj in H. subst rs.
  assert (Hok : adj_ok G).
  { eapply (foldM_invariant adj_ok); [| |exact HG].
    - intros G1 sent G2 HG1. unfold syntactic_sentence.
      apply (foldM_invariant adj_ok); auto.
      intros G3 token G4 HG3. now apply syntactic_token_ok.
    - apply (fold_left_invariant adj_ok).
      + apply (fold_left_invariant adj_ok); [apply adj_ok_empty|].
        intros G1 c _ HG1. now apply adj_ok_add_node.
      + intros G1 sent _ HG1. apply cooccur_sentence_ok; auto.
        apply concept_map_of_ok. }
  split.
  - intros r Hr. apply sort_desc_In, in_map_iff in Hr.
    destruct Hr as ([[u v] d] & <- & He). simpl.
    now apply (edges_irreflexive G u v d).
  - assert (Hnd : NoDup (map relationship_key
                           (sort_desc by_weight (map relationship_of (Nx.edges G))))).
    { eapply Permutation_NoDup.
      - apply Permutation_map. symmetry. apply sort_desc_perm.
      - rewrite map_map.
        rewrite (map_ext _ pair_key relationship_key_of).
        destruct Hok as (H1 & H2 & _). now apply edges_from_distinct. }
    intros i j a b Ha Hb Hab.
    apply (proj1 (NoDup_nth_error _) Hnd).
    + rewrite length_map. apply nth_error_Some. congruence.
    + rewrite !nth_error_map, Ha, Hb. simpl. f_equal. now apply same_pair_key.
Qed.

End ExtractorRelationships.

(* ===================================================================== *)
(** * More facts about the graph fragment *)
(* ===================================================================== *)

Module NxMore.
Import Py PyFacts NxFacts Invariants.

Section Graphs.
Context {N E : Type}.
Implicit Types (G : Nx.Graph N E) (n u v : string).

Lemma neighbors_In_adj G u v (d : E) :
  In (v, d) (Nx.neighbors G u) ->
  exists nbrs, In (u, nbrs) (Nx.g_adj G) /\ In (v, d) nbrs.
Proof.
  unfold Nx.neighbors, dict_get_or.
  destruct (dict_get (Nx.g_adj G) u) as [nbrs|] eqn:Eg; [|intros []].
  apply dict_get_In in Eg. eauto.
Qed.

Section EdgesAll.
Variable P : string -> string -> E -> Prop.

Lemma edges_all_empty : edges_all P (@Nx.empty N E).
Proof. intros u nbrs v d []. Qed.

Lemma edges_all_add_node G n (a : option N) :
  edges_all P G -> edges_all P (Nx.add_node G n a).
Proof.
  intros HG. unfold Nx.add_node. destruct (Nx.has_node G n); [now destruct a|].
  intros u nbrs v d Hin. simpl in Hin. apply dict_set_In in Hin.
  destruct Hin as [[_ ->]|Hin]; [intros [] | now apply HG].
Qed.

Lemma edges_all_set_arc G u v (d : E) :
  edges_all P G -> P u v d -> edges_all P (Nx.set_arc G u v d).
Proof.
  intros HG Hd u' nbrs v' d' Hin Hv. simpl in Hin. apply dict_set_In in Hin.
  destruct Hin as [[-> ->]|Hin]; [|now apply (HG u' nbrs)].
  apply dict_set_In in Hv. destruct Hv as [[-> ->]|Hv]; auto.
  apply neighbors_In_adj in Hv. destruct Hv as (nb & H1 & H2). now apply (HG u nb).
Qed.

Lemma edges_all_add_edge G u v (d : E) :
  edges_all P G -> P u v d -> P v u d -> edges_all P (Nx.add_edge G u v d).
Proof.
  intros HG H1 H2. unfold Nx.add_edge.
  apply edges_all_set_arc; auto. apply edges_all_set_arc; auto.
  now apply edges_all_add_node, edges_all_add_node.
Qed.

Lemma edges_all_update_edge G u v (f : E -> E) :
  edges_all P G ->
  (forall d, P u v d -> P u v (f d) /\ P v u (f d)) ->
  edges_all P (Nx.update_edge G u v f).
Proof.
  intros HG Hf. unfold Nx.update_edge, Nx.edge_data.
  destruct (dict_get (Nx.neighbors G u) v) as [d|] eqn:Ed; auto.
  apply dict_get_In, neighbors_In_adj in Ed. destruct Ed as (nb & H1 & H2).
  destruct (Hf d (HG u nb v d H1 H2)) as [Hu Hv].
  apply edges_all_set_arc; auto. now apply edges_all_set_arc.
Qed.

Lemma edges_all_edges G u v (d : E) :
  edges_all P G -> In (u, v, d) (Nx.edges G) -> P u v d.
Proof.
  intros HG Hin. apply edges_from_In in Hin.
  destruct Hin as (_ & nbrs & H1 & H2). now apply (HG u nbrs).
Qed.
End EdgesAll.

(** ** Unique keys *)

Lemma adj_ok_unique G : adj_ok G -> adj_unique G.
Proof. intros (H1 & H2 & _). now split. Qed.

Lemma adj_unique_empty : adj_unique (@Nx.empty N E).
Proof. split; [constructor | intros u nbrs []]. Qed.

Lemma adj_unique_add_node G n (a : option N) :
  adj_unique G -> adj_unique (Nx.add_node G n a).
Proof.
  intros HG. unfold Nx.add_node. destruct (Nx.has_node G n); [now destruct a|].
  destruct HG as (H1 & H2). split; simpl.
  - now apply dict_keys_NoDup_set.
  - intros u nbrs Hin. apply dict_set_In in Hin.
    destruct Hin as [[_ ->]|Hin]; [constructor | eauto].
Qed.

Lemma adj_unique_set_arc G u v (d : E) :
  adj_unique G -> adj_unique (Nx.set_arc G u v d).
Proof.
  intros (H1 & H2). split; simpl.
  - now apply dict_keys_NoDup_set.
  - intros u' nbrs Hin. apply dict_set_In in Hin.
    destruct Hin as [[_ ->]|Hin]; [|eauto].
    apply dict_keys_NoDup_set. unfold Nx.neighbors, dict_get_or.
    destruct (dict_get (Nx.g_adj G) u) as [nb|] eqn:Eg; [|constructor].
    apply dict_get_In in Eg. eauto.
Qed.

Lemma adj_unique_add_edge G u v (d : E) :
  adj_unique G -> adj_unique (Nx.add_edge G u v d).
Proof.
  intros HG. unfold Nx.add_edge.
  now apply adj_unique_set_arc, adj_unique_set_arc, adj_unique_add_node,
    adj_unique_add_node.
Qed.

Lemma adj_unique_add_arc G u v (d : E) :
  adj_unique G -> adj_unique (Nx.add_arc G u v d).
Proof.
  intros HG. unfold Nx.add_arc.
  now apply adj_unique_set_arc, adj_unique_add_node, adj_unique_add_node.
Qed.

(** With unique keys the neighbour table of [u] is the entry of [u]. *)
Lemma adj_entry_neighbors G u nbrs :
  adj_unique G -> In (u, nbrs) (Nx.g_adj G) -> Nx.neighbors G u = nbrs.
Proof.
  intros (H1 & _) Hin. unfold Nx.neighbors, dict_get_or.
  now rewrite (dict_In_get _ _ _ H1 Hin).
Qed.

(** ** End points are nodes *)

Lemma nodes_add_node_mono G n (a : option N) m :
  In m (Nx.nodes G) -> In m (Nx.nodes (Nx.add_node G n a)).
Proof.
  intros Hm. apply mem_In. unfold Nx.nodes. rewrite <- dict_has_keys.
  change (Nx.has_node (Nx.add_node G n a) m = true).
  rewrite has_node_add_node. apply orb_true_iff. right.
  unfold Nx.has_node. rewrite dict_has_keys. now apply mem_In.
Qed.

Lemma nodes_add_node_self G n (a : option N) : In n (Nx.nodes (Nx.add_node G n a)).
Proof.
  apply mem_In. unfold Nx.nodes. rewrite <- dict_has_keys.
  change (Nx.has_node (Nx.add_node G n a) n = true).
  now rewrite has_node_add_node, String.eqb_refl.
Qed.

Lemma nodes_add_node_NoDup G n (a : option N) :
  NoDup (Nx.nodes G) -> NoDup (Nx.nodes (Nx.add_node G n a)).
Proof.
  intros H. unfold Nx.add_node, Nx.nodes.
  destruct (Nx.has_node G n); [destruct a|]; simpl; auto;
    now apply dict_keys_NoDup_set.
Qed.

Lemma adj_closed_empty : adj_closed (@Nx.empty N E).
Proof. split; [constructor | intros u nbrs []]. Qed.

Lemma adj_closed_add_node G n (a : option N) :
  adj_closed G -> adj_closed (Nx.add_node G n a).
Proof.
  intros [Hnd HG]. split; [now apply nodes_add_node_NoDup|].
  intros u nbrs Hin.
  assert (Hcases : (u = n /\ nbrs = []) \/ In (u, nbrs) (Nx.g_adj G)).
  { revert Hin. unfold Nx.add_node. destruct (Nx.has_node G n); [destruct a|];
      simpl; auto. intros Hin. apply dict_set_In in Hin. tauto. }
  destruct Hcases as [[-> ->]|Hold].
  - split; [apply nodes_add_node_self | intros v d []].
  - destruct (HG u nbrs Hold) as [Hu Hv]. split.
    + now apply nodes_add_node_mono.
    + intros v d Hvd. eapply nodes_add_node_mono, Hv. exact Hvd.
Qed.

Lemma adj_closed_set_arc G u v (d : E) :
  adj_closed G -> In u (Nx.nodes G) -> In v (Nx.nodes G) ->
  adj_closed (Nx.set_arc G u v d).
Proof.
  intros [Hnd HG] Hu Hv. split; [exact Hnd|].
  intros u' nbrs Hin. simpl in Hin. apply dict_set_In in Hin.
  destruct Hin as [[-> ->]|Hin]; [|now apply HG].
  split; [exact Hu|]. intros v' d' Hin. apply dict_set_In in Hin.
  destruct Hin as [[-> _]|Hin]; [exact Hv|].
  apply neighbors_In_adj in Hin. destruct Hin as (nb & H1 & H2).
  destruct (HG u nb H1) as [_ H3]. eapply H3. exact H2.
Qed.

Lemma adj_closed_add_edge G u v (d : E) :
  adj_closed G -> adj_closed (Nx.add_edge G u v d).
Proof.
  intros HG. unfold Nx.add_edge.
  assert (H1 : adj_closed (Nx.add_node (Nx.add_node G u None) v None))
    by now apply adj_closed_add_node, adj_closed_add_node.
  assert (Hu : In u (Nx.nodes (Nx.add_node (Nx.add_node G u None) v None)))
    by apply nodes_add_node_mono, nodes_add_node_self.
  assert (Hv : In v (Nx.nodes (Nx.add_node (Nx.add_node G u None) v None)))
    by apply nodes_add_node_self.
  apply adj_closed_set_arc; auto. now apply adj_closed_set_arc.
Qed.

Lemma adj_closed_edges G u v (d : E) :
  adj_closed G -> In (u, v, d) (Nx.edges G) ->
  In u (Nx.nodes G) /\ In v (Nx.nodes G).
Proof.
  intros [_ HG] Hin. apply edges_from_In in Hin.
  destruct Hin as (_ & nbrs & H1 & H2). destruct (HG u nbrs H1) as [Hu Hv].
  split; [exact Hu | eapply Hv; exact H2].
Qed.
End Graphs.

End NxMore.

(* ===================================================================== *)
(** * Extractor: the shape of concepts and relationships *)
(* ===================================================================== *)

Module ExtractorShape.
Import Py PyFacts NxFacts NxMore Extractor Samples Invariants.

(** ** Sorted output *)

Lemma sort_desc_strongly {A} (ltb : A -> A -> bool) (R : A -> A -> Prop) (l : list A) :
  (forall x y, ltb x y = true -> ltb y x = false) ->
  (forall a b c, not_below ltb a b -> not_below ltb b c -> not_below ltb a c) ->
  (forall a b, not_below ltb a b -> R a b) ->
  StronglySorted R (sort_desc ltb l).
Proof.
  intros Hasym Htrans HR.
  apply StronglySorted_impl with (R := not_below ltb); auto.
  apply Sorted_StronglySorted; [exact Htrans | now apply sort_desc_sorted].
Qed.

Lemma Zltb_sorted {A} (key : A -> Z) (l : list A) :
  StronglySorted (fun a b => (key b <= key a)%Z)
                 (sort_desc (fun a b => (key a <? key b)%Z) l).
Proof.
  apply sort_desc_strongly; unfold not_below.
  - intros x y H. apply Z.ltb_lt in H. apply Z.ltb_ge. lia.
  - intros a b c H1 H2. apply Z.ltb_ge in H1, H2. apply Z.ltb_ge. lia.
  - intros a b H. now apply Z.ltb_ge in H.
Qed.

(** ** Relationships *)

Lemma concept_map_values (concepts : list Concept) (k v : string) :
  In (k, v) (concept_map_of concepts) -> In v (texts concepts).
Proof.
  revert k v. unfold concept_map_of.
  apply (fold_left_invariant
           (fun m : dict string => forall k v, In (k, v) m -> In v (texts concepts))).
  - intros k v [].
  - intros m c Hc Hm k v Hin. apply dict_set_In in Hin.
    destruct Hin as [[_ ->]|Hin]; [|eauto]. unfold texts. now apply in_map.
Qed.

Lemma pairs_of_In (l : list string) (x y : string) :
  In (x, y) (pairs_of l) -> In x l /\ In y l.
Proof.
  induction l as [|a l IH]; simpl; [tauto|].
  intros Hin. apply in_app_or in Hin. destruct Hin as [Hin|Hin].
  - apply in_map_iff in Hin. destruct Hin as (b & [= <- <-] & Hb). auto.
  - destruct (IH Hin). auto.
Qed.

Lemma sentence_concepts_In (m : dict string) (sent : Span) (x : string) :
  In x (sentence_concepts_of m sent) -> exists k, In (k, x) m.
Proof.
  unfold sentence_concepts_of. intros Hin. apply in_flat_map in Hin.
  destruct Hin as ([k v] & Hkv & Hin). cbn [fst snd] in Hin.
  destruct (contains k _); [|destruct Hin]. destruct Hin as [<-|[]]. eauto.
Qed.

Lemma match_concepts_In (concepts : list Concept) (token_text head_text : string) :
  (forall t, fst (match_concepts concepts token_text head_text) = Some t ->
             In t (texts concepts))
  /\ (forall t, snd (match_concepts concepts token_text head_text) = Some t ->
                In t (texts concepts)).
Proof.
  unfold match_concepts.
  apply (fold_left_invariant
           (fun acc : option string * option string =>
              (forall t, fst acc = Some t -> In t (texts concepts))
              /\ (forall t, snd acc = Some t -> In t (texts concepts)))).
  - split; intros t H; discriminate H.
  - intros [tc hc] c Hc [H1 H2]. cbn [fst snd].
    assert (Ht : In (text c) (texts concepts)) by (unfold texts; now apply in_map).
    split; intros t.
    + destruct (_ || _); [intros [= <-]; exact Ht | apply H1].
    + destruct (_ || _); [intros [= <-]; exact Ht | apply H2].
Qed.

Lemma bump_weight_ok (d : EdgeData) : edge_data_ok d -> edge_data_ok (bump_weight d).
Proof. intros [Hw Ht]. split; [simpl; lia | exact Ht]. Qed.

Lemma add_type_ok (rel_type : string) (d : EdgeData) :
  rel_type = "subject_of" \/ rel_type = "object_of" ->
  edge_data_ok d -> edge_data_ok (add_type rel_type d).
Proof.
  intros Hrel Hd. unfold add_type.
  destruct (e_types d) as [ts|] eqn:Ets; [|exact Hd].
  destruct (mem rel_type ts) eqn:Em; [exact Hd|].
  destruct Hd as [Hw Ht].
  split; [exact Hw|]. simpl. right.
  destruct Ht as [[_ Hnone]|(Hty & ts' & Hsome & Hne & Hnd & Hall)];
    [rewrite Ets in Hnone; discriminate|].
  rewrite Ets in Hsome. injection Hsome as <-.
  split; [exact Hty|]. exists (ts ++ [rel_type]). split; [reflexivity|].
  split; [now destruct ts|]. split.
  - apply NoDup_snoc; auto. now apply mem_not_In.
  - intros t Hin. apply in_app_or in Hin. destruct Hin as [Hin|[<-|[]]]; auto.
Qed.

Section Edges.
Variable concepts : list Concept.

Local Abbreviation edges_fine := (edges_all (relationship_edge_ok concepts)).

Lemma cooccur_sentence_fine (G : RelGraph) (sent : Span) :
  edges_fine G -> edges_fine (cooccur_sentence (concept_map_of concepts) G sent).
Proof.
  intros HG. unfold cooccur_sentence.
  apply (fold_left_invariant edges_fine); auto.
  intros G' [x y] Hin HG'. unfold cooccur_pair.
  apply pairs_of_In in Hin. destruct Hin as [Hx Hy].
  apply sentence_concepts_In in Hx, Hy. destruct Hx as (kx & Hx), Hy as (ky & Hy).
  apply concept_map_values in Hx, Hy.
  destruct (Nx.has_edge G' x y).
  - apply edges_all_update_edge; auto.
    intros d (Hd & _ & _). split; (split; [now apply bump_weight_ok | auto]).
  - apply edges_all_add_edge; auto;
      (split; [split; [simpl; lia | left; split; reflexivity] | auto]).
Qed.

Lemma syntactic_token_fine (G G' : RelGraph) (token : Token) :
  edges_fine G -> syntactic_token concepts G token = Ok G' -> edges_fine G'.
Proof.
  intros HG. unfold syntactic_token.
  destruct (mem (dep_ token) _); [|now intros [= <-]].
  destruct (match_concepts_In concepts (lower (tok_text token))
              (lower (head_text token))) as [Htc Hhc].
  destruct (match_concepts concepts _ _) as [[tc|] [hc|]]; try now intros [= <-].
  specialize (Htc tc eq_refl). specialize (Hhc hc eq_refl).
  destruct (truthy (Some tc) && truthy (Some hc) && negb (tc =? hc)%string);
    [|now intros [= <-]].
  assert (Hrel : (if (dep_ token =? "nsubj")%string then "subject_of" else "object_of")
                 = "subject_of"
                 \/ (if (dep_ token =? "nsubj")%string then "subject_of" else "object_of")
                    = "object_of")
    by (destruct (dep_ token =? "nsubj")%string; auto).
  destruct (Nx.has_edge G tc hc).
  - destruct (Nx.edge_data _ tc hc) as [d|]; [|discriminate].
    destruct (e_types d); [|discriminate].
    intros [= <-].
    apply edges_all_update_edge.
    + apply edges_all_update_edge; auto.
      intros d' (Hd & _ & _). split; (split; [now apply bump_weight_ok | auto]).
    + intros d' (Hd & _ & _). split; (split; [now apply add_type_ok | auto]).
  - intros [= <-]. apply edges_all_add_edge; auto;
      (split; [split; [simpl; lia|] | auto]);
      right; (split; [reflexivity|]); eexists; (split; [reflexivity|]);
      (split; [discriminate|]); (split; [repeat constructor; simpl; tauto|]);
      intros t [<-|[]]; exact Hrel.
Qed.
End Edges.

Lemma relationships_fine (env : Collaborators) (txt : string)
  (concepts : list Concept) (rs : list Relationship) :
  _extract_relationships env txt concepts = Ok rs ->
  forall r, In r rs ->
    exists u v d, r = relationship_of (u, v, d) /\ relationship_edge_ok concepts u v d.
Proof.
  unfold _extract_relationships. cbv zeta. intros H.
  apply bind_Ok in H. destruct H as (G & HG & H). apply Ok_inj in H. subst rs.
  assert (Hfine : edges_all (relationship_edge_ok concepts) G).
  { eapply (ExtractorRelationships.foldM_invariant
              (edges_all (relationship_edge_ok concepts))); [| |exact HG].
    - intros G1 sent G2 HG1. unfold syntactic_sentence.
      apply (ExtractorRelationships.foldM_invariant
               (edges_all (relationship_edge_ok concepts))); auto.
      intros G3 token G4 HG3. now apply syntactic_token_fine.
    - apply (fold_left_invariant (edges_all (relationship_edge_ok concepts))).
      + apply (fold_left_invariant (edges_all (relationship_edge_ok concepts)));
          [apply edges_all_empty|].
        intros G1 c _ HG1. now apply edges_all_add_node.
      + intros G1 sent _ HG1. now apply cooccur_sentence_fine. }
  intros r Hr. apply sort_desc_In, in_map_iff in Hr.
  destruct Hr as ([[u v] d] & <- & He).
  exists u, v, d. split; [reflexivity|]. exact (edges_all_edges _ G u v d Hfine He).
Qed.

(** X2.  In a returned relationship list the records are in non-increasing
    order of weight; each has a weight of at least 1 and joins two texts of
    the concept list; a co-occurrence record has no subtypes, a syntactic
    record has a non-empty list of distinct subtypes drawn from subject_of
    and object_of. *)
Theorem relationships_shape (env : Collaborators) (txt : string)
  (concepts : list Concept) (rs : list Relationship) :
  _extract_relationships env txt concepts = Ok rs ->
  StronglySorted (fun a b => (weight b <= weight a)%Z) rs
  /\ forall r, In r rs ->
       (1 <= weight r)%Z
       /\ In (source r) (map text concepts) /\ In (target r) (map text concepts)
       /\ ((rtype r = "co-occurrence" /\ subtypes r = [])
           \/ (rtype r = "syntactic" /\ subtypes r <> [] /\ NoDup (subtypes r)
               /\ forall t, In t (subtypes r) -> t = "subject_of" \/ t = "object_of")).
Proof.
  intros H. split.
  - unfold _extract_relationships in H. cbv zeta in H.
    apply bind_Ok in H. destruct H as (G & _ & H). apply Ok_inj in H. subst rs.
    apply Zltb_sorted.
  - intros r Hr.
    destruct (relationships_fine env txt concepts rs H r Hr)
      as (u & v & d & -> & [Hw Ht] & Hu & Hv).
    cbn [relationship_of weight source target rtype subtypes].
    split; [exact Hw|]. split; [exact Hu|]. split; [exact Hv|].
    destruct Ht as [[Hty Hnone]|(Hty & ts & Hsome & Hne & Hnd & Hall)].
    + left. now rewrite Hnone.
    + right. rewrite Hsome. auto.
Qed.

Lemma relationships_shape_witness :
  exists rs,
    _extract_relationships feeding_env "The cat eats." feeding_concepts = Ok rs
    /\ rs = [mkRelationship "cat food" "eats well" 3 "syntactic"
               ["subject_of"; "object_of"]]
    /\ StronglySorted (fun a b => (weight b <= weight a)%Z) rs
    /\ forall r, In r rs ->
         (1 <= weight r)%Z
         /\ In (source r) (map text feeding_concepts)
         /\ In (target r) (map text feeding_concepts)
         /\ ((rtype r = "co-occurrence" /\ subtypes r = [])
             \/ (rtype r = "syntactic" /\ subtypes r <> [] /\ NoDup (subtypes r)
                 /\ forall t, In t (subtypes r) ->
                      t = "subject_of" \/ t = "object_of")).
Proof.
  eexists. split; [vm_compute; reflexivity|]. split; [reflexivity|].
  apply (relationships_shape feeding_env "The cat eats." feeding_concepts).
  vm_compute. reflexivity.
Defined.

Lemma relationships_one_per_pair_witness :
  exists rs,
    _extract_relationships cat_env cat_text cat_concepts = Ok rs
    /\ map (fun r => (source r, target r)) rs
       = [("Acme", "mouse"); ("Acme", "the cat"); ("mouse", "the cat")]
    /\ (forall r, In r rs -> source r <> target r)
    /\ (forall i j a b,
          nth_error rs i = Some a -> nth_error rs j = Some b -> same_pair a b -> i = j).
Proof.
  eexists. split; [vm_compute; reflexivity|]. split; [reflexivity|].
  apply (ExtractorRelationships.returned_relationships_distinct
           cat_env cat_text cat_concepts).
  vm_compute. reflexivity.
Defined.


(** ** Concepts *)

Lemma div_Ok_positive (n : Z) (len q : Q) :
  (0 < n)%Z -> (0 <= len)%Q -> div (inject_Z n) len = Ok q ->
  q = (inject_Z n / len)%Q /\ (0 < q)%Q.
Proof.
  intros Hn Hlen. unfold div. destruct (Qeq_bool len 0) eqn:E; [discriminate|].
  intros [= <-]. split; [reflexivity|].
  assert (Hpos : (0 < len)%Q).
  { apply Qle_lt_or_eq in Hlen. destruct Hlen as [H|H]; auto.
    symmetry in H. apply Qeq_bool_iff in H. congruence. }
  apply Qlt_shift_div_l; auto. rewrite Qmult_0_l.
  unfold Qlt. cbn [inject_Z Qnum Qden]. lia.
Qed.

Lemma doc_len_nonneg (doc : Doc) : (0 <= doc_len doc)%Q.
Proof. unfold doc_len, Qle. cbn [inject_Z Qnum Qden]. lia. Qed.

Lemma counter_key_In (l : list string) (n : nat) (kv : string * Z) :
  In kv (most_common n (counter_of l)) -> In (fst kv) l.
Proof.
  intros H. apply most_common_In in H. apply counter_of_In.
  unfold dict_keys. now apply in_map.
Qed.

Lemma extract_concepts_returns_witness :
  exists concepts, _extract_concepts cat_env cat_text = Ok concepts.
Proof.
  apply ExtractorConcepts.extract_concepts_returns. discriminate.
Defined.
End ExtractorShape.

(* ===================================================================== *)
(** * Extractor: the shape of the hierarchy *)
(* ===================================================================== *)

Module HierarchyShape.
Import Py PyFacts NxFacts NxMore Extractor Samples Invariants ExtractorHierarchy.

(** A loop whose every step keeps [I], establishes [P] of the element it
    handles and keeps what it has established before. *)
Lemma fold_left_establish {S A} (I : S -> Prop) (P : A -> S -> Prop)
  (f : S -> A -> S) (l : list A) :
  (forall s x, In x l -> I s -> I (f s x)) ->
  (forall s x, In x l -> I s -> P x (f s x)) ->
  (forall s x y, In x l -> I s -> P y s -> P y (f s x)) ->
  forall s, I s -> forall x, In x l -> P x (fold_left f l s).
Proof.
  induction l as [|a l IH]; intros HI HP Hkeep s Hs x Hx; [destruct Hx|].
  simpl. destruct Hx as [->|Hx].
  - apply (fold_left_invariant (fun s => I s /\ P x s)).
    + split; [apply HI | apply HP]; simpl; auto.
    + intros s' y Hy [H1 H2]. split; [apply HI | apply Hkeep]; simpl; auto.
  - apply IH; auto.
    + intros s' y Hy. apply HI. now right.
    + intros s' y Hy. apply HP. now right.
    + intros s' y z Hy. apply Hkeep. now right.
    + apply HI; simpl; auto.
Qed.

Section Arcs.
Context {N E : Type}.
Implicit Type G : Nx.Graph N E.

Lemma successors_set_arc_mono G u v (d : E) u' w :
  In w (Nx.successors G u') -> In w (Nx.successors (Nx.set_arc G u v d) u').
Proof.
  unfold Nx.successors. rewrite neighbors_set_arc.
  destruct (String.eqb_spec u' u) as [->|Hne]; auto.
  rewrite dict_keys_set. destruct (dict_has (Nx.neighbors G u) v); auto.
  intros H. apply in_or_app. now left.
Qed.

Lemma successors_set_arc_new G u v (d : E) :
  In v (Nx.successors (Nx.set_arc G u v d) u).
Proof.
  unfold Nx.successors. rewrite neighbors_set_arc, String.eqb_refl, dict_keys_set.
  destruct (dict_has (Nx.neighbors G u) v) eqn:Hv.
  - rewrite dict_has_keys in Hv. now apply mem_In.
  - apply in_or_app. right. now left.
Qed.

Lemma add_arc_known G u v (d : E) :
  Nx.has_node G u = true -> Nx.has_node G v = true ->
  Nx.add_arc G u v d = Nx.set_arc G u v d.
Proof.
  intros Hu Hv. unfold Nx.add_arc.
  now rewrite (add_node_known G u Hu), (add_node_known G v Hv).
Qed.

Lemma nodes_add_arc_NoDup G u v (d : E) :
  NoDup (Nx.nodes G) -> NoDup (Nx.nodes (Nx.add_arc G u v d)).
Proof.
  intros H. unfold Nx.add_arc. rewrite nodes_set_arc.
  now apply nodes_add_node_NoDup, nodes_add_node_NoDup.
Qed.

(** A node has in-degree 0 exactly when it is nobody's successor. *)
Lemma in_degree_zero G n :
  adj_unique G ->
  Nx.in_degree G n = 0 <-> forall u, ~ In n (Nx.successors G u).
Proof.
  intros HG. unfold Nx.in_degree. split.
  - intros H0 u Hin. unfold Nx.successors, Nx.neighbors, dict_get_or in Hin.
    destruct (dict_get (Nx.g_adj G) u) as [nbrs|] eqn:Eg; [|destruct Hin].
    apply dict_get_In in Eg.
    assert (Hf : In (u, nbrs) (filter (fun kv => dict_has (snd kv) n) (Nx.g_adj G))).
    { apply filter_In. split; auto. simpl. rewrite dict_has_keys. now apply mem_In. }
    destruct (filter _ (Nx.g_adj G)); [destruct Hf | discriminate H0].
  - intros Hno. destruct (filter _ (Nx.g_adj G)) as [|[u nbrs] rest] eqn:Ef; auto.
    exfalso. assert (Hin : In (u, nbrs) ((u, nbrs) :: rest)) by now left.
    rewrite <- Ef in Hin. apply filter_In in Hin. destruct Hin as [Hin Hhas].
    apply (Hno u). unfold Nx.successors.
    rewrite (adj_entry_neighbors G u nbrs HG Hin).
    simpl in Hhas. rewrite dict_has_keys in Hhas. now apply mem_In.
Qed.
End Arcs.

(** ** The containment graph is complete *)

Section Complete.
Variable concepts : list Concept.

Local Abbreviation graph_ok := (Invariants.graph_ok concepts).
Local Abbreviation known := (Invariants.known concepts).
Local Abbreviation below := (Invariants.below concepts).

Lemma containment_step_mono (c1 c2 : Concept) (G : HierGraph) (u w : string) :
  In c1 concepts -> In c2 concepts -> known G ->
  In w (Nx.successors G u) -> In w (Nx.successors (containment_step c1 G c2) u).
Proof.
  intros H1 H2 Hkn Hw. unfold containment_step.
  destruct (negb (text c1 =? text c2)%string); auto.
  destruct (contains (lower (text c1)) (lower (text c2))).
  - rewrite add_arc_known by now apply Hkn. now apply successors_set_arc_mono.
  - destruct (contains (lower (text c2)) (lower (text c1))); auto.
    rewrite add_arc_known by now apply Hkn. now apply successors_set_arc_mono.
Qed.

Lemma containment_step_new (c1 c2 : Concept) (G : HierGraph) :
  In c1 concepts -> In c2 concepts -> known G ->
  text c1 <> text c2 -> contains (lower (text c1)) (lower (text c2)) = true ->
  In (text c2) (Nx.successors (containment_step c1 G c2) (text c1)).
Proof.
  intros H1 H2 Hkn Hne Hc. unfold containment_step.
  apply String.eqb_neq in Hne. rewrite Hne, Hc. cbn [negb].
  rewrite add_arc_known by now apply Hkn. apply successors_set_arc_new.
Qed.

Lemma containment_step_unique (c1 c2 : Concept) (G : HierGraph) :
  adj_unique G /\ NoDup (Nx.nodes G) ->
  adj_unique (containment_step c1 G c2) /\ NoDup (Nx.nodes (containment_step c1 G c2)).
Proof.
  intros [Ha Hn]. unfold containment_step.
  destruct (negb (text c1 =? text c2)%string); auto.
  destruct (contains (lower (text c1)) (lower (text c2))).
  - split; [now apply adj_unique_add_arc | now apply nodes_add_arc_NoDup].
  - destruct (contains (lower (text c2)) (lower (text c1))); auto.
    split; [now apply adj_unique_add_arc | now apply nodes_add_arc_NoDup].
Qed.

Lemma concept_nodes_ok :
  known (fold_left add_concept_node concepts Nx.empty)
  /\ graph_ok (fold_left add_concept_node concepts Nx.empty).
Proof.
  split.
  - intros c Hc. now apply has_node_fold.
  - apply fold_left_invariant.
    + split; simpl; [intros n [] | intros n a H; discriminate H | intros u w []].
    + intros G c Hc. now apply add_concept_node_ok.
Qed.

Lemma containment_graph_unique :
  adj_unique (containment_graph concepts) /\ NoDup (Nx.nodes (containment_graph concepts)).
Proof.
  unfold containment_graph.
  apply (fold_left_invariant
           (fun G : HierGraph => adj_unique G /\ NoDup (Nx.nodes G))).
  - apply (fold_left_invariant
             (fun G : HierGraph => adj_unique G /\ NoDup (Nx.nodes G))).
    + split; [apply adj_unique_empty | constructor].
    + intros G c _ [Ha Hn].
      split; [now apply adj_unique_add_node | now apply nodes_add_node_NoDup].
  - intros G c1 _ HG.
    apply (fold_left_invariant
             (fun G : HierGraph => adj_unique G /\ NoDup (Nx.nodes G))); auto.
    intros G' c2 _. apply containment_step_unique.
Qed.

Lemma containment_graph_complete (c1 c2 : Concept) :
  In c1 concepts -> In c2 concepts ->
  text c1 <> text c2 -> contains (lower (text c1)) (lower (text c2)) = true ->
  In (text c2) (Nx.successors (containment_graph concepts) (text c1)).
Proof.
  intros H1 H2. unfold containment_graph.
  change (fun G c => Nx.add_node G (text c) (Some (importance c))) with add_concept_node.
  pose (Q := fun (a b : Concept) (G : HierGraph) =>
               text a <> text b -> contains (lower (text a)) (lower (text b)) = true ->
               In (text b) (Nx.successors G (text a))).
  pose (I := fun G : HierGraph => known G /\ graph_ok G).
  assert (Hinner : forall G a, In a concepts -> I G ->
                     I (fold_left (containment_step a) concepts G)).
  { intros G a Ha HG. apply (fold_left_invariant I); auto.
    intros G' b Hb. now apply containment_step_ok. }
  change (Q c1 c2 (fold_left (fun G a => fold_left (containment_step a) concepts G)
                             concepts (fold_left add_concept_node concepts Nx.empty))).
  apply (fold_left_establish I (fun a G => forall b, In b concepts -> Q a b G));
    auto; [| |apply concept_nodes_ok].
  - intros G a Ha HG b Hb. revert b Hb.
    apply (fold_left_establish I (fun b G => Q a b G)); auto.
    + intros G' b Hb. now apply containment_step_ok.
    + intros G' b Hb [Hkn _]. unfold Q. now apply containment_step_new.
    + intros G' b b' Hb [Hkn _] Hq Hne Hc. apply containment_step_mono; auto.
  - intros G a a' Ha HG Hq b Hb.
    apply (fold_left_invariant (fun G => I G /\ Q a' b G)); auto.
    intros G' b' Hb' [[Hkn Hok] Hq'].
    split; [now apply containment_step_ok|].
    intros Hne Hc. apply containment_step_mono; auto.
Qed.

(** The successors of a text are exactly the texts directly below it. *)
Lemma successors_spec (u w : string) :
  In w (Nx.successors (containment_graph concepts) u) <-> below u w.
Proof.
  split.
  - apply (ok_arcs concepts _ (containment_graph_ok concepts)).
  - intros (Hu & Hw & Hc & Hne). unfold Invariants.texts in Hu, Hw.
    apply in_map_iff in Hu, Hw.
    destruct Hu as (c1 & <- & H1), Hw as (c2 & <- & H2).
    now apply containment_graph_complete.
Qed.

Lemma successors_NoDup (u : string) :
  NoDup (Nx.successors (containment_graph concepts) u).
Proof.
  destruct containment_graph_unique as [[_ H2] _].
  unfold Nx.successors, Nx.neighbors, dict_get_or.
  destruct (dict_get (Nx.g_adj _) u) as [nbrs|] eqn:Eg; [|constructor].
  apply dict_get_In in Eg. now apply (H2 u).
Qed.

(** ** Subtrees *)

Lemma mapM_sub (g : string -> result (list SubTree)) (l : list string)
  (subs : list SubTree) :
  mapM (fun child => bind (g child) (fun sub => Ok (Sub child sub))) l = Ok subs ->
  map Journey.concept_of subs = l
  /\ forall child grand, In (Sub child grand) subs -> g child = Ok grand.
Proof.
  revert subs. induction l as [|a l IH]; intros subs; simpl.
  - intros [= <-]. split; [reflexivity | intros ? ? []].
  - intros H. apply bind_Ok in H. destruct H as (y & Hy & H).
    apply bind_Ok in Hy. destruct Hy as (sub & Hsub & [= <-]).
    apply bind_Ok in H. destruct H as (ys & Hys & [= <-]).
    destruct (IH ys Hys) as [Hm Hg]. split; [simpl; now rewrite Hm|].
    intros child grand [[= <- <-]|Hin]; auto.
Qed.

Lemma build_subtree_spec (limit : nat) (node : string) (subs : list SubTree) :
  _build_subtree limit (containment_graph concepts) node = Ok subs ->
  subtree_ok concepts node subs.
Proof.
  revert node subs. induction limit as [|limit IH]; intros node subs; [discriminate|].
  cbn [_build_subtree].
  destruct (Nx.successors (containment_graph concepts) node) as [|child children] eqn:Hs.
  - intros [= <-]. constructor; [constructor | | intros ? ? []].
    intros w. rewrite <- successors_spec, Hs. reflexivity.
  - rewrite <- Hs. intros H. apply mapM_sub in H. destruct H as [Hm Hg].
    constructor.
    + rewrite Hm. apply successors_NoDup.
    + intros w. rewrite Hm. apply successors_spec.
    + intros c grand Hin. apply IH. now apply Hg.
Qed.
End Complete.

(** ** The tree dictionary *)

Lemma foldM_set_spec {V} (f : string -> result V) (l : list string) (d0 d : dict V) :
  foldM (fun d n => bind (f n) (fun w => Ok (dict_set d n w))) l d0 = Ok d ->
  (forall k v, dict_get d k = Some v ->
               dict_get d0 k = Some v \/ (In k l /\ f k = Ok v))
  /\ (NoDup (dict_keys d0 ++ l) -> dict_keys d = dict_keys d0 ++ l).
Proof.
  revert d0. induction l as [|a l IH]; intros d0; simpl.
  - intros [= <-]. split; [auto | now rewrite app_nil_r].
  - intros H. apply bind_Ok in H. destruct H as (d1 & Hd1 & H).
    apply bind_Ok in Hd1. destruct Hd1 as (w & Hw & [= <-]).
    destruct (IH _ H) as [Hget Hkeys]. split.
    + intros k v Hk. destruct (Hget k v Hk) as [H0|[Hin Hf]]; [|auto].
      destruct (String.eqb_spec a k) as [<-|Hne].
      * rewrite dict_get_set_eq in H0. injection H0 as <-. auto.
      * rewrite dict_get_set_neq in H0 by assumption. auto.
    + intros Hnd. rewrite dict_keys_set in Hkeys.
      assert (Ha : dict_has d0 a = false).
      { destruct (dict_has d0 a) eqn:Eh; auto. exfalso.
        rewrite dict_has_keys in Eh. apply mem_In in Eh.
        apply NoDup_remove_2 in Hnd. apply Hnd, in_or_app. now left. }
      rewrite Ha in Hkeys. rewrite <- app_assoc in Hkeys. simpl in Hkeys.
      now apply Hkeys.
Qed.


(** ** Roots *)

Lemma containment_graph_known (concepts : list Concept) :
  known concepts (containment_graph concepts).
Proof.
  unfold containment_graph.
  change (fun G c => Nx.add_node G (text c) (Some (importance c))) with add_concept_node.
  apply (fold_left_invariant (fun G => known concepts G /\ graph_ok concepts G));
    [apply concept_nodes_ok|].
  intros G c1 Hc1 HG.
  apply (fold_left_invariant (fun G => known concepts G /\ graph_ok concepts G)); auto.
  intros G' c2 Hc2. now apply containment_step_ok.
Qed.

Lemma nodes_spec (concepts : list Concept) (n : string) :
  In n (Nx.nodes (containment_graph concepts)) <-> In n (texts concepts).
Proof.
  split; [apply (ok_keys concepts _ (containment_graph_ok concepts))|].
  intros Hn. unfold texts in Hn. apply in_map_iff in Hn. destruct Hn as (c & <- & Hc).
  apply mem_In. unfold Nx.nodes. rewrite <- dict_has_keys.
  now apply containment_graph_known.
Qed.

Lemma mapM_keyed {A} (g : string -> result A) (l : list string)
  (keyed : list (string * A)) :
  mapM (fun n => bind (g n) (fun a => Ok (n, a))) l = Ok keyed -> map fst keyed = l.
Proof.
  revert keyed. induction l as [|n l IH]; intros keyed; simpl.
  - now intros [= <-].
  - intros H. apply bind_Ok in H. destruct H as (y & Hy & H).
    apply bind_Ok in Hy. destruct Hy as (a & _ & [= <-]).
    apply bind_Ok in H. destruct H as (ys & Hys & [= <-]).
    simpl. now rewrite (IH ys Hys).
Qed.

Lemma firstn_not_nil {A} (n : nat) (l : list A) : l <> [] -> firstn (S n) l <> [].
Proof. destruct l; [congruence | discriminate]. Qed.

(** In a containment graph built from texts that are distinct when case is
    ignored, a shortest text lies below no other. *)
Lemma shortest_is_minimal (concepts : list Concept) :
  NoDup (map folded_text concepts) -> concepts <> [] ->
  exists t, In t (texts concepts) /\ forall u, ~ below concepts u t.
Proof.
  intros Hnd Hne.
  assert (Hmin : exists c, In c concepts
                           /\ forall c', In c' concepts ->
                                String.length (text c) <= String.length (text c')).
  { clear Hnd. induction concepts as [|c0 cs IH]; [congruence|].
    destruct cs as [|c1 cs].
    - exists c0. split; [now left|]. intros c' [<-|[]]. lia.
    - destruct IH as (c & Hc & Hle); [discriminate|].
      destruct (le_lt_dec (String.length (text c0)) (String.length (text c))) as [H|H].
      + exists c0. split; [now left|]. intros c' [<-|Hc']; [lia|].
        specialize (Hle c' Hc'). lia.
      + exists c. split; [now right|]. intros c' [<-|Hc']; [lia | auto]. }
  destruct Hmin as (c & Hc & Hle). exists (text c).
  split; [unfold texts; now apply in_map|].
  intros u Hb. pose proof Hb as (Hu & _).
  apply successors_spec in Hb.
  destruct (arc_grows concepts Hnd _ u (text c) (containment_graph_ok concepts) Hb)
    as [Hlt _].
  unfold texts in Hu. apply in_map_iff in Hu. destruct Hu as (c' & <- & Hc').
  specialize (Hle c' Hc'). lia.
Qed.

Lemma root_candidates_spec (concepts : list Concept) (candidates : list string) :
  root_candidates_of (containment_graph concepts) = Ok candidates ->
  NoDup candidates
  /\ (forall r, In r candidates -> In r (texts concepts))
  /\ (concepts <> [] -> candidates <> [])
  /\ ((exists t, In t (texts concepts) /\ forall u, ~ below concepts u t) ->
      forall r u, In r candidates -> ~ below concepts u r).
Proof.
  intros H.
  destruct (root_candidates_total concepts _ (containment_graph_ok concepts))
    as (candidates' & H' & Hin).
  rewrite H in H'. apply Ok_inj in H'. subst candidates'.
  destruct (containment_graph_unique concepts) as [Huniq Hnd].
  unfold root_candidates_of in H. cbv zeta in H.
  destruct (filter _ (Nx.nodes (containment_graph concepts))) as [|r0 rs] eqn:Hf.
  - apply bind_Ok in H. destruct H as (keyed & Hkeyed & H). apply Ok_inj in H.
    apply mapM_keyed in Hkeyed.
    assert (Hperm : Permutation
                      (map fst (sort_desc (fun a b => Qltb (snd a) (snd b)) keyed))
                      (Nx.nodes (containment_graph concepts))).
    { rewrite <- Hkeyed. apply Permutation_map, sort_desc_perm. }
    subst candidates. split; [|split; [|split]]; auto.
    + apply firstn_NoDup. apply (Permutation_NoDup (Permutation_sym Hperm) Hnd).
    + intros Hne. apply firstn_not_nil. intros Hnil. rewrite Hnil in Hperm.
      apply Permutation_nil in Hperm.
      destruct concepts as [|c cs]; [congruence|].
      assert (Hc : In (text c) (Nx.nodes (containment_graph (c :: cs)))).
      { apply nodes_spec. now left. }
      rewrite Hperm in Hc. destruct Hc.
    + intros (t & Ht & Hno). exfalso.
      assert (Hin' : In t (filter (fun n => (Nx.in_degree (containment_graph concepts) n =? 0)%nat)
                              (Nx.nodes (containment_graph concepts)))).
      { apply filter_In. split; [now apply nodes_spec|].
        apply Nat.eqb_eq. apply in_degree_zero; auto.
        intros u Hu. apply successors_spec in Hu. exact (Hno u Hu). }
      rewrite Hf in Hin'. destruct Hin'.
  - apply Ok_inj in H. subst candidates.
    split; [|split; [|split]]; auto.
    + rewrite <- Hf. now apply NoDup_filter.
    + intros _. discriminate.
    + intros _ r u Hr Hb. rewrite <- Hf in Hr.
      apply filter_In in Hr. destruct Hr as [_ Hr].
      apply Nat.eqb_eq in Hr.
      apply (proj1 (in_degree_zero _ r Huniq) Hr u). now apply successors_spec.
Qed.

Lemma generate_hierarchy_inv (limit : nat) (concepts : list Concept)
  (relationships : list Relationship) (h : Hierarchy) :
  _generate_hierarchy limit concepts relationships = Ok h ->
  exists candidates tr,
    root_candidates_of (containment_graph concepts) = Ok candidates
    /\ foldM (fun tree root =>
                bind (_build_subtree limit (containment_graph concepts) root)
                     (fun sub => Ok (dict_set tree root sub)))
             (firstn 5 candidates) [] = Ok tr
    /\ h = mkHierarchy (Some (firstn 5 candidates)) (Some tr).
Proof.
  unfold _generate_hierarchy. cbv zeta. intros H.
  apply bind_Ok in H. destruct H as (candidates & Hc & H).
  apply bind_Ok in H. destruct H as (tr & Htr & H). apply Ok_inj in H.
  exists candidates, tr. auto.
Qed.




End HierarchyShape.

(* ===================================================================== *)
(** * Extractor: clusters *)
(* ===================================================================== *)

Module ExtractorClusters.
Import Py PyFacts Extractor Samples Invariants.

Lemma max_by_from_importance (l : list Concept) (best : Concept) :
  (importance best <= importance (max_by_from by_importance best l))%Q
  /\ forall y, In y l ->
       (importance y <= importance (max_by_from by_importance best l))%Q.
Proof.
  revert best. induction l as [|x l IH]; intros best; simpl.
  - split; [apply Qle_refl | intros y []].
  - destruct (by_importance best x) eqn:Eb.
    + destruct (IH x) as [H1 H2]. unfold by_importance in Eb. apply Qltb_true in Eb.
      split; [eapply Qle_trans; [apply Qlt_le_weak, Eb | exact H1]|].
      intros y [<-|Hy]; auto.
    + destruct (IH best) as [H1 H2]. unfold by_importance in Eb. apply Qltb_false in Eb.
      split; auto. intros y [<-|Hy]; auto. eapply Qle_trans; eauto.
Qed.

Lemma max_by_importance (l : list Concept) (m : Concept) :
  max_by by_importance l = Some m ->
  In m l /\ forall y, In y l -> (importance y <= importance m)%Q.
Proof.
  intros H. split; [now apply (JourneyPaths.max_by_In by_importance)|].
  destruct l as [|x l]; [discriminate|]. injection H as <-.
  destruct (max_by_from_importance l x) as [H1 H2]. intros y [<-|Hy]; auto.
Qed.

Lemma name_cluster_fields (concepts : list Concept) (c : nat * list string) :
  cl_id (name_cluster concepts c) = fst c
  /\ cl_concepts (name_cluster concepts c) = snd c.
Proof. unfold name_cluster. now destruct (max_by _ _). Qed.

(** The name of a cluster is the text of a most important concept among
    those whose text is in the cluster, or "Cluster <id>" when there is
    none. *)
Lemma name_cluster_spec (concepts : list Concept) (c : nat * list string) :
  (exists k, In k concepts /\ In (text k) (snd c)
             /\ cl_name (name_cluster concepts c) = text k
             /\ forall k', In k' concepts -> In (text k') (snd c) ->
                           (importance k' <= importance k)%Q)
  \/ ((forall k, In k concepts -> ~ In (text k) (snd c))
      /\ cl_name (name_cluster concepts c)
         = ("Cluster " ++ str_of_nat (fst c))%string).
Proof.
  unfold name_cluster.
  destruct (max_by by_importance (filter (fun k => mem (text k) (snd c)) concepts))
    as [m|] eqn:Em.
  - left. apply max_by_importance in Em. destruct Em as [Hin Hmax].
    apply filter_In in Hin. destruct Hin as [Hin Hmem]. apply mem_In in Hmem.
    exists m. repeat split; auto.
    intros k' Hk' Ht. apply Hmax, filter_In. split; auto. now apply mem_In.
  - right. split; [|reflexivity]. intros k Hk Ht.
    assert (Hf : In k (filter (fun k => mem (text k) (snd c)) concepts)).
    { apply filter_In. split; auto. now apply mem_In. }
    destruct (filter _ concepts); [destruct Hf | discriminate Em].
Qed.

Lemma StronglySorted_map {A B} (f : A -> B) (R : B -> B -> Prop) (l : list A) :
  StronglySorted (fun a b => R (f a) (f b)) l -> StronglySorted R (map f l).
Proof.
  induction 1 as [|a l Hs IH Hall]; simpl; constructor; auto.
  apply Forall_forall. intros b Hb. apply in_map_iff in Hb.
  destruct Hb as (x & <- & Hx). rewrite Forall_forall in Hall. auto.
Qed.

(** ** Grouping a partition *)

Lemma group_add_keys (clusters : list (nat * list string)) (i : nat) (node : string) :
  map fst (group_add clusters i node)
  = if existsb (Nat.eqb i) (map fst clusters)
    then map fst clusters else map fst clusters ++ [i].
Proof.
  induction clusters as [|[j ms] clusters IH]; simpl; auto.
  rewrite (Nat.eqb_sym i j). destruct (j =? i)%nat; simpl; auto.
  rewrite IH. now destruct (existsb _ _).
Qed.

Lemma existsb_eqb_In (i : nat) (l : list nat) : existsb (Nat.eqb i) l = true <-> In i l.
Proof.
  rewrite existsb_exists. split.
  - intros (x & Hx & He). apply Nat.eqb_eq in He. now subst.
  - intros H. exists i. split; auto. apply Nat.eqb_refl.
Qed.

Lemma group_add_In (clusters : list (nat * list string)) (i : nat) (node : string)
  (j : nat) (ms : list string) :
  NoDup (map fst clusters) ->
  In (j, ms) (group_add clusters i node) ->
  (j <> i /\ In (j, ms) clusters)
  \/ (j = i /\ ((exists ms0, In (i, ms0) clusters /\ ms = ms0 ++ [node])
                \/ (~ In i (map fst clusters) /\ ms = [node]))).
Proof.
  induction clusters as [|[k ms0] clusters IH]; simpl; intros Hnd Hin.
  - destruct Hin as [[= <- <-]|[]]. right. split; auto.
  - inversion Hnd as [|? ? Hk Hnd']; subst.
    destruct (Nat.eqb_spec k i) as [->|Hne].
    + destruct Hin as [[= <- <-]|Hin]; [right; split; eauto|].
      left. split; auto. intros ->. apply Hk.
      change i with (fst (i, ms)). now apply in_map.
    + destruct Hin as [[= <- <-]|Hin]; [left; split; auto|].
      destruct (IH Hnd' Hin) as [[H1 H2]|[-> [(m & H1 & H2)|[H1 H2]]]].
      * left. auto.
      * right. split; eauto.
      * right. split; auto. right. split; auto. intros [H|H]; auto.
Qed.

Lemma members_of_snoc (seen : list (string * nat)) (kv : string * nat) (i : nat) :
  members_of (seen ++ [kv]) i
  = if (snd kv =? i)%nat then members_of seen i ++ [fst kv] else members_of seen i.
Proof.
  unfold members_of. rewrite filter_app, map_app. simpl.
  destruct (snd kv =? i)%nat; simpl; auto using app_nil_r.
Qed.

Lemma members_of_none (seen : list (string * nat)) (i : nat) :
  (forall kv, In kv seen -> snd kv <> i) -> members_of seen i = [].
Proof.
  unfold members_of. induction seen as [|kv seen IH]; simpl; auto.
  intros H. destruct (Nat.eqb_spec (snd kv) i) as [He|Hne].
  - exfalso. apply (H kv); auto.
  - apply IH. intros kv' Hkv'. apply H. now right.
Qed.

Lemma grouped_step (seen : list (string * nat)) (clusters : list (nat * list string))
  (kv : string * nat) :
  grouped seen clusters ->
  grouped (seen ++ [kv]) (group_add clusters (snd kv) (fst kv)).
Proof.
  intros (Hnd & Hseen & Hms).
  assert (Hkeys := group_add_keys clusters (snd kv) (fst kv)).
  split; [|split].
  - rewrite Hkeys. destruct (existsb _ _) eqn:Ee; auto.
    apply NoDup_snoc; auto. intros Hin. apply existsb_eqb_In in Hin. congruence.
  - intros kv' Hin. rewrite Hkeys. apply in_app_or in Hin.
    destruct Hin as [Hin|[<-|[]]].
    + specialize (Hseen kv' Hin). destruct (existsb _ _); auto.
      apply in_or_app. now left.
    + destruct (existsb _ _) eqn:Ee; [now apply existsb_eqb_In|].
      apply in_or_app. right. now left.
  - intros j ms Hin. rewrite members_of_snoc.
    destruct (group_add_In _ _ _ _ _ Hnd Hin)
      as [[Hne Hold]|[-> [(ms0 & Hold & ->)|[Hnew ->]]]].
    + destruct (Nat.eqb_spec (snd kv) j) as [He|_]; [congruence|]. now apply Hms.
    + rewrite Nat.eqb_refl. destruct (Hms _ _ Hold) as [-> _].
      split; auto. intros H. apply app_eq_nil in H. destruct H as [_ H]. discriminate H.
    + rewrite Nat.eqb_refl. rewrite members_of_none; [split; [reflexivity|discriminate]|].
      intros kv' Hkv' He. apply Hnew. rewrite <- He. now apply Hseen.
Qed.

Lemma grouped_fold (l seen : list (string * nat)) (clusters : list (nat * list string)) :
  grouped seen clusters ->
  grouped (seen ++ l)
          (fold_left (fun clusters kv => group_add clusters (snd kv) (fst kv)) l clusters).
Proof.
  revert seen clusters. induction l as [|kv l IH]; intros seen clusters H; simpl.
  - now rewrite app_nil_r.
  - change (seen ++ kv :: l) with (seen ++ [kv] ++ l). rewrite app_assoc.
    apply IH. now apply grouped_step.
Qed.

(** ** Numbering the components *)

Lemma enumerate_from_In {A} (l : list A) (s i : nat) (x : A) :
  In (i, x) (enumerate_from s l) -> s <= i /\ nth_error l (i - s) = Some x.
Proof.
  revert s. induction l as [|a l IH]; intros s; simpl; [tauto|].
  intros [[= <- <-]|Hin].
  - split; [lia|]. now rewrite Nat.sub_diag.
  - destruct (IH _ Hin) as [Hle Hn]. split; [lia|].
    replace (i - s) with (S (i - S s)) by lia. exact Hn.
Qed.

Lemma enumerate_from_keys {A} (l : list A) (s : nat) :
  map fst (enumerate_from s l) = seq s (List.length l).
Proof. revert s. induction l as [|a l IH]; intros s; simpl; auto. now rewrite IH. Qed.


(** ** The returned clusters *)

Lemma generate_clusters_eq (env : Collaborators) (concepts : list Concept)
  (relationships : list Relationship) :
  _generate_clusters env concepts relationships
  = map (name_cluster concepts)
        (sort_desc by_size
           match best_partition env with
           | Some partition =>
               fold_left (fun clusters kv => group_add clusters (snd kv) (fst kv))
                         (partition (cluster_graph concepts relationships)) []
           | None =>
               enumerate_from 0
                 (connected_components env (cluster_graph concepts relationships))
           end).
Proof. reflexivity. Qed.

Lemma named_In (concepts : list Concept) (l : list (nat * list string)) (cl : Cluster) :
  In cl (map (name_cluster concepts) (sort_desc by_size l)) ->
  In (cl_id cl, cl_concepts cl) l /\ cl = name_cluster concepts (cl_id cl, cl_concepts cl).
Proof.
  intros H. apply in_map_iff in H. destruct H as ([i ms] & <- & Hin).
  apply sort_desc_In in Hin.
  destruct (name_cluster_fields concepts (i, ms)) as [-> ->]. auto.
Qed.

Lemma named_ids (concepts : list Concept) (l : list (nat * list string)) :
  Permutation (map cl_id (map (name_cluster concepts) (sort_desc by_size l)))
              (map fst l).
Proof.
  rewrite map_map.
  rewrite (map_ext _ fst (fun c => proj1 (name_cluster_fields concepts c))).
  apply Permutation_map, sort_desc_perm.
Qed.

(** X7.  The clusters are returned largest first, and each is named after
    a most important concept among those whose text it lists, or
    "Cluster <id>" when it lists no concept text. *)
Theorem clusters_sorted_and_named (env : Collaborators) (concepts : list Concept)
  (relationships : list Relationship) :
  StronglySorted
    (fun a b => List.length (cl_concepts b) <= List.length (cl_concepts a))
    (_generate_clusters env concepts relationships)
  /\ forall cl, In cl (_generate_clusters env concepts relationships) ->
       (exists k, In k concepts /\ In (text k) (cl_concepts cl)
                  /\ cl_name cl = text k
                  /\ forall k', In k' concepts -> In (text k') (cl_concepts cl) ->
                                (importance k' <= importance k)%Q)
       \/ ((forall k, In k concepts -> ~ In (text k) (cl_concepts cl))
           /\ cl_name cl = ("Cluster " ++ str_of_nat (cl_id cl))%string).
Proof.
  rewrite generate_clusters_eq. split.
  - apply StronglySorted_map.
    apply ExtractorShape.sort_desc_strongly.
    + unfold by_size. intros x y H. apply Nat.ltb_lt in H. apply Nat.ltb_ge. lia.
    + unfold not_below, by_size. intros a b c H1 H2.
      apply Nat.ltb_ge in H1, H2. apply Nat.ltb_ge. lia.
    + unfold not_below, by_size. intros a b H. apply Nat.ltb_ge in H.
      now rewrite !(proj2 (name_cluster_fields concepts _)).
  - intros cl Hcl. apply named_In in Hcl. destruct Hcl as [_ Heq].
    pose proof (name_cluster_spec concepts (cl_id cl, cl_concepts cl)) as Hs.
    rewrite <- Heq in Hs. exact Hs.
Qed.

(** X8.  No two clusters share an id.  With community detection a cluster
    lists exactly the nodes that the partition maps to its id, in the order
    of the partition, so no cluster is empty and every id of the partition
    has its cluster; without it, cluster [i] is the [i]-th connected
    component. *)
Theorem clusters_members (env : Collaborators) (concepts : list Concept)
  (relationships : list Relationship) :
  NoDup (map cl_id (_generate_clusters env concepts relationships))
  /\ match best_partition env with
     | Some partition =>
         (forall cl, In cl (_generate_clusters env concepts relationships) ->
            cl_concepts cl
            = members_of (partition (cluster_graph concepts relationships)) (cl_id cl)
            /\ cl_concepts cl <> [])
         /\ (forall kv, In kv (partition (cluster_graph concepts relationships)) ->
               exists cl, In cl (_generate_clusters env concepts relationships)
                          /\ cl_id cl = snd kv)
     | None =>
         List.length (_generate_clusters env concepts relationships)
         = List.length (connected_components env (cluster_graph concepts relationships))
         /\ forall cl, In cl (_generate_clusters env concepts relationships) ->
              nth_error (connected_components env (cluster_graph concepts relationships))
                        (cl_id cl)
              = Some (cl_concepts cl)
     end.
Proof.
  rewrite generate_clusters_eq.
  destruct (best_partition env) as [partition|].
  - pose proof (grouped_fold (partition (cluster_graph concepts relationships)) [] []) as Hg.
    destruct Hg as (Hnd & Hseen & Hms).
    { split; [constructor|]. split; [intros kv [] | intros i ms []]. }
    cbn [app] in Hseen, Hms. split; [|split].
    + apply (Permutation_NoDup (Permutation_sym (named_ids concepts _)) Hnd).
    + intros cl Hcl. apply named_In in Hcl. destruct Hcl as [Hin _].
      now apply Hms.
    + intros kv Hkv. specialize (Hseen kv Hkv).
      apply (Permutation_in _ (Permutation_sym (named_ids concepts _))) in Hseen.
      apply in_map_iff in Hseen. destruct Hseen as (cl & Hid & Hcl). eauto.
  - split; [|split].
    + apply (Permutation_NoDup (Permutation_sym (named_ids concepts _))).
      rewrite enumerate_from_keys. apply seq_NoDup.
    + rewrite length_map, (Permutation_length (sort_desc_perm _ _)).
      rewrite <- (length_map fst), enumerate_from_keys. apply length_seq.
    + intros cl Hcl. apply named_In in Hcl. destruct Hcl as [Hin _].
      apply enumerate_from_In in Hin. destruct Hin as [_ Hn].
      now rewrite Nat.sub_0_r in Hn.
Qed.
End ExtractorClusters.

(* ===================================================================== *)
(** * Knowledge-map builder: the structure of the map *)
(* ===================================================================== *)

Module MapperShape.
Import Py PyFacts NxFacts NxMore Mapper Samples Invariants.

(** ** The node table of the graph *)

Lemma get_add_node_Some (G : MapGraph) (n m : string) (d : NodeData) :
  dict_get (Nx.g_nodes (Nx.add_node G n (Some d))) m
  = if (m =? n)%string then Some (Some d) else dict_get (Nx.g_nodes G) m.
Proof.
  unfold Nx.add_node. destruct (Nx.has_node G n); simpl; apply dict_get_set.
Qed.

Lemma get_add_node_None (G : MapGraph) (n m : string) :
  dict_get (Nx.g_nodes (Nx.add_node G n None)) m
  = if Nx.has_node G n then dict_get (Nx.g_nodes G) m
    else if (m =? n)%string then Some None else dict_get (Nx.g_nodes G) m.
Proof.
  unfold Nx.add_node. destruct (Nx.has_node G n); simpl; auto. apply dict_get_set.
Qed.

(** Adding an edge gives no node an attribute and takes none away. *)
Lemma get_add_edge (G : MapGraph) (u v m : string) (e : LinkData) (d : NodeData) :
  dict_get (Nx.g_nodes (Nx.add_edge G u v e)) m = Some (Some d)
  <-> dict_get (Nx.g_nodes G) m = Some (Some d).
Proof.
  assert (Hone : forall (G : MapGraph) n,
             dict_get (Nx.g_nodes (Nx.add_node G n None)) m = Some (Some d)
             <-> dict_get (Nx.g_nodes G) m = Some (Some d)).
  { intros G' n. rewrite get_add_node_None.
    destruct (Nx.has_node G' n) eqn:Hn; [reflexivity|].
    destruct (String.eqb_spec m n) as [->|Hne]; [|reflexivity].
    unfold Nx.has_node, dict_has in Hn.
    destruct (dict_get (Nx.g_nodes G') n); [discriminate Hn|].
    split; intros H; discriminate H. }
  unfold Nx.add_edge. cbn [Nx.set_arc Nx.g_nodes]. now rewrite !Hone.
Qed.

Section BuildGraph.
Variable ek : ExtractedIn.

Local Abbreviation texts := (map_texts ek).

(** What holds while the concepts and then the relationships are added. *)
Lemma build_graph_invariant (P : MapGraph -> Prop) :
  P Nx.empty ->
  (forall G c d, In c (in_concepts ek) -> P G -> P (Nx.add_node G (c_text c) (Some d))) ->
  (forall G rel e, In rel (in_relationships ek) -> P G ->
     P (Nx.add_edge G (r_source rel) (r_target rel) e)) ->
  P (build_graph ek).
Proof.
  intros H0 Hn He. unfold build_graph.
  apply fold_left_invariant; [|intros G rel Hrel; now apply He].
  apply fold_left_invariant; [exact H0|]. intros G c Hc. now apply Hn.
Qed.

Lemma build_graph_unique : adj_unique (build_graph ek).
Proof.
  apply build_graph_invariant.
  - apply adj_unique_empty.
  - intros. now apply adj_unique_add_node.
  - intros. now apply adj_unique_add_edge.
Qed.

Lemma build_graph_closed : adj_closed (build_graph ek).
Proof.
  apply build_graph_invariant.
  - apply adj_closed_empty.
  - intros. now apply adj_closed_add_node.
  - intros. now apply adj_closed_add_edge.
Qed.

Lemma build_graph_attrs : attrs_from texts (build_graph ek).
Proof.
  apply build_graph_invariant.
  - intros n d H. discriminate H.
  - intros G c d Hc HG n d'. rewrite get_add_node_Some.
    destruct (String.eqb_spec n (c_text c)) as [->|Hne]; [|apply HG].
    intros _. unfold map_texts. now apply in_map.
  - intros G rel e _ HG n d. rewrite get_add_edge. apply HG.
Qed.

(** Every concept text is a node with attributes. *)
Lemma build_graph_texts (t : string) :
  In t texts -> exists d, dict_get (Nx.g_nodes (build_graph ek)) t = Some (Some d).
Proof.
  intros Ht. unfold map_texts in Ht. apply in_map_iff in Ht.
  destruct Ht as (c & <- & Hc). unfold build_graph.
  apply (fold_left_invariant
           (fun G : MapGraph =>
              exists d, dict_get (Nx.g_nodes G) (c_text c) = Some (Some d))).
  - apply (HierarchyShape.fold_left_establish
             (fun _ => True)
             (fun (c : ConceptIn) (G : MapGraph) =>
                exists d, dict_get (Nx.g_nodes G) (c_text c) = Some (Some d)));
      auto.
    + intros G a _ _. rewrite get_add_node_Some, String.eqb_refl. eauto.
    + intros G a b _ _ (d & Hd). rewrite get_add_node_Some.
      destruct (c_text b =? c_text a)%string; eauto.
  - intros G rel _ (d & Hd). exists d. now apply get_add_edge.
Qed.

Lemma has_attr_node (G : MapGraph) (n : string) (a : option NodeData) :
  dict_get (Nx.g_nodes G) n = Some a -> In n (Nx.nodes G).
Proof.
  intros H. apply mem_In. unfold Nx.nodes. rewrite <- dict_has_keys.
  unfold dict_has. now rewrite H.
Qed.

(** A node has an importance exactly when it is a concept text. *)
Lemma node_importance_spec (n : string) :
  In n (Nx.nodes (build_graph ek)) ->
  (In n texts /\ exists imp, node_importance (build_graph ek) n = Ok imp)
  \/ (~ In n texts /\ node_importance (build_graph ek) n = Raise (KeyError "importance")).
Proof.
  intros Hn. unfold node_importance.
  destruct (ExtractorHierarchy.dict_keys_get _ _ Hn) as (a & Ha). rewrite Ha.
  destruct a as [d|].
  - left. split; [now apply (build_graph_attrs n d) | eauto].
  - right. split; [|reflexivity]. intros Ht.
    destruct (build_graph_texts n Ht) as (d & Hd). congruence.
Qed.

(** The end points of the relationships are nodes. *)
Lemma build_graph_endpoints (rel : RelationshipIn) :
  In rel (in_relationships ek) ->
  In (r_source rel) (Nx.nodes (build_graph ek))
  /\ In (r_target rel) (Nx.nodes (build_graph ek)).
Proof.
  intros Hrel. unfold build_graph.
  match goal with
  | |- context [fold_left ?adde (in_relationships ek) _] =>
      apply (HierarchyShape.fold_left_establish
               (fun _ => True)
               (fun rel (G : MapGraph) =>
                  In (r_source rel) (Nx.nodes G) /\ In (r_target rel) (Nx.nodes G))
               adde); auto
  end.
  - intros G r _ _. unfold Nx.add_edge. rewrite !nodes_set_arc. split.
    + apply nodes_add_node_mono, nodes_add_node_self.
    + apply nodes_add_node_self.
  - intros G r r' _ _ [H1 H2]. unfold Nx.add_edge. rewrite !nodes_set_arc.
    split; now apply nodes_add_node_mono, nodes_add_node_mono.
Qed.
End BuildGraph.


(** ** The returned map *)

Lemma mapM_map_node (G : MapGraph) (np : dict (Q * Q)) (sizes : dict Q)
  (l : list string) (nds : list MapNode) :
  mapM (map_node G np sizes) l = Ok nds ->
  map id nds = l /\ forall n, In n nds -> label n = id n.
Proof.
  revert nds. induction l as [|a l IH]; intros nds; simpl.
  - intros [= <-]. split; [reflexivity | intros n []].
  - intros H. apply bind_Ok in H. destruct H as (n & Hn & H).
    apply bind_Ok in H. destruct H as (ns & Hns & [= <-]).
    destruct (IH ns Hns) as [Hids Hlab].
    unfold map_node in Hn. apply bind_Ok in Hn. destruct Hn as (pos & _ & Hn).
    apply bind_Ok in Hn. destruct Hn as (sz & _ & [= <-]).
    split; [simpl; now rewrite Hids|]. intros n [<-|Hin]; auto.
Qed.

Lemma knowledge_map_inv (spring_layout : Layout) (g : rng) (ek : ExtractedIn)
  (km : KnowledgeMap) :
  in_concepts ek <> [] ->
  generate_knowledge_map spring_layout g ek = Ok km ->
  (exists imps, mapM (node_importance (build_graph ek)) (Nx.nodes (build_graph ek)) = Ok imps)
  /\ (exists np sizes,
        mapM (map_node (build_graph ek) np sizes) (Nx.nodes (build_graph ek))
        = Ok (nodes km))
  /\ links km = map map_link (Nx.edges (build_graph ek))
  /\ clusters km = flat_map (cluster_entries (nodes km)) (in_clusters ek)
  /\ hierarchy km = in_hierarchy ek
  /\ metadata km = mkMetadata (List.length (nodes km)) (List.length (links km))
                              (List.length (clusters km)).
Proof.
  intros Hne. unfold generate_knowledge_map.
  destruct (in_concepts ek) as [|c0 cs] eqn:Ec; [congruence|].
  intros H.
  apply bind_Ok in H. destruct H as (positions & _ & H).
  apply bind_Ok in H. destruct H as (min_x & _ & H).
  apply bind_Ok in H. destruct H as (max_x & _ & H).
  apply bind_Ok in H. destruct H as (min_y & _ & H).
  apply bind_Ok in H. destruct H as (max_y & _ & H).
  apply bind_Ok in H. destruct H as (np & _ & H).
  apply bind_Ok in H. destruct H as (imps & Himps & H).
  apply bind_Ok in H. destruct H as (sizes & _ & H).
  apply bind_Ok in H. destruct H as (nds & Hnds & H).
  apply bind_Ok in H. destruct H as (appended & Happ & H).
  rewrite MapperBounds.clusters_Ok in Happ. apply Ok_inj in Happ. subst appended.
  rewrite <- flat_map_concat_map in H.
  apply Ok_inj in H. subst km. cbn [nodes links clusters hierarchy metadata].
  split; [eauto|]. split; [eauto|]. repeat split.
Qed.

Lemma empty_map (spring_layout : Layout) (g : rng) (ek : ExtractedIn) :
  in_concepts ek = [] ->
  generate_knowledge_map spring_layout g ek
  = Ok (mkKnowledgeMap [] [] [] (Extractor.mkHierarchy None None) (mkMetadata 0 0 0)).
Proof. intros H. unfold generate_knowledge_map. now rewrite H. Qed.

(** The node ids of a returned map are the nodes of the graph, which are
    the concept texts. *)
Lemma map_node_ids (spring_layout : Layout) (g : rng) (ek : ExtractedIn)
  (km : KnowledgeMap) :
  in_concepts ek <> [] ->
  generate_knowledge_map spring_layout g ek = Ok km ->
  map id (nodes km) = Nx.nodes (build_graph ek)
  /\ (forall n, In n (nodes km) -> label n = id n)
  /\ forall t, In t (Nx.nodes (build_graph ek)) <-> In t (map_texts ek).
Proof.
  intros Hne H. destruct (knowledge_map_inv _ _ _ _ Hne H)
    as ((imps & Himps) & (np & sizes & Hnds) & _).
  apply mapM_map_node in Hnds. destruct Hnds as [Hids Hlab].
  split; [exact Hids|]. split; [exact Hlab|]. intros t. split.
  - intros Ht. destruct (mapM_all _ _ _ Himps t Ht) as (imp & _ & Himp).
    destruct (node_importance_spec ek t Ht) as [[Hin _]|[_ Hr]]; [exact Hin|].
    rewrite Hr in Himp. discriminate Himp.
  - intros Ht. destruct (build_graph_texts ek t Ht) as (d & Hd).
    now apply has_attr_node in Hd.
Qed.

Lemma link_key_map_link (e : string * string * LinkData) :
  link_key (map_link e) = pair_key e.
Proof. destruct e as [[u v] d]. reflexivity. Qed.

(** X9.  In a returned knowledge map the node ids are pairwise different
    and are exactly the concept texts, every label repeats its id, no two
    links join the same unordered pair of nodes, both ends of every link are
    node ids, and the metadata counts are the lengths of the three lists. *)
Theorem map_structure (spring_layout : Layout) (g : rng) (ek : ExtractedIn)
  (km : KnowledgeMap) :
  generate_knowledge_map spring_layout g ek = Ok km ->
  NoDup (map id (nodes km))
  /\ (forall t, In t (map id (nodes km)) <-> In t (map_texts ek))
  /\ (forall n, In n (nodes km) -> label n = id n)
  /\ NoDup (map link_key (links km))
  /\ (forall l, In l (links km) ->
        In (source l) (map id (nodes km)) /\ In (target l) (map id (nodes km)))
  /\ metadata km = mkMetadata (List.length (nodes km)) (List.length (links km))
                              (List.length (clusters km)).
Proof.
  intros H. destruct (in_concepts ek) as [|c0 cs] eqn:Ec.
  - rewrite empty_map in H by assumption. apply Ok_inj in H. subst km.
    unfold map_texts. rewrite Ec. simpl.
    repeat split; try constructor; try tauto.
  - assert (Hne : in_concepts ek <> []) by (rewrite Ec; discriminate).
    destruct (map_node_ids _ _ _ _ Hne H) as (Hids & Hlab & Htexts).
    destruct (knowledge_map_inv _ _ _ _ Hne H) as (_ & _ & Hlinks & _ & _ & Hmeta).
    pose proof (build_graph_closed ek) as Hclosed.
    pose proof (build_graph_unique ek) as [Hu1 Hu2].
    rewrite Hids. split; [apply Hclosed|]. split; [exact Htexts|].
    split; [exact Hlab|]. split; [|split; [|exact Hmeta]].
    + rewrite Hlinks, map_map. rewrite (map_ext _ _ link_key_map_link).
      now apply edges_from_distinct.
    + intros l Hl. rewrite Hlinks in Hl. apply in_map_iff in Hl. destruct Hl as ([[u v] d] & <- & He).
      apply (adj_closed_edges _ u v d Hclosed He).
Qed.

Lemma map_structure_witness :
  exists km,
    generate_knowledge_map level_layout [] small_extract = Ok km
    /\ NoDup (map id (nodes km))
    /\ (forall t, In t (map id (nodes km)) <-> In t (map_texts small_extract))
    /\ (forall n, In n (nodes km) -> label n = id n)
    /\ NoDup (map link_key (links km))
    /\ (forall l, In l (links km) ->
          In (source l) (map id (nodes km)) /\ In (target l) (map id (nodes km)))
    /\ metadata km = mkMetadata (List.length (nodes km)) (List.length (links km))
                                (List.length (clusters km)).
Proof.
  eexists. split; [vm_compute; reflexivity|].
  apply (map_structure level_layout [] small_extract). vm_compute. reflexivity.
Defined.

(** X10.  The clusters of a returned map are the input clusters that list
    at least one concept text, with the id and the concept list of the
    input, the given name or "Cluster <id>", and as size the number of
    listed concepts, whether or not they are nodes; the other clusters
    are dropped.  With at least one concept the hierarchy is handed on
    unchanged. *)
Theorem map_clusters (spring_layout : Layout) (g : rng) (ek : ExtractedIn)
  (km : KnowledgeMap) :
  generate_knowledge_map spring_layout g ek = Ok km ->
  (forall c, In c (clusters km) ->
     exists k, In k (in_clusters ek) /\ lists_some (map_texts ek) k
               /\ cluster_id c = k_id k
               /\ cluster_concepts c = k_concepts k
               /\ cluster_size c = List.length (k_concepts k)
               /\ cluster_name c = match k_name k with
                                   | Some nm => nm
                                   | None => ("Cluster " ++ str_of_nat (k_id k))%string
                                   end)
  /\ (forall k, In k (in_clusters ek) -> lists_some (map_texts ek) k ->
        exists c, In c (clusters km)
                  /\ cluster_id c = k_id k /\ cluster_concepts c = k_concepts k)
  /\ (in_concepts ek <> [] -> hierarchy km = in_hierarchy ek).
Proof.
  intros H. destruct (in_concepts ek) as [|c0 cs] eqn:Ec.
  - rewrite empty_map in H by assumption. apply Ok_inj in H. subst km.
    unfold lists_some, map_texts. rewrite Ec. simpl.
    split; [intros c []|]. split; [|congruence].
    intros k _ (t & [] & _).
  - assert (Hne : in_concepts ek <> []) by (rewrite Ec; discriminate).
    destruct (map_node_ids _ _ _ _ Hne H) as (Hids & _ & Htexts).
    destruct (knowledge_map_inv _ _ _ _ Hne H) as (_ & _ & _ & Hcl & Hh & _).
    assert (Hid : forall t, In t (map id (nodes km)) <-> In t (map_texts ek)).
    { intros t. rewrite Hids. apply Htexts. }
    rewrite Hcl. split; [|split; [|intros _; exact Hh]].
    + intros c Hc. apply in_flat_map in Hc. destruct Hc as (k & Hk & Hc).
      exists k. split; [exact Hk|]. unfold cluster_entries in Hc.
      destruct (filter (fun n => mem (id n) (k_concepts k)) (nodes km))
        as [|m ms] eqn:Ef; [destruct Hc|].
      destruct Hc as [<-|[]]. cbn.
      split; [|repeat split].
      assert (Hm : In m (filter (fun n => mem (id n) (k_concepts k)) (nodes km))).
      { rewrite Ef. now left. }
      apply filter_In in Hm. destruct Hm as [Hm Hmem]. apply mem_In in Hmem.
      exists (id m). split; [|exact Hmem]. apply Hid. now apply in_map.
    + intros k Hk (t & Ht & Htk). apply Hid in Ht. apply in_map_iff in Ht.
      destruct Ht as (m & <- & Hm).
      assert (Hf : In m (filter (fun n => mem (id n) (k_concepts k)) (nodes km))).
      { apply filter_In. split; auto. now apply mem_In. }
      destruct (filter (fun n => mem (id n) (k_concepts k)) (nodes km))
        as [|m0 ms] eqn:Ef; [destruct Hf|].
      eexists. split.
      * apply in_flat_map. exists k. split; [exact Hk|]. unfold cluster_entries.
        rewrite Ef. left. reflexivity.
      * split; reflexivity.
Qed.

Lemma map_clusters_witness :
  exists km,
    generate_knowledge_map level_layout [] small_extract = Ok km
    /\ (forall c, In c (clusters km) ->
          exists k, In k (in_clusters small_extract)
                    /\ lists_some (map_texts small_extract) k
                    /\ cluster_id c = k_id k
                    /\ cluster_concepts c = k_concepts k
                    /\ cluster_size c = List.length (k_concepts k)
                    /\ cluster_name c = match k_name k with
                                        | Some nm => nm
                                        | None => ("Cluster " ++ str_of_nat (k_id k))%string
                                        end)
    /\ (forall k, In k (in_clusters small_extract) ->
          lists_some (map_texts small_extract) k ->
          exists c, In c (clusters km)
                    /\ cluster_id c = k_id k /\ cluster_concepts c = k_concepts k)
    /\ (in_concepts small_extract <> [] -> hierarchy km = in_hierarchy small_extract).
Proof.
  eexists. split; [vm_compute; reflexivity|].
  apply (map_clusters level_layout [] small_extract). vm_compute. reflexivity.
Defined.

(** ** Failure and success *)

Lemma mapM_raise {A B} (f : A -> result B) (l : list A) (e : exn) :
  (forall x, In x l -> (exists y, f x = Ok y) \/ f x = Raise e) ->
  (exists x, In x l /\ f x = Raise e) ->
  mapM f l = Raise e.
Proof.
  induction l as [|a l IH]; intros Hall (x & Hx & Hr); [destruct Hx|].
  simpl. destruct (Hall a (or_introl eq_refl)) as [(y & Hy)|Ha].
  - rewrite Hy. cbn [bind]. rewrite IH; auto.
    + intros x' Hx'. apply Hall. now right.
    + destruct Hx as [->|Hx]; [congruence | eauto].
  - now rewrite Ha.
Qed.

Lemma fold_set_covers {A V} (key : A -> string) (val : A -> V) (l : list A)
  (d0 : dict V) (k : string) :
  dict_has d0 k = true \/ (exists a, In a l /\ key a = k) ->
  dict_has (fold_left (fun d a => dict_set d (key a) (val a)) l d0) k = true.
Proof.
  revert d0. induction l as [|a l IH]; intros d0; simpl.
  - intros [H|(a & [] & _)]; exact H.
  - intros H. apply IH. rewrite dict_has_set.
    destruct H as [H|(a' & [<-|Ha'] & Hk)].
    + left. rewrite H. apply orb_true_r.
    + left. rewrite Hk, String.eqb_refl. reflexivity.
    + right. eauto.
Qed.

Lemma foldM_set_covers {V W} (f : string -> result W) (h : W -> V) (l : list string)
  (d0 d : dict V) (k : string) :
  foldM (fun d n => bind (f n) (fun w => Ok (dict_set d n (h w)))) l d0 = Ok d ->
  dict_has d0 k = true \/ In k l -> dict_has d k = true.
Proof.
  revert d0. induction l as [|a l IH]; intros d0; simpl.
  - intros [= <-] [H|[]]. exact H.
  - intros H Hk. apply bind_Ok in H. destruct H as (d1 & Hd1 & H).
    apply bind_Ok in Hd1. destruct Hd1 as (w & Hw & [= <-]).
    apply (IH _ H). rewrite dict_has_set.
    destruct Hk as [Hk|[<-|Hk]]; auto.
    + left. rewrite Hk. apply orb_true_r.
    + left. now rewrite String.eqb_refl.
Qed.

Lemma dict_has_lookup {V} (d : dict V) (k : string) :
  dict_has d k = true -> exists v, lookup d k = Ok v.
Proof.
  unfold dict_has, lookup. destruct (dict_get d k); [eauto | discriminate].
Qed.

Lemma extremes_return (positions : dict (Q * Q)) :
  positions <> [] ->
  (exists a, min_of (map fst (dict_values positions)) = Ok a)
  /\ (exists a, max_of (map fst (dict_values positions)) = Ok a)
  /\ (exists a, min_of (map snd (dict_values positions)) = Ok a)
  /\ (exists a, max_of (map snd (dict_values positions)) = Ok a).
Proof.
  destruct positions as [|p ps]; [congruence|]. intros _.
  cbn [dict_values map min_of max_of]. repeat split; eexists; reflexivity.
Qed.

(** X11.  A relationship with an end point that is not a concept text
    makes the builder raise KeyError 'importance': the end point became a
    node without attributes when the edge was added. *)
Theorem unknown_endpoint_raises (spring_layout : Layout) (g : rng) (ek : ExtractedIn)
  (positions : dict (Q * Q)) (rel : RelationshipIn) :
  in_concepts ek <> [] ->
  spring_layout (build_graph ek) = Some positions -> positions <> [] ->
  In rel (in_relationships ek) ->
  ~ In (r_source rel) (map_texts ek) \/ ~ In (r_target rel) (map_texts ek) ->
  generate_knowledge_map spring_layout g ek = Raise (KeyError "importance").
Proof.
  intros Hne Hlayout Hpos Hrel Hstray. unfold generate_knowledge_map.
  destruct (in_concepts ek) as [|c0 cs] eqn:Ec; [congruence|].
  rewrite Hlayout. cbn [bind].
  destruct (extremes_return positions Hpos)
    as ((min_x & ->) & (max_x & ->) & (min_y & ->) & (max_y & ->)).
  cbn [bind]. rewrite MapperBounds.normalized_Ok. cbn [bind].
  rewrite (mapM_raise (node_importance (build_graph ek)) _ (KeyError "importance"));
    [reflexivity | |].
  - intros n Hn. destruct (node_importance_spec ek n Hn) as [[_ H]|[_ H]]; auto.
  - destruct (build_graph_endpoints ek rel Hrel) as [Hs Ht].
    destruct Hstray as [Hno|Hno].
    + exists (r_source rel). split; auto.
      destruct (node_importance_spec ek _ Hs) as [[H _]|[_ H]]; [tauto | exact H].
    + exists (r_target rel). split; auto.
      destruct (node_importance_spec ek _ Ht) as [[H _]|[_ H]]; [tauto | exact H].
Qed.

Lemma unknown_endpoint_raises_witness :
  generate_knowledge_map stray_layout [] stray_extract = Raise (KeyError "importance").
Proof.
  apply (unknown_endpoint_raises stray_layout [] stray_extract
           [("cat", (0, 0)%Q); ("dog", (1, 1)%Q)]
           (mkRelationshipIn "cat" "dog" (Some 1%Z) (Some "co-occurrence") None)).
  - discriminate.
  - reflexivity.
  - discriminate.
  - simpl. auto.
  - right. simpl. intros [H|[]]. discriminate H.
Defined.

(** The builder returns a map whenever there is a concept, every
    relationship joins two concept texts, and the layout call returns a
    position for every node of the graph: no division fails. *)
Lemma builder_returns (spring_layout : Layout) (g : rng) (ek : ExtractedIn)
  (positions : dict (Q * Q)) :
  in_concepts ek <> [] ->
  endpoints_known ek ->
  spring_layout (build_graph ek) = Some positions ->
  layout_covers (build_graph ek) positions ->
  exists km, generate_knowledge_map spring_layout g ek = Ok km.
Proof.
  intros Hne Hknown Hlayout Hcover.
  pose proof (MapperLayout.build_graph_nodes_not_nil ek Hne) as Hnodes.
  assert (Htexts : forall n, In n (Nx.nodes (build_graph ek)) -> In n (map_texts ek)).
  { apply (build_graph_invariant ek
             (fun G => forall n, In n (Nx.nodes G) -> In n (map_texts ek))).
    - intros n [].
    - intros G c d Hc HG n Hn. apply nodes_add_node_In in Hn.
      destruct Hn as [->|Hn]; auto. unfold map_texts. now apply in_map.
    - intros G rel e Hrel HG n Hn. destruct (Hknown rel Hrel) as [Hs Ht].
      unfold Nx.add_edge in Hn. rewrite !nodes_set_arc in Hn.
      apply nodes_add_node_In in Hn. destruct Hn as [->|Hn]; auto.
      apply nodes_add_node_In in Hn. destruct Hn as [->|Hn]; auto. }
  assert (Himp : forall n, In n (Nx.nodes (build_graph ek)) ->
                   exists imp, node_importance (build_graph ek) n = Ok imp).
  { intros n Hn. destruct (node_importance_spec ek n Hn) as [[_ H]|[H _]]; auto.
    exfalso. auto. }
  assert (Hpos : positions <> []).
  { intros ->. destruct (Nx.nodes (build_graph ek)) as [|n ns] eqn:En; [congruence|].
    specialize (Hcover n). rewrite En in Hcover.
    discriminate (Hcover (or_introl eq_refl)). }
  unfold generate_knowledge_map.
  destruct (in_concepts ek) as [|c0 cs] eqn:Ec; [congruence|].
  rewrite Hlayout. cbn [bind].
  destruct (extremes_return positions Hpos)
    as ((min_x & ->) & (max_x & ->) & (min_y & ->) & (max_y & ->)).
  cbn [bind]. rewrite MapperBounds.normalized_Ok. cbn [bind].
  destruct (mapM_total _ _ Himp) as (imps & ->). cbn [bind].
  rewrite MapperBounds.sizes_step.
  match goal with
  | |- context [foldM ?step (Nx.nodes (build_graph ek)) []] =>
      destruct (foldM step (Nx.nodes (build_graph ek)) []) as [sizes|e] eqn:Hsizes
  end.
  - cbn [bind].
    match goal with
    | |- context [mapM ?mk (Nx.nodes (build_graph ek))] =>
        destruct (mapM_total mk (Nx.nodes (build_graph ek))) as (nds & ->)
    end; [|cbn [bind]; rewrite MapperBounds.clusters_Ok; cbn [bind]; eauto].
    intros n Hn. unfold map_node.
    destruct (dict_has_lookup
                (fold_left
                   (fun np kv =>
                      dict_set np (fst kv)
                        (((fst (snd kv) - min_x) / span_of min_x max_x)%Q,
                         ((snd (snd kv) - min_y) / span_of min_y max_y)%Q))
                   positions []) n) as (pos & ->).
    { apply fold_set_covers. right. specialize (Hcover n Hn).
      unfold dict_has in Hcover.
      destruct (dict_get positions n) as [p|] eqn:Ep; [|discriminate Hcover].
      apply dict_get_In in Ep. exists (n, p). auto. }
    cbn [bind].
    destruct (dict_has_lookup sizes n) as (sz & ->); [|cbn [bind]; eauto].
    eapply foldM_set_covers; [exact Hsizes | now right].
  - exfalso. revert Hsizes.
    match goal with
    | |- foldM ?step _ _ = _ -> _ =>
        destruct (ExtractorHierarchy.foldM_total
                    (node_importance (build_graph ek))
                    (fun sizes node imp =>
                       dict_set sizes node
                         (5 + (imp - match imps with [] => 0 | v :: l => Qmin_from v l end)
                              / span_of match imps with [] => 0 | v :: l => Qmin_from v l end
                                        match imps with [] => 1 | v :: l => Qmax_from v l end
                              * 15)%Q)
                    (Nx.nodes (build_graph ek)) Himp (@nil (string * Q))) as (s & Hs)
    end.
    intros Hsizes. rewrite Hs in Hsizes. discriminate Hsizes.
Qed.


(** X12.  The builder returns a map whenever there is a concept, every
    relationship joins two concept texts, and the layout call returns a
    position for every node of the graph. *)
Theorem map_returns (spring_layout : Layout) (g : rng) (ek : ExtractedIn)
  (positions : dict (Q * Q)) :
  in_concepts ek <> [] ->
  endpoints_known ek ->
  spring_layout (build_graph ek) = Some positions ->
  layout_covers (build_graph ek) positions ->
  exists km, generate_knowledge_map spring_layout g ek = Ok km.
Proof. apply builder_returns. Qed.

Lemma map_returns_witness :
  exists km, generate_knowledge_map level_layout [] small_extract = Ok km.
Proof.
  apply (map_returns level_layout [] small_extract
           [("cat", ((-1) # 2, 1 # 3)%Q); ("mouse", (1 # 2, 1 # 3)%Q);
            ("garden", (0, 1 # 3)%Q)]).
  - discriminate.
  - intros rel [<-|[]]. simpl. auto.
  - reflexivity.
  - intros n Hn. vm_compute in Hn.
    destruct Hn as [<-|[<-|[<-|[]]]]; reflexivity.
Defined.

(** ** Attributes and sizes *)

Lemma build_graph_data (ek : ExtractedIn) : attrs_of_concepts ek (build_graph ek).
Proof.
  unfold build_graph.
  apply fold_left_invariant.
  - change (fun (G : MapGraph) concept => Nx.add_node G (c_text concept) _)
      with (fun (G : MapGraph) concept =>
              Nx.add_node G (c_text concept) (Some (concept_data concept))).
    apply (fold_left_invariant (attrs_of_concepts ek)).
    + intros n d H. discriminate H.
    + intros G c Hc HG n d. rewrite get_add_node_Some.
      destruct (String.eqb_spec n (c_text c)) as [->|Hne]; [|apply HG].
      intros [= <-]. eauto.
  - intros G rel _ HG n d. rewrite get_add_edge. apply HG.
Qed.

Lemma foldM_set_origin {V W} (f : string -> result W) (h : W -> V) (l : list string)
  (d0 d : dict V) (k : string) (v : V) :
  foldM (fun d n => bind (f n) (fun w => Ok (dict_set d n (h w)))) l d0 = Ok d ->
  dict_get d k = Some v ->
  dict_get d0 k = Some v \/ (In k l /\ exists w, f k = Ok w /\ v = h w).
Proof.
  revert d0. induction l as [|a l IH]; intros d0; simpl.
  - intros [= <-]. auto.
  - intros H Hk. apply bind_Ok in H. destruct H as (d1 & Hd1 & H).
    apply bind_Ok in Hd1. destruct Hd1 as (w & Hw & [= <-]).
    destruct (IH _ H Hk) as [H0|(Hin & w' & Hf & Hv)]; [|eauto 6].
    destruct (String.eqb_spec a k) as [<-|Hne].
    + rewrite dict_get_set_eq in H0. injection H0 as <-. eauto 6.
    + rewrite dict_get_set_neq in H0 by assumption. auto.
Qed.

(** The nodes of a returned map, as the builder computes them. *)
Lemma map_nodes_inv (spring_layout : Layout) (g : rng) (ek : ExtractedIn)
  (km : KnowledgeMap) :
  generate_knowledge_map spring_layout g ek = Ok km ->
  exists lo span,
    (0 < span)%Q
    /\ forall n, In n (nodes km) ->
         exists d, dict_get (Nx.g_nodes (build_graph ek)) (id n) = Some (Some d)
                   /\ ntype n = nd_type d /\ importance n = nd_importance d
                   /\ frequency n = nd_frequency d
                   /\ size n = (5 + (nd_importance d - lo) / span * 15)%Q.
Proof.
  unfold generate_knowledge_map.
  destruct (in_concepts ek) as [|c0 cs] eqn:Ec.
  { intros [= <-]. exists 0%Q, 1%Q. split; [reflexivity | intros n []]. }
  intros H.
  apply bind_Ok in H. destruct H as (positions & _ & H).
  apply bind_Ok in H. destruct H as (min_x & _ & H).
  apply bind_Ok in H. destruct H as (max_x & _ & H).
  apply bind_Ok in H. destruct H as (min_y & _ & H).
  apply bind_Ok in H. destruct H as (max_y & _ & H).
  apply bind_Ok in H. destruct H as (np & _ & H).
  apply bind_Ok in H. destruct H as (imps & Himps & H).
  apply bind_Ok in H. destruct H as (sizes & Hsizes & H).
  rewrite MapperBounds.sizes_step in Hsizes.
  apply bind_Ok in H. destruct H as (nds & Hnds & H).
  apply bind_Ok in H. destruct H as (appended & _ & H).
  apply Ok_inj in H. subst km. cbn [nodes].
  eexists _, _. split; [apply MapperBounds.span_of_pos|].
  intros n Hn. destruct (mapM_In _ _ _ Hnds n Hn) as (node & Hnode & Hmk).
  unfold map_node in Hmk.
  apply bind_Ok in Hmk. destruct Hmk as (pos & _ & Hmk).
  apply bind_Ok in Hmk. destruct Hmk as (sz & Hsz & Hmk).
  apply Ok_inj in Hmk. subst n. cbn [id ntype importance frequency size].
  apply MapperBounds.lookup_Ok in Hsz.
  eapply foldM_set_origin in Hsz; [|exact Hsizes].
  destruct Hsz as [Hsz|(_ & imp & Himp & ->)]; [discriminate Hsz|].
  unfold node_importance in Himp.
  destruct (dict_get (Nx.g_nodes (build_graph ek)) node) as [[d|]|];
    try discriminate Himp.
  apply Ok_inj in Himp. subst imp. exists d. repeat split.
Qed.

(** X24.  Every node of a returned map carries the type, importance and
    frequency of a concept with its text (with the defaults 'concept', 0.5
    and 1 for missing entries), and its size grows with its importance: of
    two nodes, the one that is no more important is no larger. *)
Theorem node_attributes (spring_layout : Layout) (g : rng) (ek : ExtractedIn)
  (km : KnowledgeMap) :
  generate_knowledge_map spring_layout g ek = Ok km ->
  (forall n, In n (nodes km) ->
     exists c, In c (in_concepts ek) /\ c_text c = id n
               /\ ntype n = match c_type c with Some t => t | None => "concept" end
               /\ importance n
                  = match c_importance c with Some i => i | None => (1 # 2)%Q end
               /\ frequency n = match c_frequency c with Some f => f | None => 1%Z end)
  /\ (forall n1 n2, In n1 (nodes km) -> In n2 (nodes km) ->
        (importance n1 <= importance n2)%Q -> (size n1 <= size n2)%Q).
Proof.
  intros H. destruct (map_nodes_inv _ _ _ _ H) as (lo & span & Hspan & Hnodes).
  split.
  - intros n Hn. destruct (Hnodes n Hn) as (d & Hd & Ht & Hi & Hf & _).
    destruct (build_graph_data ek _ _ Hd) as (c & Hc & Hid & ->).
    exists c. rewrite Ht, Hi, Hf. auto.
  - intros n1 n2 H1 H2 Hle.
    destruct (Hnodes n1 H1) as (d1 & _ & _ & Hi1 & _ & ->).
    destruct (Hnodes n2 H2) as (d2 & _ & _ & Hi2 & _ & ->).
    rewrite Hi1, Hi2 in Hle.
    assert (Hinv : (0 <= / span)%Q) by (apply Qinv_le_0_compat; lra).
    assert (Hdiv : ((nd_importance d1 - lo) / span <= (nd_importance d2 - lo) / span)%Q).
    { unfold Qdiv. apply Qmult_le_compat_r; [lra | exact Hinv]. }
    lra.
Qed.

Lemma node_attributes_witness :
  exists km,
    generate_knowledge_map level_layout [] small_extract = Ok km
    /\ (forall n, In n (nodes km) ->
          exists c, In c (in_concepts small_extract) /\ c_text c = id n
                    /\ ntype n = match c_type c with Some t => t | None => "concept" end
                    /\ importance n
                       = match c_importance c with Some i => i | None => (1 # 2)%Q end
                    /\ frequency n
                       = match c_frequency c with Some f => f | None => 1%Z end)
    /\ (forall n1 n2, In n1 (nodes km) -> In n2 (nodes km) ->
          (importance n1 <= importance n2)%Q -> (size n1 <= size n2)%Q).
Proof.
  eexists. split; [vm_compute; reflexivity|].
  apply (node_attributes level_layout [] small_extract). vm_compute. reflexivity.
Defined.

(** ** Cluster centres *)

Lemma node_positions_inv (spring_layout : Layout) (g : rng) (ek : ExtractedIn)
  (km : KnowledgeMap) :
  generate_knowledge_map spring_layout g ek = Ok km ->
  forall n, In n (nodes km) -> (0 <= x n <= 1)%Q /\ (0 <= y n <= 1)%Q.
Proof.
  intros H n Hn.
  destruct (MapperBounds.node_bounds _ _ _ _ H n Hn) as (Hx & Hy & _). auto.
Qed.

(** The mean of a non-empty family of numbers lies between any bounds of
    the family. *)
Lemma mean_between (l : list Q) (lo hi : Q) :
  l <> [] -> (forall v, In v l -> (lo <= v <= hi)%Q) ->
  (lo <= sum_of l / inject_Z (Z.of_nat (List.length l)) <= hi)%Q.
Proof.
  intros Hne Hall.
  assert (Hn : (0 < inject_Z (Z.of_nat (List.length l)))%Q).
  { destruct l; [congruence|]. unfold Qlt. cbn [List.length inject_Z Qnum Qden]. lia. }
  assert (Hsum : (inject_Z (Z.of_nat (List.length l)) * lo <= sum_of l)%Q
                 /\ (sum_of l <= inject_Z (Z.of_nat (List.length l)) * hi)%Q).
  { clear Hne Hn. induction l as [|a l IH].
    - change (sum_of []) with 0%Q. cbn [List.length Z.of_nat].
      change (inject_Z 0) with 0%Q. split; lra.
    - destruct IH as [IH1 IH2]; [intros v Hv; apply Hall; now right|].
      destruct (Hall a (or_introl eq_refl)) as [Ha1 Ha2].
      rewrite MapperBounds.sum_of_cons.
      replace (Z.of_nat (List.length (a :: l))) with (1 + Z.of_nat (List.length l))%Z
        by (cbn [List.length]; lia).
      rewrite inject_Z_plus. change (inject_Z 1) with 1%Q. split; lra. }
  destruct Hsum as [H1 H2]. split.
  - apply Qle_shift_div_l; auto. now rewrite Qmult_comm.
  - apply Qle_shift_div_r; auto. now rewrite Qmult_comm.
Qed.

(** X25.  The centre of every cluster of a returned map lies in the unit
    square. *)
Theorem cluster_centres_in_unit_square (spring_layout : Layout) (g : rng)
  (ek : ExtractedIn) (km : KnowledgeMap) :
  generate_knowledge_map spring_layout g ek = Ok km ->
  forall c, In c (clusters km) ->
    (0 <= fst (center c) <= 1)%Q /\ (0 <= snd (center c) <= 1)%Q.
Proof.
  intros H c Hc. pose proof (node_positions_inv _ _ _ _ H) as Hpos.
  destruct (in_concepts ek) as [|c0 cs] eqn:Ec.
  { rewrite empty_map in H by assumption. apply Ok_inj in H. subst km. destruct Hc. }
  assert (Hne : in_concepts ek <> []) by (rewrite Ec; discriminate).
  destruct (knowledge_map_inv _ _ _ _ Hne H) as (_ & _ & _ & Hcl & _).
  rewrite Hcl in Hc. apply in_flat_map in Hc. destruct Hc as (k & _ & Hc).
  unfold cluster_entries in Hc.
  destruct (filter (fun n => mem (id n) (k_concepts k)) (nodes km))
    as [|m ms] eqn:Ef; [destruct Hc|].
  destruct Hc as [<-|[]]. cbn [center fst snd]. unfold len_of.
  assert (Hmem : forall n, In n (m :: ms) -> In n (nodes km)).
  { intros n Hn. rewrite <- Ef in Hn. now apply filter_In in Hn. }
  split.
  - apply mean_between; [discriminate|].
    intros v Hv. apply in_map_iff in Hv. destruct Hv as (n & <- & Hn).
    apply Hpos. now apply Hmem.
  - apply mean_between; [discriminate|].
    intros v Hv. apply in_map_iff in Hv. destruct Hv as (n & <- & Hn).
    apply Hpos. now apply Hmem.
Qed.

Lemma cluster_centres_in_unit_square_witness :
  exists km,
    generate_knowledge_map level_layout [] small_extract = Ok km
    /\ forall c, In c (clusters km) ->
         (0 <= fst (center c) <= 1)%Q /\ (0 <= snd (center c) <= 1)%Q.
Proof.
  eexists. split; [vm_compute; reflexivity|].
  apply (cluster_centres_in_unit_square level_layout [] small_extract).
  vm_compute. reflexivity.
Defined.

(** ** Layout invariants *)

Lemma Qmin_from_In (l : list Q) (b : Q) : Qmin_from b l = b \/ In (Qmin_from b l) l.
Proof.
  revert b. induction l as [|a l IH]; intros b; simpl; [now left|].
  destruct (IH (if Qltb a b then a else b)) as [H|H]; [|now right; right].
  rewrite H. destruct (Qltb a b); [right; now left | now left].
Qed.

Lemma Qmax_from_In (l : list Q) (b : Q) : Qmax_from b l = b \/ In (Qmax_from b l) l.
Proof.
  revert b. induction l as [|a l IH]; intros b; simpl; [now left|].
  destruct (IH (if Qltb b a then a else b)) as [H|H]; [|now right; right].
  rewrite H. destruct (Qltb b a); [right; now left | now left].
Qed.

Lemma min_of_In (l : list Q) (m : Q) : min_of l = Ok m -> In m l.
Proof.
  destruct l as [|a l]; [discriminate|]. intros [= <-].
  destruct (Qmin_from_In l a) as [->|H]; [now left | now right].
Qed.

Lemma lowest_In (imps : list Q) : imps <> [] -> In (lowest imps) imps.
Proof.
  destruct imps as [|a l]; [congruence|]. intros _. unfold lowest.
  destruct (Qmin_from_In l a) as [->|H]; [now left | now right].
Qed.

(** How the builder computes the coordinates and the size of a node. *)
Lemma node_formulas (spring_layout : Layout) (g : rng) (ek : ExtractedIn)
  (km : KnowledgeMap) :
  in_concepts ek <> [] ->
  generate_knowledge_map spring_layout g ek = Ok km ->
  exists positions min_x max_x min_y max_y imps,
    match spring_layout (build_graph ek) with
    | Some p => Ok p
    | None => random_positions g (build_graph ek)
    end = Ok positions
    /\ min_of (map fst (dict_values positions)) = Ok min_x
    /\ max_of (map fst (dict_values positions)) = Ok max_x
    /\ min_of (map snd (dict_values positions)) = Ok min_y
    /\ max_of (map snd (dict_values positions)) = Ok max_y
    /\ (forall imp, In imp imps ->
          exists c, In c (in_concepts ek) /\ imp = nd_importance (concept_data c))
    /\ forall n, In n (nodes km) ->
         exists p imp,
           In p (dict_values positions) /\ In imp imps
           /\ x n = ((fst p - min_x) / span_of min_x max_x)%Q
           /\ y n = ((snd p - min_y) / span_of min_y max_y)%Q
           /\ size n
              = (5 + (imp - lowest imps) / span_of (lowest imps) (highest imps) * 15)%Q.
Proof.
  intros Hne. unfold generate_knowledge_map.
  destruct (in_concepts ek) as [|c0 cs] eqn:Ec; [congruence|].
  intros H.
  apply bind_Ok in H. destruct H as (positions & Hlayout & H).
  apply bind_Ok in H. destruct H as (min_x & Hminx & H).
  apply bind_Ok in H. destruct H as (max_x & Hmaxx & H).
  apply bind_Ok in H. destruct H as (min_y & Hminy & H).
  apply bind_Ok in H. destruct H as (max_y & Hmaxy & H).
  apply bind_Ok in H. destruct H as (np & Hnp & H).
  rewrite MapperBounds.normalized_Ok in Hnp. apply Ok_inj in Hnp. subst np.
  apply bind_Ok in H. destruct H as (imps & Himps & H).
  apply bind_Ok in H. destruct H as (sizes & Hsizes & H).
  rewrite MapperBounds.sizes_step in Hsizes.
  apply bind_Ok in H. destruct H as (nds & Hnds & H).
  apply bind_Ok in H. destruct H as (appended & _ & H).
  apply Ok_inj in H. subst km. cbn [nodes].
  exists positions, min_x, max_x, min_y, max_y, imps.
  repeat (split; [assumption|]). split.
  - intros imp Himp. destruct (mapM_In _ _ _ Himps imp Himp) as (n & _ & Hn).
    unfold node_importance in Hn.
    destruct (dict_get (Nx.g_nodes (build_graph ek)) n) as [[d|]|] eqn:Ed;
      try discriminate Hn.
    apply Ok_inj in Hn. subst imp.
    destruct (build_graph_data ek n d Ed) as (c & Hc & _ & ->).
    rewrite Ec in Hc. now exists c.
  - intros n Hn. destruct (mapM_In _ _ _ Hnds n Hn) as (node & Hnode & Hmk).
    unfold map_node in Hmk.
    apply bind_Ok in Hmk. destruct Hmk as (pos & Hpos & Hmk).
    apply bind_Ok in Hmk. destruct Hmk as (sz & Hsz & Hmk).
    apply Ok_inj in Hmk. subst n. cbn [x y size].
    apply MapperBounds.lookup_Ok in Hpos. apply MapperBounds.lookup_Ok in Hsz.
    apply fold_set_get in Hpos. destruct Hpos as [Hpos|(kv & Hkv & ->)];
      [discriminate Hpos|].
    eapply foldM_set_origin in Hsz; [|exact Hsizes].
    destruct Hsz as [Hsz|(_ & imp & Himp & ->)]; [discriminate Hsz|].
    destruct (mapM_all _ _ _ Himps node Hnode) as (imp' & Hin & Himp').
    rewrite Himp in Himp'. apply Ok_inj in Himp'. subst imp'.
    exists (snd kv), imp. cbn [fst snd].
    split; [unfold dict_values; now apply in_map|]. split; [exact Hin|].
    repeat split.
Qed.

(** Every cluster of a returned map has a member node, and its centre lies
    in the unit square. *)
Lemma cluster_inside (spring_layout : Layout) (g : rng) (ek : ExtractedIn)
  (km : KnowledgeMap) :
  generate_knowledge_map spring_layout g ek = Ok km ->
  forall c, In c (clusters km) ->
    member_nodes km c <> []
    /\ (0 <= fst (center c) <= 1)%Q /\ (0 <= snd (center c) <= 1)%Q.
Proof.
  intros H c Hc. pose proof (node_positions_inv _ _ _ _ H) as Hpos.
  destruct (in_concepts ek) as [|c0 cs] eqn:Ec.
  { rewrite empty_map in H by assumption. apply Ok_inj in H. subst km. destruct Hc. }
  assert (Hne : in_concepts ek <> []) by (rewrite Ec; discriminate).
  destruct (knowledge_map_inv _ _ _ _ Hne H) as (_ & _ & _ & Hcl & _).
  rewrite Hcl in Hc. apply in_flat_map in Hc. destruct Hc as (k & _ & Hc).
  unfold cluster_entries in Hc.
  destruct (filter (fun n => mem (id n) (k_concepts k)) (nodes km))
    as [|m ms] eqn:Ef; [destruct Hc|].
  destruct Hc as [<-|[]]. unfold member_nodes. cbn [center cluster_concepts fst snd].
  rewrite Ef. unfold len_of.
  assert (Hmem : forall n, In n (m :: ms) -> In n (nodes km)).
  { intros n Hn. rewrite <- Ef in Hn. now apply filter_In in Hn. }
  split; [discriminate|]. split.
  - apply mean_between; [discriminate|].
    intros v Hv. apply in_map_iff in Hv. destruct Hv as (n & <- & Hn).
    apply Hpos. now apply Hmem.
  - apply mean_between; [discriminate|].
    intros v Hv. apply in_map_iff in Hv. destruct Hv as (n & <- & Hn).
    apply Hpos. now apply Hmem.
Qed.

(** Every cluster handed over that lists a concept text is a cluster of the
    returned map. *)
Lemma clusters_present (spring_layout : Layout) (g : rng) (ek : ExtractedIn)
  (km : KnowledgeMap) :
  in_concepts ek <> [] ->
  generate_knowledge_map spring_layout g ek = Ok km ->
  forall k, In k (in_clusters ek) -> lists_some (map_texts ek) k ->
    exists c, In c (clusters km)
              /\ cluster_id c = k_id k /\ cluster_concepts c = k_concepts k.
Proof.
  intros Hne H k Hk (t & Ht & Htk).
  destruct (map_node_ids _ _ _ _ Hne H) as (Hids & _ & Htexts).
  destruct (knowledge_map_inv _ _ _ _ Hne H) as (_ & _ & _ & Hcl & _).
  assert (Hid : In t (map id (nodes km))) by (rewrite Hids; now apply Htexts).
  apply in_map_iff in Hid. destruct Hid as (m & <- & Hm).
  assert (Hf : In m (filter (fun n => mem (id n) (k_concepts k)) (nodes km))).
  { apply filter_In. split; auto. now apply mem_In. }
  destruct (filter (fun n => mem (id n) (k_concepts k)) (nodes km))
    as [|m0 ms] eqn:Ef; [destruct Hf|].
  eexists. split.
  - rewrite Hcl. apply in_flat_map. exists k. split; [exact Hk|].
    unfold cluster_entries. rewrite Ef. left. reflexivity.
  - split; reflexivity.
Qed.



End MapperShape.

(* ===================================================================== *)
(** * Knowledge-map builder: the cluster centre in doubles *)
(* ===================================================================== *)

Module MapperDoubles.
Import PrimFloat Samples.
Local Open Scope float_scope.


End MapperDoubles.

(* ===================================================================== *)
(** * Journey generator: the journey record *)
(* ===================================================================== *)

Module JourneyShape.
Import Py PyFacts Journey Samples Invariants.

(** ** How long a path gets *)

Section Lengths.
Variable start : string.

Lemma within_push (n : nat) (st : PathState) (c : string) :
  within n start st -> within (S n) start (push st c).
Proof.
  intros [Hin Hlen]. split; simpl.
  - apply in_or_app. now left.
  - rewrite length_app. simpl. lia.
Qed.

Lemma within_le (n m : nat) (st : PathState) :
  n <= m -> within n start st -> within m start st.
Proof. intros Hle [Hin Hlen]. split; auto. lia. Qed.

(** A loop that appends at most one concept per round. *)
Lemma fold_appending {A} (f : PathState -> A -> PathState) (l : list A)
  (n : nat) (st : PathState) :
  (forall st x, f st x = st \/ exists c, f st x = push st c) ->
  within n start st -> within (n + List.length l) start (fold_left f l st).
Proof.
  intros Hf. revert n st. induction l as [|x l IH]; intros n st Hst; simpl.
  - now rewrite Nat.add_0_r.
  - replace (n + S (List.length l)) with (S n + List.length l) by lia.
    apply IH. destruct (Hf st x) as [->|(c & ->)].
    + apply (within_le n); [lia | assumption].
    + now apply within_push.
Qed.

(** A loop that appends only while the path is shorter than [k]. *)
Lemma fold_guarded {A} (f : PathState -> A -> PathState) (k : nat) (l : list A)
  (n : nat) (st : PathState) :
  (forall st x, f st x = st
                \/ (List.length (fst st) < k /\ exists c, f st x = push st c)) ->
  within n start st -> within (Nat.max n k) start (fold_left f l st).
Proof.
  intros Hf. revert st.
  assert (Hstep : forall st x, within (Nat.max n k) start st ->
                               within (Nat.max n k) start (f st x)).
  { intros st x Hst. destruct (Hf st x) as [->|(Hlt & c & ->)]; auto.
    destruct Hst as [Hin Hlen]. split; simpl.
    - apply in_or_app. now left.
    - rewrite length_app. simpl. lia. }
  intros st Hst. apply (within_le n (Nat.max n k)) in Hst; [|lia].
  revert st Hst. induction l as [|x l IH]; intros st Hst; simpl; auto.
Qed.

Lemma push_new_cases (st : PathState) (c : string) :
  push_new st c = st \/ exists c', push_new st c = push st c'.
Proof. unfold push_new. destruct (mem c (snd st)); eauto. Qed.

Lemma firstn_length_le {A} (n : nat) (l : list A) : List.length (firstn n l) <= n.
Proof. rewrite length_firstn. lia. Qed.

Lemma within_pad (g : rng) (nodes : dict Node) (n : nat) (st : PathState) :
  within n start st -> within (Nat.max n 5) start (pad_similar g start nodes st).
Proof.
  intros Hst. unfold pad_similar.
  destruct (List.length (fst st) <? 5)%nat; [|apply (within_le n); auto; lia].
  apply fold_guarded; auto.
  intros st' c. destruct (Nat.ltb_spec (List.length (fst st')) 5); eauto.
Qed.

Lemma within_start : within 1 start ([start], [start]).
Proof. split; simpl; auto. Qed.

Lemma default_path_length (g : rng) (nodes : dict Node) (graph : Adjacency) :
  In start (_generate_default_path g start nodes graph)
  /\ List.length (_generate_default_path g start nodes graph) <= 5.
Proof.
  unfold _generate_default_path.
  set (neighbors := firstn 3 _).
  assert (H1 : within 4 start
                 (fold_left (fun st nb => push_new st (fst nb)) neighbors
                            ([start], [start]))).
  { apply (within_le (1 + List.length neighbors));
      [pose proof (firstn_length_le 3 (sort_desc by_snd (dict_get_or graph start [])));
       subst neighbors; lia|].
    apply fold_appending; [|apply within_start].
    intros st nb. apply push_new_cases. }
  apply (within_pad g nodes) in H1. exact H1.
Qed.

Lemma pattern_path_length (g : rng) (nodes : dict Node) (graph : Adjacency)
  (km : KnowledgeMap) :
  In start (_generate_pattern_based_path g start nodes graph km)
  /\ List.length (_generate_pattern_based_path g start nodes graph km) <= 6.
Proof.
  unfold _generate_pattern_based_path.
  destruct (max_by cluster_size_ltb _) as [primary|].
  2:{ destruct (default_path_length g nodes graph) as [H1 H2]. split; [exact H1 | lia]. }
  cbv zeta.
  set (connected := firstn 3 _).
  set (st1 := fold_left (fun st c => push_new st (fst c)) connected ([start], [start])).
  assert (H1 : within 4 start st1).
  { apply (within_le (1 + List.length connected)).
    - subst connected. match goal with |- context [firstn 3 ?l] =>
        pose proof (firstn_length_le 3 l) end. lia.
    - apply fold_appending; [|apply within_start].
      intros st c. apply push_new_cases. }
  set (candidates := firstn 2 _).
  set (st2 := fold_left (fun st c => push_new st (fst c)) candidates st1).
  assert (H2 : within 6 start st2).
  { apply (within_le (4 + List.length candidates)).
    - subst candidates. match goal with |- context [firstn 2 ?l] =>
        pose proof (firstn_length_le 2 l) end. lia.
    - apply fold_appending; auto. intros st c. apply push_new_cases. }
  destruct (List.length (fst st2) <? 5)%nat; [|exact H2].
  match goal with
  | |- context [fold_left ?f (concepts primary) st2] =>
      apply (fold_guarded f 5 (concepts primary)) in H2; [exact H2|]
  end.
  intros st c. destruct (negb (mem c (snd st))); simpl; auto.
  destruct (Nat.ltb_spec (List.length (fst st)) 5); eauto.
Qed.

Lemma associative_steps_length (steps : nat) (g : rng) (nodes : dict Node)
  (graph : Adjacency) (st : PathState) (current : string) (n : nat) :
  within n start st ->
  In start (associative_steps steps g nodes graph st current)
  /\ List.length (associative_steps steps g nodes graph st current) <= n + steps.
Proof.
  revert g graph st current n.
  induction steps as [|steps IH]; intros g graph st current n Hst; simpl.
  - destruct Hst. split; auto. lia.
  - assert (Hhere : In start (fst st) /\ List.length (fst st) <= n + S steps).
    { destruct Hst. split; auto. lia. }
    destruct (dict_get_or graph current []) as [|nb nbs]; [exact Hhere|].
    match goal with
    | |- context [let (next_concept, g0) := ?e in _] => destruct e as [[c|] g']
    end; [|exact Hhere].
    destruct (negb (c =? "")%string); [|exact Hhere].
    replace (n + S steps) with (S n + steps) by lia.
    apply IH. now apply within_push.
Qed.

Lemma associative_path_length (g : rng) (nodes : dict Node) (graph : Adjacency) :
  In start (_generate_associative_path g start nodes graph)
  /\ List.length (_generate_associative_path g start nodes graph) <= 6.
Proof.
  unfold _generate_associative_path.
  apply (associative_steps_length 5 g nodes graph _ start 1). apply within_start.
Qed.

Lemma hierarchical_path_length (limit : nat) (g : rng) (nodes : dict Node)
  (km : KnowledgeMap) (p : list string) :
  _generate_hierarchical_path limit g start nodes km = Ok p ->
  In start p /\ List.length p <= 6.
Proof.
  unfold _generate_hierarchical_path. cbv zeta. intros H.
  apply bind_Ok in H. destruct H as (st & Hst & H). apply Ok_inj in H. subst p.
  assert (Hw : within 6 start st).
  { destruct (mem start _).
    - apply Ok_inj in Hst. subst st.
      match goal with |- context [firstn 4 ?l] =>
        pose proof (firstn_length_le 4 l) as Hl;
        apply (within_le (1 + List.length (firstn 4 l))); [lia|]
      end.
      apply fold_appending; [|apply within_start].
      intros st c. apply push_new_cases.
    - apply bind_Ok in Hst. destruct Hst as (parent & _ & Hst).
      apply Ok_inj in Hst. subst st.
      match goal with
      | |- within 6 start (fold_left ?f ?l (fold_left ?f' ?l' ?st0)) =>
          assert (H0 : within 2 start st0);
          [|apply (fold_guarded f' 4 l') in H0;
            [apply (fold_guarded f 6 l) in H0; [exact H0|]|]]
      end.
      + destruct parent as [p|]; [|apply (within_le 1); [lia | apply within_start]].
        destruct (negb (p =? "")%string && negb (mem p (snd ([start], [start]))));
          [|apply (within_le 1); [lia | apply within_start]].
        split; simpl; auto.
      + intros st c. destruct (negb (mem c (snd st))); simpl; auto.
        destruct (Nat.ltb_spec (List.length (fst st)) 6); eauto.
      + intros st c. destruct (negb (c =? start)%string && negb (mem c (snd st)));
          simpl; auto.
        destruct (Nat.ltb_spec (List.length (fst st)) 4); eauto. }
  apply (within_pad g nodes) in Hw. exact Hw.
Qed.
End Lengths.


(** X13.  The journey generator returns a journey in each of these cases:
    the recursion limit is two or more and the hierarchy tree is flat, that
    is, no listed child is itself a key of the tree; or the start concept is
    a hierarchy root; or the journey type chosen for it is not
    'hierarchical'; or no start concept is given. *)
Theorem journey_returns (limit : nat) (g : rng) (km : KnowledgeMap)
  (start : option string) (prefs : option (dict value)) :
  (2 <= limit
   /\ tree_flat (match Extractor.tree (hierarchy km) with Some t => t | None => [] end)
      = true)
  \/ (exists s, start = Some s
                /\ (In s (match Extractor.roots (hierarchy km) with
                          | Some r => r | None => [] end)
                    \/ _determine_journey_type s (nodes_of km) prefs <> "hierarchical"))
  \/ start = None ->
  exists j, generate_journey limit g (Some km) start prefs = Ok j.
Proof.
  intros [[Hlimit Hflat]|[(s & -> & Hs)| ->]].
  - destruct limit as [|[|limit]]; try lia.
    now apply JourneyPaths.journey_returned.
  - unfold generate_journey.
    destruct (s =? "")%string; [eauto|].
    destruct (negb (dict_has (nodes_of km) s)); [eauto|].
    destruct (_ =? "pattern_based")%string; [cbn [bind]; eauto|].
    destruct (String.eqb_spec (_determine_journey_type s (nodes_of km) prefs)
                              "hierarchical") as [Hh|_].
    + destruct Hs as [Hroot|Hno]; [|contradiction].
      unfold _generate_hierarchical_path. cbv zeta.
      apply mem_In in Hroot. rewrite Hroot. cbn [bind]. eauto.
    + destruct (_ =? "associative")%string; cbn [bind]; eauto.
  - cbn. eauto.
Qed.

Lemma journey_returns_witness :
  exists j,
    generate_journey 2 [3; 1; 4] (Some garden_map) (Some "Acme garden") None = Ok j.
Proof.
  apply (journey_returns 2 [3; 1; 4] garden_map (Some "Acme garden") None).
  left. split; [lia | reflexivity].
Defined.

(** ** The record *)

Lemma determine_journey_type_In (start : string) (nodes : dict Node)
  (prefs : option (dict value)) :
  In (_determine_journey_type start nodes prefs) journey_types.
Proof.
  assert (Hh : In (type_heuristic start nodes) journey_types).
  { unfold type_heuristic, journey_types. cbv zeta.
    destruct (mem _ ["noun_phrase"; "key_term"]); [simpl; auto|].
    destruct (mem _ ["ORG"; "PERSON"; "GPE"]); simpl; auto. }
  unfold _determine_journey_type. destruct prefs as [[|p ps]|]; auto.
  destruct (named_type _) as [t|] eqn:Et.
  - unfold named_type in Et.
    destruct (dict_get (p :: ps) "preferred_journey_type") as [[| | |s]|];
      try discriminate Et.
    destruct (mem s journey_types) eqn:Em; [|discriminate Et].
    injection Et as <-. now apply mem_In.
  - destruct (is_high _); [simpl; auto|].
    destruct (is_high _); [simpl; auto|].
    destruct (is_high _); [simpl; auto | exact Hh].
Qed.

Lemma fold_set_lookup {V} (val : string -> V) (l : list string) (d0 : dict V)
  (c : string) :
  (In c l -> dict_get (fold_left (fun d k => dict_set d k (val k)) l d0) c
             = Some (val c))
  /\ (~ In c l -> dict_get (fold_left (fun d k => dict_set d k (val k)) l d0) c
                  = dict_get d0 c).
Proof.
  revert d0. induction l as [|a l IH]; intros d0; simpl; [tauto|].
  destruct (IH (dict_set d0 a (val a))) as [IH1 IH2].
  destruct (in_dec string_dec c l) as [Hin|Hout].
  - split; [auto | tauto].
  - rewrite (IH2 Hout). split.
    + intros [->|Hin]; [apply dict_get_set_eq | contradiction].
    + intros Hno. apply dict_get_set_neq. tauto.
Qed.

Lemma fold_set_keys {V} (val : string -> V) (l : list string) (d0 : dict V) :
  NoDup (dict_keys d0 ++ l) ->
  dict_keys (fold_left (fun d k => dict_set d k (val k)) l d0) = dict_keys d0 ++ l.
Proof.
  revert d0. induction l as [|a l IH]; intros d0 Hnd; simpl.
  - now rewrite app_nil_r.
  - assert (Ha : dict_has d0 a = false).
    { destruct (dict_has d0 a) eqn:Eh; auto. exfalso.
      rewrite dict_has_keys in Eh. apply mem_In in Eh.
      apply NoDup_remove_2 in Hnd. apply Hnd, in_or_app. now left. }
    rewrite IH; rewrite dict_keys_set, Ha, <- app_assoc; [reflexivity | exact Hnd].
Qed.

(** X14.  A returned journey echoes the start concept, and its content has
    exactly one entry per concept of the path, in path order, holding the
    content generated for that concept.  It is either the default journey -
    exactly when the start concept is missing, empty or not a node id - or
    its type is the one chosen by the type selection, which is one of
    'pattern_based', 'hierarchical' and 'associative', and its path holds the
    start concept and no more than six concepts. *)
Theorem journey_shape (limit : nat) (g : rng) (km : KnowledgeMap)
  (start : option string) (prefs : option (dict value)) (j : JourneyRecord) :
  generate_journey limit g (Some km) start prefs = Ok j ->
  start_concept j = start
  /\ dict_keys (content j) = path j
  /\ (forall c, In c (path j) ->
        dict_get (content j) c = Some (_generate_concept_content c (nodes_of km) km))
  /\ ((j = default_journey start
       /\ (start = None \/ start = Some ""
           \/ exists s, start = Some s /\ ~ In s (map id (nodes km))))
      \/ (exists s, start = Some s /\ s <> "" /\ In s (map id (nodes km))
                    /\ journey_type (metadata j)
                       = _determine_journey_type s (nodes_of km) prefs
                    /\ In (journey_type (metadata j)) journey_types
                    /\ In s (path j) /\ List.length (path j) <= 6)).
Proof.
  intros H.
  assert (Hnd : NoDup (path j)).
  { apply (JourneyPaths.generated_path_fine (fun _ => True) limit g km start prefs j);
      auto.
    - intros cluster c _ _. exact I.
    - split; intros; exact I. }
  unfold generate_journey in H.
  assert (Hdefault : forall s, default_journey s = j ->
            start_concept j = s /\ dict_keys (content j) = path j
            /\ (forall c, In c (path j) ->
                  dict_get (content j) c
                  = Some (_generate_concept_content c (nodes_of km) km))).
  { intros s <-. simpl. repeat split; intros c []. }
  destruct start as [s|].
  2:{ apply Ok_inj in H. destruct (Hdefault _ H) as (H1 & H2 & H3).
      split; [exact H1|]. split; [exact H2|]. split; [exact H3|].
      left. split; [now symmetry | now left]. }
  destruct (String.eqb_spec s "") as [->|Hne].
  { apply Ok_inj in H. destruct (Hdefault _ H) as (H1 & H2 & H3).
    split; [exact H1|]. split; [exact H2|]. split; [exact H3|].
    left. split; [now symmetry | right; now left]. }
  destruct (dict_has (nodes_of km) s) eqn:Hs; cbn [negb] in H.
  2:{ apply Ok_inj in H. destruct (Hdefault _ H) as (H1 & H2 & H3).
      split; [exact H1|]. split; [exact H2|]. split; [exact H3|].
      left. split; [now symmetry|]. right. right. exists s. split; [reflexivity|].
      intros Hin. apply JourneyPaths.nodes_of_keys in Hin. apply mem_In in Hin.
      rewrite <- dict_has_keys in Hin. congruence. }
  assert (Hid : In s (map id (nodes km))).
  { apply JourneyPaths.nodes_of_keys. apply mem_In. now rewrite <- dict_has_keys. }
  apply bind_Ok in H. destruct H as (p & Hp & H). apply Ok_inj in H. subst j.
  cbn [start_concept path content metadata journey_type] in *.
  split; [reflexivity|]. split; [now apply fold_set_keys|].
  split.
  { intros c Hc.
    exact (proj1 (fold_set_lookup
                    (fun c => _generate_concept_content c (nodes_of km) km) p [] c) Hc). }
  right. exists s. split; [reflexivity|]. split; [exact Hne|]. split; [exact Hid|].
  split; [reflexivity|]. split; [apply determine_journey_type_In|]. split.
  - destruct (_ =? "pattern_based")%string;
      [apply Ok_inj in Hp; subst p; apply pattern_path_length|].
    destruct (_ =? "hierarchical")%string;
      [now apply (hierarchical_path_length s limit g (nodes_of km) km)|].
    destruct (_ =? "associative")%string; apply Ok_inj in Hp; subst p;
      [apply associative_path_length | apply default_path_length].
  - destruct (_ =? "pattern_based")%string;
      [apply Ok_inj in Hp; subst p; apply pattern_path_length|].
    destruct (_ =? "hierarchical")%string;
      [now apply (hierarchical_path_length s limit g (nodes_of km) km)|].
    destruct (_ =? "associative")%string; apply Ok_inj in Hp; subst p;
      [apply associative_path_length|].
    destruct (default_path_length s g (nodes_of km) (graph_of km)) as [_ Hl]. lia.
Qed.

Lemma journey_shape_witness :
  exists j,
    generate_journey 8 [3; 1; 4] (Some garden_map) (Some "Acme garden") None = Ok j
    /\ start_concept j = Some "Acme garden"
    /\ dict_keys (content j) = path j
    /\ (forall c, In c (path j) ->
          dict_get (content j) c
          = Some (_generate_concept_content c (nodes_of garden_map) garden_map))
    /\ ((j = default_journey (Some "Acme garden")
         /\ (Some "Acme garden" = None \/ Some "Acme garden" = Some ""
             \/ exists s, Some "Acme garden" = Some s
                          /\ ~ In s (map id (nodes garden_map))))
        \/ (exists s, Some "Acme garden" = Some s /\ s <> ""
                      /\ In s (map id (nodes garden_map))
                      /\ journey_type (metadata j)
                         = _determine_journey_type s (nodes_of garden_map) None
                      /\ In (journey_type (metadata j)) journey_types
                      /\ In s (path j) /\ List.length (path j) <= 6)).
Proof.
  eexists. split; [vm_compute; reflexivity|].
  apply (journey_shape 8 [3; 1; 4] garden_map (Some "Acme garden") None).
  vm_compute. reflexivity.
Defined.

(** ** The content of a concept *)

Lemma related_of_spec (concept_id : string) (link : Link) (r : Related) :
  In r (related_of concept_id link) ->
  related_id r <> concept_id
  /\ ((source link = concept_id /\ target link = related_id r)
      \/ (target link = concept_id /\ source link = related_id r))
  /\ strength r = match weight link with Some w => w | None => 1%Z end
  /\ relationship_type r = match ltype link with Some t => t | None => "related" end.
Proof.
  unfold related_of. cbv zeta.
  destruct (String.eqb_spec (source link) concept_id) as [Hs|Hs];
    destruct (String.eqb_spec (target link) concept_id) as [Ht|Ht]; cbn [andb negb].
  - intros [].
  - intros [<-|[]]. cbn. repeat split; auto.
  - intros [<-|[]]. cbn. repeat split; auto.
  - intros [].
Qed.

(** X15.  The related concepts in the content of a concept: at most five,
    strongest first, never the concept itself; each is the other end of a
    link at the concept and carries that link's weight (1 when it has none)
    and type ('related' when it has none). *)
Theorem content_related (concept_id : string) (nodes : dict Node) (km : KnowledgeMap) :
  List.length (related_concepts (_generate_concept_content concept_id nodes km)) <= 5
  /\ StronglySorted (fun a b => (strength b <= strength a)%Z)
                    (related_concepts (_generate_concept_content concept_id nodes km))
  /\ forall r, In r (related_concepts (_generate_concept_content concept_id nodes km)) ->
       related_id r <> concept_id
       /\ exists link, In link (links km)
            /\ ((source link = concept_id /\ target link = related_id r)
                \/ (target link = concept_id /\ source link = related_id r))
            /\ strength r = match weight link with Some w => w | None => 1%Z end
            /\ relationship_type r
               = match ltype link with Some t => t | None => "related" end.
Proof.
  cbn [_generate_concept_content related_concepts]. split; [|split].
  - apply firstn_le_length.
  - apply firstn_StronglySorted. apply (ExtractorShape.Zltb_sorted strength).
  - intros r Hr. apply firstn_In, sort_desc_In, in_flat_map in Hr.
    destruct Hr as (link & Hlink & Hr). apply related_of_spec in Hr.
    destruct Hr as (H1 & H2 & H3 & H4). split; [exact H1|]. exists link. auto.
Qed.

(** ** Complexity *)

Lemma sum_of_nil : (sum_of [] == 0)%Q.
Proof. reflexivity. Qed.

Lemma length_cons_Q {A} (a : A) (l : list A) :
  (inject_Z (Z.of_nat (List.length (a :: l)))
   == 1 + inject_Z (Z.of_nat (List.length l)))%Q.
Proof.
  replace (Z.of_nat (List.length (a :: l))) with (1 + Z.of_nat (List.length l))%Z
    by (cbn [List.length]; lia).
  now rewrite inject_Z_plus.
Qed.

Lemma sum_of_at_least (l : list Q) (lo : Q) :
  (forall v, In v l -> (lo <= v)%Q) ->
  (inject_Z (Z.of_nat (List.length l)) * lo <= sum_of l)%Q.
Proof.
  induction l as [|a l IH]; intros Hall.
  - rewrite sum_of_nil. cbn [List.length Z.of_nat]. change (inject_Z 0) with 0%Q. lra.
  - rewrite MapperBounds.sum_of_cons, length_cons_Q.
    assert (Ha : (lo <= a)%Q) by (apply Hall; now left).
    assert (Hl : (inject_Z (Z.of_nat (List.length l)) * lo <= sum_of l)%Q).
    { apply IH. intros v Hv. apply Hall. now right. }
    lra.
Qed.

Lemma sum_of_at_most (l : list Q) (hi : Q) :
  (forall v, In v l -> (v <= hi)%Q) ->
  (sum_of l <= inject_Z (Z.of_nat (List.length l)) * hi)%Q.
Proof.
  induction l as [|a l IH]; intros Hall.
  - rewrite sum_of_nil. cbn [List.length Z.of_nat]. change (inject_Z 0) with 0%Q. lra.
  - rewrite MapperBounds.sum_of_cons, length_cons_Q.
    assert (Ha : (a <= hi)%Q) by (apply Hall; now left).
    assert (Hl : (sum_of l <= inject_Z (Z.of_nat (List.length l)) * hi)%Q).
    { apply IH. intros v Hv. apply Hall. now right. }
    lra.
Qed.

Lemma length_positive {A} (l : list A) :
  l <> [] -> (0 < inject_Z (Z.of_nat (List.length l)))%Q.
Proof.
  destruct l; [congruence|]. intros _.
  unfold Qlt. cbn [List.length inject_Z Qnum Qden]. lia.
Qed.

(** X16.  The complexity of a journey follows the importances read for the
    concepts of its path (0.5 for a concept without one): 'high' when each
    is at least 0.75, 'low' when none exceeds 0.25, 'medium' when all lie
    between 0.5 and 0.625, and 'medium' for an empty path.  The bounds are
    multiples of 1/8 and keep away from the thresholds 0.7 and 0.4: a bound
    and its multiples are doubles, so the rounded sum and the rounded
    quotient of doubles on one side of a bound stay on that side, and the
    average that the code forms in doubles gets the same label. *)
Theorem complexity_by_importance (path : list string) (nodes : dict Node) :
  (path = [] -> _determine_complexity path nodes = "medium")
  /\ (path <> [] ->
      ((forall c, In c path -> (3 # 4 <= read_importance nodes c)%Q) ->
       _determine_complexity path nodes = "high")
      /\ ((forall c, In c path -> (read_importance nodes c <= 1 # 4)%Q) ->
          _determine_complexity path nodes = "low")
      /\ ((forall c, In c path ->
             (1 # 2 <= read_importance nodes c)%Q
             /\ (read_importance nodes c <= 5 # 8)%Q) ->
          _determine_complexity path nodes = "medium")).
Proof.
  split; [intros ->; reflexivity|]. intros Hne.
  unfold _determine_complexity. cbv zeta.
  change (fun concept => node_importance_or nodes concept (1 # 2))
    with (read_importance nodes).
  set (imps := map (read_importance nodes) path).
  assert (Hi : imps <> []).
  { subst imps. destruct path; [congruence | discriminate]. }
  assert (Hn := length_positive imps Hi).
  assert (Havg : forall a,
             ((forall v, In v imps -> (a <= v)%Q) ->
              (a <= sum_of imps / inject_Z (Z.of_nat (List.length imps)))%Q)
             /\ ((forall v, In v imps -> (v <= a)%Q) ->
                 (sum_of imps / inject_Z (Z.of_nat (List.length imps)) <= a)%Q)).
  { intros a. split; intros Hall.
    - apply Qle_shift_div_l; auto. rewrite Qmult_comm. now apply sum_of_at_least.
    - apply Qle_shift_div_r; auto. rewrite Qmult_comm. now apply sum_of_at_most. }
  assert (Hin : forall (P : Q -> Prop),
             (forall c, In c path -> P (read_importance nodes c)) ->
             forall v, In v imps -> P v).
  { intros P HP v Hv. subst imps. apply in_map_iff in Hv.
    destruct Hv as (c & <- & Hc). auto. }
  assert (Hmatch : forall x y : Q, match imps with [] => x | _ :: _ => y end = y).
  { intros x y. destruct imps; [congruence | reflexivity]. }
  rewrite Hmatch. clearbody imps.
  set (avg := (sum_of imps / inject_Z (Z.of_nat (List.length imps)))%Q) in *.
  split; [|split].
  - intros Hall. pose proof (Hin (fun v => (3 # 4 <= v)%Q) Hall) as H7.
    apply (proj1 (Havg (3 # 4)%Q)) in H7.
    assert (Hhigh : Qltb (7 # 10) avg = true) by (apply Qltb_true; lra).
    now rewrite Hhigh.
  - intros Hall. pose proof (Hin (fun v => (v <= 1 # 4)%Q) Hall) as H4.
    apply (proj2 (Havg (1 # 4)%Q)) in H4.
    assert (H7 : Qltb (7 # 10) avg = false) by (apply Qltb_false; lra).
    assert (H4' : Qltb (4 # 10) avg = false) by (apply Qltb_false; lra).
    now rewrite H7, H4'.
  - intros Hall.
    assert (H4 : forall v, In v imps -> (1 # 2 <= v)%Q).
    { apply (Hin (fun v => (1 # 2 <= v)%Q)). intros c Hc. apply Hall, Hc. }
    assert (H7 : forall v, In v imps -> (v <= 5 # 8)%Q).
    { apply (Hin (fun v => (v <= 5 # 8)%Q)). intros c Hc. apply Hall, Hc. }
    apply (proj1 (Havg (1 # 2)%Q)) in H4. apply (proj2 (Havg (5 # 8)%Q)) in H7.
    assert (Hhigh : Qltb (7 # 10) avg = false) by (apply Qltb_false; lra).
    assert (Hmid : Qltb (4 # 10) avg = true) by (apply Qltb_true; lra).
    now rewrite Hhigh, Hmid.
Qed.

(** ** Cycles in the hierarchy tree *)

Lemma is_descendant_trapped (tree : dict (list Extractor.SubTree)) (concept : string)
  (keys : list string) (limit : nat) (root : string) :
  trapped tree concept keys -> In root keys ->
  _is_descendant limit concept root tree = Raise RecursionError.
Proof.
  intros Htrap. revert root. induction limit as [|limit IH]; intros root Hroot;
    [reflexivity|].
  destruct (Htrap root Hroot) as (Hne & sub & rest & Hsub & Hc & Hin).
  cbn [_is_descendant].
  destruct (String.eqb_spec concept root) as [->|_]; [congruence|].
  rewrite Hsub.
  destruct (String.eqb_spec concept (concept_of sub)) as [->|_]; [congruence|].
  now rewrite (IH _ Hin).
Qed.

(** X17.  On a hierarchy tree with a cycle the hierarchical strategy
    exhausts every recursion limit: when the start concept is a node but no
    root, and the search from the first root only ever reaches keys whose
    first child is again such a key, the journey generator raises
    RecursionError. *)
Theorem cyclic_tree_raises (limit : nat) (g : rng) (km : KnowledgeMap)
  (start : string) (prefs : option (dict value))
  (keys : list string) (root : string) (rest : list string)
  (tree : dict (list Extractor.SubTree)) :
  start <> "" -> In start (map id (nodes km)) ->
  _determine_journey_type start (nodes_of km) prefs = "hierarchical" ->
  Extractor.roots (hierarchy km) = Some (root :: rest) ->
  ~ In start (root :: rest) ->
  Extractor.tree (hierarchy km) = Some tree ->
  trapped tree start keys -> In root keys ->
  generate_journey limit g (Some km) (Some start) prefs = Raise RecursionError.
Proof.
  intros Hne Hid Htype Hroots Hnoroot Htree Htrap Hroot.
  unfold generate_journey.
  apply String.eqb_neq in Hne. rewrite Hne.
  apply JourneyPaths.nodes_of_keys, mem_In in Hid. rewrite <- dict_has_keys in Hid.
  rewrite Hid, Htype. cbn [negb String.eqb Ascii.eqb Bool.eqb andb].
  unfold _generate_hierarchical_path. cbv zeta. rewrite Hroots, Htree.
  apply mem_not_In in Hnoroot. rewrite Hnoroot. cbn [find_parent].
  now rewrite (is_descendant_trapped tree start keys limit root Htrap Hroot).
Qed.

Lemma cyclic_tree_raises_witness :
  generate_journey 1000 [] (Some looping_map) (Some "c") None = Raise RecursionError.
Proof.
  apply (cyclic_tree_raises 1000 [] looping_map "c" None ["a"; "b"] "a" ["b"]
           [("a", [Extractor.Sub "b" []]); ("b", [Extractor.Sub "a" []])]).
  - discriminate.
  - simpl. auto.
  - reflexivity.
  - reflexivity.
  - simpl. intros [H|[H|[]]]; discriminate H.
  - reflexivity.
  - intros r [<-|[<-|[]]]; (split; [discriminate|]).
    + exists (Extractor.Sub "b" []), []. repeat split; [discriminate | simpl; auto].
    + exists (Extractor.Sub "a" []), []. repeat split; [discriminate | simpl; auto].
  - simpl. auto.
Defined.

(** ** The adjacency table *)

Lemma graph_append_In (graph : Adjacency) (k k' : string) (v x : string * Z) :
  In x (dict_get_or (graph_append graph k v) k' [])
  <-> In x (dict_get_or graph k' []) \/ (k' = k /\ x = v).
Proof.
  unfold graph_append, dict_get_or. rewrite NxFacts.dict_get_set.
  destruct (String.eqb_spec k' k) as [->|Hne].
  - rewrite in_app_iff. simpl. intuition (subst; auto).
  - intuition congruence.
Qed.

Lemma graph_fold_spec (ls : list Link) (graph : Adjacency) (s t : string) (w : Z) :
  In (t, w)
     (dict_get_or
        (fold_left
           (fun graph link =>
              let w := match weight link with Some w => w | None => 1%Z end in
              graph_append (graph_append graph (source link) (target link, w))
                           (target link) (source link, w))
           ls graph) s [])
  <-> In (t, w) (dict_get_or graph s []) \/ exists link, In link ls /\ joins link s t w.
Proof.
  revert graph. induction ls as [|link ls IH]; intros graph; simpl.
  - split; [auto | intros [H|(link & [] & _)]; exact H].
  - rewrite IH, !graph_append_In. unfold joins. split.
    + intros [[[H|[Hs He]]|[Hs He]]|(l & Hl & Hj)];
        [now left | | | right; destruct Hj; eauto 8].
      * injection He as Ht Hw. right. exists link. split; [now left|]. auto.
      * injection He as Ht Hw. right. exists link. split; [now left|]. auto.
    + intros [H|(l & [<-|Hl] & Hj)]; [auto | | eauto].
      destruct Hj as [Hw [[Hs Ht]|[Hs Ht]]]; subst s t w.
      * left. left. right. auto.
      * left. right. auto.
Qed.

(** X20.  The adjacency table built from the links lists [t] with weight
    [w] under [s] exactly when some link joins [s] and [t], in either
    direction, with weight [w] (1 for a link without a weight); hence [t] is
    listed under [s] with a weight exactly when [s] is listed under [t] with
    that weight. *)
Theorem graph_of_spec (km : KnowledgeMap) (s t : string) (w : Z) :
  (In (t, w) (dict_get_or (graph_of km) s [])
   <-> exists link, In link (links km) /\ joins link s t w)
  /\ (In (t, w) (dict_get_or (graph_of km) s [])
      <-> In (s, w) (dict_get_or (graph_of km) t [])).
Proof.
  assert (H : forall s t,
             In (t, w) (dict_get_or (graph_of km) s [])
             <-> exists link, In link (links km) /\ joins link s t w).
  { intros s' t'. unfold graph_of. rewrite graph_fold_spec. simpl. tauto. }
  split; [apply H|]. rewrite !H. unfold joins.
  split; intros (link & Hl & Hw & Hj); exists link; tauto.
Qed.

(** ** Pattern focus *)

Lemma same_id_eq (a b : option nat) : same_id a b = true <-> a = b.
Proof.
  destruct a as [m|], b as [n|]; simpl; try (split; congruence).
  rewrite Nat.eqb_eq. split; congruence.
Qed.

Lemma same_id_refl (a : option nat) : same_id a a = true.
Proof. now apply same_id_eq. Qed.

Lemma count_up_at (counts : list (option nat * nat)) (k k' : option nat) :
  count_at (count_up counts k) k'
  = count_at counts k' + (if same_id k' k then 1 else 0).
Proof.
  unfold count_at. induction counts as [|[k0 n] counts IH]; simpl.
  - now destruct (same_id k' k).
  - destruct (same_id k k0) eqn:E0; simpl.
    + apply same_id_eq in E0. subst k0.
      destruct (same_id k' k); simpl; lia.
    + destruct (same_id k' k0) eqn:E1; simpl; [|exact IH].
      apply same_id_eq in E1. subst k0.
      destruct (same_id k' k) eqn:E2; [|lia].
      apply same_id_eq in E2. subst k'. rewrite same_id_refl in E0. discriminate E0.
Qed.

Lemma count_at_top (counts : list (option nat * nat)) (k : option nat) :
  count_at counts k <= fold_right Nat.max 0 (map snd counts).
Proof.
  unfold count_at. induction counts as [|[k0 n] counts IH]; simpl; [lia|].
  destruct (same_id k k0); simpl; lia.
Qed.

Lemma count_at_nil (k : option nat) : count_at [] k = 0.
Proof. reflexivity. Qed.

Section ClusterCounts.
Variable path : list string.

Lemma inner_counts (l : list string) (cluster : Cluster)
  (counts : list (option nat * nat)) (k : option nat) :
  let counts' :=
    fold_left
      (fun counts concept =>
         if mem concept (concepts cluster)
         then count_up counts (cluster_id cluster) else counts)
      l counts in
  count_at counts k <= count_at counts' k
  /\ ((forall c, In c l -> In c (concepts cluster)) ->
      count_at counts' (cluster_id cluster)
      = count_at counts (cluster_id cluster) + List.length l)
  /\ ((forall c, In c l -> ~ In c (concepts cluster)) -> counts' = counts).
Proof.
  cbv zeta. revert counts. induction l as [|c l IH]; intros counts; simpl.
  - split; [lia|]. split; [lia | reflexivity].
  - destruct (IH (if mem c (concepts cluster)
                 then count_up counts (cluster_id cluster) else counts))
      as (H1 & H2 & H3).
    split; [|split].
    + eapply Nat.le_trans; [|exact H1].
      destruct (mem c (concepts cluster)); [rewrite count_up_at|]; lia.
    + intros Hall. rewrite H2 by (intros c' Hc'; apply Hall; now right).
      assert (Hc : mem c (concepts cluster) = true)
        by (apply mem_In, Hall; now left).
      rewrite Hc, count_up_at, same_id_refl. lia.
    + intros Hnone. rewrite H3 by (intros c' Hc'; apply Hnone; now right).
      assert (Hc : mem c (concepts cluster) = false)
        by (apply mem_not_In, Hnone; now left).
      now rewrite Hc.
Qed.
End ClusterCounts.

(** X21.  The pattern focus of a path is 'low' when no cluster lists any
    of its concepts, and 'high' when the path is not empty and some cluster
    lists all of them. *)
Theorem pattern_focus_cases (path : list string) (km : KnowledgeMap) :
  ((forall cluster c, In cluster (clusters km) -> In c path ->
                      ~ In c (concepts cluster)) ->
   _determine_pattern_focus path km = "low")
  /\ (path <> [] ->
      (exists cluster, In cluster (clusters km)
                       /\ forall c, In c path -> In c (concepts cluster)) ->
      _determine_pattern_focus path km = "high").
Proof.
  split.
  - intros Hnone.
    assert (H0 : cluster_counts_of path km = []).
    { unfold cluster_counts_of.
      apply (fold_left_invariant (fun counts => counts = [])); [reflexivity|].
      intros counts cluster Hcl ->.
      apply (inner_counts path cluster [] None). intros c. now apply Hnone. }
    unfold _determine_pattern_focus. now rewrite H0.
  - intros Hne (cluster & Hcl & Hall).
    assert (Hcount : List.length path
                     <= count_at (cluster_counts_of path km) (cluster_id cluster)).
    { unfold cluster_counts_of.
      apply (HierarchyShape.fold_left_establish
               (fun _ => True)
               (fun cluster counts =>
                  (forall c, In c path -> In c (concepts cluster)) ->
                  List.length path <= count_at counts (cluster_id cluster)))
        with (x := cluster); auto.
      - intros counts cl _ _ Hin.
        destruct (inner_counts path cl counts (cluster_id cl)) as (_ & H2 & _).
        rewrite (H2 Hin). lia.
      - intros counts cl cl' _ _ Hold Hin.
        destruct (inner_counts path cl counts (cluster_id cl')) as (H1 & _).
        specialize (Hold Hin). lia. }
    pose proof (count_at_top (cluster_counts_of path km) (cluster_id cluster)) as Htop.
    unfold _determine_pattern_focus. cbv zeta.
    assert (Hlen : 0 < List.length path) by (destruct path; [congruence | simpl; lia]).
    assert (Hnonempty : Nat.eqb (List.length (cluster_counts_of path km)) 0 = false).
    { destruct (cluster_counts_of path km); [rewrite count_at_nil in Hcount; lia|].
      reflexivity. }
    rewrite Hnonempty. cbn [negb andb].
    assert (Hq : Qle_bool (inject_Z (Z.of_nat (List.length path)) * (7 # 10))
                   (inject_Z (Z.of_nat (fold_right Nat.max 0%nat
                                          (map snd (cluster_counts_of path km)))))
                 = true).
    { apply Qle_bool_iff.
      assert (Ha : (inject_Z (Z.of_nat (List.length path))
                    <= inject_Z (Z.of_nat (fold_right Nat.max 0%nat
                                             (map snd (cluster_counts_of path km)))))%Q)
        by (rewrite <- Zle_Qle; lia).
      assert (Hb : (inject_Z 0 <= inject_Z (Z.of_nat (List.length path)))%Q)
        by (rewrite <- Zle_Qle; lia).
      change (inject_Z 0) with 0%Q in Hb. lra. }
    now rewrite Hq.
Qed.
End JourneyShape.

(* ===================================================================== *)
(** * Upload filter *)
(* ===================================================================== *)

Module AppFacts.
Import Py PyFacts App.

Lemma contains_dot_cons (c : ascii) (s : string) :
  contains "." (String c s) = Ascii.eqb "."%char c || contains "." s.
Proof.
  cbn [contains String.prefix]. destruct (ascii_dec "."%char c) as [<-|Hne].
  - now destruct s.
  - apply Ascii.eqb_neq in Hne. now rewrite Hne.
Qed.

Lemma rsplit_once_no_dot (s : string) :
  contains "." s = false -> rsplit_once "."%char s = [s].
Proof.
  induction s as [|c s IH]; [reflexivity|].
  rewrite contains_dot_cons. intros H. apply orb_false_elim in H.
  destruct H as [Hc Hs]. cbn [rsplit_once]. rewrite (IH Hs).
  rewrite Ascii.eqb_sym in Hc. now rewrite Hc.
Qed.

Lemma rsplit_once_app (stem ext : string) :
  contains "." ext = false ->
  rsplit_once "."%char (stem ++ "." ++ ext)%string = [stem; ext].
Proof.
  intros Hext. induction stem as [|c stem IH].
  - cbn [String.append rsplit_once]. now rewrite (rsplit_once_no_dot ext Hext).
  - cbn [String.append rsplit_once] in *. now rewrite IH.
Qed.

Lemma contains_dot_app (stem ext : string) :
  contains "." (stem ++ "." ++ ext)%string = true.
Proof.
  induction stem as [|c stem IH].
  - cbn [String.append]. now rewrite contains_dot_cons.
  - cbn [String.append] in *. rewrite contains_dot_cons, IH. apply orb_true_r.
Qed.

Lemma last_dot (filename : string) :
  contains "." filename = true ->
  exists stem ext,
    filename = (stem ++ "." ++ ext)%string /\ contains "." ext = false.
Proof.
  induction filename as [|c s IH]; [discriminate|].
  rewrite contains_dot_cons. intros H.
  destruct (contains "." s) eqn:Hs.
  - destruct (IH eq_refl) as (stem & ext & -> & Hext).
    exists (String c stem), ext. auto.
  - rewrite orb_false_r in H. apply Ascii.eqb_eq in H. subst c.
    exists ""%string, s. auto.
Qed.

(** X18.  The upload filter looks at the text after the last dot only and
    ignores its case: a name without a dot is refused, and a name
    [stem.ext] whose [ext] holds no dot is accepted exactly when the
    lower-cased [ext] is a key of the processor table.  Every name with a
    dot is of that form, so the index into the split name never fails. *)
Theorem allowed_file_spec :
  (forall filename, contains "." filename = false -> allowed_file filename = Some false)
  /\ (forall stem ext, contains "." ext = false ->
        allowed_file (stem ++ "." ++ ext)%string
        = Some (mem (lower ext)
                    ["pdf"; "txt"; "md"; "rtf"; "ppt"; "pptx"; "jpg"; "jpeg"; "png";
                     "html"; "htm"]))
  /\ (forall filename, contains "." filename = true ->
        exists stem ext,
          filename = (stem ++ "." ++ ext)%string /\ contains "." ext = false)
  /\ forall filename, exists accepted, allowed_file filename = Some accepted.
Proof.
  assert (H1 : forall filename, contains "." filename = false ->
                 allowed_file filename = Some false).
  { intros filename H. unfold allowed_file. now rewrite H. }
  assert (H2 : forall stem ext, contains "." ext = false ->
                 allowed_file (stem ++ "." ++ ext)%string
                 = Some (mem (lower ext) (dict_keys ALLOWED_EXTENSIONS))).
  { intros stem ext H. unfold allowed_file.
    rewrite contains_dot_app, (rsplit_once_app stem ext H). cbn [nth_error].
    now rewrite dict_has_keys. }
  split; [exact H1|]. split; [exact H2|]. split; [exact last_dot|].
  intros filename. destruct (contains "." filename) eqn:Hd.
  - destruct (last_dot filename Hd) as (stem & ext & -> & Hext).
    rewrite (H2 stem ext Hext). eauto.
  - rewrite (H1 filename Hd). eauto.
Qed.

End AppFacts.

(* ===================================================================== *)
(** * Extractor: when relationship extraction fails *)
(* ===================================================================== *)

Module RelationshipErrors.
Import Py PyFacts NxFacts NxMore Extractor Samples Invariants.

(** ** The data of an edge after a change *)

Section EdgeData.
Context {N E : Type}.
Implicit Type G : Nx.Graph N E.

Lemma has_edge_data G u v :
  Nx.has_edge G u v = match Nx.edge_data G u v with Some _ => true | None => false end.
Proof. reflexivity. Qed.

Lemma edge_data_set_arc G u v (d : E) u' v' :
  Nx.edge_data (Nx.set_arc G u v d) u' v'
  = if (u' =? u)%string && (v' =? v)%string then Some d else Nx.edge_data G u' v'.
Proof.
  unfold Nx.edge_data. rewrite neighbors_set_arc.
  destruct (String.eqb_spec u' u) as [->|Hu]; cbn [andb]; [|reflexivity].
  apply dict_get_set.
Qed.

Lemma edge_data_both G u v (d : E) u' v' :
  Nx.edge_data (Nx.set_arc (Nx.set_arc G u v d) v u d) u' v'
  = if at_pair u v u' v' then Some d else Nx.edge_data G u' v'.
Proof.
  rewrite !edge_data_set_arc. unfold at_pair.
  destruct ((u' =? v)%string && (v' =? u)%string); [now rewrite orb_true_r|].
  now rewrite orb_false_r.
Qed.

Lemma edge_data_add_edge G u v (d : E) u' v' :
  Nx.has_node G u = true -> Nx.has_node G v = true ->
  Nx.edge_data (Nx.add_edge G u v d) u' v'
  = if at_pair u v u' v' then Some d else Nx.edge_data G u' v'.
Proof.
  intros Hu Hv. unfold Nx.add_edge. cbv zeta.
  rewrite (add_node_known G u Hu), (add_node_known G v Hv). apply edge_data_both.
Qed.

Lemma edge_data_update_edge G u v (f : E -> E) (d : E) u' v' :
  Nx.edge_data G u v = Some d ->
  Nx.edge_data (Nx.update_edge G u v f) u' v'
  = if at_pair u v u' v' then Some (f d) else Nx.edge_data G u' v'.
Proof.
  intros Hd. unfold Nx.update_edge. rewrite Hd. apply edge_data_both.
Qed.

Lemma at_pair_swap u v u' v' : at_pair u v v' u' = at_pair u v u' v'.
Proof.
  unfold at_pair. rewrite orb_comm.
  now rewrite (andb_comm (u' =? v)%string), (andb_comm (u' =? u)%string).
Qed.

Lemma at_pair_self u v : at_pair u v u v = true.
Proof. unfold at_pair. now rewrite !String.eqb_refl. Qed.

Lemma at_pair_inv u v u' v' :
  at_pair u v u' v' = true -> (u' = u /\ v' = v) \/ (u' = v /\ v' = u).
Proof.
  unfold at_pair. intros H. apply orb_true_iff in H.
  destruct H as [H|H]; apply andb_true_iff in H; destruct H as [H1 H2];
    apply String.eqb_eq in H1, H2; auto.
Qed.

(** Giving both directions of one edge the same data keeps the graph
    symmetric. *)
Lemma rewired_symmetric G G' u v (d : E) :
  (forall u' v', Nx.edge_data G' u' v'
                 = if at_pair u v u' v' then Some d else Nx.edge_data G u' v') ->
  symmetric G -> symmetric G'.
Proof.
  intros HG' Hs u' v'. rewrite !HG', at_pair_swap. now rewrite (Hs u' v').
Qed.

Lemma has_node_set_arc G u v (d : E) n :
  Nx.has_node (Nx.set_arc G u v d) n = Nx.has_node G n.
Proof. reflexivity. Qed.

Lemma has_node_update_edge G u v (f : E -> E) n :
  Nx.has_node (Nx.update_edge G u v f) n = Nx.has_node G n.
Proof. unfold Nx.update_edge. now destruct (Nx.edge_data G u v). Qed.

Lemma has_node_add_edge G u v (d : E) n :
  Nx.has_node G n = true -> Nx.has_node (Nx.add_edge G u v d) n = true.
Proof.
  intros H. unfold Nx.add_edge. cbv zeta. rewrite !has_node_set_arc.
  rewrite !has_node_add_node, H. now rewrite !orb_true_r.
Qed.
End EdgeData.


(** ** The co-occurrence graph *)

Section Passes.
Variable concepts : list Concept.

Local Abbreviation keeps := (@keeps_nodes unit EdgeData concepts).

Lemma node_graph_ok :
  keeps (node_graph concepts)
  /\ forall u v, Nx.edge_data (node_graph concepts) u v = None.
Proof.
  split.
  - intros t Ht. unfold texts in Ht. apply in_map_iff in Ht.
    destruct Ht as (c & <- & Hc). unfold node_graph.
    apply (HierarchyShape.fold_left_establish
             (fun _ => True)
             (fun (c : Concept) (G : RelGraph) => Nx.has_node G (text c) = true));
      auto.
    + intros G a _ _. now rewrite has_node_add_node, String.eqb_refl.
    + intros G a b _ _ Hb. rewrite has_node_add_node, Hb. apply orb_true_r.
  - unfold node_graph.
    apply (fold_left_invariant
             (fun G : RelGraph => forall u v, Nx.edge_data G u v = None)).
    + reflexivity.
    + intros G c _ HG u v. unfold Nx.add_node.
      destruct (Nx.has_node G (text c)); [apply HG|].
      unfold Nx.edge_data, Nx.neighbors, dict_get_or. cbn [Nx.g_adj].
      rewrite dict_get_set. destruct (String.eqb_spec u (text c)) as [->|_];
        [reflexivity | apply HG].
Qed.

Local Abbreviation cooccurring := (Invariants.cooccurring concepts).

Lemma cooccur_pair_ok (G : RelGraph) (x y : string) :
  In x (texts concepts) -> In y (texts concepts) ->
  cooccurring G -> cooccurring (cooccur_pair G (x, y)).
Proof.
  intros Hx Hy (Hk & Hs & Hu). unfold cooccur_pair.
  rewrite has_edge_data. destruct (Nx.edge_data G x y) as [d|] eqn:Ed.
  - pose proof (fun u v => edge_data_update_edge G x y bump_weight d u v Ed) as Hd.
    split; [|split].
    + intros t Ht. rewrite has_node_update_edge. now apply Hk.
    + now apply (rewired_symmetric G _ x y (bump_weight d)).
    + intros u v d'. rewrite Hd. destruct (at_pair x y u v); [|apply Hu].
      intros [= <-]. cbn. now apply (Hu x y).
  - pose proof (fun u v =>
                  edge_data_add_edge G x y (mkEdgeData 1 "co-occurrence" None) u v
                    (Hk x Hx) (Hk y Hy)) as Hd.
    split; [|split].
    + intros t Ht. apply has_node_add_edge. now apply Hk.
    + now apply (rewired_symmetric G _ x y (mkEdgeData 1 "co-occurrence" None)).
    + intros u v d'. rewrite Hd. destruct (at_pair x y u v); [|apply Hu].
      now intros [= <-].
Qed.

Lemma cooccurrence_graph_ok (env : Collaborators) (txt : string) :
  cooccurring (cooccurrence_graph env txt concepts).
Proof.
  unfold cooccurrence_graph. apply (fold_left_invariant cooccurring).
  - destruct node_graph_ok as [Hk Hnone]. split; [exact Hk|]. split.
    + intros u v. now rewrite !Hnone.
    + intros u v d. now rewrite Hnone.
  - intros G sent _ HG. unfold cooccur_sentence.
    apply (fold_left_invariant cooccurring); auto.
    intros G' [x y] Hin HG'. apply ExtractorShape.pairs_of_In in Hin.
    destruct Hin as [Hx Hy].
    apply ExtractorShape.sentence_concepts_In in Hx, Hy.
    destruct Hx as (kx & Hx), Hy as (ky & Hy).
    apply ExtractorShape.concept_map_values in Hx, Hy.
    now apply cooccur_pair_ok.
Qed.

(** ** The syntactic pass *)

Variable G0 : RelGraph.
Hypothesis G0_ok : cooccurring G0.

Local Abbreviation syntactic := (Invariants.syntactic concepts G0).

Lemma syntactic_start : syntactic G0.
Proof.
  destruct G0_ok as (Hk & Hs & Hu). split; [exact Hk|]. split; [exact Hs|].
  intros u v. rewrite has_edge_data.
  destruct (Nx.edge_data G0 u v) as [d|] eqn:Ed; [eauto | intros d H; discriminate H].
Qed.

Lemma G0_swap (u v : string) : Nx.has_edge G0 v u = Nx.has_edge G0 u v.
Proof.
  destruct G0_ok as (_ & Hs & _). rewrite !has_edge_data. now rewrite (Hs v u).
Qed.

(** Giving an edge outside the co-occurrence graph data with a 'types'
    entry keeps the invariant. *)
Lemma rewired_syntactic (G G' : RelGraph) (x y : string) (d : EdgeData) :
  (forall u v, Nx.edge_data G' u v
               = if at_pair x y u v then Some d else Nx.edge_data G u v) ->
  (forall t, Nx.has_node G t = true -> Nx.has_node G' t = true) ->
  Nx.has_edge G0 x y = false -> e_types d <> None ->
  syntactic G -> syntactic G'.
Proof.
  intros Hd Hn Hx Ht (Hk & Hs & Hu). split; [|split].
  - intros t Htx. now apply Hn, Hk.
  - now apply (rewired_symmetric G G' x y d).
  - intros u v. specialize (Hu u v). rewrite Hd.
    destruct (at_pair x y u v) eqn:Ep; [|exact Hu].
    assert (H0 : Nx.has_edge G0 u v = false).
    { apply at_pair_inv in Ep. destruct Ep as [[-> ->]|[-> ->]]; auto.
      now rewrite G0_swap. }
    rewrite H0. now intros d' [= <-].
Qed.

Lemma add_type_typed (rel_type : string) (d : EdgeData) :
  e_types d <> None -> e_types (add_type rel_type d) <> None.
Proof.
  unfold add_type. destruct (e_types d) as [ts|] eqn:Et; [|congruence].
  intros _. destruct (mem rel_type ts); cbn; congruence.
Qed.

Lemma syntactic_token_outcome (G : RelGraph) (token : Token) :
  syntactic G ->
  if clashes G0 concepts token
  then syntactic_token concepts G token = Raise (KeyError "types")
  else exists G', syntactic_token concepts G token = Ok G' /\ syntactic G'.
Proof.
  intros HG. unfold clashes, syntactic_token. cbv zeta.
  destruct (mem (dep_ token) _); cbn [andb]; [|eauto].
  destruct (ExtractorShape.match_concepts_In concepts (lower (tok_text token))
              (lower (head_text token))) as [Htc Hhc].
  destruct (match_concepts concepts _ _) as [[tc|] [hc|]]; eauto.
  specialize (Htc tc eq_refl). specialize (Hhc hc eq_refl).
  destruct (truthy (Some tc) && truthy (Some hc) && negb (tc =? hc)%string);
    cbn [andb]; [|eauto].
  pose proof HG as (Hk & Hs & Hu). specialize (Hu tc hc).
  destruct (Nx.has_edge G0 tc hc) eqn:E0.
  - destruct Hu as (d & Hd & Hnone).
    rewrite (has_edge_data G), Hd.
    rewrite (edge_data_update_edge G tc hc bump_weight d tc hc Hd), at_pair_self.
    cbn [bump_weight e_types]. now rewrite Hnone.
  - rewrite (has_edge_data G). destruct (Nx.edge_data G tc hc) as [d|] eqn:Hd.
    + specialize (Hu d eq_refl).
      pose proof (fun u v => edge_data_update_edge G tc hc bump_weight d u v Hd) as H1.
      rewrite H1, at_pair_self. cbn [bump_weight e_types].
      destruct (e_types d) as [ts|] eqn:Et; [|congruence].
      eexists. split; [reflexivity|].
      assert (Hb : Nx.edge_data (Nx.update_edge G tc hc bump_weight) tc hc
                   = Some (bump_weight d)).
      { now rewrite H1, at_pair_self. }
      eapply (rewired_syntactic G _ tc hc); [| |exact E0| |exact HG].
      * intros u v.
        rewrite (edge_data_update_edge _ tc hc _ (bump_weight d) u v Hb), H1.
        destruct (at_pair tc hc u v); reflexivity.
      * intros t Hn. now rewrite !has_node_update_edge.
      * apply add_type_typed. cbn. rewrite Et. discriminate.
    + eexists. split; [reflexivity|].
      eapply (rewired_syntactic G _ tc hc); [| |exact E0| |exact HG].
      * intros u v. apply edge_data_add_edge; now apply Hk.
      * intros t Hn. now apply has_node_add_edge.
      * discriminate.
Qed.

Lemma syntactic_tokens_outcome (tokens : list Token) (G : RelGraph) :
  syntactic G ->
  if existsb (clashes G0 concepts) tokens
  then foldM (syntactic_token concepts) tokens G = Raise (KeyError "types")
  else exists G', foldM (syntactic_token concepts) tokens G = Ok G' /\ syntactic G'.
Proof.
  revert G. induction tokens as [|token tokens IH]; intros G HG; cbn [existsb foldM].
  - eauto.
  - pose proof (syntactic_token_outcome G token HG) as Hstep.
    destruct (clashes G0 concepts token); cbn [orb].
    + now rewrite Hstep.
    + destruct Hstep as (G1 & -> & HG1). cbn [bind]. now apply IH.
Qed.
End Passes.

Lemma foldM_flat_map {A B S} (f : S -> B -> result S) (g : A -> list B)
  (l : list A) (s : S) :
  foldM (fun s a => foldM f (g a) s) l s = foldM f (flat_map g l) s.
Proof.
  assert (Happ : forall l1 l2 s,
             foldM f (l1 ++ l2) s = bind (foldM f l1 s) (foldM f l2)).
  { induction l1 as [|b l1 IH1]; intros l2 s'; simpl; [reflexivity|].
    destruct (f s' b); simpl; auto. }
  revert s. induction l as [|a l IH]; intros s; simpl; [reflexivity|].
  rewrite Happ. destruct (foldM f (g a) s); simpl; auto.
Qed.


(** ** The edges of the co-occurrence graph *)

Lemma pairs_of_covers (l : list string) (x y : string) :
  In x l -> In y l -> x <> y -> In (x, y) (pairs_of l) \/ In (y, x) (pairs_of l).
Proof.
  induction l as [|a l IH]; simpl; [tauto|].
  intros [->|Hx] [->|Hy] Hne; try congruence.
  - left. apply in_or_app. left. now apply in_map.
  - right. apply in_or_app. left. now apply in_map.
  - destruct (IH Hx Hy Hne); [left | right]; apply in_or_app; now right.
Qed.

Section CooccurrenceEdges.
Variable concepts : list Concept.

Local Abbreviation cooccurring := (Invariants.cooccurring concepts).

Lemma cooccur_pair_edges (G : RelGraph) (x y u v : string) :
  In x (texts concepts) -> In y (texts concepts) -> cooccurring G ->
  Nx.has_edge (cooccur_pair G (x, y)) u v
  = at_pair x y u v || Nx.has_edge G u v.
Proof.
  intros Hx Hy (Hk & _ & _). unfold cooccur_pair.
  rewrite (has_edge_data G x y). destruct (Nx.edge_data G x y) as [d|] eqn:Ed.
  - rewrite has_edge_data, (edge_data_update_edge G x y bump_weight d u v Ed).
    destruct (at_pair x y u v) eqn:Ep; [reflexivity|]. now rewrite has_edge_data.
  - rewrite has_edge_data, (edge_data_add_edge G x y _ u v (Hk x Hx) (Hk y Hy)).
    destruct (at_pair x y u v) eqn:Ep; [reflexivity|]. now rewrite has_edge_data.
Qed.

Lemma sentence_pair_texts (sent : Span) (x y : string) :
  In (x, y) (pairs_of (sentence_concepts_of (concept_map_of concepts) sent)) ->
  In x (texts concepts) /\ In y (texts concepts).
Proof.
  intros Hin. apply ExtractorShape.pairs_of_In in Hin. destruct Hin as [Hx Hy].
  apply ExtractorShape.sentence_concepts_In in Hx, Hy.
  destruct Hx as (kx & Hx), Hy as (ky & Hy).
  apply ExtractorShape.concept_map_values in Hx, Hy. auto.
Qed.

(** The edges after a number of pairs of one sentence: the edges before
    and the pairs handled. *)
Lemma cooccur_pairs_edges (sent : Span) (ps : list (string * string)) (G : RelGraph)
  (u v : string) :
  (forall p, In p ps ->
     In p (pairs_of (sentence_concepts_of (concept_map_of concepts) sent))) ->
  cooccurring G ->
  cooccurring (fold_left cooccur_pair ps G)
  /\ (Nx.has_edge (fold_left cooccur_pair ps G) u v = true
      <-> Nx.has_edge G u v = true
          \/ exists p, In p ps /\ at_pair (fst p) (snd p) u v = true).
Proof.
  revert G. induction ps as [|[x y] ps IH]; intros G Hps HG; simpl.
  - split; [exact HG|]. split; [auto | intros [H|(p & [] & _)]; exact H].
  - destruct (sentence_pair_texts sent x y (Hps _ (or_introl eq_refl))) as [Hx Hy].
    assert (HG1 : cooccurring (cooccur_pair G (x, y)))
      by now apply cooccur_pair_ok.
    destruct (IH (cooccur_pair G (x, y))) as [Hok Hiff];
      [intros p Hp; apply Hps; now right | exact HG1 |].
    split; [exact Hok|]. rewrite Hiff, (cooccur_pair_edges G x y u v Hx Hy HG).
    rewrite orb_true_iff. split.
    + intros [[H|H]|(p & Hp & H)]; [|now left|right; exists p; auto].
      right. exists (x, y). auto.
    + intros [H|(p & [<-|Hp] & H)]; [left; now right | left; now left|].
      right. exists p. auto.
Qed.

Lemma cooccur_sentences_edges (sentences : list Span) (G : RelGraph) (u v : string) :
  cooccurring G ->
  cooccurring (fold_left (cooccur_sentence (concept_map_of concepts)) sentences G)
  /\ (Nx.has_edge (fold_left (cooccur_sentence (concept_map_of concepts)) sentences G)
                  u v = true
      <-> Nx.has_edge G u v = true \/ cooccur concepts sentences u v).
Proof.
  revert G. induction sentences as [|sent sentences IH]; intros G HG; simpl.
  - split; [exact HG|]. split; [auto | intros [H|(_ & s & [] & _)]; exact H].
  - destruct (cooccur_pairs_edges sent
                (pairs_of (sentence_concepts_of (concept_map_of concepts) sent))
                G u v (fun p Hp => Hp) HG) as [Hok Hiff].
    destruct (IH (cooccur_sentence (concept_map_of concepts) G sent) Hok)
      as [Hok' Hiff'].
    split; [exact Hok'|]. rewrite Hiff'. unfold cooccur_sentence at 1. rewrite Hiff.
    pose proof (ExtractorRelationships.sentence_concepts_distinct
                  (concept_map_of concepts) sent
                  (ExtractorRelationships.concept_map_of_ok concepts)) as Hnd.
    unfold cooccur. split.
    + intros [[H|(p & Hp & Hat)]|(Hne & s & Hs & Hu & Hv)].
      * now left.
      * right. destruct p as [x y]. cbn [fst snd] in Hat.
        pose proof (ExtractorRelationships.pairs_of_distinct _ x y Hnd Hp) as Hxy.
        apply ExtractorShape.pairs_of_In in Hp. destruct Hp as [Hx Hy].
        apply at_pair_inv in Hat. destruct Hat as [[Eu Ev]|[Eu Ev]]; subst u v.
        -- split; [exact Hxy|]. exists sent. split; [now left | auto].
        -- split; [intros E; apply Hxy; now symmetry|].
           exists sent. split; [now left | auto].
      * right. split; [exact Hne|]. exists s. split; [now right | auto].
    + intros [H|(Hne & s & [<-|Hs] & Hu & Hv)];
        [left; now left | | right; split; [exact Hne|]; exists s; auto].
      left. right.
      destruct (pairs_of_covers _ u v Hu Hv Hne) as [Hp|Hp].
      * exists (u, v). split; [exact Hp | apply at_pair_self].
      * exists (v, u). split; [exact Hp|]. cbn [fst snd].
        rewrite <- at_pair_swap. apply at_pair_self.
Qed.
End CooccurrenceEdges.

(** ** The concept map of texts that are distinct when case is ignored *)

Lemma dict_set_fresh {V} (d : dict V) (k : string) (v : V) :
  ~ In k (dict_keys d) -> dict_set d k v = d ++ [(k, v)].
Proof.
  induction d as [|[k' v'] d IH]; simpl; intros H; [reflexivity|].
  destruct (String.eqb_spec k k') as [->|Hne]; [exfalso; apply H; now left|].
  rewrite IH; auto.
Qed.

Lemma concept_map_fold (cs : list Concept) (m0 : dict string) :
  NoDup (dict_keys m0 ++ map folded_text cs) ->
  fold_left (fun m c => dict_set m (lower (text c)) (text c)) cs m0
  = m0 ++ map (fun c => (lower (text c), text c)) cs.
Proof.
  revert m0. induction cs as [|c cs IH]; intros m0 H; simpl.
  - now rewrite app_nil_r.
  - cbn [map] in H. rewrite dict_set_fresh.
    + rewrite IH; [now rewrite <- app_assoc|].
      unfold dict_keys. rewrite map_app, <- app_assoc. exact H.
    + apply NoDup_remove_2 in H. intros Hin. apply H, in_or_app. now left.
Qed.

(** Without case twins the concept map lists the concepts in their order. *)
Lemma concept_map_distinct (concepts : list Concept) :
  NoDup (map folded_text concepts) ->
  concept_map_of concepts = map (fun c => (lower (text c), text c)) concepts.
Proof. intros H. unfold concept_map_of. now rewrite concept_map_fold. Qed.

Lemma sentence_concepts_spec (concepts : list Concept) (sent : Span) (u : string) :
  NoDup (map folded_text concepts) ->
  In u (sentence_concepts_of (concept_map_of concepts) sent)
  <-> In u (texts concepts)
      /\ contains (lower u) (lower (sent_text sent)) = true.
Proof.
  intros Hnd. rewrite (concept_map_distinct concepts Hnd).
  unfold sentence_concepts_of. cbv zeta. rewrite in_flat_map. split.
  - intros ([k t] & Hkv & Hin). apply in_map_iff in Hkv.
    destruct Hkv as (c & [= <- <-] & Hc). cbn [fst snd] in Hin.
    destruct (contains (lower (text c)) (lower (sent_text sent))) eqn:E;
      [|destruct Hin].
    destruct Hin as [<-|[]]. split; [unfold texts; now apply in_map | exact E].
  - intros [Hu Hc]. unfold texts in Hu. apply in_map_iff in Hu.
    destruct Hu as (c & <- & Hin). exists (lower (text c), text c).
    split; [apply in_map_iff; now exists c|]. cbn [fst snd]. rewrite Hc. now left.
Qed.



End RelationshipErrors.

(* ===================================================================== *)
(** * From processed content to a journey *)
(* ===================================================================== *)

Module Pipeline.
Import Py PyFacts NxFacts NxMore Extractor App Samples Invariants.

(** ** The extractor's record *)

Lemma extract_knowledge_inv (env : Collaborators) (limit : nat)
  (pc : ProcessedContent) (ek : ExtractedKnowledge) :
  extract_knowledge env limit pc = Ok ek ->
  ek = mkExtracted [] [] (mkHierarchy None None) []
  \/ exists txt,
       _extract_concepts env txt = Ok (ek_concepts ek)
       /\ _extract_relationships env txt (ek_concepts ek) = Ok (ek_relationships ek)
       /\ _generate_hierarchy limit (ek_concepts ek) (ek_relationships ek)
          = Ok (ek_hierarchy ek)
       /\ ek_clusters ek
          = _generate_clusters env (ek_concepts ek) (ek_relationships ek)
       /\ content pc = Some txt.
Proof.
  unfold extract_knowledge. cbv zeta.
  destruct (content pc) as [txt|] eqn:Ec.
  2:{ cbn. intros H. apply Ok_inj in H. now left. }
  destruct (txt =? "")%string; [intros H; apply Ok_inj in H; now left|].
  intros H. right. exists txt.
  apply bind_Ok in H. destruct H as (cs & Hcs & H).
  apply bind_Ok in H. destruct H as (rs & Hrs & H).
  apply bind_Ok in H. destruct H as (h & Hh & H).
  apply Ok_inj in H. subst ek. cbn. auto.
Qed.

Lemma concepts_distinct (env : Collaborators) (txt : string) (concepts : list Concept) :
  single_word_nouns (nlp env txt) = true ->
  _extract_concepts env txt = Ok concepts ->
  NoDup (map folded_text concepts).
Proof.
  intros Hdoc H. unfold _extract_concepts in H. cbv zeta in H.
  apply bind_Ok in H. destruct H as (cs1 & H1 & H).
  apply bind_Ok in H. destruct H as (cs3 & H3 & H).
  apply Ok_inj in H. subst concepts.
  assert (Hcs1 : NoDup (map folded_text cs1)).
  { eapply ExtractorConcepts.noun_phrase_loop;
      [exact H1| | |constructor|intros c []].
    - intros kv Hkv. apply ExtractorShape.counter_key_In in Hkv.
      now apply (ExtractorConcepts.noun_phrases_folded (nlp env txt)).
    - apply most_common_NoDup, counter_of_NoDup. }
  assert (Hcs3 : NoDup (map folded_text cs3)).
  { eapply ExtractorConcepts.key_term_loop;
      [exact H3| |now apply ExtractorConcepts.entity_loop].
    intros kv Hkv. apply ExtractorShape.counter_key_In in Hkv.
    now apply (ExtractorConcepts.key_terms_single_words (nlp env txt)). }
  rewrite <- firstn_map. apply firstn_NoDup.
  eapply Permutation_NoDup; [|exact Hcs3].
  apply Permutation_map. symmetry. apply sort_desc_perm.
Qed.

(** ** Clusters name concept texts *)

Section Clusters.
Variables (concepts : list Concept) (relationships : list Relationship).
Hypothesis ends_known :
  forall r, In r relationships ->
    In (source r) (texts concepts) /\ In (target r) (texts concepts).

Lemma cluster_graph_nodes (n : string) :
  In n (Nx.nodes (cluster_graph concepts relationships)) -> In n (texts concepts).
Proof.
  unfold cluster_graph.
  apply (fold_left_invariant
           (fun G : ClusterGraph => In n (Nx.nodes G) -> In n (texts concepts))).
  - apply (fold_left_invariant
             (fun G : ClusterGraph => In n (Nx.nodes G) -> In n (texts concepts))).
    + intros [].
    + intros G c Hc HG Hn. apply nodes_add_node_In in Hn.
      destruct Hn as [->|Hn]; auto. unfold texts. now apply in_map.
  - intros G r Hr HG Hn. destruct (ends_known r Hr) as [Hs Ht].
    unfold Nx.add_edge in Hn. rewrite !nodes_set_arc in Hn.
    apply nodes_add_node_In in Hn. destruct Hn as [->|Hn]; auto.
    apply nodes_add_node_In in Hn. destruct Hn as [->|Hn]; auto.
Qed.

Lemma members_of_In (partition : list (string * nat)) (i : nat) (c : string) :
  In c (members_of partition i) -> exists kv, In kv partition /\ fst kv = c.
Proof.
  unfold members_of. intros H. apply in_map_iff in H.
  destruct H as (kv & Hc & Hkv). apply filter_In in Hkv. destruct Hkv. eauto.
Qed.

Lemma clusters_name_texts (env : Collaborators) (cl : Cluster) (c : string) :
  clusters_within env ->
  In cl (_generate_clusters env concepts relationships) ->
  In c (cl_concepts cl) -> In c (texts concepts).
Proof.
  intros Hwithin Hcl Hc. rewrite ExtractorClusters.generate_clusters_eq in Hcl.
  apply ExtractorClusters.named_In in Hcl. destruct Hcl as [Hin _].
  destruct (Hwithin (cluster_graph concepts relationships)) as [Hpart Hcomp].
  apply cluster_graph_nodes.
  destruct (best_partition env) as [partition|].
  - pose proof (ExtractorClusters.grouped_fold
                  (partition (cluster_graph concepts relationships)) [] []) as Hg.
    destruct Hg as (_ & _ & Hms).
    { split; [constructor|]. split; [intros kv [] | intros i ms []]. }
    cbn [app] in Hms. destruct (Hms _ _ Hin) as [Heq _]. rewrite Heq in Hc.
    apply members_of_In in Hc. destruct Hc as (kv & Hkv & <-).
    now apply (Hpart partition eq_refl).
  - apply ExtractorClusters.enumerate_from_In in Hin. destruct Hin as [_ Hn].
    apply nth_error_In in Hn. now apply (Hcomp (cl_concepts cl)).
Qed.
End Clusters.

(** ** The hierarchy names concept texts and its tree is flat *)

Lemma subtree_children (concepts : list Concept) (parent : string)
  (subs : list SubTree) (c : string) :
  subtree_ok concepts parent subs ->
  In c (map Journey.concept_of subs) -> below concepts parent c.
Proof. intros Hok Hc. inversion Hok as [? ? _ Hiff _]; subst. now apply Hiff. Qed.

Lemma hierarchy_closed_flat (limit : nat) (concepts : list Concept)
  (relationships : list Relationship) (h : Hierarchy) :
  _generate_hierarchy limit concepts relationships = Ok h ->
  NoDup (map folded_text concepts) ->
  (forall r, In r (match roots h with Some rs => rs | None => [] end) ->
             In r (texts concepts))
  /\ (forall k c,
        In c (Journey._get_children_from_tree k
                (match tree h with Some t => t | None => [] end)) ->
        In c (texts concepts))
  /\ Journey.tree_flat (match tree h with Some t => t | None => [] end) = true.
Proof.
  intros H Hdistinct. apply HierarchyShape.generate_hierarchy_inv in H.
  destruct H as (candidates & tr & Hc & Htr & ->). cbn [roots tree].
  apply HierarchyShape.root_candidates_spec in Hc.
  destruct Hc as (Hnd & Hin & _ & Hmin).
  apply HierarchyShape.foldM_set_spec in Htr. destruct Htr as [Hget Hkeys].
  assert (Hk : dict_keys tr = firstn 5 candidates).
  { apply Hkeys. cbn [dict_keys map app]. now apply firstn_NoDup. }
  assert (Hsub : forall k subs, dict_get tr k = Some subs ->
                                subtree_ok concepts k subs).
  { intros k subs Hks. destruct (Hget k subs Hks) as [H0|[_ Hb]]; [discriminate H0|].
    now apply HierarchyShape.build_subtree_spec in Hb. }
  split; [|split].
  - intros r Hr. now apply Hin, (firstn_In 5).
  - intros k c Hcin. unfold Journey._get_children_from_tree, dict_get_or in Hcin.
    destruct (dict_get tr k) as [subs|] eqn:Ek; [|destruct Hcin].
    apply (subtree_children concepts k subs c (Hsub k subs Ek)) in Hcin.
    now destruct Hcin as (_ & Hw & _).
  - unfold Journey.tree_flat. apply forallb_forall. intros [k subs] Hkv.
    apply forallb_forall. intros sub Hsubin. cbn [snd] in *.
    apply negb_true_iff. destruct (dict_has tr (Journey.concept_of sub)) eqn:Eh; auto.
    exfalso.
    assert (Hks : dict_get tr k = Some subs).
    { apply dict_In_get; auto. rewrite Hk. now apply firstn_NoDup. }
    assert (Hb : below concepts k (Journey.concept_of sub)).
    { apply (subtree_children concepts k subs); [now apply Hsub | now apply in_map]. }
    rewrite dict_has_keys in Eh. apply mem_In in Eh. rewrite Hk in Eh.
    apply (firstn_In 5) in Eh.
    assert (Hex : exists t, In t (texts concepts) /\ forall u, ~ below concepts u t).
    { apply HierarchyShape.shortest_is_minimal; auto.
      destruct Hb as (Hkt & _). intros ->. destruct Hkt. }
    exact (Hmin Hex _ k Eh Hb).
Qed.


(** ** The map names its own nodes *)

Lemma map_refs (spring_layout : Mapper.Layout) (g : rng) (ein : Mapper.ExtractedIn)
  (km : Mapper.KnowledgeMap) :
  Mapper.generate_knowledge_map spring_layout g ein = Ok km ->
  (forall t, In t (map Mapper.id (Mapper.nodes km)) <-> In t (map_texts ein))
  /\ (forall l, In l (Mapper.links km) ->
        In (Mapper.source l) (map Mapper.id (Mapper.nodes km))
        /\ In (Mapper.target l) (map Mapper.id (Mapper.nodes km)))
  /\ (forall c, In c (Mapper.clusters km) ->
        exists k, In k (Mapper.in_clusters ein)
                  /\ Mapper.cluster_concepts c = Mapper.k_concepts k)
  /\ (Mapper.hierarchy km = Mapper.in_hierarchy ein
      \/ Mapper.hierarchy km = mkHierarchy None None).
Proof.
  intros H. destruct (Mapper.in_concepts ein) as [|c0 cs] eqn:Ec.
  - rewrite MapperShape.empty_map in H by assumption. apply Ok_inj in H. subst km.
    unfold map_texts. rewrite Ec. cbn.
    split; [tauto|]. split; [intros l []|]. split; [intros c []|]. now right.
  - assert (Hne : Mapper.in_concepts ein <> []) by (rewrite Ec; discriminate).
    destruct (MapperShape.map_node_ids _ _ _ _ Hne H) as (Hids & _ & Htexts).
    destruct (MapperShape.knowledge_map_inv _ _ _ _ Hne H)
      as (_ & _ & Hlinks & Hcl & Hh & _).
    split; [intros t; rewrite Hids; apply Htexts|].
    split; [|split; [|now left]].
    + intros l Hl. rewrite Hlinks in Hl. apply in_map_iff in Hl.
      destruct Hl as ([[u v] d] & <- & He). rewrite Hids.
      apply (adj_closed_edges _ u v d (MapperShape.build_graph_closed ein) He).
    + intros c Hc. rewrite Hcl in Hc. apply in_flat_map in Hc.
      destruct Hc as (k & Hk & Hc). exists k. split; [exact Hk|].
      unfold cluster_entries in Hc.
      destruct (filter _ (Mapper.nodes km)); [destruct Hc|].
      destruct Hc as [<-|[]]. reflexivity.
Qed.

(** ** What a map built by the program mentions *)

(** In a map built from a processed text every link, every hierarchy root,
    every child list of the hierarchy tree and every cluster mentions ids of
    nodes of the map only, and no child of the tree is a key of the tree. *)
Lemma built_map_closed (env : Collaborators) (limit : nat)
  (spring_layout : Mapper.Layout) (g : rng) (pc : ProcessedContent)
  (km : Mapper.KnowledgeMap) :
  knowledge_map_of env limit spring_layout g pc = Ok km ->
  (forall txt, content pc = Some txt -> single_word_nouns (nlp env txt) = true) ->
  clusters_within env ->
  let allowed := fun c => In c (map Mapper.id (Mapper.nodes km)) in
  (forall l, In l (Mapper.links km) ->
             allowed (Mapper.source l) /\ allowed (Mapper.target l))
  /\ (forall r, In r (match roots (Mapper.hierarchy km) with
                      | Some rs => rs | None => [] end) -> allowed r)
  /\ (forall k c,
        In c (Journey._get_children_from_tree k
                (match tree (Mapper.hierarchy km) with
                 | Some t => t | None => [] end)) -> allowed c)
  /\ Journey.tree_flat (match tree (Mapper.hierarchy km) with
                        | Some t => t | None => [] end) = true
  /\ forall c k, In c (Mapper.clusters km) ->
                 In k (Mapper.cluster_concepts c) -> allowed k.
Proof.
  intros Hmap Hnouns Hwithin. cbv zeta.
  unfold knowledge_map_of in Hmap. apply bind_Ok in Hmap.
  destruct Hmap as (ek & Hek & Hkm).
  destruct (map_refs _ _ _ _ Hkm) as (Hids & Hlinks & Hclusters & Hhier).
  set (allowed := fun c => In c (map Mapper.id (Mapper.nodes km))).
  assert (Hall : (forall r, In r (match roots (Mapper.hierarchy km) with
                                  | Some rs => rs | None => [] end) -> allowed r)
                 /\ (forall k c,
                       In c (Journey._get_children_from_tree k
                               (match tree (Mapper.hierarchy km) with
                                | Some t => t | None => [] end)) -> allowed c)
                 /\ Journey.tree_flat (match tree (Mapper.hierarchy km) with
                                       | Some t => t | None => [] end) = true
                 /\ forall c k, In c (Mapper.clusters km) ->
                                In k (Mapper.cluster_concepts c) -> allowed k).
  { assert (Hnone : roots (Mapper.hierarchy km) = None
                    /\ tree (Mapper.hierarchy km) = None ->
                    Mapper.clusters km = [] \/
                    (forall c k, In c (Mapper.clusters km) ->
                                 In k (Mapper.cluster_concepts c) -> allowed k) ->
                    (forall r, In r (match roots (Mapper.hierarchy km) with
                                     | Some rs => rs | None => [] end) -> allowed r)
                    /\ (forall k c,
                          In c (Journey._get_children_from_tree k
                                  (match tree (Mapper.hierarchy km) with
                                   | Some t => t | None => [] end)) -> allowed c)
                    /\ Journey.tree_flat (match tree (Mapper.hierarchy km) with
                                          | Some t => t | None => [] end) = true
                    /\ forall c k, In c (Mapper.clusters km) ->
                                   In k (Mapper.cluster_concepts c) -> allowed k).
    { intros [-> ->] Hcl. split; [intros r []|]. split; [intros k c []|].
      split; [reflexivity|]. destruct Hcl as [->|Hcl]; [intros c k []|exact Hcl]. }
    destruct (extract_knowledge_inv _ _ _ _ Hek)
      as [->|(txt & Hcs & Hrs & Hh & Hcl & Hc)].
    { (* no content: the empty map *)
      cbn in Hkm. apply Ok_inj in Hkm. subst km. apply Hnone; auto. }
    assert (Htexts : map_texts (read_extracted ek) = texts (ek_concepts ek)).
    { unfold map_texts, read_extracted, texts. cbn. rewrite map_map. reflexivity. }
    assert (Hends : forall r, In r (ek_relationships ek) ->
                      In (source r) (texts (ek_concepts ek))
                      /\ In (target r) (texts (ek_concepts ek))).
    { intros r Hr.
      destruct (ExtractorShape.relationships_fine _ _ _ _ Hrs r Hr)
        as (u & v & d & -> & _ & Hu & Hv). auto. }
    assert (Hclosed : forall c k, In c (Mapper.clusters km) ->
                                  In k (Mapper.cluster_concepts c) -> allowed k).
    { intros c k Hcin Hk. destruct (Hclusters c Hcin) as (kin & Hkin & Heq).
      rewrite Heq in Hk. cbn in Hkin. apply in_map_iff in Hkin.
      destruct Hkin as (cl & <- & Hclin). cbn in Hk. rewrite Hcl in Hclin.
      apply Hids. rewrite Htexts.
      now apply (clusters_name_texts (ek_concepts ek) (ek_relationships ek) Hends
                   env cl k Hwithin). }
    destruct Hhier as [Hhier|Hhier].
    2:{ rewrite Hhier. rewrite Hhier in Hnone. apply Hnone; auto. }
    rewrite Hhier. cbn [Mapper.in_hierarchy read_extracted].
    pose proof (concepts_distinct env txt _ (Hnouns txt Hc) Hcs) as Hdistinct.
    destruct (hierarchy_closed_flat _ _ _ _ Hh Hdistinct) as (H1 & H2 & H3).
    split; [intros r Hr; apply Hids; rewrite Htexts; now apply H1|].
    split; [intros k c Hcin; apply Hids; rewrite Htexts; now apply (H2 k)|].
    split; [exact H3 | exact Hclosed]. }
  split; [exact Hlinks | exact Hall].
Qed.

(** The path of a journey through a map whose links, hierarchy and clusters
    mention node ids only. *)
Lemma closed_map_path (km : Mapper.KnowledgeMap) (limit : nat) (g : rng)
  (start : string) (prefs : option (dict Journey.value)) (j : Journey.JourneyRecord) :
  let allowed := fun c => In c (map Mapper.id (Mapper.nodes km)) in
  (forall l, In l (Mapper.links km) ->
             allowed (Mapper.source l) /\ allowed (Mapper.target l)) ->
  (forall r, In r (match roots (Mapper.hierarchy km) with
                   | Some rs => rs | None => [] end) -> allowed r) ->
  (forall k c,
     In c (Journey._get_children_from_tree k
             (match tree (Mapper.hierarchy km) with
              | Some t => t | None => [] end)) -> allowed c) ->
  (forall c k, In c (Mapper.clusters km) ->
               In k (Mapper.cluster_concepts c) -> allowed k) ->
  journey_of limit g km start prefs = Ok j ->
  NoDup (Journey.path j) /\ forall c, In c (Journey.path j) -> allowed c.
Proof.
  intros allowed Hlinks Hroots Hchildren Hcl Hj.
  apply (JourneyPaths.generated_path_fine allowed limit g (read_map km)
           (Some start) prefs j); auto.
  - cbn. rewrite map_map. intros k Hk. exact Hk.
  - cbn. intros link Hl. apply in_map_iff in Hl. destruct Hl as (l & <- & Hl).
    cbn. now apply Hlinks.
  - intros cluster c Hcin Hc. cbn in Hcin. apply in_map_iff in Hcin.
    destruct Hcin as (mc & <- & Hmc). cbn in Hc. now apply (Hcl mc).
  - split; [exact Hroots | exact Hchildren].
Qed.

(** X22.  End to end.  When extraction and mapping of a processed text
    return a map - the tokenizer giving single-word nouns and the clustering
    collaborators naming only nodes of their graph - then a journey from
    any start concept is returned at every recursion limit of two or more,
    it visits no concept twice, and every concept it visits is a node of the
    map. *)
Theorem pipeline_journey (env : Collaborators) (limit : nat)
  (spring_layout : Mapper.Layout) (g : rng) (pc : ProcessedContent)
  (km : Mapper.KnowledgeMap)
  (limit' : nat) (g' : rng) (start : string) (prefs : option (dict Journey.value)) :
  knowledge_map_of env limit spring_layout g pc = Ok km ->
  (forall txt, content pc = Some txt -> single_word_nouns (nlp env txt) = true) ->
  clusters_within env ->
  2 <= limit' ->
  exists j,
    journey_of limit' g' km start prefs = Ok j
    /\ NoDup (Journey.path j)
    /\ forall c, In c (Journey.path j) -> In c (map Mapper.id (Mapper.nodes km)).
Proof.
  intros Hmap Hnouns Hwithin Hlimit.
  destruct (built_map_closed _ _ _ _ _ _ Hmap Hnouns Hwithin)
    as (Hlinks & Hroots & Hchildren & Hflat & Hcl).
  destruct limit' as [|[|limit']]; try lia.
  destruct (JourneyPaths.journey_returned limit' g' (read_map km) (Some start) prefs)
    as (j & Hj); [exact Hflat|].
  exists j. split; [exact Hj|].
  now apply (closed_map_path km (S (S limit')) g' start prefs j).
Qed.

Lemma pipeline_journey_witness :
  exists km,
    knowledge_map_of cat_env 22 cat_layout [] (mkProcessed (Some cat_text)) = Ok km
    /\ exists j,
         journey_of 2 [3; 1; 4] km "mouse" None = Ok j
         /\ NoDup (Journey.path j)
         /\ forall c, In c (Journey.path j) -> In c (map Mapper.id (Mapper.nodes km)).
Proof.
  eexists. split; [vm_compute; reflexivity|].
  apply (pipeline_journey cat_env 22 cat_layout [] (mkProcessed (Some cat_text))).
  - vm_compute. reflexivity.
  - intros txt _. reflexivity.
  - intros G. split; [intros partition H; discriminate H | intros component n []].
  - lia.
Defined.



End Pipeline.

(* ===================================================================== *)
(** * Concept extraction and the hierarchy on Unicode text *)
(* ===================================================================== *)

Module UnicodeText.
Import Py PyFacts NxFacts Extractor Samples Invariants Unicode.

(** ** The ASCII instance *)

Lemma ascii_laws : StrLaws ascii_ops.
Proof.
  split; cbn [s_lower s_collapse s_split s_no_space s_len ascii_ops].
  - apply lower_idem.
  - intros s. unfold collapse_ws. now rewrite lower_collapse, lower_idem.
  - intros s Hs Hlen. apply split_single_word.
    + now rewrite no_space_lower.
    + intros He. rewrite <- length_lower, He in Hlen. simpl in Hlen. lia.
Qed.

Lemma extract_concepts_ascii (env : Collaborators) (txt : string) :
  _extract_concepts ascii_ops env txt = Extractor._extract_concepts env txt.
Proof. reflexivity. Qed.

Lemma generate_hierarchy_ascii (limit : nat) (concepts : list Concept)
  (relationships : list Relationship) :
  _generate_hierarchy ascii_ops limit concepts relationships
  = Extractor._generate_hierarchy limit concepts relationships.
Proof. reflexivity. Qed.

(** ** Concepts *)

Section Concepts.
Variable ops : StrOps.
Hypothesis laws : StrLaws ops.

Local Abbreviation lower := (s_lower ops).
Local Abbreviation folded := (folded_text ops).

Lemma clean_phrase_stable (chunk : string) :
  lower (clean_phrase ops chunk) = clean_phrase ops chunk.
Proof. unfold clean_phrase. apply (lower_collapsed ops laws). Qed.

Lemma noun_phrases_from (doc : Doc) (phrase : string) :
  In phrase (noun_phrases_of ops doc) ->
  phrase <> "" /\ List.length (s_split ops phrase) <= 5 /\ lower phrase = phrase
  /\ exists chunk, In chunk (noun_chunks doc) /\ phrase = clean_phrase ops chunk.
Proof.
  unfold noun_phrases_of. intros Hin. apply in_flat_map in Hin.
  destruct Hin as (chunk & Hchunk & Hin). cbv zeta in Hin.
  destruct (negb (clean_phrase ops chunk =? "")%string) eqn:E1; [|destruct Hin].
  destruct (List.length (s_split ops (clean_phrase ops chunk)) <=? 5)%nat eqn:E2;
    [|destruct Hin].
  destruct Hin as [<-|[]]. split; [|split; [|split]].
  - apply negb_true_iff in E1. now apply String.eqb_neq.
  - now apply Nat.leb_le.
  - apply clean_phrase_stable.
  - now exists chunk.
Qed.

Lemma entities_from (doc : Doc) (entity : string * string) :
  In entity (entities_of ops doc) ->
  In (snd entity) entity_labels
  /\ exists ent, In ent (ents doc) /\ snd entity = snd ent
                 /\ fst entity = s_collapse ops (s_strip ops (fst ent)).
Proof.
  unfold entities_of. intros Hin. apply in_flat_map in Hin.
  destruct Hin as (ent & Hent & Hin).
  destruct (mem (snd ent) entity_labels) eqn:E; [|destruct Hin].
  destruct Hin as [<-|[]]. split; [now apply mem_In|]. now exists ent.
Qed.

Lemma key_terms_from (doc : Doc) (term : string) :
  In term (key_terms_of ops doc) ->
  lower term = term
  /\ exists token, In token (doc_tokens doc)
                   /\ mem (pos_ token) ["NOUN"; "PROPN"] = true
                   /\ 2 < s_len ops (tok_text token)
                   /\ term = lower (tok_text token).
Proof.
  unfold key_terms_of. intros Hin. apply in_flat_map in Hin.
  destruct Hin as (token & Htok & Hin).
  destruct (mem (pos_ token) ["NOUN"; "PROPN"]) eqn:Epos; [|destruct Hin].
  destruct (is_stop token); [destruct Hin|]. cbn [negb andb] in Hin.
  destruct (2 <? s_len ops (tok_text token))%nat eqn:Elen; [|destruct Hin].
  destruct Hin as [<-|[]]. split; [apply (lower_lower ops laws)|].
  exists token. repeat split; auto. now apply Nat.ltb_lt.
Qed.

(** Under the tokenizer's contract a key term is one word. *)
Lemma key_terms_one_word (doc : Doc) (term : string) :
  single_word_nouns ops doc = true ->
  In term (key_terms_of ops doc) ->
  lower term = term /\ s_split ops term = [term].
Proof.
  intros Hdoc Hin. destruct (key_terms_from doc term Hin)
    as (Hlow & token & Htok & Hpos & Hlen & ->).
  split; [exact Hlow|].
  unfold single_word_nouns in Hdoc. rewrite forallb_forall in Hdoc.
  specialize (Hdoc token Htok). rewrite Hpos in Hdoc.
  now apply (split_word ops laws).
Qed.

Lemma folded_app (cs : list Concept) (c : Concept) :
  map folded (cs ++ [c]) = map folded cs ++ [folded c].
Proof. now rewrite map_app. Qed.

(** The noun-phrase loop: the phrases come from a counter, so they are
    distinct, and each is its own case-folded form. *)
Lemma noun_phrases_distinct (doc : Doc) (l : list (string * Z)) (cs0 cs : list Concept) :
  foldM (add_noun_phrase doc) l cs0 = Ok cs ->
  (forall kv, In kv l -> lower (fst kv) = fst kv) ->
  NoDup (map fst l) ->
  NoDup (map folded cs0) ->
  (forall c, In c cs0 -> ~ In (folded c) (map fst l)) ->
  NoDup (map folded cs).
Proof.
  revert cs0. induction l as [|[phrase count] l IH]; intros cs0; simpl.
  - now intros [= <-].
  - intros H Hlow Hnd Hcs Hfresh.
    apply bind_Ok in H. destruct H as (cs1 & Hstep & H).
    inversion Hnd as [|? ? Hnotin Hnd']; subst.
    pose proof (Hlow (phrase, count) (or_introl eq_refl)) as Hp. simpl in Hp.
    apply (IH cs1); auto.
    + unfold add_noun_phrase in Hstep. destruct (2 <=? count)%Z.
      * apply bind_Ok in Hstep. destruct Hstep as (imp & _ & [= <-]).
        rewrite folded_app. apply NoDup_snoc; auto.
        unfold folded_text at 1. simpl. rewrite Hp.
        intros Hin. apply in_map_iff in Hin. destruct Hin as (c & Hc & Hin).
        apply (Hfresh c Hin). left. now rewrite Hc.
      * now injection Hstep as <-.
    + intros c Hc. unfold add_noun_phrase in Hstep. destruct (2 <=? count)%Z.
      * apply bind_Ok in Hstep. destruct Hstep as (imp & _ & [= <-]).
        apply in_app_or in Hc. destruct Hc as [Hc|[<-|[]]].
        -- intros Hin. apply (Hfresh c Hc). now right.
        -- unfold folded_text. simpl. now rewrite Hp.
      * injection Hstep as <-. intros Hin. apply (Hfresh c Hc). now right.
Qed.

(** The entity loop checks the case-folded text against every concept. *)
Lemma entities_distinct (es : list (string * string)) (cs : list Concept) :
  NoDup (map folded cs) ->
  NoDup (map folded (fold_left (add_entity ops) es cs)).
Proof.
  revert cs. induction es as [|e es IH]; intros cs Hcs; simpl; auto.
  apply IH. unfold add_entity.
  destruct (existsb _ cs) eqn:E; auto.
  rewrite folded_app. apply NoDup_snoc; auto.
  intros Hin. apply in_map_iff in Hin. destruct Hin as (c & Hc & Hin).
  assert (Hex : existsb (fun c => (lower (text c) =? lower (fst e))%string) cs = true).
  { apply existsb_exists. exists c. split; auto. apply String.eqb_eq. exact Hc. }
  congruence.
Qed.

(** The key-term loop: a term that is a single word equals the case-folded
    text of a concept only if it is that concept's one and only word. *)
Lemma key_terms_distinct (doc : Doc) (l : list (string * Z)) (cs0 cs : list Concept) :
  foldM (add_key_term ops doc) l cs0 = Ok cs ->
  (forall kv, In kv l -> lower (fst kv) = fst kv /\ s_split ops (fst kv) = [fst kv]) ->
  NoDup (map folded cs0) ->
  NoDup (map folded cs).
Proof.
  revert cs0. induction l as [|[term count] l IH]; intros cs0; simpl.
  - now intros [= <-].
  - intros H Hterm Hcs.
    apply bind_Ok in H. destruct H as (cs1 & Hstep & H).
    apply (IH cs1); auto.
    unfold add_key_term in Hstep.
    destruct ((3 <=? count)%Z && negb (existsb _ cs0)) eqn:E.
    + apply bind_Ok in Hstep. destruct Hstep as (imp & _ & [= <-]).
      apply andb_true_iff in E. destruct E as [_ E]. apply negb_true_iff in E.
      destruct (Hterm (term, count) (or_introl eq_refl)) as (Hlow & Hone).
      simpl in Hlow, Hone.
      rewrite folded_app. apply NoDup_snoc; auto.
      unfold folded_text at 1. simpl. rewrite Hlow.
      intros Hin. apply in_map_iff in Hin. destruct Hin as (c & Hc & Hin).
      assert (Hex : existsb (fun c => mem term (s_split ops (lower (text c)))) cs0
                    = true).
      { apply existsb_exists. exists c. split; auto.
        unfold folded_text in Hc. rewrite Hc, Hone.
        simpl. now rewrite String.eqb_refl. }
      congruence.
    + now injection Hstep as <-.
Qed.

(** No two concepts of a returned list have the same case-folded text, and
    the list has at most 100 entries. *)
Lemma extracted_distinct (env : Collaborators) (txt : string) (concepts : list Concept) :
  single_word_nouns ops (nlp env txt) = true ->
  _extract_concepts ops env txt = Ok concepts ->
  NoDup (map folded concepts) /\ List.length concepts <= 100.
Proof.
  intros Hdoc H. unfold _extract_concepts in H. cbv zeta in H.
  apply bind_Ok in H. destruct H as (cs1 & H1 & H).
  apply bind_Ok in H. destruct H as (cs3 & H3 & H).
  apply Ok_inj in H. subst concepts.
  assert (Hcs1 : NoDup (map folded cs1)).
  { eapply noun_phrases_distinct; [exact H1| | |constructor|intros c []].
    - intros [k n] Hkv. apply most_common_In in Hkv. simpl.
      apply (noun_phrases_from (nlp env txt)). apply counter_of_In.
      unfold dict_keys. change k with (fst (k, n)). now apply in_map.
    - apply most_common_NoDup, counter_of_NoDup. }
  assert (Hcs3 : NoDup (map folded cs3)).
  { eapply key_terms_distinct; [exact H3| |now apply entities_distinct].
    intros [k n] Hkv. apply most_common_In in Hkv. simpl.
    apply (key_terms_one_word (nlp env txt)); auto. apply counter_of_In.
    unfold dict_keys. change k with (fst (k, n)). now apply in_map. }
  split; [|apply firstn_le_length].
  rewrite <- firstn_map. apply firstn_NoDup.
  eapply Permutation_NoDup; [|exact Hcs3].
  apply Permutation_map. symmetry. apply sort_desc_perm.
Qed.

(** *** The shape of a concept *)

Section Shape.
Variable doc : Doc.

Local Abbreviation shaped := (Invariants.concept_from ops doc).

Lemma noun_phrases_shaped (l : list (string * Z)) (cs0 cs : list Concept) :
  (forall kv, In kv l -> In (fst kv) (noun_phrases_of ops doc)) ->
  Forall shaped cs0 ->
  foldM (add_noun_phrase doc) l cs0 = Ok cs -> Forall shaped cs.
Proof.
  revert cs0. induction l as [|[phrase count] l IH]; intros cs0 Hl Hcs0; simpl.
  - now intros [= <-].
  - intros H. apply bind_Ok in H. destruct H as (cs1 & Hstep & H).
    apply (IH cs1); auto; [intros kv Hkv; apply Hl; now right|].
    unfold add_noun_phrase in Hstep.
    destruct (2 <=? count)%Z eqn:Ec; [|now injection Hstep as <-].
    apply bind_Ok in Hstep. destruct Hstep as (imp & Himp & [= <-]).
    apply Z.leb_le in Ec.
    destruct (ExtractorShape.div_Ok_positive count _ imp ltac:(lia)
                (ExtractorShape.doc_len_nonneg doc) Himp) as [-> Hpos].
    destruct (noun_phrases_from doc phrase (Hl (phrase, count) (or_introl eq_refl)))
      as (Hne & Hwords & Hlow & Hchunk).
    apply Forall_app. split; auto. constructor; [|constructor].
    left. cbn [ctype frequency text importance].
    split; [reflexivity|]. split; [exact Ec|]. split; [exact Hne|].
    split; [exact Hwords|]. split; [exact Hlow|]. split; [exact Hchunk|].
    split; [reflexivity | exact Hpos].
Qed.

Lemma entities_shaped (es : list (string * string)) (cs : list Concept) :
  (forall e, In e es -> In e (entities_of ops doc)) ->
  Forall shaped cs -> Forall shaped (fold_left (add_entity ops) es cs).
Proof.
  revert cs. induction es as [|e es IH]; intros cs Hes Hcs; simpl; auto.
  apply IH; [intros e' He'; apply Hes; now right|].
  unfold add_entity. destruct (existsb _ cs); auto.
  apply Forall_app. split; auto. constructor; [|constructor].
  destruct (entities_from doc e (Hes e (or_introl eq_refl))) as (Hlabel & Hent).
  right. left. cbn [ctype frequency text importance].
  split; [exact Hlabel|]. split; [reflexivity|]. split; [reflexivity | exact Hent].
Qed.

Lemma key_terms_shaped (l : list (string * Z)) (cs0 cs : list Concept) :
  (forall kv, In kv l -> In (fst kv) (key_terms_of ops doc)) ->
  Forall shaped cs0 ->
  foldM (add_key_term ops doc) l cs0 = Ok cs -> Forall shaped cs.
Proof.
  revert cs0. induction l as [|[term count] l IH]; intros cs0 Hl Hcs0; simpl.
  - now intros [= <-].
  - intros H. apply bind_Ok in H. destruct H as (cs1 & Hstep & H).
    apply (IH cs1); auto; [intros kv Hkv; apply Hl; now right|].
    unfold add_key_term in Hstep.
    destruct ((3 <=? count)%Z && negb (existsb _ cs0)) eqn:Ec;
      [|now injection Hstep as <-].
    apply bind_Ok in Hstep. destruct Hstep as (imp & Himp & [= <-]).
    apply andb_true_iff in Ec. destruct Ec as [Ec _]. apply Z.leb_le in Ec.
    destruct (ExtractorShape.div_Ok_positive count _ imp ltac:(lia)
                (ExtractorShape.doc_len_nonneg doc) Himp) as [-> Hpos].
    destruct (key_terms_from doc term (Hl (term, count) (or_introl eq_refl)))
      as (Hlow & token & Htok & _ & Hlen & Hterm).
    apply Forall_app. split; auto. constructor; [|constructor].
    right. right. cbn [ctype frequency text importance].
    split; [reflexivity|]. split; [exact Ec|]. split; [exact Hlow|].
    split; [now exists token|]. split; [reflexivity | exact Hpos].
Qed.
End Shape.

End Concepts.

(** C6.  Whatever the interpreter's [str] methods do beyond the three
    properties [StrLaws], on every text whose nouns the tokenizer keeps free
    of whitespace a returned concept list has no two entries whose
    lower-cased texts are equal, has at most 100 entries and is in
    non-increasing order of importance. *)
Theorem C6_concept_list (ops : StrOps) (env : Collaborators) (txt : string)
  (concepts : list Concept) :
  StrLaws ops ->
  single_word_nouns ops (nlp env txt) = true ->
  _extract_concepts ops env txt = Ok concepts ->
  NoDup (map (fun c => s_lower ops (text c)) concepts)
  /\ List.length concepts <= 100
  /\ StronglySorted (fun a b => (importance b <= importance a)%Q) concepts.
Proof.
  intros laws Hdoc H.
  destruct (extracted_distinct ops laws env txt concepts Hdoc H) as [Hnd Hlen].
  split; [exact Hnd|]. split; [exact Hlen|].
  unfold _extract_concepts in H. cbv zeta in H.
  apply bind_Ok in H. destruct H as (cs1 & H1 & H).
  apply bind_Ok in H. destruct H as (cs3 & H3 & H).
  apply Ok_inj in H. subst concepts.
  apply firstn_StronglySorted.
  apply StronglySorted_impl with (R := not_below by_importance).
  { intros a b. unfold not_below, by_importance. now rewrite Qltb_false. }
  apply Sorted_StronglySorted.
  - intros a b c. apply ExtractorConcepts.by_importance_trans.
  - apply sort_desc_sorted. intros a b. apply Qltb_asym.
Qed.

Lemma C6_concept_list_witness :
  exists concepts,
    _extract_concepts ascii_ops cat_env cat_text = Ok concepts
    /\ map text concepts = ["Acme"; "mouse"; "the cat"]
    /\ NoDup (map (fun c => s_lower ascii_ops (text c)) concepts)
    /\ List.length concepts <= 100
    /\ StronglySorted (fun a b => (importance b <= importance a)%Q) concepts.
Proof.
  eexists. split; [vm_compute; reflexivity|]. split; [reflexivity|].
  apply (C6_concept_list ascii_ops cat_env cat_text).
  - exact ascii_laws.
  - reflexivity.
  - vm_compute. reflexivity.
Defined.

(** X3.  Every concept of a returned list is of one of three kinds: a noun
    phrase seen at least twice, which is the stripped, lower-cased and
    whitespace-collapsed text of a noun chunk, is not empty and splits into
    at most five words; an entity whose label is on the allow-list, with
    frequency 1 and importance 0.8, whose text is the stripped and
    whitespace-collapsed text of an entity of the document; or a key term
    seen at least three times, which is the lower-cased text of a token
    longer than two characters.  Lower-casing a noun phrase or a key term
    changes nothing, and its importance is its frequency divided by the
    number of tokens and is positive. *)
Theorem concepts_shape (ops : StrOps) (env : Collaborators) (txt : string)
  (concepts : list Concept) :
  StrLaws ops ->
  _extract_concepts ops env txt = Ok concepts ->
  forall c, In c concepts ->
    (ctype c = "noun_phrase" /\ (2 <= frequency c)%Z
     /\ text c <> "" /\ List.length (s_split ops (text c)) <= 5
     /\ s_lower ops (text c) = text c
     /\ (exists chunk, In chunk (noun_chunks (nlp env txt))
                       /\ text c = s_collapse ops (s_lower ops (s_strip ops chunk)))
     /\ importance c = (inject_Z (frequency c) / doc_len (nlp env txt))%Q
     /\ (0 < importance c)%Q)
    \/ (In (ctype c) entity_labels /\ frequency c = 1%Z /\ importance c = (8 # 10)%Q
        /\ exists ent, In ent (ents (nlp env txt))
                       /\ ctype c = snd ent
                       /\ text c = s_collapse ops (s_strip ops (fst ent)))
    \/ (ctype c = "key_term" /\ (3 <= frequency c)%Z
        /\ s_lower ops (text c) = text c
        /\ (exists token, In token (doc_tokens (nlp env txt))
                          /\ 2 < s_len ops (tok_text token)
                          /\ text c = s_lower ops (tok_text token))
        /\ importance c = (inject_Z (frequency c) / doc_len (nlp env txt))%Q
        /\ (0 < importance c)%Q).
Proof.
  intros laws H. unfold _extract_concepts in H. cbv zeta in H.
  apply bind_Ok in H. destruct H as (cs1 & H1 & H).
  apply bind_Ok in H. destruct H as (cs3 & H3 & H).
  apply Ok_inj in H. subst concepts.
  assert (Hall : Forall (concept_from ops (nlp env txt)) cs3).
  { eapply (key_terms_shaped ops laws); [| |exact H3].
    - intros kv Hkv. now apply ExtractorShape.counter_key_In in Hkv.
    - apply (entities_shaped ops); [auto|].
      eapply (noun_phrases_shaped ops laws); [| |exact H1]; [|constructor].
      intros kv Hkv. now apply ExtractorShape.counter_key_In in Hkv. }
  intros c Hc. apply firstn_In, sort_desc_In in Hc.
  rewrite Forall_forall in Hall. exact (Hall c Hc).
Qed.

Lemma concepts_shape_witness :
  exists concepts,
    _extract_concepts ascii_ops cat_env cat_text = Ok concepts
    /\ map text concepts = ["Acme"; "mouse"; "the cat"]
    /\ forall c, In c concepts ->
         (ctype c = "noun_phrase" /\ (2 <= frequency c)%Z
          /\ text c <> "" /\ List.length (s_split ascii_ops (text c)) <= 5
          /\ s_lower ascii_ops (text c) = text c
          /\ (exists chunk,
                In chunk (noun_chunks (nlp cat_env cat_text))
                /\ text c = s_collapse ascii_ops
                              (s_lower ascii_ops (s_strip ascii_ops chunk)))
          /\ importance c = (inject_Z (frequency c) / doc_len (nlp cat_env cat_text))%Q
          /\ (0 < importance c)%Q)
         \/ (In (ctype c) entity_labels /\ frequency c = 1%Z
             /\ importance c = (8 # 10)%Q
             /\ exists ent, In ent (ents (nlp cat_env cat_text))
                            /\ ctype c = snd ent
                            /\ text c = s_collapse ascii_ops
                                          (s_strip ascii_ops (fst ent)))
         \/ (ctype c = "key_term" /\ (3 <= frequency c)%Z
             /\ s_lower ascii_ops (text c) = text c
             /\ (exists token,
                   In token (doc_tokens (nlp cat_env cat_text))
                   /\ 2 < s_len ascii_ops (tok_text token)
                   /\ text c = s_lower ascii_ops (tok_text token))
             /\ importance c = (inject_Z (frequency c) / doc_len (nlp cat_env cat_text))%Q
             /\ (0 < importance c)%Q).
Proof.
  eexists. split; [vm_compute; reflexivity|]. split; [reflexivity|].
  apply (concepts_shape ascii_ops cat_env cat_text).
  - exact ascii_laws.
  - vm_compute. reflexivity.
Defined.

(** ** The hierarchy *)

Lemma filter_length_mono {A} (p q : A -> bool) (l : list A) :
  (forall x, In x l -> p x = true -> q x = true) ->
  List.length (filter p l) <= List.length (filter q l).
Proof.
  induction l as [|a l IH]; intros H; simpl; [lia|].
  assert (IH' : List.length (filter p l) <= List.length (filter q l)).
  { apply IH. intros x Hx. apply H. now right. }
  destruct (p a) eqn:Ep.
  - rewrite (H a (or_introl eq_refl) Ep). simpl. lia.
  - destruct (q a); simpl; lia.
Qed.

Lemma filter_length_lt {A} (p q : A -> bool) (l : list A) (y : A) :
  (forall x, In x l -> p x = true -> q x = true) ->
  In y l -> p y = false -> q y = true ->
  List.length (filter p l) < List.length (filter q l).
Proof.
  induction l as [|a l IH]; intros H Hy Hp Hq; [destruct Hy|].
  assert (Hl : forall x, In x l -> p x = true -> q x = true).
  { intros x Hx. apply H. now right. }
  pose proof (filter_length_mono p q l Hl) as Hle.
  destruct Hy as [->|Hy]; simpl.
  - rewrite Hp, Hq. simpl. lia.
  - specialize (IH Hl Hy Hp Hq). destruct (p a) eqn:Ep.
    + rewrite (H a (or_introl eq_refl) Ep). simpl. lia.
    + destruct (q a); simpl; lia.
Qed.

Lemma filter_length_strict {A} (p : A -> bool) (l : list A) (y : A) :
  In y l -> p y = false -> List.length (filter p l) < List.length l.
Proof.
  induction l as [|a l IH]; intros Hy Hp; [destruct Hy|].
  pose proof (filter_length_le p l) as Hle.
  destruct Hy as [->|Hy]; simpl.
  - rewrite Hp. lia.
  - specialize (IH Hy Hp). destruct (p a); simpl; lia.
Qed.

(** What [_build_subtree] returns unfolds the graph: it descends into every
    successor. *)
Lemma build_subtree_unfolds (G : HierGraph) (limit : nat) (node : string)
  (subs : list SubTree) :
  _build_subtree limit G node = Ok subs -> unfolding G node subs.
Proof.
  revert node subs. induction limit as [|limit IH]; intros node subs H;
    [discriminate H|].
  cbn [_build_subtree] in H.
  destruct (Nx.successors G node) as [|child0 children] eqn:Hs.
  - injection H as <-. constructor; [now rewrite Hs | intros ? ? []].
  - rewrite <- Hs in H. apply HierarchyShape.mapM_sub in H. destruct H as [Hm Hg].
    constructor; [exact Hm|]. intros child grand Hin. apply IH. now apply Hg.
Qed.

Section Containment.
Variable ops : StrOps.
Variable concepts : list Concept.

Local Abbreviation lower := (s_lower ops).
Local Abbreviation texts := (Invariants.texts concepts).
Local Abbreviation graph_ok := (Invariants.containment_ok ops concepts).
Local Abbreviation known := (Invariants.known concepts).
Local Abbreviation longer := (longer_texts ops concepts).

Lemma concept_node_kept (G : HierGraph) (c : Concept) :
  In c concepts -> graph_ok G -> graph_ok (add_concept_node G c).
Proof.
  intros Hc [Hk Ha Hs]. unfold add_concept_node. split.
  - intros n Hn. apply nodes_add_node_In in Hn. destruct Hn as [->|Hn]; auto.
    unfold Invariants.texts. now apply in_map.
  - intros n a. unfold Nx.add_node.
    destruct (Nx.has_node G (text c)); simpl; rewrite dict_get_set;
      (destruct (n =? text c)%string; [intros [= <-]; discriminate | apply Ha]).
  - intros u w Hw. apply successors_add_node_In in Hw. auto.
Qed.

Lemma containment_step_kept (c1 c2 : Concept) (G : HierGraph) :
  In c1 concepts -> In c2 concepts ->
  known G /\ graph_ok G ->
  known (containment_step ops c1 G c2) /\ graph_ok (containment_step ops c1 G c2).
Proof.
  intros H1 H2 [Hkn Hok].
  assert (Harc : forall u w,
             In u texts -> In w texts -> contains (lower u) (lower w) = true -> u <> w ->
             Nx.has_node G u = true -> Nx.has_node G w = true ->
             known (Nx.add_arc G u w "contains") /\ graph_ok (Nx.add_arc G u w "contains")).
  { intros u w Hu Hw Hc Hne Hnu Hnw. destruct Hok as [Hk Ha Hs]. split; [|split].
    - intros c Hcin. unfold Nx.has_node. rewrite g_nodes_add_arc by assumption.
      now apply Hkn.
    - intros n. unfold Nx.nodes. rewrite g_nodes_add_arc by assumption. apply Hk.
    - intros n a. rewrite g_nodes_add_arc by assumption. apply Ha.
    - intros u' w' Hin. apply successors_add_arc_In in Hin.
      destruct Hin as [[-> ->]|Hin]; auto. }
  assert (T1 : In (text c1) texts) by (unfold Invariants.texts; now apply in_map).
  assert (T2 : In (text c2) texts) by (unfold Invariants.texts; now apply in_map).
  unfold containment_step.
  destruct (String.eqb_spec (text c1) (text c2)) as [Heq|Hne]; simpl; [now split|].
  destruct (contains (lower (text c1)) (lower (text c2))) eqn:E1.
  - apply Harc; auto.
  - destruct (contains (lower (text c2)) (lower (text c1))) eqn:E2; [|now split].
    apply Harc; auto.
Qed.

Lemma containment_graph_fine : graph_ok (containment_graph ops concepts).
Proof.
  unfold containment_graph.
  change (fun G c => Nx.add_node G (text c) (Some (importance c))) with add_concept_node.
  assert (H0 : known (fold_left add_concept_node concepts Nx.empty)
               /\ graph_ok (fold_left add_concept_node concepts Nx.empty)).
  { split.
    - intros c Hc. now apply ExtractorHierarchy.has_node_fold.
    - apply fold_left_invariant.
      + split; simpl; [intros n [] | intros n a H; discriminate H | intros u w []].
      + intros G c Hc. now apply concept_node_kept. }
  apply (fold_left_invariant (fun G => known G /\ graph_ok G)); auto.
  intros G c1 Hc1 HG.
  apply (fold_left_invariant (fun G => known G /\ graph_ok G)); auto.
  intros G' c2 Hc2. now apply containment_step_kept.
Qed.

Lemma root_candidates_return (G : HierGraph) :
  graph_ok G ->
  exists candidates,
    root_candidates_of G = Ok candidates
    /\ forall r, In r candidates -> In r texts.
Proof.
  intros Hok. unfold root_candidates_of.
  destruct (filter _ (Nx.nodes G)) as [|r0 rs] eqn:Hf.
  - destruct (mapM_total
                (fun n => bind (node_importance G n) (fun imp => Ok (n, imp)))
                (Nx.nodes G)) as (keyed & Hkeyed).
    { intros n Hn. unfold node_importance.
      destruct (ExtractorHierarchy.dict_keys_get _ _ Hn) as (a & Ha). rewrite Ha.
      destruct a as [imp|]; [simpl; eauto|].
      exfalso. exact (cok_attrs ops concepts G Hok n None Ha eq_refl). }
    rewrite Hkeyed. cbn [bind]. eexists. split; [reflexivity|].
    intros r Hr. apply firstn_In in Hr. apply in_map_iff in Hr.
    destruct Hr as ([n imp] & <- & Hr). apply sort_desc_In in Hr.
    destruct (mapM_In _ _ _ Hkeyed _ Hr) as (n' & Hn' & Hb).
    apply bind_Ok in Hb. destruct Hb as (imp' & _ & [= -> _]).
    simpl. now apply (cok_keys ops concepts G Hok).
  - eexists. split; [reflexivity|]. intros r Hr. rewrite <- Hf in Hr.
    apply filter_In in Hr. now apply (cok_keys ops concepts G Hok).
Qed.

(** A concept text has fewer than all concepts above it. *)
Lemma longer_below_all (c : Concept) :
  In c concepts -> longer (text c) < List.length concepts.
Proof.
  intros Hc. unfold longer_texts. apply (filter_length_strict _ concepts c); auto.
  unfold folded_text. apply Nat.ltb_irrefl.
Qed.

Hypothesis distinct : NoDup (map (folded_text ops) concepts).

(** With texts that are distinct when case is ignored an arc leads to a
    text whose lower-cased form is strictly longer, so fewer concepts lie
    above its end than above its start. *)
Lemma arc_lengthens (G : HierGraph) (u w : string) :
  graph_ok G -> In w (Nx.successors G u) ->
  String.length (lower u) < String.length (lower w) /\ longer w < longer u.
Proof.
  intros Hok Hw. destruct (cok_arcs ops concepts G Hok u w Hw) as (Hu & Hwt & Hc & Hne).
  unfold Invariants.texts in Hu, Hwt. apply in_map_iff in Hu, Hwt.
  destruct Hu as (c1 & <- & Hc1), Hwt as (c2 & <- & Hc2).
  destruct (contains_length _ _ Hc) as [Hle Heq].
  assert (Hlt : String.length (lower (text c1)) < String.length (lower (text c2))).
  { destruct (Nat.eq_dec (String.length (lower (text c1)))
                         (String.length (lower (text c2)))) as [E|E]; [|lia].
    exfalso. apply Hne. f_equal.
    apply (NoDup_map_injective (folded_text ops) concepts); auto. }
  split; [exact Hlt|]. unfold longer_texts.
  apply (filter_length_lt _ _ concepts c2); auto.
  - intros x _ Hx. apply Nat.ltb_lt in Hx. apply Nat.ltb_lt. lia.
  - unfold folded_text. apply Nat.ltb_irrefl.
  - unfold folded_text. now apply Nat.ltb_lt.
Qed.

(** [_build_subtree] needs one level of recursion for the node and one for
    each concept whose lower-cased text is longer. *)
Lemma build_subtree_returns (G : HierGraph) (limit : nat) (node : string) :
  graph_ok G -> longer node < limit ->
  exists subtree, _build_subtree limit G node = Ok subtree.
Proof.
  intros Hok. revert node. induction limit as [|limit IH]; intros node Hlt; [lia|].
  cbn [_build_subtree].
  destruct (Nx.successors G node) as [|child children] eqn:Hs; [eauto|].
  rewrite <- Hs. apply mapM_total. intros w Hw.
  destruct (arc_lengthens G node w Hok Hw) as [_ Hless].
  destruct (IH w) as (sub & Hsub); [lia|].
  rewrite Hsub. simpl. eauto.
Qed.

(** No text occurs below itself in what [_build_subtree] returns. *)
Lemma build_subtree_simple (G : HierGraph) (limit : nat) (node : string)
  (subs : list SubTree) (path : list string) :
  graph_ok G ->
  _build_subtree limit G node = Ok subs ->
  (forall p, In p path -> String.length (lower p) <= String.length (lower node)) ->
  paths_simple path subs.
Proof.
  intros Hok. revert node subs path.
  induction limit as [|limit IH]; intros node subs path H Hpath; [discriminate H|].
  cbn [_build_subtree] in H.
  destruct (Nx.successors G node) as [|child0 children] eqn:Hs.
  - injection H as <-. constructor; intros ? ? [].
  - rewrite <- Hs in H. apply HierarchyShape.mapM_sub in H. destruct H as [Hm Hg].
    assert (Hsucc : forall child grand,
               In (Sub child grand) subs ->
               String.length (lower node) < String.length (lower child)).
    { intros child grand Hin. apply (arc_lengthens G node child Hok).
      rewrite <- Hm. apply in_map_iff. now exists (Sub child grand). }
    constructor.
    + intros child grand Hin Hp. specialize (Hsucc child grand Hin).
      specialize (Hpath child Hp). lia.
    + intros child grand Hin. specialize (Hsucc child grand Hin).
      apply (IH child grand (child :: path)); [now apply (Hg child grand)|].
      intros p [<-|Hp]; [lia|]. specialize (Hpath p Hp). lia.
Qed.

(** Hierarchy generation returns once the recursion limit admits one level
    for each concept; every entry of the tree it returns unfolds the
    containment graph below its root, and no text occurs below itself. *)
Lemma hierarchy_returns (relationships : list Relationship) (limit : nat) :
  List.length concepts <= limit ->
  exists rs tr,
    _generate_hierarchy ops limit concepts relationships
    = Ok (mkHierarchy (Some rs) (Some tr))
    /\ forall root subs, dict_get tr root = Some subs ->
         unfolding (containment_graph ops concepts) root subs
         /\ paths_simple [root] subs.
Proof.
  intros Hlimit. unfold _generate_hierarchy. cbv zeta.
  pose proof containment_graph_fine as Hok.
  destruct (root_candidates_return _ Hok) as (candidates & -> & Hcand).
  cbn [bind].
  destruct (ExtractorHierarchy.foldM_total
              (_build_subtree limit (containment_graph ops concepts))
              (fun tree root sub => dict_set tree root sub)
              (firstn 5 candidates)) with (s := @nil (string * list SubTree))
    as (tr & Htr).
  { intros root Hroot. apply firstn_In, Hcand in Hroot.
    unfold Invariants.texts in Hroot. apply in_map_iff in Hroot.
    destruct Hroot as (c & <- & Hc).
    pose proof (longer_below_all c Hc).
    apply build_subtree_returns; auto. lia. }
  rewrite Htr. cbn [bind]. exists (firstn 5 candidates), tr.
  split; [reflexivity|]. intros root subs Hget.
  destruct (proj1 (HierarchyShape.foldM_set_spec _ _ _ _ Htr) root subs Hget)
    as [H0|[_ Hsub]]; [discriminate H0|].
  split; [exact (build_subtree_unfolds _ limit root subs Hsub)|].
  apply (build_subtree_simple _ limit root subs [root] Hok Hsub).
  intros p [<-|[]]. lia.
Qed.

End Containment.

(** C3.  [_build_subtree] keeps no record of the path; it descends into
    every successor.  On the concepts that concept extraction hands over
    this does what the claim asks for: no two of them are equal when case
    is ignored, so an arc of the containment graph leads to a longer text,
    the graph is a DAG whatever number of parents a node has, and
    hierarchy generation returns at every recursion limit of 100 or more,
    with a tree that unfolds the containment graph below each root and in
    which no concept occurs below itself. *)
Theorem C3_hierarchy_returns (ops : StrOps) (env : Collaborators) (txt : string)
  (concepts : list Concept) (relationships : list Relationship) (limit : nat) :
  StrLaws ops ->
  single_word_nouns ops (nlp env txt) = true ->
  _extract_concepts ops env txt = Ok concepts ->
  100 <= limit ->
  exists rs tr,
    _generate_hierarchy ops limit concepts relationships
    = Ok (mkHierarchy (Some rs) (Some tr))
    /\ forall root subs, dict_get tr root = Some subs ->
         unfolding (containment_graph ops concepts) root subs
         /\ paths_simple [root] subs.
Proof.
  intros laws Hdoc H Hlimit.
  destruct (extracted_distinct ops laws env txt concepts Hdoc H) as [Hnd Hlen].
  apply hierarchy_returns; [exact Hnd | lia].
Qed.

Lemma C3_hierarchy_returns_witness :
  _extract_concepts ascii_ops dag_env dag_text = Ok dag_extracted
  /\ _generate_hierarchy ascii_ops 100 dag_extracted []
     = Ok (mkHierarchy (Some ["machine"; "learning"]) (Some dag_tree))
  /\ forall root subs, dict_get dag_tree root = Some subs ->
       unfolding (containment_graph ascii_ops dag_extracted) root subs
       /\ paths_simple [root] subs.
Proof.
  assert (Hex : _extract_concepts ascii_ops dag_env dag_text = Ok dag_extracted)
    by (vm_compute; reflexivity).
  assert (Hh : _generate_hierarchy ascii_ops 100 dag_extracted []
               = Ok (mkHierarchy (Some ["machine"; "learning"]) (Some dag_tree)))
    by (vm_compute; reflexivity).
  split; [exact Hex|]. split; [exact Hh|].
  destruct (C3_hierarchy_returns ascii_ops dag_env dag_text dag_extracted [] 100
              ascii_laws eq_refl Hex (le_n 100)) as (rs & tr & Heq & Hpaths).
  rewrite Hh in Heq. injection Heq as <- <-. exact Hpaths.
Defined.

End UnicodeText.
